(* ===== verification/_CoqProject ===== *)
-Q . S2P
Prelude.v
CppStd.v
StdMap.v
ConfigLexer.v
ConfigParser.v
ConfigRoundtrip.v
Boost.v
BoostModel.v
Utils.v
ConfigPort.v
RequestParser.v
RequestGrammar.v
RequestMessage.v
Handlers.v
Status.v
ReverseProxy.v
HttpClient.v
Meme.v
MemeForm.v
MemeStore.v
Server.v
ExampleServer.v
ServerLookup.v
ServerState.v
ServerSafety.v
Uploads.v
Socket.v
Session.v
SessionServe.v
SessionSafety.v
Concurrency.v
Logging.v
Races.v
History.v
Machine.v
Authentic.v
Termination.v
MockSession.v
Lifecycle.v
Failures.v
Main.v
EndToEnd.v
