(* ===== verification/Prelude.v ===== *)
(** * Verification of the web server

    The program is an HTTP server on Boost.Asio and Boost.Beast, configured by
    a file in the syntax of nginx.  [main] (src/src/server_main.cc) parses the
    file with [NginxConfigParser] (config_parser.cc) and makes a [server]
    (server.cc), which creates one request handler per location block
    (src/src/handlers) and listens.  Every connection is a [session]
    (session.cc): it reads a head, which [request_parser] (request_parser.cc)
    turns into a message, asks the server for the handler of the URI, reads the
    body, lets the handler answer, writes the response, logs the request with
    the server and reads the next head.  [utils.cc] holds the lookups in a
    configuration, the normalisation of paths and the error page.

    This development is a shallow embedding.  A member function is a function
    that takes the members and gives the changed ones; control flow, the order
    of the tests and the early returns are the code's.  What C++ may do besides
    returning is a value of type [outcome]: [Throw] an exception, [Undef] for
    an operation without meaning (an empty vector's [back], an uninitialised
    pointer, overflow of an [int]).  An [int] is a [Z] whose operations go
    through [int_result]; a byte is an [ascii], signed as [char] is where the
    code converts it.

    ** The files

    - [Prelude]: bytes, [outcome] and its monad, vectors, [int], tactics and
      hint databases.  [CppStd]: [stoi], [atoi], [substr], [find], [replace],
      [getline] and the input stream with its state bits and [unget].
      [StdMap]: [std::map] as a sorted list, related to [gmap].
    - [ConfigLexer]: [NginxConfigParser::ParseToken].  [ConfigParser]:
      [Parse], with the store of configurations it builds through a stack of
      pointers ([heap], [config_stack]).  [ConfigRoundtrip]: printing.
      [ConfigPort]: the port a file asks for.
    - [Boost]: the interfaces of Boost.Filesystem, Boost.Beast and
      Boost.String as classes of operations, and classes of the laws their
      documentation promises ([BeastLaws], [BoostFilesystemLaws],
      [BoostStringLaws]).  [BoostModel]: instances that satisfy the laws; the
      witnesses are evaluated on them.
    - [Utils]: [configLookup], [getPortNumber], [convertToAbsolutePath],
      [show_error_page].
    - [RequestParser]: [consume] with the states of [request_parser::state],
      [parse_chars] for the loop of [parse], [translate].  [RequestGrammar]:
      the grammar of request heads.  [RequestMessage]: the messages.
    - [Handlers]: the interfaces [Environment] (files, remote hosts, random
      names) and [ServerView] (what a handler reads of its server), and the
      echo, not-found, health, sleep, dummy and static handlers.  [Status],
      [ReverseProxy], [Meme]: the other handlers.  [MemeForm], [MemeStore]:
      the multipart forms, and what is saved, logged and shown.
    - [Server]: the members of [server] (a [RequestHandler *] is an index in
      [objects_]), [getHandlers], the dispatch and the logs.  [ServerLookup],
      [ServerState], [ServerSafety]: theorems about them.  [ExampleServer]: a
      concrete server for witnesses.
    - [Uploads]: a store of files ([FileStore]) to which the meme handler writes
      and from which the static handler reads, with the streams that do not open
      or take only part of what is written, and where an upload can write; the
      configuration that comes with the program.
    - [Socket]: what a session relies on of its socket, a class with the two
      sockets of the code as instances: [tcp_socket_wrapper], whose
      [get_endpoint_address] throws when the peer is gone, and [mock_socket].
      An asynchronous call is an [operation], its completion an [event].
    - [Session]: the callbacks of [session] over a [Socket].  Each ends with
      one operation started; [write_rest] is what [write] does after that.
      [SessionServe], [SessionSafety]: theorems about one connection, whose
      callbacks follow each other ([run]).
    - [Concurrency]: accepting connections, and the callbacks of all sessions
      on the threads of [server::run], as a step relation on a [world] that
      keeps an invariant.  [Logging]: what is logged when they overlap.
      [Races]: the accesses of callbacks to the maps of the server, with and
      without the mutex.  [History]: what only grows.  [Machine]: a world with
      the files as they change, where every callback draws its own name and the
      remote hosts answer it as they like.  [Authentic]: what sessions hold and
      send.  [Termination]: callbacks end.
    - [HttpClient]: the client of the proxy over the network, and the client
      of the tests.  [MockSession]: a session over the mock socket, with its
      nested callbacks.
    - [Lifecycle]: exceptions that leave a callback, [handle_stop] and the
      destructor of [server].  [Failures]: all the ways in which a callback may
      not return.  [Main]: [main], from its arguments to its end.
      [EndToEnd]: from the configuration file to the answer on a connection.

    The calls lead from [Main] to [Server.new_server] and [Concurrency.step],
    from there to [Session.callback], and from a session to [parse],
    [get_request_handler], [call_handler] and [log_request].

    ** What the theorems show

    - Configuration: [Parse] terminates, never throws, and needs a quote
      character to leave the defined behaviour; what is printed is parsed
      back; the port is read back; tokens in double quotes round-trip.  Single
      quotes, quoted first tokens and a last token of one character do not
      behave as intended, which is proved too.
    - Paths: [convertToAbsolutePath] gives normal forms, is idempotent on
      them, is undefined exactly above the root, and throws only what
      [system_complete] throws.
    - Requests: the state machine accepts exactly the grammar; the message
      has the head's data; a call that asks for more can be satisfied; a first
      call of [parse] is undefined exactly when a version number, or ten times
      the major plus the minor one, overflows, and throws exactly for a method
      Beast does not know ([parse_fails_iff]); a head that comes in two reads is never accepted when the first has gone past
      its HTTP/.
    - Server: dispatch is by longest prefix; the configuration determines the
      maps; a static handler throws, or stays below its root, and at the
      location [/] never leaves it; every response has the length it announces,
      or is one without a body that the proxy passes on; handlers are found by
      their type for the metric; requests are counted.
    - Handlers: the rewriting of the proxy is a left-to-right replacement; the
      status page is exact, and undefined exactly when a status is 0 or the sum
      overflows; a form is read back part by part; a valid
      upload is logged and answered, whether its file could be saved or not
      ([unsaved_upload_answered]); when it was saved it is served from then on by
      a static location with the same root ([upload_stays_served]); the type of
      an image can put it anywhere ([upload_writes_anywhere]); the client of the proxy
      loses a response only when closing its socket fails.
    - Sessions: a valid request is served with exactly its body and leaves the
      session ready; requests on a connection are answered in order, each by one
      call with a message that carries it alone, up to the first that is refused;
      the mock socket shows the same.  A bad first request uses an uninitialised
      pointer; later ones are answered.  Every callback ends.
    - Answers: whatever clients send, and however callbacks interleave, what a
      session sends is the answer of the configured handler to exactly the
      request it holds, with a body of the announced length, or one of two error
      pages ([every_answer_authentic]); what it reads of a body is in the range
      of [int] ([body_read_in_range]).
    - Failures: a callback fails exactly when the peer is gone or one of four
      things has happened ([callbacks_fail_iff]), the exception of [relative] in
      the static handler among them; the theorems on aborts and
      undefined behaviour below follow single ones of them through.
    - The program: once it listens, a connection can be accepted and any
      sequence of valid requests on it answered in order, whatever was served
      before and as long as one thread is free, up to the first request whose
      handler fails or that cannot be counted ([program_serves]).
    - Threads: however connections are accepted and callbacks interleave, the
      maps, the pointers of the sessions and the acceptor keep their
      invariant, and every response is counted once; with two threads a response
      may be counted under the URL of the next request.  Nothing that is logged or sent is lost again
      ([machine_history]).
    - Data races: the accesses that are said of the callbacks are all there are
      ([accesses_complete]); without a status and a meme handler, or with one
      thread, no race is reached; with two threads a request and one for the
      status page are enough for one.
    - The process: a peer that resets its connection, and a request line that
      does not come in one read, abort it; after [handle_stop] no callback begins
      and the threads come to the end of what they are in, handlers included,
      which may still send a response or abort the process; a server with a location has no defined end, because its
      handlers are deleted through a base class without a virtual destructor;
      the exit status is 1 exactly for bad arguments or a bad file.

    ** Fuel

    Recursion that is not structural takes fuel, running out is [NoFuel], and
    a theorem about the result of the loop shows that it does not occur:
    [ParseToken_loop] and [Parse_loop] take one more than the characters left,
    since each pass reads one ([ParseToken_total], [Parse_total]);
    [path_loop] the length of the path ([convertToAbsolutePath_undefined_iff]);
    [replace_loop] one more than the length of the body
    ([replaced_absolute_paths_spec]); [parse_part_loop] two more than what is
    unread ([parse_form_print]); [find_prefix] two more than the length of the
    path ([get_request_handler_spec]); [read_config] the size of the store
    ([read_config_total]);
    [mock_perform] three for every byte of the input and a few for the
    operation under way ([mock_run_ends]).  [callbacks_end] puts these together
    for a whole callback.

    ** What is not modelled

    Boost, the file system and the network are parameters.  A callback is
    atomic up to the operation it starts, and what a thread does to the maps
    of the server in between is not interleaved with other threads.  Only
    [handle_stop] is told apart from this: it may run while other threads are
    inside callbacks, whose effect is then taken to happen after it.  [Races]
    says which of these accesses may meet and are not ordered by the mutex;
    what the maps hold after such a race has no meaning in C++ and is not
    modelled.  In [Concurrency] the files, the remote hosts and the names that
    are drawn are the same at every step; in [Machine] they change from step to
    step, while the directories that exist and can be made, and so what
    [system_complete] and [relative] give or throw, stay.  During one callback the peer of its
    socket does not come or go.  In [write], the line of the log that asks for
    the peer comes before the operation is started, as in the code, and the
    rest is [write_rest].  Running out of memory or of threads is not modelled,
    nor the set-up of the logging library (logger.cc), which the program never
    reads back; only the addresses its lines ask for matter, and are modelled.
    The pause of the sleep handler has no effect on its response. *)
From Stdlib Require Export Ascii.
From stdpp Require Export base tactics option list strings numbers gmap pretty.

(** ** Byte strings

    A [std::string], a character buffer and a file's contents are lists of
    bytes; a byte is an [ascii].  String literals are written as Rocq strings
    and coerced. *)

Abbreviation str := (list ascii).

Fixpoint lit (s : string) : list ascii :=
  match s with
  | EmptyString => []
  | String c s' => c :: lit s'
  end.

Coercion lit : string >-> list.

Definition CR : ascii := "013"%char.
Definition LF : ascii := "010"%char.
Definition TAB : ascii := "009"%char.
Definition SP : ascii := " "%char.
Definition DQUOTE : ascii := Ascii.ascii_of_nat 34.
Definition SQUOTE : ascii := "'"%char.
Definition BSLASH : ascii := "\"%char.
Definition SLASH : ascii := "/"%char.

(** ** Outcomes

    What running a piece of C++ can do: return a value, let an exception
    escape, or execute an operation to which the language gives no meaning
    (reading [back()] of an empty vector, signed overflow, reading an
    uninitialised object).  [NoFuel] is not a behaviour of the code: it marks
    a loop of the model that was given too little fuel, and every loop has a
    theorem that the fuel it is given is enough. *)

Inductive exn := invalid_argument | out_of_range | system_error.

#[export] Instance exn_eq_dec : EqDecision exn.
Proof. solve_decision. Defined.

Inductive outcome (A : Type) : Type :=
| Ret (a : A)
| Throw (e : exn)
| Undef
| NoFuel.
Arguments Ret {A} _.
Arguments Throw {A} _.
Arguments Undef {A}.
Arguments NoFuel {A}.

#[export] Instance outcome_ret : MRet outcome := fun A a => Ret a.
#[export] Instance outcome_bind : MBind outcome := fun A B f o =>
  match o with
  | Ret a => f a
  | Throw e => Throw e
  | Undef => Undef
  | NoFuel => NoFuel
  end.
#[export] Instance outcome_fmap : FMap outcome := fun A B f o =>
  match o with
  | Ret a => Ret (f a)
  | Throw e => Throw e
  | Undef => Undef
  | NoFuel => NoFuel
  end.

(** [try { o } catch (...) { h }]: only an exception is caught. *)
Definition catch_all {A} (o : outcome A) (h : A) : outcome A :=
  match o with
  | Throw _ => Ret h
  | _ => o
  end.

(** The execution has a meaning and the model had the fuel to follow it. *)
Definition defined {A} (o : outcome A) : Prop := o <> Undef /\ o <> NoFuel.

(** No exception escapes, and the model has the fuel it needs. *)
Definition no_throw {A} (o : outcome A) : Prop := o = Undef \/ exists a, o = Ret a.

Lemma no_throw_ret {A} (a : A) : no_throw (Ret a).
Proof. right. eauto. Qed.

Lemma no_throw_undef {A} : no_throw (@Undef A).
Proof. by left. Qed.

Lemma no_throw_bind {A B} (o : outcome A) (f : A -> outcome B) :
  no_throw o -> (forall a, no_throw (f a)) -> no_throw (o ≫= f).
Proof. intros [->|[a ->]] H; [by left|apply H]. Qed.

Lemma no_throw_if {A} (b : bool) (o1 o2 : outcome A) :
  no_throw o1 -> no_throw o2 -> no_throw (if b then o1 else o2).
Proof. by destruct b. Qed.

Lemma no_throw_decide {A} P `{Decision P} (o1 o2 : outcome A) :
  no_throw o1 -> no_throw o2 -> no_throw (if decide P then o1 else o2).
Proof. by destruct (decide P). Qed.

Create HintDb outcome.
#[export] Hint Resolve no_throw_ret no_throw_undef no_throw_bind no_throw_if
  no_throw_decide : outcome.

Lemma bind_Ret {A B} (a : A) (f : A -> outcome B) : (Ret a ≫= f) = f a.
Proof. done. Qed.

Lemma bind_ret_r {A} (o : outcome A) : (o ≫= fun a => Ret a) = o.
Proof. by destruct o. Qed.

Lemma bind_ret_inv {A B} (o : outcome A) (f : A -> outcome B) b :
  o ≫= f = Ret b -> exists a, o = Ret a /\ f a = Ret b.
Proof. destruct o; simpl; naive_solver. Qed.

Lemma bind_assoc {A B C} (o : outcome A) (f : A -> outcome B) (g : B -> outcome C) :
  (o ≫= f) ≫= g = o ≫= (fun a => f a ≫= g).
Proof. by destruct o. Qed.

(** ** Vectors: the operations with a precondition *)

Definition vec_back {A} (l : list A) : outcome A :=
  match last l with Some x => Ret x | None => Undef end.

Fixpoint upd_last {A} (f : A -> A) (l : list A) : list A :=
  match l with
  | [] => []
  | [x] => [f x]
  | x :: l' => x :: upd_last f l'
  end.

(** A call that changes the object [v.back()] refers to. *)
Definition vec_modify_back {A} (f : A -> A) (l : list A) : outcome (list A) :=
  match l with [] => Undef | _ => Ret (upd_last f l) end.

Fixpoint but_last {A} (l : list A) : list A :=
  match l with
  | [] => []
  | [x] => []
  | x :: l' => x :: but_last l'
  end.

Definition vec_pop_back {A} (l : list A) : outcome (list A) :=
  match l with [] => Undef | _ => Ret (but_last l) end.

(** [v[i]]: no check, and no meaning out of range. *)
Definition vec_at {A} (l : list A) (i : nat) : outcome A :=
  match l !! i with Some x => Ret x | None => Undef end.

(** ** The type [int] *)

Definition INT_MAX : Z := 2147483647.
Definition INT_MIN : Z := -2147483648.
Definition in_int (z : Z) : bool := (INT_MIN <=? z)%Z && (z <=? INT_MAX)%Z.

(** The result of an [int] operation: overflow is undefined. *)
Definition int_result (z : Z) : outcome Z := if in_int z then Ret z else Undef.

Lemma no_throw_int_result z : no_throw (int_result z).
Proof. unfold int_result. auto with outcome. Qed.

Lemma no_throw_vec_modify_back {A} (f : A -> A) l : no_throw (vec_modify_back f l).
Proof. destruct l; simpl; auto with outcome. Qed.
#[export] Hint Resolve no_throw_int_result no_throw_vec_modify_back : outcome.

(** ** Tactics *)

(** Split on the first scrutinee found in the goal, keeping its equation. *)
Ltac split_match :=
  match goal with
  | |- context [match ?x with _ => _ end] => destruct x eqn:?; simplify_eq/=
  end.

(** Peel the binds of a computation that is known to return. *)
Ltac inv_ret :=
  repeat match goal with
  | H : ?o ≫= _ = Ret _ |- _ =>
      let a := fresh "v" in let Ho := fresh "Hv" in
      apply bind_ret_inv in H; destruct H as (a & Ho & H); simpl in H
  | H : Ret _ = Ret _ |- _ => injection H as H; subst
  end.

(** Close a goal whose hypothesis [H] puts a constructor in a list of others. *)
Ltac absurd_in H :=
  exfalso; repeat (apply elem_of_cons in H as [H|H]; [discriminate H|]);
  by apply elem_of_nil in H.

(** An equation between closed terms, by evaluation. *)
Ltac by_evaluation := match goal with |- _ = ?b => vm_cast_no_check (eq_refl b) end.

(** Equality of concatenations up to their association. *)
Ltac list_app := repeat (progress (rewrite <-?app_assoc; simpl)); done.

(** ** Lemmas on lists *)

Section list_lemmas.
Context {A : Type}.
Implicit Types (l : list A) (x : A).

Lemma upd_last_snoc (f : A -> A) l x : upd_last f (l ++ [x]) = l ++ [f x].
Proof.
  induction l as [|y l IH]; [done|]. simpl.
  destruct (l ++ [x]) eqn:E; [by destruct l|]. by rewrite <-IH, <-E.
Qed.

Lemma but_last_snoc l x : but_last (l ++ [x]) = l.
Proof.
  induction l as [|y l IH]; [done|]. simpl.
  destruct (l ++ [x]) eqn:E; [by destruct l|]. by rewrite IH.
Qed.

Lemma snoc_inv l : l = [] \/ exists l' x, l = l' ++ [x].
Proof. destruct l using rev_ind; eauto. Qed.

Lemma length_upd_last (f : A -> A) l : length (upd_last f l) = length l.
Proof.
  destruct (snoc_inv l) as [->|(l' & x & ->)]; [done|].
  by rewrite upd_last_snoc, !length_app.
Qed.

Lemma vec_back_snoc l x : vec_back (l ++ [x]) = Ret x.
Proof. unfold vec_back. by rewrite last_snoc. Qed.

Lemma vec_modify_back_snoc (f : A -> A) l x :
  vec_modify_back f (l ++ [x]) = Ret (l ++ [f x]).
Proof.
  unfold vec_modify_back. destruct (l ++ [x]) eqn:E; [by destruct l|].
  by rewrite <-E, upd_last_snoc.
Qed.

Lemma vec_pop_back_snoc l x : vec_pop_back (l ++ [x]) = Ret l.
Proof.
  unfold vec_pop_back. destruct (l ++ [x]) eqn:E; [by destruct l|].
  by rewrite <-E, but_last_snoc.
Qed.
End list_lemmas.

(** ** Lemmas on string literals *)

Lemma lit_app s t : lit (s +:+ t) = lit s ++ lit t.
Proof. induction s as [|c s IH]; [done|]. simpl. by f_equal. Qed.

Create Rewrite HintDb cpp.
#[export] Hint Rewrite @upd_last_snoc @but_last_snoc @vec_back_snoc
  @vec_modify_back_snoc @vec_pop_back_snoc @bind_Ret : cpp.
