(* ===== verification/CppStd.v ===== *)
(** * The parts of the C++ standard library the server uses

    [char] and its conversion to [int], [std::stoi] and [std::atoi],
    [std::string]'s [substr], [find] and [replace], [std::getline], and an
    input stream with its state bits. *)
From S2P Require Import Prelude.

(** ** Characters *)

Definition code (c : ascii) : Z := Z.of_nat (Ascii.nat_of_ascii c).

(** [char] is signed on the platforms the server is built for: a byte above
    127 converts to a negative [int]. *)
Definition char_int (c : ascii) : Z :=
  if decide (code c < 128)%Z then code c else (code c - 256)%Z.

Definition isspace (c : ascii) : bool :=
  bool_decide ((9 <= code c <= 13)%Z \/ code c = 32%Z).

Definition isdigit (c : ascii) : bool := bool_decide (48 <= code c <= 57)%Z.

Definition digit (c : ascii) : Z := (code c - 48)%Z.

Lemma code_bounds c : (0 <= code c < 256)%Z.
Proof. unfold code. pose proof (Ascii.nat_ascii_bounded c). lia. Qed.

Lemma code_inj c d : code c = code d -> c = d.
Proof.
  unfold code. intros H%Nat2Z.inj.
  by rewrite <-(Ascii.ascii_nat_embedding c), H, Ascii.ascii_nat_embedding.
Qed.

(** ** Numbers in strings *)

Fixpoint skip_spaces (s : str) : str :=
  match s with
  | c :: s' => if isspace c then skip_spaces s' else s
  | [] => []
  end.

Fixpoint digits_value (acc : Z) (s : str) : Z :=
  match s with
  | c :: s' => if isdigit c then digits_value (acc * 10 + digit c)%Z s' else acc
  | [] => acc
  end.

Definition starts_with_digit (s : str) : bool :=
  match s with c :: _ => isdigit c | [] => false end.

(** [strtol(s, &end, 10)] before the range check; [None]: no conversion. *)
Definition strtol10 (s : str) : option Z :=
  match skip_spaces s with
  | [] => None
  | c :: s' =>
      if decide (c = "-"%char) then
        if starts_with_digit s' then Some (- digits_value 0 s')%Z else None
      else if decide (c = "+"%char) then
        if starts_with_digit s' then Some (digits_value 0 s') else None
      else if isdigit c then Some (digits_value 0 (c :: s')) else None
  end.

Definition stoi (s : str) : outcome Z :=
  match strtol10 s with
  | None => Throw invalid_argument
  | Some z => if in_int z then Ret z else Throw out_of_range
  end.

Definition atoi (s : str) : outcome Z :=
  match strtol10 s with
  | None => Ret 0%Z
  | Some z => int_result z
  end.

(** What streaming an integer out gives. *)
Definition to_dec (z : Z) : str := lit (pretty z).

(** ** [std::string] *)

Definition substr_from (s : str) (pos : nat) : outcome str :=
  if decide (pos <= length s) then Ret (drop pos s) else Throw out_of_range.

(** [a - b] on [size_t]. *)
Definition size_sub (a b : nat) : Z := ((Z.of_nat a - Z.of_nat b) mod 2 ^ 64)%Z.

(** [s.substr(pos, len)]: at most to the end of the string. *)
Definition substr (s : str) (pos : nat) (len : Z) : outcome str :=
  s' ← substr_from s pos; Ret (take (Z.to_nat (Z.min len (Z.of_nat (length s)))) s').

Fixpoint is_prefix (p s : str) : bool :=
  match p, s with
  | [], _ => true
  | a :: p', b :: s' => bool_decide (a = b) && is_prefix p' s'
  | _ :: _, [] => false
  end.

Fixpoint find_first (p s : str) : option nat :=
  if is_prefix p s then Some 0
  else match s with
       | [] => None
       | _ :: s' => S <$> find_first p s'
       end.

(** [s.find(p, pos)]; [None] is [npos]. *)
Definition str_find (s p : str) (pos : nat) : option nat :=
  if decide (pos <= length s) then (λ i, pos + i) <$> find_first p (drop pos s)
  else None.

(** [s.rfind(p, 0) == 0] *)
Definition rfind_at_0 (s p : str) : bool := is_prefix p s.

(** [s.replace(pos, len, t)] *)
Definition str_replace (s : str) (pos len : nat) (t : str) : outcome str :=
  if decide (pos <= length s)
  then Ret (take pos s ++ t ++ drop (pos + len) s)
  else Throw out_of_range.

(** [std::getline(ss, line)] on a [stringstream] whose unread part is [s]:
    [None] is a failed read; otherwise the line, without its newline, and
    what is left. *)
Fixpoint split_line (s : str) : str * str :=
  match s with
  | [] => ([], [])
  | c :: s' => if decide (c = LF) then ([], s')
               else let '(l, r) := split_line s' in (c :: l, r)
  end.

Definition getline (s : str) : option (str * str) :=
  match s with [] => None | _ => Some (split_line s) end.

(** ** Input streams *)

Record istream := Istream {
  before : str;     (* characters already read, the last one first *)
  after : str;      (* characters still to be read *)
  eofbit : bool;
  failbit : bool;
  badbit : bool
}.

Definition good (i : istream) : bool := negb (eofbit i || failbit i || badbit i).

Definition open_stream (s : str) : istream := Istream [] s false false false.

(** [input->get()] stored in a [char]: at the end of the input the value is
    [EOF], which narrows to byte 255, and the stream stops being good. *)
Definition get (i : istream) : ascii * istream :=
  if good i then
    match after i with
    | c :: r => (c, Istream (c :: before i) r (eofbit i) (failbit i) (badbit i))
    | [] => ("255"%char, Istream (before i) [] true true (badbit i))
    end
  else ("255"%char, Istream (before i) (after i) (eofbit i) true (badbit i)).

(** [input->unget()]: clears [eofbit] first; a stream that is then not good
    only fails. *)
Definition unget (i : istream) : istream :=
  if failbit i || badbit i
  then Istream (before i) (after i) false true (badbit i)
  else match before i with
       | c :: b => Istream b (c :: after i) false false false
       | [] => Istream [] (after i) false false true
       end.

(** ** Lemmas *)

Lemma is_prefix_app p s : is_prefix p s = true <-> exists t, s = p ++ t.
Proof.
  revert s; induction p as [|a p IH]; intros s; simpl.
  - split; [by exists s|done].
  - destruct s as [|b s]; simpl.
    + split; [done|by intros (t & ?)].
    + rewrite andb_true_iff, bool_decide_eq_true, IH.
      split; [intros (-> & t & ->); by exists t|].
      intros (t & [= <- ->]). eauto.
Qed.

Lemma is_prefix_refl_app p s : is_prefix p (p ++ s) = true.
Proof. apply is_prefix_app. by exists s. Qed.

Lemma find_first_spec p s i :
  find_first p s = Some i ->
  i + length p <= length s /\ exists t, drop i s = p ++ t.
Proof.
  revert i; induction s as [|c s IH]; intros i; simpl.
  - destruct (is_prefix p []) eqn:E; [|done]. intros [= <-].
    apply is_prefix_app in E as [t E]. destruct p; [|done]. simpl.
    split; [lia|by exists []].
  - destruct (is_prefix p (c :: s)) eqn:E.
    + intros [= <-]. apply is_prefix_app in E as [t E].
      change (S (length s)) with (length (c :: s)). rewrite E, length_app. split; [lia|by exists t].
    + destruct (find_first p s) as [j|] eqn:F; simpl; [|done]. intros [= <-].
      destruct (IH j eq_refl) as (? & t & ?). split; [simpl; lia|by exists t].
Qed.

Lemma find_first_None p s i : find_first p s = None -> is_prefix p (drop i s) = false.
Proof.
  revert i; induction s as [|c s IH]; intros i; simpl.
  - rewrite drop_nil. by destruct (is_prefix p []).
  - destruct (is_prefix p (c :: s)) eqn:E; [done|].
    intros H%fmap_None. destruct i; [done|]. by apply IH.
Qed.

(** The stream operations on a good stream. *)
Lemma get_cons b c r :
  get (Istream b (c :: r) false false false) = (c, Istream (c :: b) r false false false).
Proof. done. Qed.

Lemma get_nil b :
  get (Istream b [] false false false) = ("255"%char, Istream b [] true true false).
Proof. done. Qed.

Lemma unget_cons b c r :
  unget (Istream (c :: b) r false false false) = Istream b (c :: r) false false false.
Proof. done. Qed.

#[export] Hint Rewrite @get_cons @get_nil @unget_cons @is_prefix_refl_app : cpp.

(** ** Printing a number and reading it back *)

Lemma pretty_N_char_digit d :
  (d < 10)%N ->
  isdigit (pretty_N_char d) = true /\ digit (pretty_N_char d) = Z.of_N d.
Proof.
  intros Hd. assert (d ∈ [0; 1; 2; 3; 4; 5; 6; 7; 8; 9]%N) as H.
  { rewrite !elem_of_cons, elem_of_nil. lia. }
  by repeat (apply elem_of_cons in H as [->|H]; [by vm_compute|]);
    apply not_elem_of_nil in H.
Qed.

Lemma digits_value_pretty_go (x : N) (s : string) :
  digits_value 0 (lit (pretty_N_go x s)) = digits_value (Z.of_N x) (lit s)
  /\ ((0 < x)%N -> starts_with_digit (lit (pretty_N_go x s)) = true).
Proof.
  revert s. induction (N.lt_wf_0 x) as [x _ IH]; intros s.
  destruct (decide (x = 0%N)) as [->|Hx]; [by rewrite pretty_N_go_0|].
  rewrite pretty_N_go_step by lia.
  destruct (pretty_N_char_digit (x `mod` 10)) as [Hc Hv]; [by apply N.mod_upper_bound|].
  destruct (IH (x `div` 10)%N ltac:(apply N.div_lt; lia)
    (String (pretty_N_char (x `mod` 10)) s)) as [E Hs].
  split.
  - rewrite E. cbn [lit digits_value]. rewrite Hc, Hv. f_equal.
    pose proof (N.div_mod' x 10). lia.
  - intros _. destruct (decide (x `div` 10 = 0)%N) as [E0|E0];
      [|apply Hs; by apply N.neq_0_lt_0].
    rewrite E0, pretty_N_go_0. exact Hc.
Qed.

Lemma to_dec_digits z :
  (0 <= z)%Z -> digits_value 0 (to_dec z) = z /\ starts_with_digit (to_dec z) = true.
Proof.
  intros Hz. unfold to_dec. destruct z as [|p|]; [by vm_compute| |lia].
  destruct (digits_value_pretty_go (Npos p) "") as [E Hs].
  change (pretty (Z.pos p)) with (pretty_N_go (Npos p) ""). split; [by rewrite E|].
  apply Hs. lia.
Qed.

Lemma strtol10_to_dec z : (0 <= z)%Z -> strtol10 (to_dec z) = Some z.
Proof.
  intros Hz. destruct (to_dec_digits z Hz) as [Hv Hs]. unfold strtol10.
  destruct (to_dec z) as [|c s]; [done|]. simpl in Hs.
  assert (isspace c = false) as Hsp.
  { unfold isdigit, isspace in *. apply bool_decide_eq_true in Hs.
    apply bool_decide_eq_false. lia. }
  cbn [skip_spaces]. rewrite Hsp, decide_False, decide_False, Hs.
  - by rewrite Hv.
  - intros ->. by vm_compute in Hs.
  - intros ->. by vm_compute in Hs.
Qed.

Lemma in_int_true z : (INT_MIN <= z <= INT_MAX)%Z -> in_int z = true.
Proof. unfold in_int. lia. Qed.

Lemma in_int_false z : (INT_MAX < z)%Z -> in_int z = false.
Proof. unfold in_int. lia. Qed.

Lemma stoi_to_dec z : (0 <= z <= INT_MAX)%Z -> stoi (to_dec z) = Ret z.
Proof.
  intros Hz. unfold stoi. rewrite strtol10_to_dec by lia.
  by rewrite in_int_true by (unfold INT_MIN; lia).
Qed.

Lemma atoi_to_dec z : (0 <= z <= INT_MAX)%Z -> atoi (to_dec z) = Ret z.
Proof.
  intros Hz. unfold atoi, int_result. rewrite strtol10_to_dec by lia.
  by rewrite in_int_true by (unfold INT_MIN; lia).
Qed.
