(* ===== verification/StdMap.v ===== *)
(** * [std::map]

    A map from keys ordered by a strict total order, iterated in the order of
    its keys: the status and meme pages print in that order.  The map is the
    sorted list of its entries; [to_gmap] forgets the order and relates every
    operation to the one of a finite map. *)
From S2P Require Import Prelude CppStd.

(** The [std::less] of a key type. *)
Class KeyLess (K : Type) := kless : K -> K -> bool.

Class KeyOrder (K : Type) `{KeyLess K} : Prop := {
  kless_irrefl (a : K) : kless a a = false;
  kless_trans (a b c : K) : kless a b = true -> kless b c = true -> kless a c = true;
  kless_total (a b : K) : kless a b = false -> kless b a = false -> a = b
}.

(** ** Orders on the keys the server uses *)

#[export] Instance Z_kless : KeyLess Z := Z.ltb.

#[export] Instance Z_korder : KeyOrder Z.
Proof. split; unfold kless, Z_kless; lia. Qed.

(** [std::string] compares bytes as [unsigned char]. *)
Fixpoint str_ltb (s t : str) : bool :=
  match s, t with
  | _, [] => false
  | [], _ :: _ => true
  | c :: s', d :: t' =>
      if (code c <? code d)%Z then true
      else if (code d <? code c)%Z then false else str_ltb s' t'
  end.

#[export] Instance str_kless : KeyLess str := str_ltb.

Ltac order_tac :=
  repeat match goal with
  | H : context [if (?a <? ?b)%Z then _ else _] |- _ => destruct (Z.ltb_spec a b)
  | |- context [if (?a <? ?b)%Z then _ else _] => destruct (Z.ltb_spec a b)
  end; try done; try lia.

#[export] Instance str_korder : KeyOrder str.
Proof.
  split; unfold kless, str_kless.
  - intros s. induction s as [|c s IH]; simpl; [done|]. by order_tac.
  - intros s. induction s as [|c s IH]; intros [|d t] [|e u]; simpl; try done.
    order_tac; eauto.
  - intros s. induction s as [|c s IH]; intros [|d t]; simpl; try done.
    order_tac. intros. f_equal; [apply code_inj; lia|eauto].
Qed.

(** [std::pair] compares lexicographically. *)
#[export] Instance pair_kless {A B} `{KeyLess A, KeyLess B} : KeyLess (A * B) :=
  fun x y => kless (fst x) (fst y)
             || (negb (kless (fst y) (fst x)) && kless (snd x) (snd y)).

Section pair_order.
Context {A B : Type} `{KeyOrder A, KeyOrder B}.

Lemma pair_kless_true (x y : A * B) :
  kless x y = true <->
  kless x.1 y.1 = true \/ (kless y.1 x.1 = false /\ kless x.2 y.2 = true).
Proof.
  unfold kless at 1, pair_kless.
  by rewrite orb_true_iff, andb_true_iff, negb_true_iff.
Qed.

Lemma kless_dec (a b : A) : kless a b = true \/ kless b a = true \/ a = b.
Proof.
  destruct (kless a b) eqn:E; [by left|]. destruct (kless b a) eqn:F; [by right; left|].
  right; right. by apply kless_total.
Qed.

#[export] Instance pair_korder : KeyOrder (A * B).
Proof.
  split.
  - intros [a b]. apply not_true_iff_false. rewrite pair_kless_true; simpl.
    rewrite !kless_irrefl. by intros [?|[??]].
  - intros [a1 b1] [a2 b2] [a3 b3]. rewrite !pair_kless_true; simpl.
    intros H12 H23.
    destruct (kless_dec a1 a2) as [?|[?|E12]], (kless_dec a2 a3) as [?|[?|E23]];
      simplify_eq; rewrite ?kless_irrefl in *; destruct H12 as [?|[??]], H23 as [?|[??]];
      try congruence; eauto using kless_trans.
  - intros [a1 b1] [a2 b2]. rewrite <-!not_true_iff_false, !pair_kless_true; simpl.
    destruct (kless_dec a1 a2) as [?|[?|<-]]; [tauto..|].
    rewrite kless_irrefl. intros Hn1 Hn2. f_equal.
    apply kless_total; apply not_true_iff_false; tauto.
Qed.
End pair_order.

(** ** The map *)

Section std_map.
Context {K V : Type} `{EqDecision K, Countable K, KeyOrder K}.
Implicit Types (m : list (K * V)) (k : K) (v : V).

(** [m.find(k)]; [None] is [m.end()]. *)
Fixpoint map_find k m : option V :=
  match m with
  | [] => None
  | (k', v') :: m' => if decide (k = k') then Some v' else map_find k m'
  end.

(** [m[k] = v] *)
Fixpoint map_assign k v m : list (K * V) :=
  match m with
  | [] => [(k, v)]
  | (k', v') :: m' =>
      if decide (k = k') then (k, v) :: m'
      else if kless k k' then (k, v) :: m
      else (k', v') :: map_assign k v m'
  end.

(** The keys strictly increase along an iteration. *)
Fixpoint map_sorted m : Prop :=
  match m with
  | [] => True
  | (k, _) :: m' => Forall (fun e => kless k (fst e) = true) m' /\ map_sorted m'
  end.

Definition to_gmap m : gmap K V := list_to_map m.

Lemma map_find_to_gmap k m : map_find k m = to_gmap m !! k.
Proof.
  induction m as [|[k' v'] m IH]; [done|]. simpl. unfold to_gmap. simpl.
  rewrite lookup_insert. unfold to_gmap in IH.
  repeat case_decide; congruence.
Qed.

Lemma map_assign_Forall (P : K * V -> Prop) k v m :
  P (k, v) -> Forall P m -> Forall P (map_assign k v m).
Proof.
  intros Hk. induction 1 as [|[k' v'] m Hx Hm IH]; simpl; [by constructor|].
  repeat case_match; repeat constructor; eauto.
Qed.

Lemma map_assign_sorted k v m : map_sorted m -> map_sorted (map_assign k v m).
Proof.
  induction m as [|[k' v'] m IH]; simpl; [by split|]. intros [Hall Hm].
  case_decide; subst; [by split|].
  destruct (kless k k') eqn:E; simpl.
  - split; [|done]. constructor; [done|]. eapply Forall_impl; [exact Hall|].
    intros [k'' v'']; simpl. by apply kless_trans.
  - split; [|by apply IH]. apply map_assign_Forall; [|done]. simpl.
    destruct (kless k' k) eqn:F; [done|]. by destruct (kless_total k k' E F).
Qed.

Lemma map_find_lt k m :
  Forall (fun e => kless k (fst e) = true) m -> map_find k m = None.
Proof.
  induction 1 as [|[k' v'] m Hx Hm IH]; simpl in *; [done|].
  case_decide; subst; [|done]. by rewrite kless_irrefl in Hx.
Qed.

(** [m[k] = v] is insertion into the finite map. *)
Lemma map_assign_to_gmap k v m :
  map_sorted m -> to_gmap (map_assign k v m) = <[k := v]> (to_gmap m).
Proof.
  induction m as [|[k' v'] m IH]; [done|]. intros [Hall Hm]. simpl.
  case_decide; subst; [by unfold to_gmap; simpl; rewrite insert_insert_eq|].
  destruct (kless k k'); [done|]. unfold to_gmap in *; simpl.
  rewrite IH by done. by rewrite insert_insert_ne.
Qed.

Lemma map_find_assign k k' v m :
  map_sorted m ->
  map_find k' (map_assign k v m) = if decide (k = k') then Some v else map_find k' m.
Proof.
  intros Hm. rewrite !map_find_to_gmap, map_assign_to_gmap by done.
  by rewrite lookup_insert.
Qed.

Lemma map_find_Some_elem k v m : map_find k m = Some v -> (k, v) ∈ m.
Proof.
  induction m as [|[k' v'] m IH]; simpl; [done|]. case_decide; subst.
  - intros [= ->]. left.
  - intros. right. auto.
Qed.

Lemma map_sorted_NoDup m : map_sorted m -> NoDup m.*1.
Proof.
  induction m as [|[k v] m IH]; simpl; [constructor|]. intros [Hall Hm].
  constructor; [|by apply IH]. intros ([k' v'] & ? & Hin)%list_elem_of_fmap.
  simpl in *; subst. rewrite Forall_forall in Hall.
  pose proof (Hall _ Hin) as Hlt. simpl in Hlt. by rewrite kless_irrefl in Hlt.
Qed.

Lemma map_find_sorted k v m : map_sorted m -> (k, v) ∈ m -> map_find k m = Some v.
Proof.
  intros Hm Hin. rewrite map_find_to_gmap.
  apply elem_of_list_to_map; [by apply map_sorted_NoDup|done].
Qed.

(** Two sorted maps with the same entries are the same list: iteration order
    is determined by the contents. *)
Lemma map_sorted_ext m1 m2 :
  map_sorted m1 -> map_sorted m2 ->
  (forall k, map_find k m1 = map_find k m2) -> m1 = m2.
Proof.
  revert m2. induction m1 as [|[k v] m1 IH]; intros [|[k' v'] m2]; simpl; [done|..].
  - intros _ _ E. specialize (E k'). by case_decide.
  - intros _ _ E. specialize (E k). by case_decide.
  - intros [A1 S1] [A2 S2] E. assert (k = k') as ->.
    { apply kless_total.
      - destruct (kless k k') eqn:L; [|done]. exfalso.
        specialize (E k). rewrite decide_True in E by done.
        case_decide; subst; [by rewrite kless_irrefl in L|].
        rewrite map_find_lt in E; [done|]. eapply Forall_impl; [exact A2|].
        intros [??]; simpl. by apply kless_trans.
      - destruct (kless k' k) eqn:L; [|done]. exfalso.
        specialize (E k'). rewrite (decide_True (P := k' = k')) in E by done.
        case_decide; subst; [by rewrite kless_irrefl in L|].
        rewrite map_find_lt in E; [done|]. eapply Forall_impl; [exact A1|].
        intros [??]; simpl. by apply kless_trans. }
    pose proof (E k') as Ek. rewrite !decide_True in Ek by done. simplify_eq.
    f_equal. apply IH; [done..|]. intros x. specialize (E x).
    case_decide; subst; [|done]. by rewrite !map_find_lt.
Qed.
End std_map.

Create HintDb std_map.
#[export] Hint Resolve map_assign_sorted map_sorted_NoDup : std_map.
