(* ===== verification/ConfigLexer.v ===== *)
(** * The configuration file's tokens: [NginxConfigParser::ParseToken]

    The tokenizer of src/src/config_parser.cc, character by character on an
    input stream, with [get] and [unget].  The theorems: every call returns
    (the fuel of the loop is enough), what is returned for each kind of token,
    and that quoting with double quotes is undone by the tokenizer while
    quoting with single quotes is not. *)
From S2P Require Import Prelude CppStd.

Inductive TokenType :=
| TOKEN_TYPE_START | TOKEN_TYPE_NORMAL | TOKEN_TYPE_START_BLOCK
| TOKEN_TYPE_END_BLOCK | TOKEN_TYPE_COMMENT | TOKEN_TYPE_STATEMENT_END
| TOKEN_TYPE_EOF | TOKEN_TYPE_ERROR | TOKEN_TYPE_QUOTED_STRING.

#[export] Instance TokenType_eq_dec : EqDecision TokenType.
Proof. solve_decision. Defined.

Definition TokenTypeAsString (type : TokenType) : str :=
  match type with
  | TOKEN_TYPE_START => "TOKEN_TYPE_START"
  | TOKEN_TYPE_NORMAL => "TOKEN_TYPE_NORMAL"
  | TOKEN_TYPE_START_BLOCK => "TOKEN_TYPE_START_BLOCK"
  | TOKEN_TYPE_END_BLOCK => "TOKEN_TYPE_END_BLOCK"
  | TOKEN_TYPE_COMMENT => "TOKEN_TYPE_COMMENT"
  | TOKEN_TYPE_STATEMENT_END => "TOKEN_TYPE_STATEMENT_END"
  | TOKEN_TYPE_EOF => "TOKEN_TYPE_EOF"
  | TOKEN_TYPE_ERROR => "TOKEN_TYPE_ERROR"
  | TOKEN_TYPE_QUOTED_STRING => "TOKEN_TYPE_QUOTED_STRING"
  end.

Inductive TokenParserState :=
| TOKEN_STATE_INITIAL_WHITESPACE | TOKEN_STATE_SINGLE_QUOTE
| TOKEN_STATE_DOUBLE_QUOTE | TOKEN_STATE_TOKEN_TYPE_COMMENT
| TOKEN_STATE_TOKEN_TYPE_NORMAL.

#[export] Instance TokenParserState_eq_dec : EqDecision TokenParserState.
Proof. solve_decision. Defined.

(** How a pass through the loop's body ends: [return type], on to the next
    test of the loop's condition, or [break] out of the loop. *)
Inductive pass :=
| Return (type : TokenType) (value : str) (input : istream)
| Continue (state : TokenParserState) (value : str) (input : istream)
| Break (state : TokenParserState) (value : str) (input : istream).

(** [switch (next_c)] on the character after a backslash, inside a string
    quoted with [quote]: the character the escape stands for. *)
Definition escaped (quote next_c : ascii) : option ascii :=
  if decide (next_c = "t"%char) then Some TAB
  else if decide (next_c = "n"%char) then Some LF
  else if decide (next_c = "r"%char) then Some CR
  else if decide (next_c = quote) then Some quote
  else None.

(** The part the two quoted states share, lines 90-117 and 119-146: [value]
    is the string when the [if] is reached. *)
Definition quoted_char (state : TokenParserState) (quote c : ascii)
    (value : str) (input : istream) : pass :=
  if decide (c = BSLASH) then
    let '(next_c, input) := get input in
    if negb (good input) then Continue state value input
    else match escaped quote next_c with
         | Some e => Continue state (value ++ [e]) input
         | None => Continue state (value ++ [c]) (unget input)
         end
  else if decide (c = quote) then Return TOKEN_TYPE_QUOTED_STRING (value ++ [c]) input
  else Continue state (value ++ [c]) input.

(** The characters that end an unquoted token. *)
Definition ends_normal (c : ascii) : bool :=
  bool_decide (c ∈ [SP; TAB; LF; TAB; ";"%char; "{"%char; "}"%char]).

(** The whitespace skipped before a token. *)
Definition initial_space (c : ascii) : bool := bool_decide (c ∈ [SP; TAB; LF; CR]).

Definition initial_whitespace (c : ascii) (value : str) (input : istream) : pass :=
  if decide (c = "{"%char) then Return TOKEN_TYPE_START_BLOCK [c] input
  else if decide (c = "}"%char) then Return TOKEN_TYPE_END_BLOCK [c] input
  else if decide (c = "#"%char) then Continue TOKEN_STATE_TOKEN_TYPE_COMMENT [c] input
  else if decide (c = DQUOTE) then Continue TOKEN_STATE_DOUBLE_QUOTE [c] input
  else if decide (c = SQUOTE) then Continue TOKEN_STATE_SINGLE_QUOTE [c] input
  else if decide (c = ";"%char) then Return TOKEN_TYPE_STATEMENT_END [c] input
  else if initial_space c then Continue TOKEN_STATE_INITIAL_WHITESPACE value input
  else Continue TOKEN_STATE_TOKEN_TYPE_NORMAL (value ++ [c]) input.

(** The body of the loop. *)
Definition ParseToken_body (state : TokenParserState) (value : str)
    (input : istream) : pass :=
  let '(c, input) := get input in
  if negb (good input) then Break state value input
  else match state with
  | TOKEN_STATE_INITIAL_WHITESPACE => initial_whitespace c value input
  | TOKEN_STATE_SINGLE_QUOTE => quoted_char state SQUOTE c (value ++ [c]) input
  | TOKEN_STATE_DOUBLE_QUOTE => quoted_char state DQUOTE c value input
  | TOKEN_STATE_TOKEN_TYPE_COMMENT =>
      if decide (c = LF \/ c = CR) then Return TOKEN_TYPE_COMMENT value input
      else Continue state (value ++ [c]) input
  | TOKEN_STATE_TOKEN_TYPE_NORMAL =>
      if ends_normal c then Return TOKEN_TYPE_NORMAL value (unget input)
      else Continue state (value ++ [c]) input
  end.

(** After the loop: the end of the file was reached. *)
Definition ParseToken_end (state : TokenParserState) (value : str)
    (input : istream) : TokenType * str * istream :=
  match state with
  | TOKEN_STATE_SINGLE_QUOTE | TOKEN_STATE_DOUBLE_QUOTE =>
      (TOKEN_TYPE_ERROR, value, input)
  | _ =>
      if decide (1 < length value) then
        let input := unget input in
        match state with
        | TOKEN_STATE_TOKEN_TYPE_NORMAL => (TOKEN_TYPE_NORMAL, value, input)
        | TOKEN_STATE_TOKEN_TYPE_COMMENT => (TOKEN_TYPE_COMMENT, value, input)
        | _ => (TOKEN_TYPE_ERROR, value, input)
        end
      else (TOKEN_TYPE_EOF, value, input)
  end.

Fixpoint ParseToken_loop (fuel : nat) (state : TokenParserState) (value : str)
    (input : istream) : outcome (TokenType * str * istream) :=
  if good input then
    match fuel with
    | O => NoFuel
    | S fuel =>
        match ParseToken_body state value input with
        | Return t value input => Ret (t, value, input)
        | Continue state value input => ParseToken_loop fuel state value input
        | Break state value input => Ret (ParseToken_end state value input)
        end
    end
  else Ret (ParseToken_end state value input).

(** Each pass reads a character that is left, or finds none. *)
Definition ParseToken (input : istream) (value : str) :
    outcome (TokenType * str * istream) :=
  ParseToken_loop (S (length (after input))) TOKEN_STATE_INITIAL_WHITESPACE value input.

(** ** Every call returns *)

Lemma good_bits i : good i = true -> i = Istream (before i) (after i) false false false.
Proof. by destruct i as [b a [] [] []]. Qed.

(** A pass that goes on from a good stream to a good stream has used up
    characters of it. *)
Lemma ParseToken_body_progress state value i state' value' i' :
  good i = true -> ParseToken_body state value i = Continue state' value' i' ->
  good i' = true -> length (after i') < length (after i).
Proof.
  intros ->%good_bits. set (b := before i). destruct (after i) as [|c s]; [done|].
  unfold ParseToken_body, initial_whitespace, quoted_char; simpl.
  destruct state; simpl; repeat case_decide; try done;
    destruct s as [|d s]; simpl; repeat case_match; intros; simplify_eq/=; lia.
Qed.

(** How many passes are made does not depend on the fuel. *)
Lemma ParseToken_loop_fuel f1 f2 state value i :
  length (after i) < f1 -> length (after i) < f2 ->
  ParseToken_loop f1 state value i = ParseToken_loop f2 state value i.
Proof.
  revert f2 state value i. induction f1 as [|f1 IH]; intros [|f2] state value i ??; try lia.
  simpl. destruct (good i) eqn:Hg; [|done].
  destruct (ParseToken_body state value i) as [|state' value' i'|] eqn:E; try done.
  destruct (good i') eqn:Hg'.
  - pose proof (ParseToken_body_progress _ _ _ _ _ _ Hg E Hg'). apply IH; lia.
  - by destruct f1, f2; simpl; rewrite Hg'.
Qed.

(** The loop run to its end. *)
Definition run_token (state : TokenParserState) (value : str) (i : istream) :=
  ParseToken_loop (S (length (after i))) state value i.

Lemma run_token_unfold state value i :
  run_token state value i =
  if good i then
    match ParseToken_body state value i with
    | Return t value i => Ret (t, value, i)
    | Continue state value i => run_token state value i
    | Break state value i => Ret (ParseToken_end state value i)
    end
  else Ret (ParseToken_end state value i).
Proof.
  unfold run_token at 1. cbn [ParseToken_loop]. destruct (good i) eqn:Hg; [|done].
  destruct (ParseToken_body state value i) as [|state' value' i'|] eqn:E; try done.
  destruct (good i') eqn:Hg'.
  - pose proof (ParseToken_body_progress _ _ _ _ _ _ Hg E Hg').
    by apply ParseToken_loop_fuel; lia.
  - unfold run_token. by destruct (length (after i)); simpl; rewrite Hg'.
Qed.

Lemma ParseToken_run i value :
  ParseToken i value = run_token TOKEN_STATE_INITIAL_WHITESPACE value i.
Proof. done. Qed.

(** Induction along the passes of a run on the characters left. *)
Lemma run_token_total state value i : exists r, run_token state value i = Ret r.
Proof.
  remember (length (after i)) as n eqn:Hn. revert state value i Hn.
  induction (lt_wf n) as [n _ IH]; intros state value i ->.
  rewrite run_token_unfold. destruct (good i) eqn:Hg; [|by eauto].
  destruct (ParseToken_body state value i) as [|state' value' i'|] eqn:E; [by eauto| |by eauto].
  destruct (good i') eqn:Hg'.
  - eapply IH; [|reflexivity]. by eapply ParseToken_body_progress.
  - rewrite run_token_unfold, Hg'. by eauto.
Qed.

(** ** What a call does to the stream *)

(** The characters a pass leaves are a suffix of the ones it was given, a
    proper one if the pass goes on. *)
Lemma ParseToken_body_suffix state value i :
  good i = true ->
  match ParseToken_body state value i with
  | Return TOKEN_TYPE_NORMAL _ i' | Break _ _ i' => after i' = after i
  | Return _ _ i' | Continue _ _ i' => exists c, c :: after i' `suffix_of` after i
  end.
Proof.
  intros ->%good_bits. set (b := before i). clearbody b.
  destruct (after i) as [|c s]; [done|].
  unfold ParseToken_body, initial_whitespace, quoted_char; simpl.
  destruct state; simpl; repeat case_decide; try done;
    destruct s as [|d s]; simpl; repeat case_match; simplify_eq/=; try done;
    try (eexists; reflexivity); try (eexists; apply suffix_cons_r; reflexivity).
Qed.

(** The streams the parser meets: still good, or failed at the end. *)
Definition readable (i : istream) : Prop := good i = true \/ failbit i = true.

Lemma open_stream_readable s : readable (open_stream s).
Proof. by left. Qed.

Lemma ParseToken_body_readable state value i :
  good i = true ->
  match ParseToken_body state value i with
  | Return _ _ i' => good i' = true
  | Continue _ _ i' => readable i'
  | Break state' value' i' =>
      failbit i' = true /\ state' = state /\ value' = value
  end.
Proof.
  unfold readable. intros ->%good_bits. set (b := before i). clearbody b.
  destruct (after i) as [|c s]; [done|].
  unfold ParseToken_body, initial_whitespace, quoted_char; simpl.
  destruct state; simpl; repeat case_decide; eauto;
    destruct s as [|d s]; simpl; repeat case_match; simplify_eq/=; eauto.
Qed.

Lemma unget_failed i : failbit i = true -> after (unget i) = after i /\ failbit (unget i) = true.
Proof. unfold unget. by intros ->. Qed.

Lemma ParseToken_end_after state value i :
  failbit i = true ->
  after (ParseToken_end state value i).2 = after i
  /\ failbit (ParseToken_end state value i).2 = true.
Proof.
  intros Hf. destruct (unget_failed i Hf).
  by destruct state; simpl; repeat case_decide.
Qed.

Lemma run_token_after state value i t v i' :
  readable i -> run_token state value i = Ret (t, v, i') ->
  readable i' /\ after i' `suffix_of` after i.
Proof.
  remember (length (after i)) as n eqn:Hn. revert state value i Hn.
  induction (lt_wf n) as [n _ IH]; intros state value i -> Hr.
  rewrite run_token_unfold. destruct (good i) eqn:Hg; cycle 1.
  { destruct Hr as [?|Hf]; [congruence|]. intros [= H].
    destruct (ParseToken_end_after state value i Hf) as [H1 H2].
    rewrite H in *; simpl in *. rewrite H1. split; [by right|reflexivity]. }
  pose proof (ParseToken_body_suffix state value i Hg) as Hs.
  pose proof (ParseToken_body_readable state value i Hg) as Hr'.
  destruct (ParseToken_body state value i) as [t' v' i1|state' value' i1|state' value' i1] eqn:E.
  - intros [= -> -> ->]. split; [by left|].
    destruct t; try (destruct Hs; by eapply suffix_cons_l).
    by rewrite Hs.
  - destruct Hs as [c Hs]. assert (length (after i1) < length (after i)).
    { apply suffix_length in Hs. simpl in Hs. lia. }
    intros H1. destruct (IH _ H _ _ _ eq_refl Hr' H1) as [? H2]. split; [done|].
    etrans; [exact H2|]. by eapply suffix_cons_l.
  - destruct Hr' as (Hf & -> & ->). intros [= H].
    destruct (ParseToken_end_after state value i1 Hf) as [H1 H2].
    rewrite H in *; simpl in *. rewrite H1, Hs. split; [by right|reflexivity].
Qed.

(** A call from the initial state that finds a token uses up characters. *)
Lemma ParseToken_progress i t v i' :
  readable i -> ParseToken i [] = Ret (t, v, i') ->
  t = TOKEN_TYPE_EOF \/ t = TOKEN_TYPE_ERROR \/ length (after i') < length (after i).
Proof.
  rewrite ParseToken_run. remember (length (after i)) as n eqn:Hn. revert i Hn.
  induction (lt_wf n) as [n _ IH]; intros i -> Hr.
  rewrite run_token_unfold. destruct (good i) eqn:Hg.
  2: { intros [= <- <- <-]. by left. }
  pose proof (ParseToken_body_suffix TOKEN_STATE_INITIAL_WHITESPACE [] i Hg) as Hs.
  pose proof (ParseToken_body_readable TOKEN_STATE_INITIAL_WHITESPACE [] i Hg) as Hr'.
  destruct (ParseToken_body _ [] i) as [t' v' i1|state' value' i1|state' value' i1] eqn:E.
  - intros [= -> -> ->]. right; right.
    assert (t <> TOKEN_TYPE_NORMAL).
    { revert E. unfold ParseToken_body, initial_whitespace. destruct (get i).
      repeat case_match; simpl; congruence. }
    destruct t; try done; destruct Hs as [c Hs%suffix_length]; simpl in Hs; lia.
  - destruct Hs as [c Hs%suffix_length]. simpl in Hs. intros H.
    destruct (decide (state' = TOKEN_STATE_INITIAL_WHITESPACE)) as [->|].
    + assert (value' = []) as ->.
      { revert E. unfold ParseToken_body, initial_whitespace. destruct (get i).
        repeat case_match; simpl; congruence. }
      destruct (IH (length (after i1)) ltac:(lia) i1 eq_refl Hr' H) as [?|[?|?]];
        auto with lia.
    + apply run_token_after in H as [_ H%suffix_length]; [|done]. auto with lia.
  - destruct Hr' as (Hf & -> & ->). intros [= <- <- <-]. by left.
Qed.

(** [ParseToken] always returns, on any stream and with any initial value. *)
Lemma ParseToken_total i value : exists r, ParseToken i value = Ret r.
Proof. rewrite ParseToken_run. apply run_token_total. Qed.

(** ** What is returned for each kind of token *)

(** A good stream that has given [b] (last character first) and has [s] left. *)
Abbreviation rd b s := (Istream b s false false false).

Section tokens.
Implicit Types (b s tok value : str) (c d : ascii).

Definition normal_char c : bool := negb (ends_normal c).

(** The characters an unquoted token can start with. *)
Definition normal_start c : bool :=
  bool_decide (c ∉ ["{"%char; "}"%char; "#"%char; DQUOTE; SQUOTE; ";"%char])
  && negb (initial_space c).

Definition normal_token tok : bool :=
  match tok with
  | [] => false
  | c :: tok' => normal_start c && forallb normal_char tok'
  end.

Lemma run_initial c value b s :
  run_token TOKEN_STATE_INITIAL_WHITESPACE value (rd b (c :: s)) =
  match initial_whitespace c value (rd (c :: b) s) with
  | Return t value i => Ret (t, value, i)
  | Continue state value i => run_token state value i
  | Break state value i => Ret (ParseToken_end state value i)
  end.
Proof. by rewrite run_token_unfold. Qed.

Lemma run_space c value b s :
  initial_space c = true ->
  run_token TOKEN_STATE_INITIAL_WHITESPACE value (rd b (c :: s)) =
  run_token TOKEN_STATE_INITIAL_WHITESPACE value (rd (c :: b) s).
Proof.
  intros Hc%bool_decide_eq_true. rewrite run_initial.
  by repeat (apply elem_of_cons in Hc as [->|Hc]; [done|]);
    apply not_elem_of_nil in Hc.
Qed.

Lemma run_spaces sp value b s :
  forallb initial_space sp = true ->
  run_token TOKEN_STATE_INITIAL_WHITESPACE value (rd b (sp ++ s)) =
  run_token TOKEN_STATE_INITIAL_WHITESPACE value (rd (reverse sp ++ b) s).
Proof.
  revert b. induction sp as [|c sp IH]; intros b; [done|].
  simpl. intros [Hc Hsp]%andb_true_iff. rewrite run_space by done.
  by rewrite IH, reverse_cons, <-app_assoc by done.
Qed.

Lemma run_normal tok d value b s :
  forallb normal_char tok = true -> ends_normal d = true ->
  run_token TOKEN_STATE_TOKEN_TYPE_NORMAL value (rd b (tok ++ d :: s)) =
  Ret (TOKEN_TYPE_NORMAL, value ++ tok, rd (reverse tok ++ b) (d :: s)).
Proof.
  intros Htok Hd. revert value b Htok. induction tok as [|c tok IH]; intros value b Htok.
  - rewrite run_token_unfold. unfold ParseToken_body; simpl. rewrite Hd.
    by rewrite app_nil_r.
  - simpl in Htok. apply andb_true_iff in Htok as [Hc Htok].
    apply negb_true_iff in Hc. rewrite run_token_unfold.
    unfold ParseToken_body; simpl. rewrite Hc, IH by done.
    by rewrite reverse_cons, <-!app_assoc.
Qed.

Lemma normal_start_continue c value i :
  normal_start c = true ->
  initial_whitespace c value i = Continue TOKEN_STATE_TOKEN_TYPE_NORMAL (value ++ [c]) i.
Proof.
  unfold normal_start, initial_whitespace.
  intros [Hc%bool_decide_eq_true Hsp%negb_true_iff]%andb_true_iff.
  rewrite !not_elem_of_cons in Hc. destruct Hc as (?&?&?&?&?&?&_).
  by rewrite !decide_False, Hsp by done.
Qed.

(** An unquoted token is returned unchanged, and the character after it stays
    in the stream. *)
Lemma ParseToken_normal sp tok d b s :
  forallb initial_space sp = true -> normal_token tok = true -> ends_normal d = true ->
  ParseToken (rd b (sp ++ tok ++ d :: s)) [] =
  Ret (TOKEN_TYPE_NORMAL, tok, rd (reverse (sp ++ tok) ++ b) (d :: s)).
Proof.
  intros Hsp Htok Hd. rewrite ParseToken_run, run_spaces by done.
  destruct tok as [|c tok]; [done|]. simpl in Htok.
  apply andb_true_iff in Htok as [Hc Htok]. simpl.
  rewrite run_initial, normal_start_continue, run_normal by done.
  do 3 f_equal. by rewrite reverse_app, reverse_cons, <-!app_assoc.
Qed.

(** Punctuation. *)
Definition punctuation_type c : option TokenType :=
  if decide (c = "{"%char) then Some TOKEN_TYPE_START_BLOCK
  else if decide (c = "}"%char) then Some TOKEN_TYPE_END_BLOCK
  else if decide (c = ";"%char) then Some TOKEN_TYPE_STATEMENT_END
  else None.

Lemma ParseToken_punctuation sp c t b s :
  forallb initial_space sp = true -> punctuation_type c = Some t ->
  ParseToken (rd b (sp ++ c :: s)) [] = Ret (t, [c], rd (c :: reverse sp ++ b) s).
Proof.
  intros Hsp Hc. rewrite ParseToken_run, run_spaces, run_initial by done.
  unfold punctuation_type in Hc.
  destruct (decide (c = "{"%char)) as [->|]; [by injection Hc as <-|].
  destruct (decide (c = "}"%char)) as [->|]; [by injection Hc as <-|].
  destruct (decide (c = ";"%char)) as [->|]; [by injection Hc as <-|done].
Qed.

(** The end of the file, after whitespace. *)
Lemma ParseToken_eof sp b :
  forallb initial_space sp = true ->
  ParseToken (rd b sp) [] =
  Ret (TOKEN_TYPE_EOF, [], Istream (reverse sp ++ b) [] true true false).
Proof.
  intros Hsp. rewrite <-(app_nil_r sp), ParseToken_run, run_spaces by done.
  by rewrite app_nil_r, run_token_unfold.
Qed.

(** A comment runs to the end of its line, which it includes. *)
Lemma run_comment text d value b s :
  forallb (fun c => negb (bool_decide (c = LF \/ c = CR))) text = true ->
  d = LF \/ d = CR ->
  run_token TOKEN_STATE_TOKEN_TYPE_COMMENT value (rd b (text ++ d :: s)) =
  Ret (TOKEN_TYPE_COMMENT, value ++ text, rd (d :: reverse text ++ b) s).
Proof.
  intros Ht Hd. revert value b Ht. induction text as [|c text IH]; intros value b Ht.
  - rewrite run_token_unfold. unfold ParseToken_body; simpl.
    rewrite decide_True by done. by rewrite app_nil_r.
  - simpl in Ht. apply andb_true_iff in Ht as [Hc Ht].
    apply negb_true_iff, bool_decide_eq_false in Hc. rewrite run_token_unfold.
    unfold ParseToken_body; simpl. rewrite decide_False, IH by done.
    by rewrite reverse_cons, <-!app_assoc.
Qed.

(** ** Quoting *)

(** How a character is written between double quotes. *)
Definition escape_char c : str :=
  if decide (c = TAB) then [BSLASH; "t"%char]
  else if decide (c = LF) then [BSLASH; "n"%char]
  else if decide (c = CR) then [BSLASH; "r"%char]
  else if decide (c = DQUOTE) then [BSLASH; DQUOTE]
  else [c].

Definition escape_string s : str := s ≫= escape_char.

Lemma run_double_quote_char c value b s :
  c <> BSLASH ->
  exists b', run_token TOKEN_STATE_DOUBLE_QUOTE value (rd b (escape_char c ++ s)) =
             run_token TOKEN_STATE_DOUBLE_QUOTE (value ++ [c]) (rd b' s).
Proof.
  intros Hc. unfold escape_char.
  repeat case_decide; subst; simpl; rewrite run_token_unfold; try by eexists.
  unfold ParseToken_body, quoted_char; simpl.
  rewrite !decide_False by done. by eexists.
Qed.

Lemma run_double_quote content value b s :
  forallb (fun c => negb (bool_decide (c = BSLASH))) content = true ->
  exists b', run_token TOKEN_STATE_DOUBLE_QUOTE value
               (rd b (escape_string content ++ DQUOTE :: s)) =
             Ret (TOKEN_TYPE_QUOTED_STRING, value ++ content ++ [DQUOTE], rd (DQUOTE :: b') s).
Proof.
  revert value b. induction content as [|c content IH]; intros value b; simpl.
  - intros _. exists b. by rewrite run_token_unfold.
  - intros [Hc%negb_true_iff%bool_decide_eq_false Ht]%andb_true_iff.
    change (escape_string (c :: content)) with (escape_char c ++ escape_string content).
    rewrite <-app_assoc. destruct (run_double_quote_char c value b
      (escape_string content ++ DQUOTE :: s) Hc) as [b1 ->].
    destruct (IH (value ++ [c]) b1 Ht) as [b' ->]. exists b'. by rewrite <-!app_assoc.
Qed.

Lemma run_single_quote content value b s :
  forallb (fun c => negb (bool_decide (c = BSLASH \/ c = SQUOTE))) content = true ->
  exists b', run_token TOKEN_STATE_SINGLE_QUOTE value (rd b (content ++ SQUOTE :: s)) =
    Ret (TOKEN_TYPE_QUOTED_STRING,
         value ++ (content ≫= fun c => [c; c]) ++ [SQUOTE; SQUOTE], rd (SQUOTE :: b') s).
Proof.
  revert value b. induction content as [|c content IH]; intros value b; simpl.
  - intros _. exists b. rewrite run_token_unfold. simpl. by rewrite <-app_assoc.
  - intros [Hc%negb_true_iff%bool_decide_eq_false Ht]%andb_true_iff.
    rewrite run_token_unfold. unfold ParseToken_body, quoted_char; simpl.
    rewrite !decide_False by naive_solver.
    destruct (IH ((value ++ [c]) ++ [c]) (c :: b) Ht) as [b' ->].
    exists b'. by rewrite <-!app_assoc.
Qed.
End tokens.

(** ** Properties *)

(** [ParseToken] terminates on every stream it is given and makes progress.
    From a good or failed stream it returns, leaves a suffix of what was left,
    and a token other than the end-of-file and error ones has used up at least
    one character: the parser's loop over tokens cannot run forever. *)
Theorem ParseToken_terminates_and_progresses (i : istream) :
  readable i ->
  exists t v i', ParseToken i [] = Ret (t, v, i') /\ readable i'
    /\ after i' `suffix_of` after i
    /\ (t <> TOKEN_TYPE_EOF -> t <> TOKEN_TYPE_ERROR ->
        length (after i') < length (after i)).
Proof.
  intros Hr. destruct (ParseToken_total i []) as [[[t v] i'] H].
  exists t, v, i'. destruct (run_token_after _ _ _ _ _ _ Hr H).
  repeat (split; [done|]). intros.
  by destruct (ParseToken_progress _ _ _ _ Hr H) as [?|[?|?]].
Qed.

(** Quoting with double quotes round-trips through the tokenizer.  A string
    without backslashes, its tabs, line ends and double quotes escaped, comes
    back between its quotes, and nothing after the closing quote is read. *)
Theorem double_quoted_roundtrip (sp content b s : str) :
  forallb initial_space sp = true ->
  forallb (fun c => negb (bool_decide (c = BSLASH))) content = true ->
  exists b', ParseToken (rd b (sp ++ DQUOTE :: escape_string content ++ DQUOTE :: s)) [] =
    Ret (TOKEN_TYPE_QUOTED_STRING, DQUOTE :: content ++ [DQUOTE], rd (DQUOTE :: b') s).
Proof.
  intros Hsp Hc. rewrite ParseToken_run, run_spaces, run_initial by done.
  by apply (run_double_quote content [DQUOTE]).
Qed.

(** Quoting with single quotes does not round-trip.  Every character between
    the quotes, and the closing quote, is stored twice. *)
Theorem single_quoted_doubles (sp content b s : str) :
  forallb initial_space sp = true ->
  forallb (fun c => negb (bool_decide (c = BSLASH \/ c = SQUOTE))) content = true ->
  exists b', ParseToken (rd b (sp ++ SQUOTE :: content ++ SQUOTE :: s)) [] =
    Ret (TOKEN_TYPE_QUOTED_STRING,
         SQUOTE :: (content ≫= fun c => [c; c]) ++ [SQUOTE; SQUOTE], rd (SQUOTE :: b') s).
Proof.
  intros Hsp Hc. rewrite ParseToken_run, run_spaces, run_initial by done.
  by apply (run_single_quote content [SQUOTE]).
Qed.

(** ** Witnesses *)

Lemma ParseToken_terminates_witness :
  readable (open_stream "port 80;") /\
  exists t v i', ParseToken (open_stream "port 80;") [] = Ret (t, v, i') /\ readable i'
    /\ after i' `suffix_of` after (open_stream "port 80;")
    /\ (t <> TOKEN_TYPE_EOF -> t <> TOKEN_TYPE_ERROR ->
        length (after i') < length (after (open_stream "port 80;"))).
Proof.
  split; [left; reflexivity|].
  apply (ParseToken_terminates_and_progresses (open_stream "port 80;")).
  left; reflexivity.
Defined.

Lemma double_quoted_witness :
  exists b', ParseToken (rd [] (" " ++ DQUOTE :: escape_string (lit "a" ++ [DQUOTE; TAB]) ++
                                DQUOTE :: ";")) [] =
    Ret (TOKEN_TYPE_QUOTED_STRING, DQUOTE :: (lit "a" ++ [DQUOTE; TAB]) ++ [DQUOTE],
         rd (DQUOTE :: b') ";").
Proof.
  apply (double_quoted_roundtrip " " (lit "a" ++ [DQUOTE; TAB]) [] ";"); reflexivity.
Defined.

Lemma single_quoted_witness :
  exists b', ParseToken (rd [] (" " ++ SQUOTE :: lit "ab" ++ SQUOTE :: ";")) [] =
    Ret (TOKEN_TYPE_QUOTED_STRING, SQUOTE :: (lit "ab" ≫= fun c => [c; c]) ++ [SQUOTE; SQUOTE],
         rd (SQUOTE :: b') ";").
Proof.
  apply (single_quoted_doubles " " "ab" [] ";"); reflexivity.
Defined.
