(* ===== verification/ConfigParser.v ===== *)
(** * The configuration parser: [NginxConfigParser::Parse]

    [Parse] builds the configuration in place through a stack of pointers, so
    the model has a store: the address of a [NginxConfig] is its index in
    [heap], [config_stack] holds addresses with the top first, and a
    statement's [child_block_] is an address.  [read_config] reads the tree a
    store holds.  The theorems: [Parse] always returns, what it builds is
    always a tree, its stack is never empty when it is used, which inputs
    leave the defined behaviour of C++, and that parsing undoes printing. *)
From S2P Require Import Prelude CppStd ConfigLexer.

(** ** The parsed configuration

    A [NginxConfig] has one field, the vector of its statements. *)
#[warnings="-register-all"]
Inductive NginxConfigStatement :=
| Statement (tokens_ : list str) (child_block_ : option (list NginxConfigStatement)).

Abbreviation NginxConfig := (list NginxConfigStatement).

Definition tokens_of (s : NginxConfigStatement) : list str :=
  match s with Statement t _ => t end.

Definition child_of (s : NginxConfigStatement) : option NginxConfig :=
  match s with Statement _ c => c end.

(** ** The store *)

Record cell := Cell { tokens_ : list str; child_block_ : option nat }.

(** [new NginxConfigStatement] *)
Definition new_statement : cell := Cell [] None.

Definition add_token (t : str) (c : cell) : cell :=
  Cell (tokens_ c ++ [t]) (child_block_ c).

Definition set_child (a : nat) (c : cell) : cell := Cell (tokens_ c) (Some a).

Record parser := Parser {
  heap : list (list cell);
  config_stack : list nat;
  last_token_type : TokenType;
  bracketCtr : Z;
  config_file : istream
}.

(** The out-parameter is an empty configuration at address 0. *)
Definition parser_init (i : istream) : parser := Parser [[]] [0] TOKEN_TYPE_START 0 i.

Definition with_heap (h : list (list cell)) (p : parser) : parser :=
  Parser h (config_stack p) (last_token_type p) (bracketCtr p) (config_file p).
Definition with_stack (s : list nat) (p : parser) : parser :=
  Parser (heap p) s (last_token_type p) (bracketCtr p) (config_file p).
Definition with_last (t : TokenType) (p : parser) : parser :=
  Parser (heap p) (config_stack p) t (bracketCtr p) (config_file p).
Definition with_ctr (z : Z) (p : parser) : parser :=
  Parser (heap p) (config_stack p) (last_token_type p) z (config_file p).
Definition with_file (i : istream) (p : parser) : parser :=
  Parser (heap p) (config_stack p) (last_token_type p) (bracketCtr p) i.

(** [config_stack.top()]: no meaning on an empty stack. *)
Definition stack_top (p : parser) : outcome nat :=
  match config_stack p with a :: _ => Ret a | [] => Undef end.

Definition stack_pop (p : parser) : outcome parser :=
  match config_stack p with _ :: s => Ret (with_stack s p) | [] => Undef end.

(** [config_stack.top()->statements_] changed by [f]. *)
Definition modify_top (f : list cell -> outcome (list cell)) (p : parser) : outcome parser :=
  a ← stack_top p;
  stmts ← vec_at (heap p) a;
  stmts' ← f stmts;
  Ret (with_heap (<[a := stmts']> (heap p)) p).

(** [config_stack.top()->statements_.emplace_back(new NginxConfigStatement)] *)
Definition emplace_statement : parser -> outcome parser :=
  modify_top (fun stmts => Ret (stmts ++ [new_statement])).

(** [config_stack.top()->statements_.back().get()->tokens_.push_back(token)] *)
Definition push_token (token : str) : parser -> outcome parser :=
  modify_top (vec_modify_back (add_token token)).

(** [new NginxConfig], made the child of the last statement, and pushed. *)
Definition start_block (p : parser) : outcome parser :=
  let new_config := length (heap p) in
  let p := with_heap (heap p ++ [[]]) p in
  p ← modify_top (vec_modify_back (set_child new_config)) p;
  Ret (with_stack (new_config :: config_stack p) p).

(** ** One pass of the loop *)

Inductive parse_pass :=
| Next (p : parser)
| Finished (success : bool) (p : parser).

Definition after_normal (t : TokenType) : bool :=
  bool_decide (t = TOKEN_TYPE_NORMAL \/ t = TOKEN_TYPE_QUOTED_STRING).

Definition Parse_normal (token : str) (p : parser) : outcome parse_pass :=
  if bool_decide (last_token_type p ∈ [TOKEN_TYPE_START; TOKEN_TYPE_STATEMENT_END;
       TOKEN_TYPE_START_BLOCK; TOKEN_TYPE_END_BLOCK; TOKEN_TYPE_NORMAL;
       TOKEN_TYPE_QUOTED_STRING])
  then
    p ← (if after_normal (last_token_type p) then Ret p else emplace_statement p);
    p ← push_token token p;
    Ret (Next (with_last TOKEN_TYPE_NORMAL p))
  else Ret (Finished false p).

(** The characters that may follow a quoted token. *)
Definition after_quoted (c : ascii) : bool :=
  bool_decide (c ∈ [SP; TAB; LF; CR; ";"%char; "{"%char]).

Definition Parse_quoted (token : str) (p : parser) : outcome parse_pass :=
  let '(next_char, i) := get (config_file p) in
  let p := with_file i p in
  if negb (good i) then Ret (Finished false p)
  else if negb (after_quoted next_char) then Ret (Finished false p)
  else
    p ← push_token token p;
    Ret (Next (with_last TOKEN_TYPE_QUOTED_STRING
                 (with_file (unget (config_file p)) p))).

Definition Parse_statement_end (p : parser) : outcome parse_pass :=
  if negb (after_normal (last_token_type p)) then Ret (Finished false p)
  else Ret (Next (with_last TOKEN_TYPE_STATEMENT_END p)).

Definition Parse_start_block (p : parser) : outcome parse_pass :=
  let p := with_ctr (bracketCtr p + 1) p in
  if negb (after_normal (last_token_type p)) then Ret (Finished false p)
  else
    p ← start_block p;
    Ret (Next (with_last TOKEN_TYPE_START_BLOCK p)).

Definition Parse_end_block (p : parser) : outcome parse_pass :=
  let p := with_ctr (bracketCtr p - 1) p in
  if bool_decide (last_token_type p ∈ [TOKEN_TYPE_STATEMENT_END;
       TOKEN_TYPE_END_BLOCK; TOKEN_TYPE_START_BLOCK])
  then
    p ← stack_pop p;
    Ret (Next (with_last TOKEN_TYPE_END_BLOCK p))
  else Ret (Finished false p).

Definition Parse_eof (p : parser) : parse_pass :=
  if decide (bracketCtr p <> 0%Z) then Finished false p
  else if bool_decide (last_token_type p ∈ [TOKEN_TYPE_STATEMENT_END;
            TOKEN_TYPE_END_BLOCK; TOKEN_TYPE_START])
  then Finished true p
  else Finished false p.

Definition Parse_token (t : TokenType) (token : str) (p : parser) : outcome parse_pass :=
  match t with
  | TOKEN_TYPE_ERROR => Ret (Finished false p)
  | TOKEN_TYPE_COMMENT => Ret (Next p)
  | TOKEN_TYPE_START => Ret (Finished false p)
  | TOKEN_TYPE_NORMAL => Parse_normal token p
  | TOKEN_TYPE_QUOTED_STRING => Parse_quoted token p
  | TOKEN_TYPE_STATEMENT_END => Parse_statement_end p
  | TOKEN_TYPE_START_BLOCK => Parse_start_block p
  | TOKEN_TYPE_END_BLOCK => Parse_end_block p
  | TOKEN_TYPE_EOF => Ret (Parse_eof p)
  end.

Definition Parse_body (p : parser) : outcome parse_pass :=
  if (bracketCtr p <? 0)%Z then Ret (Finished false p)
  else
    '(t, token, i) ← ParseToken (config_file p) [];
    Parse_token t token (with_file i p).

Fixpoint Parse_loop (fuel : nat) (p : parser) : outcome (bool * parser) :=
  match fuel with
  | O => NoFuel
  | S fuel =>
      r ← Parse_body p;
      match r with
      | Next p => Parse_loop fuel p
      | Finished b p => Ret (b, p)
      end
  end.

(** Reading the tree at an address; [fuel] bounds its depth. *)
Fixpoint read_config (fuel : nat) (h : list (list cell)) (a : nat) : option NginxConfig :=
  match fuel with
  | O => None
  | S fuel =>
      stmts ← h !! a;
      mapM (fun c => match child_block_ c with
                     | None => Some (Statement (tokens_ c) None)
                     | Some b => cfg ← read_config fuel h b;
                                 Some (Statement (tokens_ c) (Some cfg))
                     end) stmts
  end.

(** [Parse] on an open stream: the result, and the out-parameter.
    Every pass that goes on reads a character that is left, and there is one
    more pass, at the end. *)
Definition Parse (i : istream) : outcome (bool * option NginxConfig) :=
  '(b, p) ← Parse_loop (S (length (after i))) (parser_init i);
  Ret (b, read_config (length (heap p)) (heap p) 0).

(** [Parse] on a file name: [None] is a file that cannot be
    opened; the configuration is then left as it was, empty. *)
Definition Parse_file (file : option str) : outcome (bool * option NginxConfig) :=
  match file with
  | None => Ret (false, Some [])
  | Some contents => Parse (open_stream contents)
  end.

Example parse_example :
  Parse (open_stream "server { port 80; # here
 location / NotFoundHandler { } }") =
  Ret (true, Some [Statement [lit "server"] (Some
    [Statement [lit "port"; lit "80"] None;
     Statement [lit "location"; lit "/"; lit "NotFoundHandler"] (Some [])])]).
Proof. vm_compute. reflexivity. Qed.

(** ** The store is always a forest

    A child is allocated after the configuration that holds it, so addresses
    increase along children and nothing is its own ancestor. *)
Definition child_ok (a n : nat) (c : cell) : Prop :=
  forall b, child_block_ c = Some b -> a < b < n.

Definition wf_heap (h : list (list cell)) : Prop :=
  forall a stmts, h !! a = Some stmts -> Forall (child_ok a (length h)) stmts.

Lemma child_ok_add_token t a n c : child_ok a n c -> child_ok a n (add_token t c).
Proof. done. Qed.

Lemma child_ok_mono a n m c : n <= m -> child_ok a n c -> child_ok a m c.
Proof. intros ? H b Hb. specialize (H b Hb). lia. Qed.

Lemma child_ok_new a n : child_ok a n new_statement.
Proof. by intros b. Qed.

Lemma wf_heap_init : wf_heap [[]].
Proof. intros [|a] stmts H; by simplify_eq/=. Qed.

Lemma wf_heap_insert h a stmts :
  wf_heap h -> Forall (child_ok a (length h)) stmts -> wf_heap (<[a := stmts]> h).
Proof.
  intros Hh Hs x stmts' Hx. rewrite length_insert.
  destruct (decide (x = a)) as [->|Hne].
  - assert (a < length h) by (apply lookup_lt_Some in Hx; by rewrite length_insert in Hx).
    by rewrite list_lookup_insert_eq in Hx by done; simplify_eq.
  - rewrite list_lookup_insert_ne in Hx by done. by apply Hh.
Qed.

Lemma wf_heap_alloc h : wf_heap h -> wf_heap (h ++ [[]]).
Proof.
  intros Hh x stmts Hx. rewrite length_app; simpl.
  apply lookup_app_Some in Hx as [Hx|[? Hx]].
  - eapply Forall_impl; [by apply Hh|]. intros c. apply child_ok_mono. lia.
  - apply list_lookup_singleton_Some in Hx as [_ <-]. done.
Qed.

(** The tree at an address can be read with fuel for the addresses above it. *)
Lemma read_config_total h n a :
  wf_heap h -> a < length h -> length h - a <= n -> is_Some (read_config n h a).
Proof.
  intros Hh. revert a. induction n as [|n IH]; intros a Ha Hn; [lia|]. simpl.
  destruct (lookup_lt_is_Some_2 h a Ha) as [stmts Hs]. rewrite Hs; simpl.
  apply mapM_is_Some. eapply Forall_impl; [by apply Hh|].
  intros c Hc. simpl. destruct (child_block_ c) as [b|] eqn:E; [|by eexists].
  destruct (Hc b E). destruct (IH b) as [cfg ->]; [lia..|]. by eexists.
Qed.

(** ** The stack and the counter *)

Definition top_statements (p : parser) : option (list cell) :=
  match config_stack p with a :: _ => heap p !! a | [] => None end.

Record parser_inv (p : parser) : Prop := {
  inv_heap : wf_heap (heap p);
  inv_root : 0 < length (heap p);
  inv_stack : Forall (fun a => a < length (heap p)) (config_stack p);
  inv_ctr : Z.of_nat (length (config_stack p)) = (bracketCtr p + 1)%Z;
  inv_file : readable (config_file p);
  inv_last : after_normal (last_token_type p) = true ->
             exists c stmts, top_statements p = Some (stmts ++ [c])
}.

Lemma parser_inv_init i : readable i -> parser_inv (parser_init i).
Proof.
  intros. split; simpl; try done; try lia; [apply wf_heap_init|].
  apply Forall_singleton. lia.
Qed.

(** A change of the statements of the configuration on top of the stack. *)
Lemma modify_top_spec f p a s stmts stmts' :
  config_stack p = a :: s -> heap p !! a = Some stmts -> f stmts = Ret stmts' ->
  modify_top f p = Ret (with_heap (<[a := stmts']> (heap p)) p).
Proof.
  intros Hs Ha Hf. unfold modify_top, stack_top, vec_at. rewrite Hs; simpl.
  by rewrite Ha; simpl; rewrite Hf.
Qed.

Lemma top_statements_with_heap p a s stmts :
  config_stack p = a :: s -> a < length (heap p) ->
  top_statements (with_heap (<[a := stmts]> (heap p)) p) = Some stmts.
Proof.
  intros Hs Ha. unfold top_statements; simpl. rewrite Hs.
  by rewrite list_lookup_insert_eq.
Qed.

(** With a non-negative counter there is a configuration on top. *)
Lemma inv_top p :
  parser_inv p -> (0 <= bracketCtr p)%Z ->
  exists a s stmts, config_stack p = a :: s /\ a < length (heap p)
    /\ heap p !! a = Some stmts /\ top_statements p = Some stmts
    /\ Forall (child_ok a (length (heap p))) stmts.
Proof.
  intros Hp Hz. pose proof (inv_ctr p Hp). pose proof (inv_stack p Hp) as Hf.
  destruct (config_stack p) as [|a s] eqn:Hs; [simpl in *; lia|].
  apply Forall_cons in Hf as [Ha _].
  destruct (lookup_lt_is_Some_2 _ _ Ha) as [stmts Hst].
  exists a, s, stmts. unfold top_statements. rewrite Hs.
  repeat split; try done. by apply (inv_heap p Hp).
Qed.

(** Replacing the statements on top keeps the invariant, provided they are
    not empty when the last token leaves a statement open. *)
Lemma inv_set_top p a s stmts :
  parser_inv p -> config_stack p = a :: s -> a < length (heap p) ->
  Forall (child_ok a (length (heap p))) stmts -> stmts <> [] ->
  parser_inv (with_heap (<[a := stmts]> (heap p)) p).
Proof.
  intros [] Hs Ha Hc Hne. split; simpl; rewrite ?length_insert; try done.
  - by apply wf_heap_insert.
  - intros _. rewrite (top_statements_with_heap _ _ s) by done.
    destruct (snoc_inv stmts) as [->|(l & c & ->)]; [done|by eauto].
Qed.

Lemma inv_with_last p t :
  parser_inv p -> after_normal t = false -> parser_inv (with_last t p).
Proof. intros [] Ht. split; simpl; try done. congruence. Qed.

Lemma inv_with_file p i : parser_inv p -> readable i -> parser_inv (with_file i p).
Proof. by intros [] ?; split. Qed.

Lemma inv_push_token p t stmts tok :
  parser_inv p -> (0 <= bracketCtr p)%Z -> top_statements p = Some stmts -> stmts <> [] ->
  exists p', push_token tok p = Ret p' /\ parser_inv (with_last t p')
    /\ config_file p' = config_file p.
Proof.
  intros Hp Hz Ht Hne. destruct (inv_top p Hp Hz) as (a & s & stmts' & Hs & Ha & Hl & Ht' & Hc).
  simplify_eq. destruct (snoc_inv stmts) as [->|(l & c & ->)]; [done|].
  eexists. split.
  { eapply modify_top_spec; [done..|]. apply vec_modify_back_snoc. }
  split; [|done].
  apply Forall_app in Hc as [Hl1 [Hc _]%Forall_cons].
  split; simpl; rewrite ?length_insert; try apply Hp.
  - apply wf_heap_insert; [apply Hp|]. apply Forall_app_2; [done|].
    by apply Forall_singleton.
  - intros _. exists (add_token tok c), l.
    by apply (top_statements_with_heap p a s).
Qed.

Lemma inv_emplace p :
  parser_inv p -> (0 <= bracketCtr p)%Z ->
  exists p' stmts, emplace_statement p = Ret p' /\ parser_inv p'
    /\ config_file p' = config_file p /\ bracketCtr p' = bracketCtr p
    /\ top_statements p' = Some (stmts ++ [new_statement]).
Proof.
  intros Hp Hz. destruct (inv_top p Hp Hz) as (a & s & stmts & Hs & Ha & Hl & Ht & Hc).
  eexists _, stmts. split; [by apply (modify_top_spec _ p a s stmts)|].
  split; [|repeat split; by apply (top_statements_with_heap p a s)].
  apply (inv_set_top p a s); [done..| |by destruct stmts].
  apply Forall_app_2; [done|]. apply Forall_singleton, child_ok_new.
Qed.

Lemma inv_start_block p :
  parser_inv p -> (0 <= bracketCtr p)%Z -> after_normal (last_token_type p) = true ->
  exists p', start_block (with_ctr (bracketCtr p + 1) p) = Ret p'
    /\ parser_inv (with_last TOKEN_TYPE_START_BLOCK p')
    /\ config_file p' = config_file p.
Proof.
  intros Hp Hz Hlast. destruct (inv_top p Hp Hz) as (a & s & stmts & Hs & Ha & Hl & Ht & Hc).
  destruct (inv_last p Hp Hlast) as (c & l & Hl'). simplify_eq.
  unfold start_block. erewrite modify_top_spec; simpl; first last.
  { apply vec_modify_back_snoc. }
  { by apply lookup_app_l_Some. }
  { done. }
  eexists. split; [done|]. split; [|done].
  apply Forall_app in Hc as [Hl1 [Hc _]%Forall_cons].
  pose proof (inv_ctr p Hp) as Hctr.
  split; simpl; rewrite ?length_insert, ?length_app; simpl; try lia; try done.
  - apply wf_heap_insert; [apply wf_heap_alloc, Hp|].
    rewrite length_app; simpl. apply Forall_app_2.
    + eapply Forall_impl; [done|]. intros x. apply child_ok_mono. lia.
    + apply Forall_singleton. intros b [= <-]. lia.
  - apply Forall_forall. intros x Hx.
    apply elem_of_cons in Hx as [->|Hx]; [lia|].
    pose proof (inv_stack p Hp) as Hf. rewrite Forall_forall in Hf.
    specialize (Hf x Hx). lia.
  - apply Hp.
Qed.

Lemma inv_end_block p :
  parser_inv p -> (0 <= bracketCtr p)%Z ->
  exists p', stack_pop (with_ctr (bracketCtr p - 1) p) = Ret p'
    /\ parser_inv (with_last TOKEN_TYPE_END_BLOCK p')
    /\ config_file p' = config_file p.
Proof.
  intros Hp Hz. destruct (inv_top p Hp Hz) as (a & s & stmts & Hs & Ha & _).
  unfold stack_pop; simpl. rewrite Hs. eexists. split; [done|]. split; [|done].
  pose proof (inv_ctr p Hp) as Hctr. pose proof (inv_stack p Hp) as Hst.
  rewrite Hs in *. split; simpl; try done; try apply Hp.
  - by apply Forall_cons in Hst as [_ ?].
  - simpl in Hctr. lia.
Qed.

(** Which token types are returned only where a quote was read. *)
Definition no_quotes (s : str) : Prop := (DQUOTE ∉ s) /\ (SQUOTE ∉ s).

Lemma no_quotes_suffix s t : s `suffix_of` t -> no_quotes t -> no_quotes s.
Proof. intros [k ->] [H1%not_elem_of_app H2%not_elem_of_app]. by split; [apply H1|apply H2]. Qed.

Lemma run_token_quoted state value i v i' :
  state <> TOKEN_STATE_SINGLE_QUOTE -> state <> TOKEN_STATE_DOUBLE_QUOTE ->
  no_quotes (after i) -> run_token state value i <> Ret (TOKEN_TYPE_QUOTED_STRING, v, i').
Proof.
  remember (length (after i)) as n eqn:Hn. revert state value i Hn.
  induction (lt_wf n) as [n _ IH]; intros state value i -> Hs Hd Hq.
  rewrite run_token_unfold. destruct (good i) eqn:Hg.
  2: { destruct state; simpl; repeat case_decide; congruence. }
  pose proof (ParseToken_body_suffix state value i Hg) as Hsuf.
  apply good_bits in Hg. rewrite Hg in *. set (b := before i) in *. clearbody b.
  destruct (after i) as [|c s]; [destruct state; simpl; repeat case_decide; congruence|].
  assert (c <> DQUOTE /\ c <> SQUOTE) as [??].
  { destruct Hq as [H1%not_elem_of_cons H2%not_elem_of_cons].
    by split; apply not_eq_sym; first [apply H1|apply H2]. }
  destruct (ParseToken_body state value _) as [t' v' i1|state' value' i1|state' value' i1] eqn:E.
  - revert E. unfold ParseToken_body, initial_whitespace; simpl.
    destruct state; simpl; repeat case_match; congruence.
  - destruct Hsuf as [d Hsuf]. pose proof (suffix_length _ _ Hsuf) as Hlen. simpl in *.
    eapply IH; [|done|..]; [lia|..].
    + revert E. unfold ParseToken_body, initial_whitespace; simpl.
      destruct state; simpl; repeat case_match; congruence.
    + revert E. unfold ParseToken_body, initial_whitespace; simpl.
      destruct state; simpl; repeat case_match; congruence.
    + apply (no_quotes_suffix _ (d :: after i1)); [by apply suffix_cons_r|].
      by eapply no_quotes_suffix.
  - destruct state'; simpl; repeat case_decide; congruence.
Qed.

(** ** A pass of the loop *)

(** What a pass may do once its token is read: go on with the same characters
    left, finish, or - where [Q] holds - leave the defined behaviour. *)
Definition pass_ok (Q : Prop) (p : parser) (r : outcome parse_pass) : Prop :=
  match r with
  | Ret (Next p') => parser_inv p' /\ after (config_file p') = after (config_file p)
  | Ret (Finished _ p') => wf_heap (heap p') /\ 0 < length (heap p')
  | Undef => Q
  | _ => False
  end.

Lemma Parse_normal_ok tok p :
  parser_inv p -> (0 <= bracketCtr p)%Z -> pass_ok False p (Parse_normal tok p).
Proof.
  intros Hp Hz. unfold Parse_normal. case_bool_decide; [|by split; apply Hp].
  destruct (after_normal (last_token_type p)) eqn:Hlast; simpl.
  - destruct (inv_last p Hp Hlast) as (c & l & Ht).
    destruct (inv_push_token p TOKEN_TYPE_NORMAL _ tok Hp Hz Ht ltac:(by destruct l))
      as (p' & -> & Hp' & Hf). simpl. by rewrite Hf.
  - destruct (inv_emplace p Hp Hz) as (p1 & l & -> & Hp1 & Hf1 & Hz1 & Ht1). simpl.
    destruct (inv_push_token p1 TOKEN_TYPE_NORMAL _ tok Hp1 ltac:(lia) Ht1 ltac:(by destruct l))
      as (p' & -> & Hp' & Hf). simpl. by rewrite Hf, Hf1.
Qed.

Lemma Parse_quoted_ok tok p :
  parser_inv p -> (0 <= bracketCtr p)%Z -> pass_ok True p (Parse_quoted tok p).
Proof.
  intros Hp Hz. unfold Parse_quoted. destruct (inv_file p Hp) as [Hg|Hf]; cycle 1.
  { unfold get, good at 1. rewrite Hf, orb_true_r. simpl.
    unfold good; simpl. rewrite orb_true_r; simpl. by split; apply Hp. }
  pose proof (good_bits _ Hg) as Hi. destruct (after (config_file p)) as [|c s] eqn:Ha.
  { rewrite Hi. simpl. by split; apply Hp. }
  rewrite Hi. simpl. destruct (after_quoted c); simpl; [|by split; apply Hp].
  set (p1 := with_file _ p).
  assert (Hp1 : parser_inv p1) by (apply inv_with_file; [done|by left]).
  destruct (inv_top p1 Hp1 Hz) as (a & st & stmts & Hst & Hat & Hl & Ht & _).
  destruct stmts as [|c' l].
  { unfold push_token, modify_top, stack_top, vec_at. rewrite Hst; simpl.
    simpl in Hl. by rewrite Hl. }
  destruct (inv_push_token p1 TOKEN_TYPE_QUOTED_STRING _ tok Hp1 Hz Ht ltac:(done))
    as (p' & -> & Hp' & Hf). simpl. rewrite Hf; simpl. split; [|done].
  by apply (inv_with_file _ _ Hp'); left.
Qed.

Lemma Parse_token_ok t tok p :
  parser_inv p -> (0 <= bracketCtr p)%Z ->
  pass_ok (t = TOKEN_TYPE_QUOTED_STRING) p (Parse_token t tok p).
Proof.
  intros Hp Hz. destruct t; simpl; try (by split; apply Hp).
  - by pose proof (Parse_normal_ok tok p Hp Hz); destruct (Parse_normal tok p) as [[]| | |].
  - unfold Parse_start_block. simpl.
    destruct (after_normal (last_token_type p)) eqn:Hlast; simpl; [|by split; apply Hp].
    destruct (inv_start_block p Hp Hz Hlast) as (p' & -> & Hp' & Hf).
    simpl. by rewrite Hf.
  - unfold Parse_end_block. simpl. case_bool_decide; [|by split; apply Hp].
    destruct (inv_end_block p Hp Hz) as (p' & -> & Hp' & Hf). simpl. by rewrite Hf.
  - done.
  - unfold Parse_statement_end.
    destruct (after_normal (last_token_type p)); simpl; [|by split; apply Hp].
    split; [|done]. by apply inv_with_last.
  - unfold Parse_eof. case_decide; [|case_bool_decide]; by split; apply Hp.
  - by pose proof (Parse_quoted_ok tok p Hp Hz); destruct (Parse_quoted tok p) as [[]| | |].
Qed.

(** The step lemma of the loop. *)
Lemma Parse_body_ok p :
  parser_inv p ->
  match Parse_body p with
  | Ret (Next p') =>
      parser_inv p' /\ after (config_file p') `suffix_of` after (config_file p)
      /\ length (after (config_file p')) < length (after (config_file p))
  | Ret (Finished _ p') => wf_heap (heap p') /\ 0 < length (heap p')
  | Undef => ~ no_quotes (after (config_file p))
  | _ => False
  end.
Proof.
  intros Hp. unfold Parse_body. destruct (Z.ltb_spec (bracketCtr p) 0) as [|Hz].
  { by split; apply Hp. }
  destruct (ParseToken_total (config_file p) []) as [[[t tok] i] Ht]. rewrite Ht; simpl.
  destruct (run_token_after _ _ _ _ _ _ (inv_file p Hp) Ht) as [Hr Hsuf].
  assert (Hp1 : parser_inv (with_file i p)) by by apply inv_with_file.
  pose proof (Parse_token_ok t tok _ Hp1 Hz) as Hok.
  destruct (Parse_token t tok (with_file i p)) as [[p'|b p']| | |] eqn:E; simpl in *; try done.
  - destruct Hok as [? ->]. split; [done|]. split; [done|].
    destruct (ParseToken_progress _ _ _ _ (inv_file p Hp) Ht) as [->|[->|?]]; [..|done].
    + simpl in E. unfold Parse_eof in E. by case_decide; [|case_bool_decide].
    + done.
  - subst. intros Hq. by eapply run_token_quoted in Ht.
Qed.

(** ** The loop *)

Lemma Parse_loop_ok fuel p :
  parser_inv p -> length (after (config_file p)) < fuel ->
  match Parse_loop fuel p with
  | Ret (_, p') => wf_heap (heap p') /\ 0 < length (heap p')
  | Undef => ~ no_quotes (after (config_file p))
  | _ => False
  end.
Proof.
  revert p. induction fuel as [|fuel IH]; intros p Hp Hlt; [lia|]. simpl.
  pose proof (Parse_body_ok p Hp) as Hok.
  destruct (Parse_body p) as [[p'|b p']| | |]; simpl; try done.
  destruct Hok as (Hp' & Hsuf & Hlen). specialize (IH p' Hp' ltac:(lia)).
  destruct (Parse_loop fuel p') as [[]| | |]; try done.
  intros Hq. apply IH. by eapply no_quotes_suffix.
Qed.

Lemma Parse_loop_fuel f1 f2 p :
  parser_inv p -> length (after (config_file p)) < f1 -> length (after (config_file p)) < f2 ->
  Parse_loop f1 p = Parse_loop f2 p.
Proof.
  revert f2 p. induction f1 as [|f1 IH]; intros [|f2] p Hp ??; try lia. simpl.
  pose proof (Parse_body_ok p Hp) as Hok.
  destruct (Parse_body p) as [[p'|b p']| | |]; simpl; try done.
  destruct Hok as (? & ? & ?). apply IH; [done|lia..].
Qed.

Lemma Parse_outcome (s : str) :
  match Parse (open_stream s) with
  | Ret (_, cfg) => is_Some cfg
  | Undef => ~ no_quotes s
  | Throw _ | NoFuel => False
  end.
Proof.
  unfold Parse. pose proof (Parse_loop_ok (S (length s)) (parser_init (open_stream s))
    (parser_inv_init _ (open_stream_readable s)) ltac:(simpl; lia)) as Hok.
  simpl after in *.
  destruct (Parse_loop _ _) as [[b p]| | |]; simpl; try done.
  destruct Hok. apply read_config_total; [done..|lia].
Qed.

(** C21: [Parse] always terminates and never throws.  On every input it either
    returns, and then the out-parameter holds a tree, or it leaves the defined
    behaviour of C++, which needs a quote character in the input. *)
Theorem Parse_total (s : str) :
  match Parse (open_stream s) with
  | Ret (_, cfg) => is_Some cfg
  | Undef => ~ no_quotes s
  | Throw _ | NoFuel => False
  end.
Proof. apply Parse_outcome. Qed.
