(* ===== verification/ConfigRoundtrip.v ===== *)
(** * Printing a configuration and parsing it back

    [render_config] writes a configuration the way the parser reads it.
    [Parse_render] is the round trip: the parser accepts what is written and
    builds the same tree.  The last theorems are about what the parser
    accepts or rejects against its intent. *)
From S2P Require Import Prelude CppStd ConfigLexer ConfigParser.

(** ** Printing *)

(** A token that was quoted is kept with its quotes. *)
Definition quoted_token (t : str) : bool :=
  match t with
  | c :: r => bool_decide (c = DQUOTE) && bool_decide (last r = Some DQUOTE)
              && forallb (fun c => negb (bool_decide (c = BSLASH))) (but_last r)
  | [] => false
  end.

Definition printable_token (t : str) : bool := normal_token t || quoted_token t.

Definition render_token (t : str) : str :=
  if normal_token t then t
  else DQUOTE :: escape_string (but_last (tail t)) ++ [DQUOTE].

Definition render_tokens (ts : list str) : str := ts ≫= fun t => render_token t ++ [SP].

Fixpoint render_statement (s : NginxConfigStatement) : str :=
  match s with
  | Statement ts child =>
      render_tokens ts ++
      match child with
      | None => [";"%char; LF]
      | Some cfg => "{"%char :: LF :: (cfg ≫= render_statement) ++ ["}"%char; LF]
      end
  end.

Definition render_config (cfg : NginxConfig) : str := cfg ≫= render_statement.

(** A statement starts with an unquoted token. *)
Fixpoint printable_statement (s : NginxConfigStatement) : bool :=
  match s with
  | Statement ts child =>
      match ts with
      | [] => false
      | t :: ts => normal_token t && forallb printable_token ts
      end &&
      match child with None => true | Some cfg => forallb printable_statement cfg end
  end.

Definition printable_config (cfg : NginxConfig) : bool := forallb printable_statement cfg.

(** ** Induction on configurations *)

Fixpoint statement_induction (P : NginxConfigStatement -> Prop)
    (Hleaf : forall ts, P (Statement ts None))
    (Hblock : forall ts cfg, Forall P cfg -> P (Statement ts (Some cfg)))
    (s : NginxConfigStatement) : P s :=
  match s with
  | Statement ts None => Hleaf ts
  | Statement ts (Some cfg) =>
      Hblock ts cfg ((fix go (l : NginxConfig) : Forall P l :=
        match l with
        | [] => @List.Forall_nil _ P
        | x :: l => @List.Forall_cons _ P x l (statement_induction P Hleaf Hblock x) (go l)
        end) cfg)
  end.

(** ** Reading trees in growing stores *)

Lemma read_config_mono n m h a cfg :
  n <= m -> read_config n h a = Some cfg -> read_config m h a = Some cfg.
Proof.
  revert m a cfg. induction n as [|n IH]; intros [|m] a cfg Hm; try done; [lia|].
  simpl. destruct (h !! a) as [stmts|]; simpl; [|done]. intros H.
  apply mapM_Some in H. apply mapM_Some. eapply Forall2_impl; [exact H|].
  intros c s. simpl. destruct (child_block_ c) as [b|]; [|done].
  intros (cfg' & Hb & ?)%bind_Some. apply bind_Some. exists cfg'.
  split; [|done]. apply IH; [lia|done].
Qed.

(** Only the addresses above the root of a tree matter for it. *)
Lemma read_config_frame n h h' a cfg :
  wf_heap h -> (forall x, a <= x -> x < length h -> h' !! x = h !! x) ->
  read_config n h a = Some cfg -> read_config n h' a = Some cfg.
Proof.
  intros Hh. revert a cfg. induction n as [|n IH]; intros a cfg Hx; [done|]. simpl.
  intros (stmts & Ha & H)%bind_Some. rewrite Hx by (try lia; by eapply lookup_lt_Some).
  rewrite Ha; simpl. apply mapM_Some in H. apply mapM_Some.
  pose proof (Hh _ _ Ha) as Hc. clear Ha.
  induction H as [|c s stmts cfg Hcs H IHl]; [done|].
  apply Forall_cons in Hc as [Hc Hcl]. constructor; [|by apply IHl].
  revert Hcs; simpl. destruct (child_block_ c) as [b|] eqn:E; [|done].
  intros (cfg' & Hb & ?)%bind_Some. apply bind_Some. exists cfg'. split; [|done].
  apply IH; [|done]. intros x ??. apply Hx; [|done]. specialize (Hc b E). lia.
Qed.

(** A statement of the store holds a statement of the tree. *)
Definition stmt_reads (h : list (list cell)) (c : cell) (s : NginxConfigStatement) : Prop :=
  tokens_ c = tokens_of s /\
  match child_block_ c, child_of s with
  | None, None => True
  | Some b, Some cfg => exists n, read_config n h b = Some cfg
  | _, _ => False
  end.

Lemma stmts_read h cs cfg a :
  h !! a = Some cs -> Forall2 (stmt_reads h) cs cfg ->
  exists n, read_config n h a = Some cfg.
Proof.
  intros Ha H.
  cut (exists n, mapM (fun c => match child_block_ c with
                     | None => Some (Statement (tokens_ c) None)
                     | Some b => cfg ← read_config n h b;
                                 Some (Statement (tokens_ c) (Some cfg))
                     end) cs = Some cfg).
  { intros [n Hn]. exists (S n). simpl. by rewrite Ha. }
  clear Ha. induction H as [|c s cs cfg Hcs H IH]; [by exists 0|].
  destruct IH as [n Hn]. destruct c as [ts ch], s as [ts' ch'].
  destruct Hcs as [Hts Hch]; simpl in *; subst.
  destruct ch as [b|], ch' as [cfg'|]; try done; simpl.
  - destruct Hch as [m Hm]. exists (n `max` m).
    rewrite (read_config_mono m _ _ _ _ (Nat.le_max_r _ _) Hm); simpl.
    erewrite mapM_Some_2; [done|]. apply mapM_Some in Hn.
    eapply Forall2_impl; [exact Hn|]. intros c s; simpl.
    destruct (child_block_ c) as [b'|]; [|done].
    intros (cfg1 & Hb & ?)%bind_Some. apply bind_Some. exists cfg1. split; [|done].
    eapply read_config_mono; [|done]. lia.
  - exists n. by rewrite Hn.
Qed.

(** [h'] is [h] after work on the configuration at [a] and on new ones. *)
Definition extends (a : nat) (h h' : list (list cell)) : Prop :=
  length h <= length h' /\ forall x, x <> a -> x < length h -> h' !! x = h !! x.

Lemma extends_refl a h : extends a h h.
Proof. split; [lia|done]. Qed.

Lemma extends_trans a h1 h2 h3 : extends a h1 h2 -> extends a h2 h3 -> extends a h1 h3.
Proof.
  intros [L1 E1] [L2 E2]. split; [lia|]. intros x Hx Hlt.
  rewrite E2 by (done || lia). by apply E1.
Qed.

Lemma extends_insert a h stmts : extends a h (<[a := stmts]> h).
Proof.
  split; [by rewrite length_insert|]. intros x Hx _. by rewrite list_lookup_insert_ne.
Qed.

Lemma stmt_reads_extends a h h' c s :
  wf_heap h -> child_ok a (length h) c -> extends a h h' ->
  stmt_reads h c s -> stmt_reads h' c s.
Proof.
  intros Hh Hc [_ Hext] [Ht Hch]. split; [done|].
  destruct (child_block_ c) as [b|] eqn:E, (child_of s) as [cfg|]; try done.
  destruct Hch as [n Hn]. exists n. eapply read_config_frame; [done| |done].
  intros x Hx Hlt. apply Hext; [|done]. specialize (Hc b E). lia.
Qed.

(** ** Steps of the parser *)

Definition step (p p' : parser) : Prop := Parse_body p = Ret (Next p').

Lemma Parse_body_token p t tok i :
  (0 <= bracketCtr p)%Z -> ParseToken (config_file p) [] = Ret (t, tok, i) ->
  Parse_body p = Parse_token t tok (with_file i p).
Proof.
  intros Hz Ht. unfold Parse_body.
  destruct (Z.ltb_spec (bracketCtr p) 0); [lia|]. by rewrite Ht; simpl.
Qed.

Lemma step_token p t tok i p' :
  (0 <= bracketCtr p)%Z -> ParseToken (config_file p) [] = Ret (t, tok, i) ->
  Parse_token t tok (with_file i p) = Ret (Next p') -> step p p'.
Proof. intros Hz Ht Hp. unfold step. by rewrite (Parse_body_token p t tok i). Qed.

(** Enough fuel for the characters left gives the result, wherever the run
    has got to. *)
Lemma rtc_step_loop p p' f f' :
  rtc step p p' -> parser_inv p ->
  length (after (config_file p)) < f -> length (after (config_file p')) < f' ->
  Parse_loop f p = Parse_loop f' p' /\ parser_inv p'.
Proof.
  intros H. revert f. induction H as [p|p p1 p' Hs H IH]; intros f Hp Hf Hf'.
  - split; [|done]. by apply Parse_loop_fuel.
  - pose proof (Parse_body_ok p Hp) as Hok. unfold step in Hs. rewrite Hs in Hok.
    destruct Hok as (Hp1 & _ & Hlen). destruct f as [|f]; [lia|].
    destruct (IH f) as [E ?]; [done|lia|done|]. split; [|done].
    cbn [Parse_loop]. by rewrite Hs; simpl.
Qed.

Section steps.
Implicit Types (h : list (list cell)) (a : nat) (st : list nat) (k : Z).
Implicit Types (b s sp : str).

Abbreviation spaces sp := (forallb initial_space sp = true).

(** The last token types after which a new statement begins. *)
Definition starts_statement (t : TokenType) : Prop :=
  t = TOKEN_TYPE_START \/ t = TOKEN_TYPE_STATEMENT_END
  \/ t = TOKEN_TYPE_START_BLOCK \/ t = TOKEN_TYPE_END_BLOCK.

Lemma starts_statement_tests t :
  starts_statement t ->
  after_normal t = false /\
  bool_decide (t ∈ [TOKEN_TYPE_START; TOKEN_TYPE_STATEMENT_END; TOKEN_TYPE_START_BLOCK;
                    TOKEN_TYPE_END_BLOCK; TOKEN_TYPE_NORMAL; TOKEN_TYPE_QUOTED_STRING]) = true.
Proof. by intros [->|[->|[->| ->]]]. Qed.

Lemma after_normal_tests t :
  after_normal t = true ->
  bool_decide (t ∈ [TOKEN_TYPE_START; TOKEN_TYPE_STATEMENT_END; TOKEN_TYPE_START_BLOCK;
                    TOKEN_TYPE_END_BLOCK; TOKEN_TYPE_NORMAL; TOKEN_TYPE_QUOTED_STRING]) = true.
Proof. by destruct t. Qed.

Lemma modify_top_parser f h a st last k i stmts stmts' :
  h !! a = Some stmts -> f stmts = Ret stmts' ->
  modify_top f (Parser h (a :: st) last k i) = Ret (Parser (<[a := stmts']> h) (a :: st) last k i).
Proof. intros. by erewrite modify_top_spec. Qed.

Lemma step_first_token h a st last k b sp t d s stmts :
  h !! a = Some stmts -> starts_statement last -> (0 <= k)%Z -> spaces sp ->
  normal_token t = true -> ends_normal d = true ->
  exists b', step (Parser h (a :: st) last k (rd b (sp ++ t ++ d :: s)))
    (Parser (<[a := stmts ++ [Cell [t] None]]> h) (a :: st) TOKEN_TYPE_NORMAL k (rd b' (d :: s))).
Proof.
  intros Ha Hlast Hk Hsp Ht Hd. eexists. eapply step_token; [done|by apply ParseToken_normal|].
  assert (a < length h) by by eapply lookup_lt_Some.
  simpl. unfold Parse_normal, with_file. simpl.
  destruct (starts_statement_tests _ Hlast) as [-> ->].
  unfold emplace_statement, push_token. erewrite modify_top_parser by done. simpl.
  erewrite modify_top_parser; [|by apply list_lookup_insert_eq|by apply vec_modify_back_snoc].
  simpl. by rewrite list_insert_insert_eq.
Qed.

Lemma quoted_token_inv t :
  quoted_token t = true -> exists content, t = DQUOTE :: content ++ [DQUOTE] /\
    forallb (fun c => negb (bool_decide (c = BSLASH))) content = true.
Proof.
  destruct t as [|c r]; [done|]. simpl.
  intros [[->%bool_decide_eq_true Hl%bool_decide_eq_true]%andb_true_iff Hf]%andb_true_iff.
  destruct (snoc_inv r) as [->|(l & x & ->)]; [done|].
  rewrite last_snoc in Hl. rewrite but_last_snoc in Hf. simplify_eq. by exists l.
Qed.

Lemma quoted_not_normal content : normal_token (DQUOTE :: content) = false.
Proof. done. Qed.

(** A quoted token goes to the last statement whatever came before it. *)
Lemma step_quoted h a st last k b sp content d s stmts ts ch :
  h !! a = Some (stmts ++ [Cell ts ch]) -> (0 <= k)%Z -> spaces sp ->
  forallb (fun c => negb (bool_decide (c = BSLASH))) content = true ->
  after_quoted d = true ->
  exists b', step
    (Parser h (a :: st) last k (rd b (sp ++ DQUOTE :: escape_string content ++ DQUOTE :: d :: s)))
    (Parser (<[a := stmts ++ [Cell (ts ++ [DQUOTE :: content ++ [DQUOTE]]) ch]]> h) (a :: st)
       TOKEN_TYPE_QUOTED_STRING k (rd b' (d :: s))).
Proof.
  intros Ha Hk Hsp Hc Hd.
  destruct (run_double_quote content [DQUOTE] (DQUOTE :: reverse sp ++ b) (d :: s) Hc)
    as [b' Hp].
  eexists. eapply step_token; [done| |].
  { simpl. rewrite ParseToken_run, run_spaces, run_initial by done. exact Hp. }
  simpl. unfold Parse_quoted, with_file; simpl. rewrite Hd; simpl.
  unfold push_token. by erewrite modify_top_parser by (done || apply vec_modify_back_snoc).
Qed.

Lemma step_next_token h a st last k b sp t d s stmts ts ch :
  h !! a = Some (stmts ++ [Cell ts ch]) -> after_normal last = true -> (0 <= k)%Z ->
  spaces sp -> printable_token t = true -> after_quoted d = true -> ends_normal d = true ->
  exists b' last', after_normal last' = true /\
    step (Parser h (a :: st) last k (rd b (sp ++ render_token t ++ d :: s)))
      (Parser (<[a := stmts ++ [Cell (ts ++ [t]) ch]]> h) (a :: st) last' k (rd b' (d :: s))).
Proof.
  intros Ha Hlast Hk Hsp Ht Hd Hn. unfold render_token.
  destruct (normal_token t) eqn:Hnt.
  - eexists _, TOKEN_TYPE_NORMAL. split; [done|].
    eapply step_token; [done|by apply ParseToken_normal|]. simpl.
    unfold Parse_normal, with_file; simpl.
    rewrite (after_normal_tests _ Hlast), Hlast; simpl. unfold push_token.
    by erewrite modify_top_parser by (done || apply vec_modify_back_snoc).
  - unfold printable_token in Ht. rewrite Hnt in Ht; simpl in Ht.
    destruct (quoted_token_inv t Ht) as (content & -> & Hc). simpl tail.
    rewrite but_last_snoc.
    destruct (step_quoted h a st last k b sp content d s stmts ts ch) as [b' Hs]; try done.
    exists b', TOKEN_TYPE_QUOTED_STRING. split; [done|]. revert Hs. simpl.
    by rewrite <-app_assoc.
Qed.

Lemma steps_tokens ts0 h a st last k b s stmts ch ts :
  h !! a = Some (stmts ++ [Cell ts0 ch]) -> after_normal last = true -> (0 <= k)%Z ->
  forallb printable_token ts = true ->
  exists b' last', after_normal last' = true /\
    rtc step (Parser h (a :: st) last k (rd b (SP :: render_tokens ts ++ s)))
      (Parser (<[a := stmts ++ [Cell (ts0 ++ ts) ch]]> h) (a :: st) last' k (rd b' (SP :: s))).
Proof.
  revert ts0 h last b. induction ts as [|t ts IH]; intros ts0 h last b Ha Hlast Hk Hts.
  - exists b, last. split; [done|]. rewrite app_nil_r, list_insert_id by done. simpl. reflexivity.
  - simpl in Hts. apply andb_true_iff in Hts as [Ht Hts].
    assert (a < length h) by by eapply lookup_lt_Some.
    destruct (step_next_token h a st last k b [SP] t SP (render_tokens ts ++ s) stmts ts0 ch)
      as (b1 & last1 & Hl1 & Hs); try done.
    destruct (IH (ts0 ++ [t]) (<[a := stmts ++ [Cell (ts0 ++ [t]) ch]]> h) last1 b1)
      as (b' & last' & Hl' & Hr); try done; [by apply list_lookup_insert_eq|].
    exists b', last'. split; [done|]. eapply rtc_l.
    + revert Hs. simpl. unfold render_tokens. simpl. by rewrite <-!app_assoc.
    + rewrite list_insert_insert_eq in Hr. by rewrite <-app_assoc in Hr.
Qed.

Lemma step_statement_end h a st last k b sp s :
  after_normal last = true -> (0 <= k)%Z -> spaces sp ->
  exists b', step (Parser h (a :: st) last k (rd b (sp ++ ";"%char :: s)))
                  (Parser h (a :: st) TOKEN_TYPE_STATEMENT_END k (rd b' s)).
Proof.
  intros Hlast Hk Hsp. eexists.
  eapply step_token; [done|by apply ParseToken_punctuation|]. simpl.
  unfold Parse_statement_end, with_file; simpl. by rewrite Hlast.
Qed.

Lemma step_start_block h a st last k b sp s stmts ts :
  h !! a = Some (stmts ++ [Cell ts None]) ->
  after_normal last = true -> (0 <= k)%Z -> spaces sp ->
  exists b', step (Parser h (a :: st) last k (rd b (sp ++ "{"%char :: s)))
    (Parser (<[a := stmts ++ [Cell ts (Some (length h))]]> (h ++ [[]])) (length h :: a :: st)
       TOKEN_TYPE_START_BLOCK (k + 1) (rd b' s)).
Proof.
  intros Ha Hlast Hk Hsp. eexists.
  eapply step_token; [done|by apply ParseToken_punctuation|]. simpl.
  unfold Parse_start_block, with_file, start_block; simpl. rewrite Hlast; simpl.
  unfold with_heap; simpl.
  erewrite modify_top_parser by (by apply lookup_app_l_Some || apply vec_modify_back_snoc).
  done.
Qed.

Lemma step_end_block h a st last k b sp s :
  last ∈ [TOKEN_TYPE_STATEMENT_END; TOKEN_TYPE_END_BLOCK; TOKEN_TYPE_START_BLOCK] ->
  (0 <= k)%Z -> spaces sp ->
  exists b', step (Parser h (a :: st) last k (rd b (sp ++ "}"%char :: s)))
                  (Parser h st TOKEN_TYPE_END_BLOCK (k - 1) (rd b' s)).
Proof.
  intros Hlast Hk Hsp. eexists.
  eapply step_token; [done|by apply ParseToken_punctuation|]. simpl.
  unfold Parse_end_block, with_file, with_ctr; simpl. by rewrite bool_decide_true by done.
Qed.

Lemma rtc_step_inv p p' : rtc step p p' -> parser_inv p -> parser_inv p'.
Proof.
  intros H Hp.
  by apply (rtc_step_loop p p' (S (length (after (config_file p))))
             (S (length (after (config_file p')))) H Hp); lia.
Qed.

(** What the parser does with the text of statements, from a state in which a
    statement can begin: it adds to the configuration on top cells that hold
    the statements, and changes nothing else that was there. *)
Definition statements_parsed (ss : NginxConfig) (text : str) : Prop :=
  forall h a st last k b sp s stmts,
  parser_inv (Parser h (a :: st) last k (rd b (sp ++ text ++ s))) ->
  h !! a = Some stmts -> starts_statement last -> (0 <= k)%Z -> spaces sp ->
  exists h' last' b' sp' cs,
    rtc step (Parser h (a :: st) last k (rd b (sp ++ text ++ s)))
             (Parser h' (a :: st) last' k (rd b' (sp' ++ s)))
    /\ spaces sp' /\ extends a h h' /\ h' !! a = Some (stmts ++ cs)
    /\ Forall2 (stmt_reads h') cs ss
    /\ (last' = last \/ last' = TOKEN_TYPE_STATEMENT_END \/ last' = TOKEN_TYPE_END_BLOCK).

Lemma statements_parsed_nil : statements_parsed [] [].
Proof.
  intros h a st last k b sp s stmts _ Ha Hlast Hk Hsp.
  exists h, last, b, sp, []. rewrite app_nil_r. simpl.
  repeat split; auto using extends_refl, rtc_refl.
Qed.

Lemma statements_parsed_app ss1 ss2 t1 t2 :
  statements_parsed ss1 t1 -> statements_parsed ss2 t2 ->
  statements_parsed (ss1 ++ ss2) (t1 ++ t2).
Proof.
  intros H1 H2 h a st last k b sp s stmts Hp Ha Hlast Hk Hsp. rewrite <-app_assoc in *.
  destruct (H1 h a st last k b sp (t2 ++ s) stmts)
    as (h1 & last1 & b1 & sp1 & cs1 & R1 & Hsp1 & E1 & Ha1 & F1 & L1); try done.
  pose proof (rtc_step_inv _ _ R1 Hp) as Hp1.
  destruct (H2 h1 a st last1 k b1 sp1 s (stmts ++ cs1))
    as (h2 & last2 & b2 & sp2 & cs2 & R2 & Hsp2 & E2 & Ha2 & F2 & L2); try done.
  { destruct L1 as [->|[->| ->]]; unfold starts_statement; auto. }
  exists h2, last2, b2, sp2, (cs1 ++ cs2). rewrite (app_assoc stmts).
  split; [by etrans|]. split; [done|]. split; [by eapply extends_trans|].
  split; [done|]. split; [|by destruct L2 as [->|[->| ->]]; auto].
  apply Forall2_app; [|done].
  pose proof (inv_heap _ Hp1) as Hw. simpl in Hw. pose proof (Hw _ _ Ha1) as Hc.
  apply Forall_app in Hc as [_ Hc]. clear -F1 Hc Hw E2.
  induction F1; [constructor|]. apply Forall_cons in Hc as [??].
  constructor; [by eapply stmt_reads_extends|auto].
Qed.

(** The tokens a statement starts with. *)
Lemma steps_statement_tokens h a st last k b sp s stmts ts :
  h !! a = Some stmts -> starts_statement last -> (0 <= k)%Z -> spaces sp ->
  match ts with [] => false | t :: ts => normal_token t && forallb printable_token ts end = true ->
  exists b' last', after_normal last' = true /\
    rtc step (Parser h (a :: st) last k (rd b (sp ++ render_tokens ts ++ s)))
      (Parser (<[a := stmts ++ [Cell ts None]]> h) (a :: st) last' k (rd b' (SP :: s))).
Proof.
  intros Ha Hlast Hk Hsp Hts. destruct ts as [|t ts]; [done|].
  apply andb_true_iff in Hts as [Ht Hts].
  assert (a < length h) by by eapply lookup_lt_Some.
  destruct (step_first_token h a st last k b sp t SP (render_tokens ts ++ s) stmts)
    as (b1 & S1); try done.
  destruct (steps_tokens [t] (<[a := stmts ++ [Cell [t] None]]> h) a st TOKEN_TYPE_NORMAL k b1 s
    stmts None ts) as (b' & last' & Hl & R); try done; [by apply list_lookup_insert_eq|].
  exists b', last'. split; [done|]. rewrite list_insert_insert_eq in R.
  eapply rtc_l; [|exact R].
  assert (render_token t = t) as Hr by (unfold render_token; by rewrite Ht).
  revert S1. unfold render_tokens. simpl. by rewrite Hr, <-!app_assoc.
Qed.

Lemma statement_parsed_leaf ts :
  printable_statement (Statement ts None) = true ->
  statements_parsed [Statement ts None] (render_statement (Statement ts None)).
Proof.
  simpl. rewrite andb_true_r. intros Hts h a st last k b sp s stmts Hp Ha Hlast Hk Hsp.
  assert (a < length h) by by eapply lookup_lt_Some. rewrite <-app_assoc.
  destruct (steps_statement_tokens h a st last k b sp (";"%char :: LF :: s) stmts ts)
    as (b1 & last1 & Hl1 & R1); try done.
  destruct (step_statement_end (<[a := stmts ++ [Cell ts None]]> h) a st last1 k b1 [SP] (LF :: s))
    as (b2 & S2); try done.
  eexists _, _, b2, [LF], [Cell ts None].
  split; [etrans; [exact R1|by apply rtc_once]|]. split; [done|].
  split; [apply extends_insert|]. split; [by apply list_lookup_insert_eq|].
  split; [|by eauto]. by repeat constructor.
Qed.

Lemma render_block_text sp ts cfg s :
  sp ++ render_statement (Statement ts (Some cfg)) ++ s =
  sp ++ render_tokens ts ++ "{"%char :: LF :: render_config cfg ++ "}"%char :: LF :: s.
Proof. simpl. rewrite <-app_assoc. simpl. by rewrite <-app_assoc. Qed.

(** A block begun in [h1], what was appended to it, and the store it began in. *)
Lemma extends_block (h h3 : list (list cell)) a x y :
  a < length h ->
  extends (length h) (<[a := y]> (<[a := x]> h ++ [[]])) h3 -> extends a h h3.
Proof.
  intros Ha [L E]. rewrite length_insert, length_app, length_insert in L, E. simpl in L, E.
  split; [lia|]. intros x' Hx Hxl. rewrite E by lia.
  rewrite list_lookup_insert_ne, lookup_app_l, list_lookup_insert_ne; try done.
  by rewrite length_insert.
Qed.

Lemma statement_parsed_block ts cfg :
  printable_statement (Statement ts (Some cfg)) = true ->
  statements_parsed cfg (render_config cfg) ->
  statements_parsed [Statement ts (Some cfg)] (render_statement (Statement ts (Some cfg))).
Proof.
  intros [Hts _]%andb_true_iff Hcfg h a st last k b sp s stmts Hp Ha Hlast Hk Hsp.
  assert (Hlt : a < length h) by by eapply lookup_lt_Some.
  rewrite render_block_text in *.
  destruct (steps_statement_tokens h a st last k b sp
    ("{"%char :: LF :: render_config cfg ++ "}"%char :: LF :: s) stmts ts)
    as (b1 & last1 & Hl1 & R1); try done.
  set (h1 := <[a := stmts ++ [Cell ts None]]> h) in *.
  assert (Ha1 : h1 !! a = Some (stmts ++ [Cell ts None])) by by apply list_lookup_insert_eq.
  destruct (step_start_block h1 a st last1 k b1 [SP] (LF :: render_config cfg ++ "}"%char :: LF :: s)
    stmts ts) as (b2 & S2); try done.
  assert (Hn : length h1 = length h) by apply length_insert. rewrite Hn in S2.
  set (h2 := <[a := stmts ++ [Cell ts (Some (length h))]]> (h1 ++ [[]])) in *.
  pose proof (rtc_step_inv _ _ (rtc_r _ _ _ R1 S2) Hp) as Hp2.
  assert (Ha2 : h2 !! a = Some (stmts ++ [Cell ts (Some (length h))])).
  { apply list_lookup_insert_eq. rewrite length_app. simpl. lia. }
  assert (Hn2 : h2 !! length h = Some []).
  { unfold h2. rewrite list_lookup_insert_ne by lia. rewrite <-Hn.
    by apply list_lookup_middle. }
  destruct (Hcfg h2 (length h) (a :: st) TOKEN_TYPE_START_BLOCK (k + 1)%Z b2 [LF]
    ("}"%char :: LF :: s) []) as (h3 & last3 & b3 & sp3 & cs & R3 & Hsp3 & E3 & Hn3 & F3 & L3);
    try done; [by unfold starts_statement; auto|lia|].
  destruct (step_end_block h3 (length h) (a :: st) last3 (k + 1) b3 sp3 (LF :: s))
    as (b4 & S4); [|lia|done|].
  { destruct L3 as [->|[->| ->]]; set_solver. }
  replace (k + 1 - 1)%Z with k in S4 by lia.
  eexists h3, TOKEN_TYPE_END_BLOCK, b4, [LF], [Cell ts (Some (length h))].
  split; [etrans; [exact R1|]; eapply rtc_l; [exact S2|]; eapply rtc_r; [exact R3|exact S4]|].
  split; [done|]. split.
  { eapply extends_block; [done|exact E3]. }
  split.
  { destruct E3 as [_ E]. rewrite E; [done|lia|]. unfold h2.
    rewrite length_insert, length_app. simpl. lia. }
  split; [|by auto]. apply Forall2_cons. split; [|constructor]. split; [done|].
  simpl. by eapply stmts_read.
Qed.

Lemma statement_parsed (x : NginxConfigStatement) :
  printable_statement x = true -> statements_parsed [x] (render_statement x).
Proof.
  induction x as [ts|ts cfg IH] using statement_induction.
  - apply statement_parsed_leaf.
  - intros Hs. apply statement_parsed_block; [done|].
    simpl in Hs. apply andb_true_iff in Hs as [_ Hcfg]. clear -IH Hcfg.
    induction IH as [|x cfg Hx IH IHl]; [apply statements_parsed_nil|].
    simpl in Hcfg. apply andb_true_iff in Hcfg as [??].
    change (render_config (x :: cfg)) with (render_statement x ++ render_config cfg).
    apply (statements_parsed_app [x] cfg); auto.
Qed.

Lemma config_parsed cfg :
  printable_config cfg = true -> statements_parsed cfg (render_config cfg).
Proof.
  induction cfg as [|s cfg IH]; [intros _; apply statements_parsed_nil|].
  simpl. intros [Hs Hcfg]%andb_true_iff.
  change (render_config (s :: cfg)) with (render_statement s ++ render_config cfg).
  apply (statements_parsed_app [s] cfg); [by apply statement_parsed|by apply IH].
Qed.
End steps.

(** ** Properties *)

Lemma Parse_of_steps text p' r pf :
  rtc step (parser_init (open_stream text)) p' -> Parse_body p' = Ret (Finished r pf) ->
  Parse (open_stream text) = Ret (r, read_config (length (heap pf)) (heap pf) 0).
Proof.
  intros R Hb. unfold Parse.
  destruct (rtc_step_loop _ _ (S (length (after (open_stream text))))
    (S (length (after (config_file p')))) R
    (parser_inv_init _ (open_stream_readable text))) as [-> _]; [simpl; lia..|].
  cbn [Parse_loop]. by rewrite Hb; simpl.
Qed.

Lemma Parse_of_steps_undefined text p' :
  rtc step (parser_init (open_stream text)) p' -> Parse_body p' = Undef ->
  Parse (open_stream text) = Undef.
Proof.
  intros R Hb. unfold Parse.
  destruct (rtc_step_loop _ _ (S (length (after (open_stream text))))
    (S (length (after (config_file p')))) R
    (parser_inv_init _ (open_stream_readable text))) as [-> _]; [simpl; lia..|].
  cbn [Parse_loop]. by rewrite Hb; simpl.
Qed.

Lemma read_root h cs cfg :
  wf_heap h -> h !! 0 = Some cs -> Forall2 (stmt_reads h) cs cfg ->
  read_config (length h) h 0 = Some cfg.
Proof.
  intros Hh Hcs H. assert (0 < length h) by by eapply lookup_lt_Some.
  destruct (stmts_read _ _ _ _ Hcs H) as [n Hn].
  destruct (read_config_total h (length h) 0 Hh ltac:(done) ltac:(lia)) as [cfg' H'].
  pose proof (read_config_mono _ (n `max` length h) _ _ _ (Nat.le_max_l _ _) Hn).
  pose proof (read_config_mono _ (n `max` length h) _ _ _ (Nat.le_max_r _ _) H').
  congruence.
Qed.

(** The parser has read a whole printed configuration and has [s] left. *)
Lemma config_parsed_root cfg sp s :
  printable_config cfg = true -> forallb initial_space sp = true ->
  exists h last b sp' cs,
    rtc step (parser_init (open_stream (sp ++ render_config cfg ++ s)))
             (Parser h [0] last 0 (rd b (sp' ++ s)))
    /\ forallb initial_space sp' = true
    /\ read_config (length h) h 0 = Some cfg
    /\ (last ∈ [TOKEN_TYPE_STATEMENT_END; TOKEN_TYPE_END_BLOCK; TOKEN_TYPE_START])
    /\ h !! 0 = Some cs.
Proof.
  intros Hcfg Hsp.
  pose proof (parser_inv_init (open_stream (sp ++ render_config cfg ++ s)) (or_introl eq_refl)) as Hp.
  destruct (config_parsed cfg Hcfg [[]] 0 [] TOKEN_TYPE_START 0%Z [] sp s [] Hp)
    as (h & last & b & sp' & cs & R & Hsp' & _ & Hcs & F & L); try done.
  { by left. }
  exists h, last, b, sp', cs. split; [exact R|]. split; [done|].
  pose proof (rtc_step_inv _ _ R Hp) as Hp'. split; [by apply (read_root _ cs); [apply Hp'|..]|].
  split; [|done]. destruct L as [->|[->| ->]]; set_solver.
Qed.

Lemma Parse_rendered (cfg : NginxConfig) (sp sp' : str) :
  printable_config cfg = true ->
  forallb initial_space sp = true -> forallb initial_space sp' = true ->
  Parse (open_stream (sp ++ render_config cfg ++ sp')) = Ret (true, Some cfg).
Proof.
  intros Hcfg Hsp Hsp'.
  destruct (config_parsed_root cfg sp sp' Hcfg Hsp)
    as (h & last & b & sp1 & cs & R & Hsp1 & Hread & Hlast & _).
  rewrite (Parse_of_steps _ _ true
    (Parser h [0] last 0 (Istream (reverse (sp1 ++ sp') ++ b) [] true true false)) R).
  { simpl. by rewrite Hread. }
  erewrite Parse_body_token; [|done|apply ParseToken_eof; by rewrite forallb_app, Hsp1, Hsp'].
  simpl. unfold Parse_eof; simpl. by rewrite bool_decide_true.
Qed.

(** C5: parsing undoes printing.  A configuration whose statements start with
    an unquoted token and whose tokens can be written is parsed back, from its
    printed text with any whitespace around it, to exactly the same tree. *)
Theorem Parse_render (cfg : NginxConfig) (sp sp' : str) :
  printable_config cfg = true ->
  forallb initial_space sp = true -> forallb initial_space sp' = true ->
  Parse (open_stream (sp ++ render_config cfg ++ sp')) = Ret (true, Some cfg).
Proof. apply Parse_rendered. Qed.

(** A one-character token at the very end of the file is dropped.  After a
    complete configuration, one more character that begins a token - a
    statement that is never ended - is accepted and ignored. *)
Theorem Parse_drops_last_character (cfg : NginxConfig) (c : ascii) :
  printable_config cfg = true -> normal_start c = true ->
  Parse (open_stream (render_config cfg ++ [c])) = Ret (true, Some cfg).
Proof.
  intros Hcfg Hc. destruct (config_parsed_root cfg [] [c] Hcfg eq_refl)
    as (h & last & b & sp1 & cs & R & Hsp1 & Hread & Hlast & _).
  rewrite app_nil_l in R.
  assert (HT : exists b', ParseToken (rd b (sp1 ++ [c])) [] =
    Ret (TOKEN_TYPE_EOF, [c], Istream b' [] true true false)).
  { eexists. rewrite ParseToken_run, run_spaces, run_initial, normal_start_continue by done.
    by rewrite run_token_unfold. }
  destruct HT as [b' HT].
  rewrite (Parse_of_steps _ _ true
    (Parser h [0] last 0 (Istream b' [] true true false)) R).
  { simpl. by rewrite Hread. }
  erewrite Parse_body_token; [|done|exact HT].
  simpl. unfold Parse_eof; simpl. by rewrite bool_decide_true.
Qed.

(** A configuration that begins with a quoted token has no defined
    behaviour.  The token is pushed to [statements_.back()] while there is no
    statement yet. *)
Theorem Parse_quoted_first_undefined (sp content s : str) (d : ascii) :
  forallb initial_space sp = true ->
  forallb (fun c => negb (bool_decide (c = BSLASH))) content = true ->
  after_quoted d = true ->
  Parse (open_stream (sp ++ DQUOTE :: escape_string content ++ DQUOTE :: d :: s)) = Undef.
Proof.
  intros Hsp Hc Hd. eapply Parse_of_steps_undefined; [apply rtc_refl|].
  destruct (run_double_quote content [DQUOTE] (DQUOTE :: reverse sp ++ []) (d :: s) Hc)
    as [b' HT].
  erewrite Parse_body_token; [|done|].
  2: { simpl. unfold open_stream. rewrite ParseToken_run, run_spaces, run_initial by done.
       exact HT. }
  simpl. unfold Parse_quoted; simpl. by rewrite Hd.
Qed.

(** A statement that begins with a quoted token is not a statement of its
    own: its tokens are added to the statement before it, although that one
    was ended with a semicolon. *)
Lemma Parse_quoted_statement_merges (t u content : str) :
  normal_token t = true -> normal_token u = true ->
  forallb (fun c => negb (bool_decide (c = BSLASH))) content = true ->
  Parse (open_stream (t ++ " ;" ++ SP :: DQUOTE :: escape_string content ++
                      DQUOTE :: SP :: u ++ " ;")) =
  Ret (true, Some [Statement [t; DQUOTE :: content ++ [DQUOTE]; u] None]).
Proof.
  intros Ht Hu Hc.
  destruct (step_first_token [[]] 0 [] TOKEN_TYPE_START 0%Z [] [] t SP
    (";"%char :: SP :: DQUOTE :: escape_string content ++ DQUOTE :: SP :: u ++ " ;") [])
    as [b1 S1]; try done; [by left|].
  destruct (step_statement_end [[Cell [t] None]] 0 [] TOKEN_TYPE_NORMAL 0%Z b1 [SP]
    (SP :: DQUOTE :: escape_string content ++ DQUOTE :: SP :: u ++ " ;")) as [b2 S2]; try done.
  destruct (step_quoted [[Cell [t] None]] 0 [] TOKEN_TYPE_STATEMENT_END 0%Z b2 [SP] content SP
    (u ++ " ;") [] [t] None) as [b3 S3]; try done.
  destruct (step_next_token [[Cell [t; DQUOTE :: content ++ [DQUOTE]] None]] 0 []
    TOKEN_TYPE_QUOTED_STRING 0%Z b3 [SP] u SP ";" [] [t; DQUOTE :: content ++ [DQUOTE]] None)
    as (b4 & last & Hl & S4); try done; [by unfold printable_token; rewrite Hu|].
  destruct (step_statement_end [[Cell [t; DQUOTE :: content ++ [DQUOTE]; u] None]] 0 []
    last 0%Z b4 [SP] []) as [b5 S5]; try done.
  unfold render_token in S4. rewrite Hu in S4.
  erewrite Parse_of_steps.
  2: { eapply rtc_l; [exact S1|]. eapply rtc_l; [exact S2|]. eapply rtc_l; [exact S3|].
       eapply rtc_l; [exact S4|]. apply rtc_once. exact S5. }
  2: { erewrite Parse_body_token; [|done|by apply (ParseToken_eof [])].
       unfold Parse_token, Parse_eof. simpl. reflexivity. }
  reflexivity.
Qed.

(** ** Witnesses *)

Definition example_config : NginxConfig :=
  [Statement [lit "server"] (Some
    [Statement [lit "port"; lit "80"] None;
     Statement [lit "location"; DQUOTE :: lit "/a b" ++ [DQUOTE]; lit "EchoHandler"] (Some [])])].

Lemma Parse_render_witness :
  Parse (open_stream (" " ++ render_config example_config ++ [LF])) = Ret (true, Some example_config).
Proof. apply (Parse_render example_config " " [LF]); reflexivity. Defined.

Lemma Parse_drops_last_character_witness :
  Parse (open_stream (render_config example_config ++ ["x"%char])) = Ret (true, Some example_config).
Proof. apply (Parse_drops_last_character example_config "x"); reflexivity. Defined.

Lemma Parse_quoted_first_undefined_witness :
  Parse (open_stream (" " ++ DQUOTE :: escape_string "a" ++ DQUOTE :: SP :: lit "80;")) = Undef.
Proof. apply (Parse_quoted_first_undefined " " "a" "80;" SP); reflexivity. Defined.
