(* ===== verification/Boost.v ===== *)
(** * Boost, as the server relies on it

    Boost is not part of the repository.  Each class below names the
    operations the code calls; a class of laws states what their documentation
    promises and the code relies on.  Every definition that calls Boost takes
    an instance of the first, every theorem that needs a promise takes the
    second, and [BoostModel] gives concrete instances that satisfy the laws. *)
From S2P Require Import Prelude CppStd.

(** ** Boost.Filesystem *)

Class BoostFilesystem := {
  (** An absolute path as it is, any other one below the current directory; it
      throws when that cannot be read. *)
  system_complete : str -> outcome str;
  parent_path : str -> str;
  has_parent_path : str -> bool;
  (** [path.extension().string()] *)
  extension : str -> str;
  (** [relative(p, base).string()]; it depends on the file system, and throws
      when that cannot be asked: on a name that is too long, a directory that
      may not be searched, a loop of links. *)
  relative : str -> str -> outcome str
}.

(** A path component in normal form. *)
Definition clean_component (d : str) : bool :=
  bool_decide (d <> []) && bool_decide (d <> lit ".") && bool_decide (d <> lit "..")
  && forallb (fun c => negb (bool_decide (c = SLASH))) d.

(** The components of an absolute path, each with its slash. *)
Definition join_path (ds : list str) : str := ds ≫= fun d => SLASH :: d.

Class BoostFilesystemLaws (F : BoostFilesystem) : Prop := {
  (** A path with a root directory is complete.  (A path that starts with two
      slashes has a root name instead.) *)
  system_complete_absolute (c : ascii) (s : str) :
    c <> SLASH -> system_complete (SLASH :: c :: s) = Ret (SLASH :: c :: s);
  (** What is put before a relative path depends on its beginning only. *)
  system_complete_extend (c d : ascii) (s t : str) :
    ~ (c = SLASH /\ head (s ++ d :: t) = Some SLASH) ->
    system_complete (c :: s ++ d :: t) = (fun q => q ++ d :: t) <$> system_complete (c :: s);
  (** Both return or throw a [filesystem_error]. *)
  system_complete_outcome (p : str) :
    system_complete p = Throw system_error \/ exists q, system_complete p = Ret q;
  relative_outcome (p base : str) :
    relative p base = Throw system_error \/ exists r, relative p base = Ret r;
  parent_path_step (ds : list str) (d : str) :
    forallb clean_component (ds ++ [d]) = true -> ds <> [] ->
    parent_path (join_path (ds ++ [d])) = join_path ds;
  parent_path_top (d : str) :
    clean_component d = true -> parent_path (join_path [d]) = [SLASH];
  parent_path_root : parent_path [SLASH] = [];
  parent_path_empty : parent_path [] = [];
  has_parent_path_spec (p : str) :
    has_parent_path p = bool_decide (parent_path p <> [])
}.

(** ** Boost.String_algo: [boost::trim] *)

Class BoostString := { trim : str -> str }.

(** A string without blanks at its ends is left alone. *)
Definition unpadded (s : str) : bool :=
  match s, last s with
  | c :: _, Some d => negb (isspace c) && negb (isspace d)
  | _, _ => true
  end.

Class BoostStringLaws (T : BoostString) : Prop := {
  trim_unpadded s : unpadded s = true -> trim s = s
}.

(** ** Boost.Beast: HTTP messages *)

(** Field names compare without regard to case. *)
Definition to_lower (c : ascii) : ascii :=
  if decide (65 <= code c <= 90)%Z then Ascii.ascii_of_nat (Z.to_nat (code c + 32)) else c.

Definition iequals (s t : str) : bool := bool_decide (to_lower <$> s = to_lower <$> t).

Lemma iequals_refl s : iequals s s = true.
Proof. unfold iequals. by apply bool_decide_eq_true. Qed.

(** The values a field keeps as they are given: no blanks around them, and
    short enough. *)
Definition field_value_ok (v : str) : bool :=
  match v with
  | [] => true
  | c :: _ =>
      negb (bool_decide (c ∈ [SP; TAB]))
      && match last v with Some d => negb (bool_decide (d ∈ [SP; TAB])) | None => true end
      && bool_decide (Z.of_nat (length v) < 65000)%Z
  end.

Definition field_name_ok (n : str) : bool := bool_decide (Z.of_nat (length n) < 65000)%Z.

Class Beast := {
  verb : Type;
  verb_eq_dec :: EqDecision verb;
  verb_unknown : verb;
  verb_post : verb;
  string_to_verb : str -> verb;
  (** The reason phrase, which is what printing a status gives. *)
  obsolete_reason : Z -> str;
  (** What [result()] makes of the number of a status: [unknown], which is 0,
      for one that is not registered. *)
  int_to_status : Z -> Z;

  request : Type;
  req_new : request;
  req_method : request -> verb;
  req_version : request -> Z;
  req_target : request -> str;
  req_body : request -> str;
  (** [find(name)] *)
  req_field : request -> str -> option str;
  (** [method(v)] throws on an unknown verb. *)
  req_set_method : verb -> request -> outcome request;
  req_set_version : Z -> request -> request;
  req_set_target : str -> request -> request;
  req_set_body : str -> request -> request;
  req_set_field : str -> str -> request -> request;
  req_clear : request -> request;
  print_request : request -> str;

  response : Type;
  resp_new : response;
  resp_result : response -> Z;
  resp_body : response -> str;
  resp_field : response -> str -> option str;
  resp_set_result : Z -> response -> response;
  resp_set_body : str -> response -> response;
  resp_set_field : str -> str -> response -> response;
  resp_content_length : nat -> response -> response;
  resp_chunked : bool -> response -> response;
  (** [prepare_payload()] throws when the status forbids the body. *)
  resp_prepare_payload : response -> outcome response;
  print_response : response -> str
}.

(** [http::field] names. *)
Definition field_content_length : str := "Content-Length".
Definition field_content_type : str := "Content-Type".
Definition field_host : str := "Host".
Definition field_accept_encoding : str := "Accept-Encoding".
Definition field_location : str := "Location".
Definition field_transfer_encoding : str := "Transfer-Encoding".

(** [http::status] values. *)
Definition status_ok : Z := 200.
Definition status_bad_request : Z := 400.
Definition status_not_found : Z := 404.
Definition status_unsupported_media_type : Z := 415.
Definition status_internal_server_error : Z := 500.

(** The statuses whose responses have no body. *)
Definition bodyless_status (s : Z) : bool :=
  ((100 <=? s)%Z && (s <? 200)%Z) || (s =? 204)%Z || (s =? 304)%Z.

Class BeastLaws (B : Beast) : Prop := {
  int_to_status_cases z : int_to_status z = z \/ int_to_status z = 0%Z;
  string_to_verb_empty : string_to_verb [] = verb_unknown;

  req_set_method_known v r :
    v <> verb_unknown -> exists r', req_set_method v r = Ret r' /\ req_method r' = v
      /\ req_version r' = req_version r /\ req_target r' = req_target r
      /\ req_body r' = req_body r /\ forall n, req_field r' n = req_field r n;
  req_set_method_unknown r : req_set_method verb_unknown r = Throw invalid_argument;

  req_set_version_get z r : (0 < z < 100)%Z -> req_version (req_set_version z r) = z;
  req_set_version_method z r : req_method (req_set_version z r) = req_method r;
  req_set_version_target z r : req_target (req_set_version z r) = req_target r;
  req_set_version_body z r : req_body (req_set_version z r) = req_body r;
  req_set_version_field z r n : req_field (req_set_version z r) n = req_field r n;

  req_set_target_get t r : req_target (req_set_target t r) = t;
  req_set_target_method t r : req_method (req_set_target t r) = req_method r;
  req_set_target_version t r : req_version (req_set_target t r) = req_version r;
  req_set_target_body t r : req_body (req_set_target t r) = req_body r;
  req_set_target_field t r n : req_field (req_set_target t r) n = req_field r n;

  req_set_body_get b r : req_body (req_set_body b r) = b;
  req_set_body_method b r : req_method (req_set_body b r) = req_method r;
  req_set_body_version b r : req_version (req_set_body b r) = req_version r;
  req_set_body_target b r : req_target (req_set_body b r) = req_target r;
  req_set_body_field b r n : req_field (req_set_body b r) n = req_field r n;

  req_set_field_get n v r m :
    field_name_ok n = true -> field_value_ok v = true ->
    req_field (req_set_field n v r) m = if iequals n m then Some v else req_field r m;
  req_set_field_method n v r : req_method (req_set_field n v r) = req_method r;
  req_set_field_version n v r : req_version (req_set_field n v r) = req_version r;
  req_set_field_target n v r : req_target (req_set_field n v r) = req_target r;
  req_set_field_body n v r : req_body (req_set_field n v r) = req_body r;

  req_new_field n : req_field req_new n = None;
  req_new_body : req_body req_new = [];
  req_clear_field r n : req_field (req_clear r) n = None;
  req_clear_target r : req_target (req_clear r) = req_target r;

  resp_set_result_get z r : (0 <= z <= 999)%Z -> resp_result (resp_set_result z r) = z;
  resp_set_result_body z r : resp_body (resp_set_result z r) = resp_body r;
  resp_set_result_field z r n : resp_field (resp_set_result z r) n = resp_field r n;

  resp_set_body_get b r : resp_body (resp_set_body b r) = b;
  resp_set_body_result b r : resp_result (resp_set_body b r) = resp_result r;
  resp_set_body_field b r n : resp_field (resp_set_body b r) n = resp_field r n;

  resp_set_field_get n v r m :
    field_name_ok n = true -> field_value_ok v = true ->
    resp_field (resp_set_field n v r) m = if iequals n m then Some v else resp_field r m;
  resp_set_field_result n v r : resp_result (resp_set_field n v r) = resp_result r;
  resp_set_field_body n v r : resp_body (resp_set_field n v r) = resp_body r;

  resp_content_length_get k r m :
    iequals field_content_length m = true ->
    resp_field (resp_content_length k r) m = Some (to_dec (Z.of_nat k));
  resp_content_length_other k r m :
    iequals field_content_length m = false -> iequals field_transfer_encoding m = false ->
    resp_field (resp_content_length k r) m = resp_field r m;
  resp_content_length_result k r : resp_result (resp_content_length k r) = resp_result r;
  resp_content_length_body k r : resp_body (resp_content_length k r) = resp_body r;

  resp_chunked_result b r : resp_result (resp_chunked b r) = resp_result r;
  resp_chunked_body b r : resp_body (resp_chunked b r) = resp_body r;
  resp_chunked_field b r m :
    iequals field_transfer_encoding m = false -> iequals field_content_length m = false ->
    resp_field (resp_chunked b r) m = resp_field r m;

  resp_prepare_payload_ok r :
    bodyless_status (resp_result r) = false ->
    exists r', resp_prepare_payload r = Ret r' /\ resp_result r' = resp_result r
      /\ resp_body r' = resp_body r
      /\ resp_field r' field_content_length = Some (to_dec (Z.of_nat (length (resp_body r))))
      /\ forall m, iequals field_content_length m = false ->
                   iequals field_transfer_encoding m = false ->
                   resp_field r' m = resp_field r m;
  (** A status that forbids a body leaves none. *)
  resp_prepare_payload_bodyless r r' :
    bodyless_status (resp_result r) = true -> resp_prepare_payload r = Ret r' ->
    resp_result r' = resp_result r /\ resp_body r' = [];
  (** It returns or throws. *)
  resp_prepare_payload_returns r : resp_prepare_payload r <> NoFuel
}.

Create Rewrite HintDb beast.
#[export] Hint Rewrite @req_set_version_method @req_set_version_target
  @req_set_version_body @req_set_version_field
  @req_set_target_get @req_set_target_method @req_set_target_version
  @req_set_target_body @req_set_target_field
  @req_set_body_get @req_set_body_method @req_set_body_version
  @req_set_body_target @req_set_body_field
  @req_set_field_method @req_set_field_version @req_set_field_target @req_set_field_body
  @req_new_field @req_new_body @req_clear_field @req_clear_target
  @resp_set_result_body @resp_set_result_field
  @resp_set_body_get @resp_set_body_result @resp_set_body_field
  @resp_set_field_result @resp_set_field_body
  @resp_content_length_result @resp_content_length_body
  @resp_chunked_result @resp_chunked_body using typeclasses eauto : beast.

(** Read a message that was built by setters. *)
Ltac beast :=
  repeat first
    [ progress autorewrite with beast
    | rewrite iequals_refl
    | rewrite resp_set_result_get by (assumption || lia)
    | rewrite resp_set_field_get by (reflexivity || assumption)
    | rewrite resp_content_length_get by reflexivity
    | rewrite resp_content_length_other by reflexivity
    | rewrite req_set_field_get by (reflexivity || assumption)
    ].
