(* ===== verification/BoostModel.v ===== *)
(** * Concrete instances of the Boost interfaces

    Executable instances that satisfy the laws of [Boost], on which theorems
    about the server are evaluated at concrete requests.  They are not claims
    about how Boost is written. *)
From S2P Require Import Prelude CppStd Boost.

(** ** Paths *)

Fixpoint drop_to_slash (s : str) : str :=
  match s with
  | c :: s' => if decide (c = SLASH) then s else drop_to_slash s'
  | [] => []
  end.

Fixpoint take_to (x : ascii) (s : str) : option str :=
  match s with
  | [] => None
  | c :: s' => if decide (c = x) then Some [c] else cons c <$> take_to x s'
  end.

Definition model_parent_path (p : str) : str :=
  match drop_to_slash (reverse p) with
  | [] => []
  | _ :: [] => if decide (p = [SLASH]) then [] else [SLASH]
  | _ :: r => reverse r
  end.

Definition model_system_complete (p : str) : outcome str :=
  Ret match p with
      | [] => []
      | c :: _ => if decide (c = SLASH) then p else lit "/srv/" ++ p
      end.

Definition model_extension (p : str) : str :=
  match take_to "."%char (reverse p) with
  | Some r => if existsb (fun c => bool_decide (c = SLASH)) r then [] else reverse r
  | None => []
  end.

Definition model_relative (p base : str) : outcome str :=
  if decide (base = []) then Ret [] else
  Ret $ if is_prefix (base ++ [SLASH]) p then drop (S (length base)) p
  else if decide (p = base) then "." else p.

#[export] Instance model_filesystem : BoostFilesystem := {|
  system_complete := model_system_complete;
  parent_path := model_parent_path;
  has_parent_path p := bool_decide (model_parent_path p <> []);
  extension := model_extension;
  relative := model_relative
|}.

Lemma drop_to_slash_app s t :
  forallb (fun c => negb (bool_decide (c = SLASH))) s = true ->
  drop_to_slash (s ++ SLASH :: t) = SLASH :: t.
Proof.
  induction s as [|c s IH]; [done|]. simpl.
  intros [Hc%negb_true_iff%bool_decide_eq_false Hs]%andb_true_iff.
  rewrite decide_False by done. auto.
Qed.

Lemma clean_component_inv d :
  clean_component d = true ->
  d <> [] /\ d <> lit "." /\ d <> lit ".." /\
  forallb (fun c => negb (bool_decide (c = SLASH))) d = true.
Proof.
  unfold clean_component. rewrite !andb_true_iff, !bool_decide_eq_true. tauto.
Qed.

Lemma forallb_reverse {A} (f : A -> bool) l : forallb f (reverse l) = forallb f l.
Proof.
  induction l as [|x l IH]; [done|]. rewrite reverse_cons, forallb_app, IH. simpl.
  by rewrite andb_true_r, andb_comm.
Qed.

Lemma drop_to_slash_join ds d :
  clean_component d = true ->
  drop_to_slash (reverse (join_path (ds ++ [d]))) = SLASH :: reverse (join_path ds).
Proof.
  intros (_ & _ & _ & Hd)%clean_component_inv.
  unfold join_path. rewrite bind_app. simpl. rewrite app_nil_r, reverse_app, reverse_cons.
  rewrite <-app_assoc. simpl. apply drop_to_slash_app. by rewrite forallb_reverse.
Qed.

#[export] Instance model_filesystem_laws : BoostFilesystemLaws model_filesystem.
Proof.
  split; simpl.
  - done.
  - intros c d s t _. unfold model_system_complete. simpl. by case_decide.
  - intros p. right. by eexists.
  - intros p base. right. unfold model_relative. case_decide; by eexists.
  - intros ds d Hds Hne. rewrite forallb_app in Hds.
    apply andb_true_iff in Hds as [_ Hd]. simpl in Hd. rewrite andb_true_r in Hd.
    unfold model_parent_path. rewrite drop_to_slash_join by done.
    destruct (reverse (join_path ds)) as [|c r] eqn:E.
    + apply (f_equal reverse) in E. rewrite reverse_involutive in E.
      by destruct ds.
    + by rewrite <-E, reverse_involutive.
  - intros d Hd. change (SLASH :: d ++ []) with (join_path [d]). unfold model_parent_path.
    pose proof (drop_to_slash_join [] d Hd) as Hj. rewrite app_nil_l in Hj. rewrite Hj. simpl.
    rewrite decide_False; [done|]. apply clean_component_inv in Hd as [Hd _].
    unfold join_path; simpl. rewrite app_nil_r. by intros [= ->].
  - reflexivity.
  - reflexivity.
  - done.
Qed.

(** ** Strings *)

#[export] Instance model_string : BoostString := {|
  trim s := reverse (skip_spaces (reverse (skip_spaces s)))
|}.

#[export] Instance model_string_laws : BoostStringLaws model_string.
Proof.
  split. intros [|c s] Hs; [done|]. 
  change (trim (c :: s)) with (reverse (skip_spaces (reverse (skip_spaces (c :: s))))).
  unfold unpadded in Hs.
  destruct (snoc_inv (c :: s)) as [E|(l & d & E)]; [done|]. rewrite E, last_snoc in *.
  apply andb_true_iff in Hs as [Hc%negb_true_iff Hd%negb_true_iff].
  assert (skip_spaces (l ++ [d]) = l ++ [d]) as ->.
  { rewrite <-E. simpl. by rewrite Hc. }
  rewrite reverse_snoc. simpl. rewrite Hd, reverse_cons. by rewrite reverse_involutive.
Qed.

(** ** Messages *)

Inductive model_verb := VUnknown | VKnown (name : str).

#[export] Instance model_verb_eq_dec : EqDecision model_verb.
Proof. solve_decision. Defined.

Definition known_verbs : list str :=
  [lit "GET"; lit "HEAD"; lit "POST"; lit "PUT"; lit "DELETE"; lit "CONNECT";
   lit "OPTIONS"; lit "TRACE"; lit "PATCH"].

Record model_message := Message {
  m_verb : model_verb;
  m_status : Z;
  m_version : Z;
  m_target : str;
  m_fields : list (str * str);
  m_body : str
}.

Definition model_get (l : list (str * str)) (n : str) : option str :=
  snd <$> list_find (fun e => iequals e.1 n = true) l ≫= fun '(_, e) => Some e.

Definition model_put (n v : str) (l : list (str * str)) : list (str * str) :=
  base.filter (fun e => iequals e.1 n = false) l ++ [(n, v)].

Definition model_remove (n : str) (l : list (str * str)) : list (str * str) :=
  base.filter (fun e => iequals e.1 n = false) l.

Definition print_fields (l : list (str * str)) : str :=
  l ≫= fun e => e.1 ++ ": " ++ e.2 ++ [CR; LF].

Definition model_reason (z : Z) : str :=
  if decide (z = 200%Z) then "OK" else if decide (z = 302%Z) then "Found"
  else if decide (z = 400%Z) then "Bad Request" else if decide (z = 404%Z) then "Not Found"
  else if decide (z = 415%Z) then "Unsupported Media Type"
  else if decide (z = 500%Z) then "Internal Server Error" else "<unknown-status>".

Definition known_statuses : list Z := [200; 302; 304; 400; 404; 415; 500]%Z.

Definition set_fields (f : list (str * str) -> list (str * str)) (m : model_message) :=
  Message (m_verb m) (m_status m) (m_version m) (m_target m) (f (m_fields m)) (m_body m).

#[export] Instance model_beast : Beast := {|
  verb := model_verb;
  verb_unknown := VUnknown;
  verb_post := VKnown "POST";
  string_to_verb s := if decide (s ∈ known_verbs) then VKnown s else VUnknown;
  obsolete_reason := model_reason;
  int_to_status z := if decide (z ∈ known_statuses) then z else 0%Z;
  request := model_message;
  req_new := Message VUnknown 0 11 [] [] [];
  req_method := m_verb;
  req_version := m_version;
  req_target := m_target;
  req_body := m_body;
  req_field r := model_get (m_fields r);
  req_set_method v r :=
    if decide (v = VUnknown) then Throw invalid_argument
    else Ret (Message v (m_status r) (m_version r) (m_target r) (m_fields r) (m_body r));
  req_set_version z r := Message (m_verb r) (m_status r) z (m_target r) (m_fields r) (m_body r);
  req_set_target t r := Message (m_verb r) (m_status r) (m_version r) t (m_fields r) (m_body r);
  req_set_body b r := Message (m_verb r) (m_status r) (m_version r) (m_target r) (m_fields r) b;
  req_set_field n v := set_fields (model_put n v);
  req_clear := set_fields (fun _ => []);
  print_request r :=
    match m_verb r with VKnown n => n | VUnknown => "<unknown>" end ++ " " ++ m_target r ++
    " HTTP/" ++ to_dec (m_version r / 10) ++ "." ++ to_dec (m_version r mod 10) ++ [CR; LF] ++
    print_fields (m_fields r) ++ [CR; LF] ++ m_body r;
  response := model_message;
  resp_new := Message VUnknown 200 11 [] [] [];
  resp_result := m_status;
  resp_body := m_body;
  resp_field r := model_get (m_fields r);
  resp_set_result z r := Message (m_verb r) z (m_version r) (m_target r) (m_fields r) (m_body r);
  resp_set_body b r := Message (m_verb r) (m_status r) (m_version r) (m_target r) (m_fields r) b;
  resp_set_field n v := set_fields (model_put n v);
  resp_content_length k := set_fields (model_put field_content_length (to_dec (Z.of_nat k)));
  resp_chunked b := set_fields (fun l => if (b : bool) then model_put field_transfer_encoding "chunked" l
                                         else model_remove field_transfer_encoding l);
  resp_prepare_payload r :=
    if bodyless_status (m_status r) && bool_decide (m_body r <> []) then Throw invalid_argument
    else Ret (set_fields (model_put field_content_length (to_dec (Z.of_nat (length (m_body r))))) r);
  print_response r :=
    "HTTP/1.1 " ++ to_dec (m_status r) ++ " " ++ model_reason (m_status r) ++ [CR; LF] ++
    print_fields (m_fields r) ++ [CR; LF] ++ m_body r
|}.

Lemma iequals_true s t : iequals s t = true <-> to_lower <$> s = to_lower <$> t.
Proof. unfold iequals. apply bool_decide_eq_true. Qed.

Lemma model_get_nil n : model_get [] n = None.
Proof. done. Qed.

Lemma model_get_cons e l n :
  model_get (e :: l) n = if iequals e.1 n then Some e.2 else model_get l n.
Proof.
  unfold model_get. simpl. destruct (iequals e.1 n) eqn:E.
  - by rewrite decide_True.
  - rewrite decide_False by congruence. by destruct (list_find _ l) as [[]|].
Qed.

Lemma model_get_remove n l m :
  model_get (model_remove n l) m = if iequals n m then None else model_get l m.
Proof.
  induction l as [|e l IH]; [by destruct (iequals n m)|]. unfold model_remove in *.
  rewrite filter_cons, model_get_cons. case_decide as Hn.
  - rewrite model_get_cons, IH. destruct (iequals e.1 m) eqn:Em; [|done].
    destruct (iequals n m) eqn:E; [|done]. apply iequals_true in Em, E.
    assert (iequals e.1 n = true) by (apply iequals_true; congruence). congruence.
  - rewrite IH. apply not_false_iff_true, iequals_true in Hn.
    destruct (iequals n m) eqn:E; [done|]. destruct (iequals e.1 m) eqn:Em; [|done].
    apply iequals_true in Em.
    assert (iequals n m = true) by (apply iequals_true; congruence). congruence.
Qed.

Lemma model_get_snoc l e n :
  model_get (l ++ [e]) n =
  match model_get l n with Some v => Some v | None => if iequals e.1 n then Some e.2 else None end.
Proof.
  induction l as [|e' l IH]; [by rewrite app_nil_l, model_get_cons|]. simpl.
  rewrite !model_get_cons, IH. by destruct (iequals e'.1 n).
Qed.

Lemma model_get_put n v l m :
  model_get (model_put n v l) m = if iequals n m then Some v else model_get l m.
Proof.
  unfold model_put. rewrite model_get_snoc.
  change (base.filter _ l) with (model_remove n l). rewrite model_get_remove. simpl.
  destruct (iequals n m); [done|]. by destruct (model_get l m).
Qed.

#[export] Instance model_beast_laws : BeastLaws model_beast.
Proof.
  split; simpl; intros; try done; rewrite ?model_get_put; try done.
  - case_decide; auto.
  - rewrite decide_False by done. by eexists.
  - by rewrite H.
  - by rewrite H.
  - destruct b; [|unfold model_remove; fold (model_remove field_transfer_encoding (m_fields r))].
    + rewrite model_get_put. by rewrite H.
    + rewrite model_get_remove. by rewrite H.
  - rewrite H; simpl. eexists. split; [done|]. simpl. repeat (split; [done|]).
    rewrite model_get_put. split; [done|]. intros. rewrite model_get_put. by rewrite H0.
  - rewrite H in H0. simpl in H0. destruct (m_body r) eqn:Hb; simpl in H0; [|done]. by injection H0 as <-.
  - by destruct (_ && _).
Qed.
