(* ===== verification/Utils.v ===== *)
(** * Configuration lookup, paths and the error page: src/src/utils.cc *)
From S2P Require Import Prelude CppStd Boost BoostModel ConfigLexer ConfigParser.

(** ** [configLookup] *)

(** The loop over the statements when there is no block name left. *)
Fixpoint lookup_field (statements : NginxConfig) (field_name : str) : list str :=
  match statements with
  | [] => []
  | Statement tokens (Some _) :: rest => lookup_field rest field_name
  | Statement tokens None :: rest =>
      match tokens with
      | t :: field_values => if decide (t = field_name) then field_values
                             else lookup_field rest field_name
      | [] => lookup_field rest field_name
      end
  end.

(** The loop that looks for the block to recurse into. *)
Fixpoint find_block (statements : NginxConfig) (name : str) : option NginxConfig :=
  match statements with
  | [] => None
  | Statement (t :: _) (Some child) :: rest =>
      if decide (t = name) then Some child else find_block rest name
  | _ :: rest => find_block rest name
  end.

Fixpoint configLookup (config : NginxConfig) (block_names : list str) (field_name : str)
    {struct block_names} : list str :=
  match block_names with
  | [] => lookup_field config field_name
  | name :: block_names =>
      match find_block config name with
      | Some child => configLookup child block_names field_name
      | None => []
      end
  end.

Definition getPortNumber (config : NginxConfig) : outcome Z :=
  match configLookup config [lit "server"] "port" with
  | [v] => atoi v
  | _ => Ret (-1)%Z
  end.

(** ** [convertToAbsolutePath] *)

(** [path[0]] of an empty string is the terminating null character. *)
Definition strip_quotes (path : str) : outcome str :=
  if bool_decide (head path = Some DQUOTE) && bool_decide (last path = Some DQUOTE)
  then substr path 1 (size_sub (length path) 2)
  else Ret path.

(** The inner loop: the characters up to a slash or the end. *)
Fixpoint next_dir (s : str) : str * str :=
  match s with
  | [] => ([], [])
  | c :: s' => if decide (c = SLASH) then ([], s)
               else let '(dir, rest) := next_dir s' in (c :: dir, rest)
  end.

Definition add_dir (path_comps : list str) (dir : str) : outcome (list str) :=
  if decide (dir = lit "..") then vec_pop_back path_comps
  else if decide (dir = lit "." \/ dir = []) then Ret path_comps
  else Ret (path_comps ++ [dir]).

Fixpoint path_loop (fuel : nat) (s : str) (path_comps : list str) : outcome (list str) :=
  match s with
  | [] => Ret path_comps
  | _ =>
      match fuel with
      | O => NoFuel
      | S fuel =>
          let '(dir, rest) := next_dir s in
          path_comps ← add_dir path_comps dir;
          path_loop fuel (tail rest) path_comps
      end
  end.

Section path.
Context `{F : BoostFilesystem}.

(** A pass of the loop reads at least one character. *)
Definition convertToAbsolutePath (path : str) : outcome str :=
  path ← strip_quotes path;
  path ← system_complete path;
  path_comps ← path_loop (length path) path [];
  Ret (join_path path_comps).
End path.

(** ** [show_error_page] *)

Section error_page.
Context `{B : Beast}.

Definition error_page_body (status_code : Z) (message : str) : str :=
  "<!DOCTYPE html><html>" ++
  "<head><title>Error</title></head><body>" ++
  "<h1>" ++ obsolete_reason status_code ++ " Error" ++
  "</h1>" ++
  "<p>" ++
  "Description: " ++ message ++ "</p>" ++
  "</body></html>".

Definition show_error_page (status_code : Z) (message : str) : response :=
  let response_body := error_page_body status_code message in
  let resp := resp_new in
  let resp := resp_set_result status_code resp in
  let resp := resp_set_field field_content_type "text/html" resp in
  let resp := resp_content_length (length response_body) resp in
  resp_set_body response_body resp.
End error_page.

(** The default of the second parameter. *)
Definition default_message : str := "N/A".

(** ** The components of a path *)

(** The directory names the loop sees, one per pass. *)
Fixpoint split_path (s : str) : list str :=
  match s with
  | [] => []
  | c :: s' =>
      if decide (c = SLASH) then [] :: split_path s'
      else match split_path s' with
           | [] => [[c]]
           | d :: ds => (c :: d) :: ds
           end
  end.

Fixpoint resolve (ds : list str) (comps : list str) : outcome (list str) :=
  match ds with
  | [] => Ret comps
  | d :: ds => comps ← add_dir comps d; resolve ds comps
  end.

Lemma next_dir_split s :
  s <> [] ->
  split_path s = (next_dir s).1 :: split_path (tail (next_dir s).2)
  /\ length (tail (next_dir s).2) < length s.
Proof.
  induction s as [|c s IH]; [done|]. intros _. simpl.
  destruct (decide (c = SLASH)) as [->|Hc]; [split; [done|simpl; lia]|].
  destruct s as [|d s]; [simpl; split; [done|lia]|].
  destruct IH as [IH Hl]; [done|]. destruct (next_dir (d :: s)) as [dir rest].
  simpl fst in *. simpl snd in *. rewrite IH. split; [done|]. simpl in *. lia.
Qed.

Lemma path_loop_resolve fuel s comps :
  length s <= fuel -> path_loop fuel s comps = resolve (split_path s) comps.
Proof.
  revert s comps. induction fuel as [|fuel IH]; intros [|c s] comps Hl; try done.
  { simpl in Hl; lia. }
  destruct (next_dir_split (c :: s)) as [E Hlt]; [done|]. rewrite E.
  cbn [path_loop resolve]. destruct (next_dir (c :: s)) as [dir rest]. simpl fst. simpl snd in *.
  destruct (add_dir comps dir); [|done..]. simpl. apply IH. lia.
Qed.

(** The components of a path hold no slash. *)
Lemma split_path_no_slash s :
  Forall (fun d => forallb (fun c => negb (bool_decide (c = SLASH))) d = true) (split_path s).
Proof.
  induction s as [|c s IH]; simpl; [constructor|]. case_decide; [by constructor|].
  destruct (split_path s) as [|d ds]; [apply Forall_singleton; simpl; by rewrite bool_decide_false|].
  apply Forall_cons in IH as [Hd ?]. constructor; [|done]. simpl.
  by rewrite bool_decide_false, Hd.
Qed.

(** What is resolved is clean. *)
Lemma resolve_clean ds comps comps' :
  Forall (fun d => forallb (fun c => negb (bool_decide (c = SLASH))) d = true) ds ->
  forallb clean_component comps = true -> resolve ds comps = Ret comps' ->
  forallb clean_component comps' = true.
Proof.
  revert comps. induction ds as [|d ds IH]; intros comps; simpl; [naive_solver|].
  intros [Hd Hds]%Forall_cons Hc H. inv_ret. apply (IH v); [done| |done].
  unfold add_dir in Hv. repeat case_decide; simplify_eq/=; try done.
  - destruct (snoc_inv comps) as [->|(l & x & ->)]; [done|].
    rewrite vec_pop_back_snoc in Hv. simplify_eq. rewrite forallb_app in Hc.
    by apply andb_true_iff in Hc as [? _].
  - rewrite forallb_app, Hc. simpl. rewrite andb_true_r. unfold clean_component.
    rewrite Hd, !bool_decide_true by tauto. done.
Qed.

(** A clean path is its own resolution. *)
Lemma split_path_component d s :
  forallb (fun c => negb (bool_decide (c = SLASH))) d = true -> d <> [] ->
  split_path (d ++ SLASH :: s) = d :: split_path s /\ split_path d = [d].
Proof.
  induction d as [|c d IH]; [done|]. simpl.
  intros [Hc%negb_true_iff%bool_decide_eq_false Hd]%andb_true_iff _.
  rewrite !decide_False by done. destruct d as [|c' d]; [by simpl|].
  destruct IH as [E1 E2]; [done..|]. by rewrite E1, E2.
Qed.

Lemma split_path_join ds :
  forallb clean_component ds = true ->
  split_path (join_path ds) = match ds with [] => [] | _ => [] :: ds end.
Proof.
  induction ds as [|d ds IH]; [done|]. intros [Hd Hds]%andb_true_iff.
  unfold clean_component in Hd. rewrite !andb_true_iff, !bool_decide_eq_true in Hd.
  destruct Hd as [[[Hne _] _] Hd]. specialize (IH Hds).
  change (join_path (d :: ds)) with (SLASH :: d ++ join_path ds).
  cbn [split_path]. rewrite decide_True by done. f_equal.
  destruct ds as [|d' ds].
  - unfold join_path; simpl. rewrite app_nil_r. by apply (split_path_component d []).
  - change (join_path (d' :: ds)) with (SLASH :: d' ++ join_path ds) in *.
    destruct (split_path_component d (d' ++ join_path ds) Hd Hne) as [-> _].
    cbn [split_path] in IH. rewrite decide_True in IH by done.
    injection IH as IH. by f_equal.
Qed.

Lemma resolve_clean_self ds comps :
  forallb clean_component ds = true -> resolve ds comps = Ret (comps ++ ds).
Proof.
  revert comps. induction ds as [|d ds IH]; intros comps; simpl; [by rewrite app_nil_r|].
  intros [Hd Hds]%andb_true_iff. unfold clean_component in Hd.
  rewrite !andb_true_iff, !bool_decide_eq_true in Hd. destruct Hd as [[[??]?] _].
  unfold add_dir. rewrite decide_False, decide_False by tauto. simpl. rewrite IH by done.
  by rewrite <-app_assoc.
Qed.

Lemma join_path_absolute ds :
  forallb clean_component ds = true -> ds <> [] ->
  exists c s, join_path ds = SLASH :: c :: s /\ c <> SLASH.
Proof.
  destruct ds as [|d ds]; [done|]. intros [Hd _]%andb_true_iff _.
  unfold clean_component in Hd. rewrite !andb_true_iff, !bool_decide_eq_true in Hd.
  destruct Hd as [[[Hne _] _] Hd]. destruct d as [|c d]; [done|].
  simpl in Hd. apply andb_true_iff in Hd as [Hc%negb_true_iff%bool_decide_eq_false _].
  by exists c, (d ++ join_path ds).
Qed.

Lemma strip_quotes_absolute s : strip_quotes (SLASH :: s) = Ret (SLASH :: s).
Proof. unfold strip_quotes. by rewrite bool_decide_false. Qed.

Lemma join_path_nil ds : forallb clean_component ds = true -> join_path ds = [] -> ds = [].
Proof. by destruct ds. Qed.

(** Clean absolute paths are left alone. *)
Lemma convert_clean `{FL : BoostFilesystemLaws} ds :
  forallb clean_component ds = true -> ds <> [] ->
  convertToAbsolutePath (join_path ds) = Ret (join_path ds).
Proof.
  intros Hds Hne. destruct (join_path_absolute ds Hds Hne) as (c & s & E & Hc).
  unfold convertToAbsolutePath. rewrite E, strip_quotes_absolute, bind_Ret.
  rewrite system_complete_absolute, bind_Ret by done. rewrite <-E, path_loop_resolve by done.
  rewrite split_path_join by done. destruct ds as [|d ds]; [done|].
  change (resolve ([] :: d :: ds) []) with (resolve (d :: ds) []).
  by rewrite (resolve_clean_self (d :: ds) []).
Qed.

(** ** Properties of paths *)

(** How many components name a directory, and how many go up. *)
Definition dir_names (ds : list str) : nat :=
  length (base.filter (fun d => d <> lit ".." /\ d <> lit "." /\ d <> []) ds).
Definition dir_ups (ds : list str) : nat := length (base.filter (fun d => d = lit "..") ds).

Definition climbs_above (n : nat) (ds : list str) : Prop :=
  exists ds1 ds2, ds = ds1 ++ ds2 /\ n + dir_names ds1 < dir_ups ds1.

Lemma dir_counts_cons d ds :
  dir_names (d :: ds) = (if decide (d = lit "..") then 0
                         else if decide (d = lit "." \/ d = []) then 0 else 1) + dir_names ds
  /\ dir_ups (d :: ds) = (if decide (d = lit "..") then 1 else 0) + dir_ups ds.
Proof.
  unfold dir_names, dir_ups. rewrite !filter_cons.
  destruct (decide (d = lit "..")) as [E|E]; [rewrite decide_False by tauto; done|].
  destruct (decide (d = lit "." \/ d = [])); [rewrite decide_False by tauto; done|].
  rewrite decide_True by tauto. done.
Qed.

Lemma climbs_above_cons n d ds :
  climbs_above n (d :: ds) <->
  (d = lit ".." /\ n = 0) \/
  climbs_above (if decide (d = lit "..") then pred n
                else if decide (d = lit "." \/ d = []) then n else S n) ds.
Proof.
  split.
  - intros ([|x ds1] & ds2 & E & Hlt); [by vm_compute in Hlt; lia|].
    injection E as <- ->. destruct (dir_counts_cons d ds1) as [En Eu]. rewrite En, Eu in Hlt.
    destruct (decide (d = lit "..")); [destruct n; [by left|]|]; right; exists ds1, ds2;
      (split; [done|]); [|case_decide]; simpl in *; lia.
  - intros [[-> ->]|(ds1 & ds2 & -> & Hlt)].
    + exists [lit ".."], ds. split; [done|]. vm_compute. lia.
    + exists (d :: ds1), ds2. split; [done|].
      destruct (dir_counts_cons d ds1) as [-> ->].
      destruct (decide (d = lit "..")); [|case_decide]; lia.
Qed.

Lemma resolve_undefined ds comps :
  resolve ds comps = Undef <-> climbs_above (length comps) ds.
Proof.
  revert comps. induction ds as [|d ds IH]; intros comps.
  - simpl. split; [done|]. intros ([|] & ds2 & ? & Hlt); [by vm_compute in Hlt; lia|done].
  - rewrite climbs_above_cons. cbn [resolve]. unfold add_dir.
    destruct (decide (d = lit "..")) as [->|Hd].
    + destruct (snoc_inv comps) as [->|(l & x & ->)]; [split; [by left|done]|].
      rewrite vec_pop_back_snoc, bind_Ret, IH, length_app, Nat.add_1_r. simpl.
      split; [by right|]. by intros [[_ ?]|?].
    + destruct (decide (d = lit "." \/ d = [])); rewrite bind_Ret, IH, ?length_app; [tauto|].
      simpl length. rewrite Nat.add_1_r. tauto.
Qed.

Lemma resolve_total ds comps :
  resolve ds comps = Undef \/ exists r, resolve ds comps = Ret r.
Proof.
  revert comps. induction ds as [|d ds IH]; intros comps; simpl; [by eauto|].
  unfold add_dir. repeat case_decide; simpl; auto.
  destruct (snoc_inv comps) as [->|(l & x & ->)]; [by left|]. rewrite vec_pop_back_snoc. apply IH.
Qed.

Lemma strip_quotes_total path : exists s, strip_quotes path = Ret s.
Proof.
  unfold strip_quotes. destruct path as [|c path]; [by eexists|].
  case_match; [|by eauto]. unfold substr, substr_from.
  rewrite decide_True by (simpl; lia). by eexists.
Qed.

Lemma convert_normal `{F : BoostFilesystem} (path q : str) :
  convertToAbsolutePath path = Ret q ->
  exists ds, q = join_path ds /\ forallb clean_component ds = true.
Proof.
  unfold convertToAbsolutePath. intros H. inv_ret.
  rewrite path_loop_resolve in Hv1 by done. exists v1. split; [done|].
  by apply (resolve_clean (split_path v0) []); [apply split_path_no_slash|..].
Qed.

(** C34: what [convertToAbsolutePath] returns is in normal form: components that
    hold no slash and are not empty, [.] or [..], each after one slash. *)
Theorem convertToAbsolutePath_normal `{F : BoostFilesystem} (path q : str) :
  convertToAbsolutePath path = Ret q ->
  exists ds, q = join_path ds /\ forallb clean_component ds = true.
Proof. apply convert_normal. Qed.

(** [convertToAbsolutePath] is idempotent: converting a converted path other
    than the root changes nothing. *)
Theorem convertToAbsolutePath_idempotent `{FL : BoostFilesystemLaws} (path q : str) :
  convertToAbsolutePath path = Ret q -> q <> [] -> convertToAbsolutePath q = Ret q.
Proof.
  intros (ds & -> & Hds)%convert_normal Hq.
  apply convert_clean; [done|]. by intros ->.
Qed.

Section outcome.
Context `{FL : BoostFilesystemLaws}.

(** The path without its quotes and with what [system_complete] puts before it,
    component by component. *)
Lemma convert_resolved path s :
  strip_quotes path = Ret s ->
  convertToAbsolutePath path =
  p ← system_complete s; comps ← resolve (split_path p) []; Ret (join_path comps).
Proof.
  intros Hs. unfold convertToAbsolutePath. rewrite Hs, bind_Ret.
  destruct (system_complete s) as [p| | |]; [|done..]. rewrite !bind_Ret.
  by rewrite path_loop_resolve by done.
Qed.

Lemma convert_outcome path :
  convertToAbsolutePath path = Undef \/ convertToAbsolutePath path = Throw system_error \/
  exists q, convertToAbsolutePath path = Ret q.
Proof.
  destruct (strip_quotes_total path) as [s Hs]. rewrite (convert_resolved path s Hs).
  destruct (system_complete_outcome s) as [->|[p ->]]; [by right; left|]. rewrite bind_Ret.
  destruct (resolve_total (split_path p) []) as [->|[comps ->]]; [by left|].
  right; right. by eexists.
Qed.

(** C35: [convertToAbsolutePath] always terminates; it throws only what
    [system_complete] does, on a relative path when the current directory cannot
    be read; and it pops an empty vector - undefined behaviour - exactly on the
    paths that go up more often than down on the way, such as [/..]. *)
Theorem convertToAbsolutePath_undefined_iff (path : str) :
  exists s, strip_quotes path = Ret s /\
  (convertToAbsolutePath path = Undef <->
     exists p, system_complete s = Ret p /\ climbs_above 0 (split_path p)) /\
  (forall e, convertToAbsolutePath path = Throw e <-> system_complete s = Throw e) /\
  convertToAbsolutePath path <> NoFuel.
Proof.
  destruct (strip_quotes_total path) as [s Hs]. exists s. split; [done|].
  rewrite (convert_resolved path s Hs).
  destruct (system_complete_outcome s) as [->|[p ->]].
  { split; [split; [done|by intros (? & ? & _)]|]. split; [done|done]. }
  rewrite bind_Ret. pose proof (resolve_undefined (split_path p) []) as Hu. simpl in Hu.
  destruct (resolve_total (split_path p) []) as [Hr|[comps Hr]]; rewrite Hr in *.
  - split; [|split; done]. split; [intros _; exists p; tauto|done].
  - split; [|split; done]. split; [done|]. intros (? & [= <-] & Hc). by apply Hu in Hc.
Qed.
End outcome.

(** ** Relative paths and URIs *)

(** The components that a relative path names. *)
Definition path_names (r : str) : list str :=
  base.filter (fun d => d <> [] /\ d <> lit ".") (split_path r).

(** [r] is a way to write the path of the components [es] below a directory. *)
Definition below (es : list str) (r : str) : Prop := head r <> Some SLASH /\ path_names r = es.

(** A URI that is a path from the root: it begins with one slash. *)
Definition absolute_uri (uri : str) : bool :=
  match uri with
  | c :: s => bool_decide (c = SLASH) && negb (bool_decide (head s = Some SLASH))
  | [] => false
  end.

Lemma path_names_clean es : forallb clean_component es = true -> path_names (tail (join_path es)) = es.
Proof.
  destruct es as [|e es]; [done|]. intros Hes. pose proof (split_path_join (e :: es) Hes) as Hs.
  assert (Forall (fun d => d <> [] /\ d <> lit ".") (e :: es)) as Hf.
  { apply Forall_forall. intros d Hd. rewrite forallb_forall in Hes.
    apply list_elem_of_In, Hes in Hd. apply clean_component_inv in Hd. tauto. }
  change (join_path (e :: es)) with (SLASH :: e ++ join_path es) in *. cbn [split_path] in Hs.
  rewrite decide_True in Hs by done. injection Hs as Hs. unfold path_names. cbn [tail].
  rewrite Hs. revert Hf. generalize (e :: es). intros l Hf. induction Hf as [|d l Hd _ IH]; [done|].
  rewrite filter_cons, decide_True by done. by rewrite IH.
Qed.

Lemma below_no_ups es r : forallb clean_component es = true -> below es r -> (lit ".." ∉ split_path r).
Proof.
  intros Hes [_ Hn] Hin. assert (lit ".." ∈ es) as H.
  { rewrite <-Hn. apply list_elem_of_filter. split; [by split|done]. }
  rewrite forallb_forall in Hes. by apply list_elem_of_In, Hes in H.
Qed.

Lemma below_clean es :
  forallb clean_component es = true -> below es (match es with [] => lit "." | _ => tail (join_path es) end).
Proof.
  intros Hes. destruct es as [|e es]; [by split|]. split; [|by apply path_names_clean].
  simpl in Hes. apply andb_true_iff in Hes as [(He & _ & _ & Hs)%clean_component_inv _].
  change (join_path (e :: es)) with (SLASH :: e ++ join_path es). destruct e as [|c e]; [done|].
  intros [= ->]. cbn [forallb] in Hs. by rewrite bool_decide_true in Hs.
Qed.

(** ** Witnesses *)

Lemma convertToAbsolutePath_normal_witness :
  exists ds, lit "/a/c" = join_path ds /\ forallb clean_component ds = true.
Proof. apply (convertToAbsolutePath_normal "/a/./b/..//c" "/a/c"). reflexivity. Defined.

Lemma convertToAbsolutePath_undefined_iff_witness :
  exists s, strip_quotes "/a/../../b" = Ret s /\
  (convertToAbsolutePath "/a/../../b" = Undef <->
     exists p, system_complete s = Ret p /\ climbs_above 0 (split_path p)) /\
  (forall e, convertToAbsolutePath "/a/../../b" = Throw e <-> system_complete s = Throw e) /\
  convertToAbsolutePath "/a/../../b" <> NoFuel.
Proof. apply (convertToAbsolutePath_undefined_iff "/a/../../b"). Defined.

Lemma convertToAbsolutePath_idempotent_witness : convertToAbsolutePath "/a/c" = Ret (lit "/a/c").
Proof.
  apply (convertToAbsolutePath_idempotent "/a/./b/..//c" "/a/c"); [reflexivity|discriminate].
Defined.
