(* ===== verification/ConfigPort.v ===== *)
(** * The port of a server: from the file to the number

    [configLookup] takes the first block and the first field of a name; with
    the round trip of the parser and of decimal numbers, a printed
    configuration gives back its port. *)
From S2P Require Import Prelude CppStd Boost ConfigLexer ConfigParser ConfigRoundtrip Utils.

Definition names_block (name : str) (s : NginxConfigStatement) : bool :=
  match s with Statement (t :: _) (Some _) => bool_decide (t = name) | _ => false end.

Definition names_field (name : str) (s : NginxConfigStatement) : bool :=
  match s with Statement (t :: _) None => bool_decide (t = name) | _ => false end.

Lemma find_block_first name before ts child rest :
  existsb (names_block name) before = false ->
  find_block (before ++ Statement (name :: ts) (Some child) :: rest) name = Some child.
Proof.
  induction before as [|[[|t tokens] [c|]] before IH]; simpl;
    [by rewrite decide_True|auto|auto| |auto].
  intros [Ht Hb]%orb_false_iff. apply bool_decide_eq_false in Ht.
  rewrite decide_False by done. auto.
Qed.

Lemma lookup_field_first name before values rest :
  existsb (names_field name) before = false ->
  lookup_field (before ++ Statement (name :: values) None :: rest) name = values.
Proof.
  induction before as [|[[|t tokens] [c|]] before IH]; simpl;
    [by rewrite decide_True|auto|auto|auto|].
  intros [Ht Hb]%orb_false_iff. apply bool_decide_eq_false in Ht.
  rewrite decide_False by done. auto.
Qed.

(** C23: the port a configuration file names is the port the server gets.  For
    every [n] from 0 to the largest [int], in any printable configuration whose
    first server block has [port n;] as its first port field, the parser accepts
    the printed file and [getPortNumber] of the result is [n]. *)
Theorem port_read_back (n : Z) (before rest before' rest' : NginxConfig) (ts : list str) :
  (0 <= n <= INT_MAX)%Z ->
  existsb (names_block "server") before = false ->
  existsb (names_field "port") before' = false ->
  let block := before' ++ Statement [lit "port"; to_dec n] None :: rest' in
  let cfg := before ++ Statement (lit "server" :: ts) (Some block) :: rest in
  printable_config cfg = true ->
  exists parsed, Parse (open_stream (render_config cfg)) = Ret (true, Some parsed) /\
    getPortNumber parsed = Ret n.
Proof.
  intros Hn Hb Hf block cfg Hp. exists cfg. split.
  - pose proof (Parse_rendered cfg [] [] Hp eq_refl eq_refl) as H.
    by rewrite app_nil_l, app_nil_r in H.
  - unfold getPortNumber, cfg. cbn [configLookup]. rewrite find_block_first by done.
    unfold block. rewrite lookup_field_first by done. by apply atoi_to_dec.
Qed.

Lemma port_read_back_witness :
  exists parsed,
    Parse (open_stream (render_config
      ([Statement [lit "user"; lit "www"] None] ++ Statement (lit "server" :: [])
        (Some ([Statement [lit "name"; lit "x"] None] ++
               Statement [lit "port"; to_dec 8080] None :: [])) :: []))) = Ret (true, Some parsed) /\
    getPortNumber parsed = Ret 8080%Z.
Proof.
  apply (port_read_back 8080 [Statement [lit "user"; lit "www"] None] []
    [Statement [lit "name"; lit "x"] None] [] []); [unfold INT_MAX; lia|reflexivity..].
Defined.
