(* ===== verification/RequestParser.v ===== *)
(** * The request parser: src/src/request_parser.cc

    A state machine over the bytes of a request head.  [consume] is one step,
    [parse_chars] the loop of [parse], and [translate] copies what was parsed
    into the message the handlers see.  [accepts_iff] characterises the
    requests that are accepted, by a grammar of request heads with folded
    header lines; the other theorems are about undefined behaviour, about how
    much input is used and about a head that arrives in several reads. *)
From S2P Require Import Prelude CppStd Boost.

(** ** Classes of characters: they work on [int] *)

Definition is_char (c : Z) : bool := (0 <=? c)%Z && (c <=? 127)%Z.

Definition is_ctl (c : Z) : bool := ((0 <=? c)%Z && (c <=? 31)%Z) || (c =? 127)%Z.

Definition tspecials : list ascii :=
  ["("%char; ")"%char; "<"%char; ">"%char; "@"%char; ","%char; ";"%char; ":"%char;
   BSLASH; DQUOTE; "/"%char; "["%char; "]"%char; "?"%char; "="%char; "{"%char;
   "}"%char; SP; TAB].

Definition is_tspecial (c : Z) : bool := bool_decide (c ∈ char_int <$> tspecials).

Definition is_digit (c : Z) : bool := (48 <=? c)%Z && (c <=? 57)%Z.

(** ** Data *)

Inductive state :=
| method_start
| method
| uri
| http_version_h
| http_version_t_1
| http_version_t_2
| http_version_p
| http_version_slash
| http_version_major_start
| http_version_major
| http_version_minor_start
| http_version_minor
| expecting_newline_1
| header_line_start
| header_lws
| header_name
| space_before_header_value
| header_value
| expecting_newline_2
| expecting_newline_3.

#[export] Instance state_eq_dec : EqDecision state.
Proof. solve_decision. Defined.

Record header := Header { h_name : str; h_value : str }.

(** The two version numbers of a [parser_request] are not initialised by its
    construction: [None]. *)
Record parser_request := PRequest {
  p_method : str;
  p_uri : str;
  p_http_version_major : option Z;
  p_http_version_minor : option Z;
  p_headers : list header
}.

Definition new_request : parser_request := PRequest [] [] None None [].

Definition push_method (c : ascii) (r : parser_request) : parser_request :=
  PRequest (p_method r ++ [c]) (p_uri r) (p_http_version_major r)
    (p_http_version_minor r) (p_headers r).
Definition push_uri (c : ascii) (r : parser_request) : parser_request :=
  PRequest (p_method r) (p_uri r ++ [c]) (p_http_version_major r)
    (p_http_version_minor r) (p_headers r).
Definition set_major (v : Z) (r : parser_request) : parser_request :=
  PRequest (p_method r) (p_uri r) (Some v) (p_http_version_minor r) (p_headers r).
Definition set_minor (v : Z) (r : parser_request) : parser_request :=
  PRequest (p_method r) (p_uri r) (p_http_version_major r) (Some v) (p_headers r).
Definition set_headers (l : list header) (r : parser_request) : parser_request :=
  PRequest (p_method r) (p_uri r) (p_http_version_major r) (p_http_version_minor r) l.

Definition push_name (c : ascii) (h : header) : header := Header (h_name h ++ [c]) (h_value h).
Definition push_value (c : ascii) (h : header) : header := Header (h_name h) (h_value h ++ [c]).

(** [req.headers.back()] changed by [f]. *)
Definition modify_header (f : header -> header) (r : parser_request) : outcome parser_request :=
  l ← vec_modify_back f (p_headers r); Ret (set_headers l r).

(** [v * 10 + input - '0'] on [int]. *)
Definition next_version (v : option Z) (input : ascii) : outcome Z :=
  match v with
  | None => Undef
  | Some v =>
      x ← int_result (v * 10);
      y ← int_result (x + char_int input);
      int_result (y - char_int "0")
  end.

#[global] Arguments next_version : simpl never.

(** ** [consume]

    The tribool result: [None] is indeterminate. *)
Definition not_token (c : ascii) : bool :=
  negb (is_char (char_int c)) || is_ctl (char_int c) || is_tspecial (char_int c).

Definition go (st : state) (r : parser_request)
  : outcome (option bool * state * parser_request) := Ret (None, st, r).

Definition reject (st : state) (r : parser_request)
  : outcome (option bool * state * parser_request) := Ret (Some false, st, r).

Definition expect (st : state) (c : ascii) (st' : state) (input : ascii) (req : parser_request)
  : outcome (option bool * state * parser_request) :=
  if decide (input = c) then go st' req else reject st req.

Definition consume (st : state) (req : parser_request) (input : ascii)
  : outcome (option bool * state * parser_request) :=
  match st with
  | method_start =>
      if not_token input then reject st req else go method (push_method input req)
  | method =>
      if decide (input = SP) then go uri req
      else if not_token input then reject st req
      else go method (push_method input req)
  | uri =>
      if decide (input = SP) then go http_version_h req
      else if is_ctl (char_int input) then reject st req
      else go uri (push_uri input req)
  | http_version_h => expect st "H" http_version_t_1 input req
  | http_version_t_1 => expect st "T" http_version_t_2 input req
  | http_version_t_2 => expect st "T" http_version_p input req
  | http_version_p => expect st "P" http_version_slash input req
  | http_version_slash =>
      if decide (input = SLASH) then go http_version_major_start (set_minor 0 (set_major 0 req))
      else reject st req
  | http_version_major_start =>
      if is_digit (char_int input) then
        v ← next_version (p_http_version_major req) input;
        go http_version_major (set_major v req)
      else reject st req
  | http_version_major =>
      if decide (input = "."%char) then go http_version_minor_start req
      else if is_digit (char_int input) then
        v ← next_version (p_http_version_major req) input; go st (set_major v req)
      else reject st req
  | http_version_minor_start =>
      if is_digit (char_int input) then
        v ← next_version (p_http_version_minor req) input;
        go http_version_minor (set_minor v req)
      else reject st req
  | http_version_minor =>
      if decide (input = CR) then go expecting_newline_1 req
      else if is_digit (char_int input) then
        v ← next_version (p_http_version_minor req) input; go st (set_minor v req)
      else reject st req
  | expecting_newline_1 => expect st LF header_line_start input req
  | header_line_start =>
      if decide (input = CR) then go expecting_newline_3 req
      else if decide (p_headers req <> [] /\ (input = SP \/ input = TAB)) then go header_lws req
      else if not_token input then reject st req
      else
        req ← modify_header (push_name input)
                (set_headers (p_headers req ++ [Header [] []]) req);
        go header_name req
  | header_lws =>
      if decide (input = CR) then go expecting_newline_2 req
      else if decide (input = SP \/ input = TAB) then go st req
      else if is_ctl (char_int input) then reject st req
      else req ← modify_header (push_value input) req; go header_value req
  | header_name =>
      if decide (input = ":"%char) then go space_before_header_value req
      else if not_token input then reject st req
      else req ← modify_header (push_name input) req; go st req
  | space_before_header_value => expect st SP header_value input req
  | header_value =>
      if decide (input = CR) then go expecting_newline_2 req
      else if is_ctl (char_int input) then reject st req
      else req ← modify_header (push_value input) req; go st req
  | expecting_newline_2 => expect st LF header_line_start input req
  | expecting_newline_3 => Ret (Some (bool_decide (input = LF)), st, req)
  end.

(** ** [parse]

    The loop gives the result, the input that is left, the state the object is
    left in and the request built. *)
Fixpoint parse_chars (st : state) (req : parser_request) (s : str)
  : outcome (option bool * str * state * parser_request) :=
  match s with
  | [] => Ret (None, [], st, req)
  | c :: s =>
      '(result, st, req) ← consume st req c;
      match result with
      | Some _ => Ret (result, s, st, req)
      | None => parse_chars st req s
      end
  end.

(** [reset()] *)
Definition reset : state := method_start.

Section translate.
Context `{B : Beast}.

(** Reading a number that was never written has no meaning. *)
Definition version_of (parsed : parser_request) : outcome Z :=
  match p_http_version_major parsed, p_http_version_minor parsed with
  | Some major, Some minor => x ← int_result (major * 10); int_result (x + minor)
  | _, _ => Undef
  end.

Definition set_header (h : header) (req : request) : request :=
  req_set_field (h_name h) (h_value h) req.

Definition translate (req : request) (parsed : parser_request) : outcome request :=
  req ← req_set_method (string_to_verb (p_method parsed)) req;
  v ← version_of parsed;
  let req := req_set_version v req in
  let req := req_set_target (p_uri parsed) req in
  Ret (foldl (fun req h => set_header h req) req (p_headers parsed)).

(** [req_] is a local variable: each call starts from a new request, in the
    state the last call left. *)
Definition parse (st : state) (req : request) (data : str)
  : outcome (option bool * str * state * request) :=
  '(result, rest, st, req_) ← parse_chars st new_request data;
  if decide (result = Some true) then
    req ← translate req req_; Ret (result, rest, st, req)
  else Ret (result, rest, st, req).
End translate.
