(* ===== verification/RequestGrammar.v ===== *)
(** * What the request parser accepts

    The concrete syntax of a request head, with folded header lines, and the
    theorem that the state machine of [RequestParser] accepts exactly it. *)
From S2P Require Import Prelude CppStd Boost RequestParser.

(** ** Concrete syntax *)

Definition token_char (c : ascii) : bool := negb (not_token c).
Definition uri_char (c : ascii) : bool :=
  negb (bool_decide (c = SP)) && negb (is_ctl (char_int c)).
Definition value_char (c : ascii) : bool := negb (is_ctl (char_int c)).
Definition blank (c : ascii) : bool := bool_decide (c = SP \/ c = TAB).
Definition digit_char (c : ascii) : bool := is_digit (char_int c).

Definition CRLF : str := [CR; LF].

(** A header: a first line, and continuation lines, each some blanks and a
    piece of the value that does not start with a blank. *)
Record concrete_header := CHeader {
  c_name : str;
  c_first : str;
  c_folds : list (str * str)
}.

Record concrete_request := CRequest {
  c_method : str;
  c_uri : str;
  c_major : str;
  c_minor : str;
  c_headers : list concrete_header
}.

Definition print_fold (f : str * str) : str := CRLF ++ f.1 ++ f.2.

(** Without the end of the last line. *)
Definition print_header (h : concrete_header) : str :=
  c_name h ++ ":"%char :: SP :: c_first h ++ (c_folds h ≫= print_fold).

Definition print_headers (hs : list concrete_header) : str :=
  hs ≫= fun h => print_header h ++ CRLF.

Definition print_version (major minor : str) : str := "HTTP/" ++ major ++ "."%char :: minor.

Definition print_line (r : concrete_request) : str :=
  c_method r ++ SP :: c_uri r ++ SP :: print_version (c_major r) (c_minor r) ++ CRLF.

Definition print_head (r : concrete_request) : str :=
  print_line r ++ print_headers (c_headers r) ++ CRLF.

(** The number digits denote. *)
Definition decimal (ds : str) : Z := foldl (fun v c => v * 10 + (char_int c - 48))%Z 0%Z ds.

(** What becomes of it in an [int]: the code adds the character of a digit
    before it subtracts the one of zero, so the last 48 numbers of [int] are
    out of its reach. *)
Definition version_value (ds : str) : outcome Z :=
  if (decimal ds + 48 <=? INT_MAX)%Z then Ret (decimal ds) else Undef.

Definition fold_ok (f : str * str) : bool :=
  bool_decide (f.1 <> []) && forallb blank f.1 && forallb value_char f.2
  && match f.2 with c :: _ => negb (blank c) | [] => true end.

Definition header_ok (h : concrete_header) : bool :=
  bool_decide (c_name h <> []) && forallb token_char (c_name h)
  && forallb value_char (c_first h) && forallb fold_ok (c_folds h).

Definition line_ok (r : concrete_request) : bool :=
  bool_decide (c_method r <> []) && forallb token_char (c_method r)
  && forallb uri_char (c_uri r)
  && bool_decide (c_major r <> []) && forallb digit_char (c_major r)
  && bool_decide (c_minor r <> []) && forallb digit_char (c_minor r).

Definition request_ok (r : concrete_request) : bool :=
  line_ok r && forallb header_ok (c_headers r).

(** What a head denotes. *)
Definition denote_header (h : concrete_header) : header :=
  Header (c_name h) (c_first h ++ (c_folds h ≫= snd)).

Definition denote (r : concrete_request) : outcome parser_request :=
  major ← version_value (c_major r);
  minor ← version_value (c_minor r);
  Ret (PRequest (c_method r) (c_uri r) (Some major) (Some minor) (denote_header <$> c_headers r)).

(** Equality of texts. *)
Create HintDb grammar.
#[export] Hint Unfold print_line print_version print_header CRLF : grammar.
Ltac list_eq :=
  autounfold with grammar;
  list_app.

(** ** Facts about characters *)

Lemma token_char_inv c :
  token_char c = true -> c <> SP /\ c <> TAB /\ c <> ":"%char /\ c <> CR /\ not_token c = false.
Proof.
  intros H. repeat split; [by intros ->..|]. unfold token_char in H. by destruct (not_token c).
Qed.

Lemma uri_char_inv c : uri_char c = true <-> c <> SP /\ is_ctl (char_int c) = false.
Proof.
  unfold uri_char. by rewrite andb_true_iff, !negb_true_iff, bool_decide_eq_false.
Qed.

Lemma value_char_inv c :
  value_char c = true <-> is_ctl (char_int c) = false.
Proof. unfold value_char. by rewrite negb_true_iff. Qed.

Lemma value_char_not_cr c : value_char c = true -> c <> CR.
Proof. by intros H ->. Qed.

Lemma blank_inv c : blank c = true <-> c = SP \/ c = TAB.
Proof. apply bool_decide_eq_true. Qed.

Lemma blank_not_cr c : blank c = true -> c <> CR.
Proof. by intros H ->. Qed.

Lemma digit_char_not c : digit_char c = true -> c <> "."%char /\ c <> CR.
Proof. by intros H; split; intros ->. Qed.

Lemma forallb_cons {A} (f : A -> bool) x l :
  forallb f (x :: l) = true <-> f x = true /\ forallb f l = true.
Proof. apply andb_true_iff. Qed.

Lemma forallb_snoc {A} (f : A -> bool) x l :
  forallb f l = true -> f x = true -> forallb f (l ++ [x]) = true.
Proof. intros H1 H2. rewrite forallb_app, H1. simpl. by rewrite H2. Qed.

Lemma digit_char_code c : digit_char c = true -> (48 <= char_int c <= 57)%Z.
Proof. unfold digit_char, is_digit. lia. Qed.

Lemma decimal_snoc ds c : decimal (ds ++ [c]) = (decimal ds * 10 + (char_int c - 48))%Z.
Proof. unfold decimal. by rewrite foldl_app. Qed.

Lemma decimal_app_ge ds es :
  forallb digit_char ds = true -> forallb digit_char es = true ->
  (0 <= decimal ds <= decimal (ds ++ es))%Z.
Proof.
  intros Hds. induction es as [|c es IH] using rev_ind; intros Hes.
  - rewrite app_nil_r. split; [|done].
    induction ds as [|c ds IH] using rev_ind; [done|]. rewrite decimal_snoc.
    rewrite forallb_app in Hds. simpl in Hds. apply andb_true_iff in Hds as [Hds Hc].
    rewrite andb_true_r in Hc. apply digit_char_code in Hc. specialize (IH Hds). lia.
  - rewrite forallb_app in Hes. simpl in Hes. apply andb_true_iff in Hes as [Hes Hc].
    rewrite andb_true_r in Hc. apply digit_char_code in Hc.
    rewrite app_assoc, decimal_snoc. specialize (IH Hes). lia.
Qed.

Lemma next_version_digit v c :
  (0 <= v)%Z -> digit_char c = true ->
  next_version (Some v) c =
  if (v * 10 + char_int c <=? INT_MAX)%Z then Ret (v * 10 + (char_int c - 48))%Z else Undef.
Proof.
  intros Hv Hc%digit_char_code. unfold next_version, int_result.
  change (char_int "0") with 48%Z. destruct (Z.leb_spec (v * 10 + char_int c) INT_MAX).
  - rewrite !in_int_true by (unfold INT_MIN in *; lia). simpl.
    rewrite !in_int_true by (unfold INT_MIN in *; lia). simpl.
    rewrite !in_int_true by (unfold INT_MIN in *; lia). f_equal. lia.
  - destruct (in_int (v * 10)); [|done]. simpl. rewrite in_int_false by lia. done.
Qed.

(** Reading one digit more. *)
Lemma version_value_snoc ds c :
  forallb digit_char ds = true -> digit_char c = true ->
  version_value (ds ++ [c]) = v ← version_value ds; next_version (Some v) c.
Proof.
  intros Hds Hc. destruct (decimal_app_ge ds [] Hds eq_refl) as [Hp _].
  pose proof (digit_char_code c Hc). unfold version_value. rewrite decimal_snoc.
  case_match; rewrite ?bind_Ret.
  - destruct (Z.leb_spec (decimal ds + 48) INT_MAX); [|lia].
    rewrite bind_Ret, next_version_digit by done. case_match; [done|lia].
  - destruct (Z.leb_spec (decimal ds + 48) INT_MAX); [|done].
    rewrite bind_Ret, next_version_digit by done. case_match; [lia|done].
Qed.

Lemma version_value_undef_app ds es :
  forallb digit_char ds = true -> forallb digit_char es = true ->
  version_value ds = Undef -> version_value (ds ++ es) = Undef.
Proof.
  intros Hds Hes. pose proof (decimal_app_ge ds es Hds Hes). unfold version_value.
  repeat case_match; done || lia.
Qed.

(** ** Completeness: the state machine follows the grammar *)

(** From a state the machine reads [p] and goes on from another. *)
Definition reads (st : state) (r : parser_request) (p : str) (st' : state)
    (r' : parser_request) : Prop :=
  forall s, parse_chars st r (p ++ s) = parse_chars st' r' s.

Lemma reads_nil st r : reads st r [] st r.
Proof. done. Qed.

Lemma reads_app st1 r1 p1 st2 r2 p2 st3 r3 :
  reads st1 r1 p1 st2 r2 -> reads st2 r2 p2 st3 r3 -> reads st1 r1 (p1 ++ p2) st3 r3.
Proof. intros H1 H2 s. by rewrite <-app_assoc, H1, H2. Qed.

Lemma reads_one st r c st' r' :
  consume st r c = Ret (None, st', r') -> reads st r [c] st' r'.
Proof. intros H s. cbn [app parse_chars]. by rewrite H. Qed.

Lemma reads_cons st r c st1 r1 p st' r' :
  consume st r c = Ret (None, st1, r1) -> reads st1 r1 p st' r' ->
  reads st r (c :: p) st' r'.
Proof. intros H H'. by apply (reads_app st r [c] st1 r1 p); [apply reads_one|]. Qed.

(** A state that reads a run of characters, one at a time; [f q] is the
    request when [q] has been read. *)
Lemma reads_run st (f : str -> parser_request) (ok : ascii -> bool) p q :
  (forall q c, ok c = true -> consume st (f q) c = Ret (None, st, f (q ++ [c]))) ->
  forallb ok p = true -> reads st (f q) p st (f (q ++ p)).
Proof.
  intros Hstep. revert q. induction p as [|c p IH]; intros q Hp; [by rewrite app_nil_r|].
  apply forallb_cons in Hp as [Hc Hp]. eapply reads_cons; [by apply Hstep|].
  specialize (IH (q ++ [c]) Hp). by rewrite <-app_assoc in IH.
Qed.

(** The same when only a state's first character is special. *)
Lemma reads_run_first st0 st r0 (f : str -> parser_request) (ok : ascii -> bool) c p :
  consume st0 r0 c = Ret (None, st, f [c]) ->
  (forall q c, ok c = true -> consume st (f q) c = Ret (None, st, f (q ++ [c]))) ->
  forallb ok p = true -> reads st0 r0 (c :: p) st (f (c :: p)).
Proof. intros Hc Hstep Hp. eapply reads_cons; [exact Hc|]. by apply (reads_run st f ok p [c]). Qed.

(** *** The request line *)

Definition method_uri_ok (m u : str) : Prop :=
  m <> [] /\ forallb token_char m = true /\ forallb uri_char u = true.

Definition before_version (m u : str) : str := m ++ SP :: u ++ [SP].

#[export] Hint Unfold before_version : grammar.

Lemma reads_method m :
  m <> [] -> forallb token_char m = true ->
  reads method_start new_request m method (PRequest m [] None None []).
Proof.
  destruct m as [|c m]; [done|]. intros _ [Hc Hm]%forallb_cons.
  apply (reads_run_first _ _ _ (fun q => PRequest q [] None None []) token_char); [|clear c Hc..|done].
  - simpl. apply token_char_inv in Hc as (_ & _ & _ & _ & ->). done.
  - intros q c (? & _ & _ & _ & Hn)%token_char_inv. simpl. by rewrite decide_False, Hn.
Qed.

Lemma reads_uri m u :
  forallb uri_char u = true ->
  reads uri (PRequest m [] None None []) u uri (PRequest m u None None []).
Proof.
  intros Hu. apply (reads_run _ (fun q => PRequest m q None None []) uri_char u []); [|done].
  intros q c [? Hc]%uri_char_inv. simpl. by rewrite decide_False, Hc.
Qed.

(** From the URI to the version. *)
Lemma parse_chars_uri m u s :
  forallb uri_char u = true ->
  parse_chars uri (PRequest m [] None None []) (u ++ SP :: "HTTP/" ++ s) =
  parse_chars http_version_major_start (PRequest m u (Some 0%Z) (Some 0%Z) []) s.
Proof.
  intros Hu. rewrite reads_uri by done.
  cbn [app parse_chars consume lit]. rewrite decide_True by done. done.
Qed.

(** Up to the version. *)
Lemma parse_chars_before m u s :
  method_uri_ok m u ->
  parse_chars method_start new_request (before_version m u ++ "HTTP/" ++ s) =
  parse_chars http_version_major_start (PRequest m u (Some 0%Z) (Some 0%Z) []) s.
Proof.
  intros (? & ? & ?). unfold before_version. rewrite <-app_assoc, reads_method by done.
  cbn [app parse_chars consume]. rewrite decide_True by done. simpl mbind. cbn [parse_chars].
  rewrite <-app_assoc. by apply parse_chars_uri.
Qed.

(** Digits: the machine gets through exactly when the number fits. *)
Lemma parse_chars_digits st (f : option Z -> parser_request) es ds v s :
  (forall v c, digit_char c = true ->
     consume st (f (Some v)) c = v ← next_version (Some v) c; Ret (None, st, f (Some v))) ->
  forallb digit_char es = true -> forallb digit_char ds = true -> version_value es = Ret v ->
  parse_chars st (f (Some v)) (ds ++ s) =
  v ← version_value (es ++ ds); parse_chars st (f (Some v)) s.
Proof.
  intros Hstep. revert es v. induction ds as [|c ds IH]; intros es v Hes Hds Hv.
  { by rewrite app_nil_r, Hv. }
  apply forallb_cons in Hds as [Hc Hds]. cbn [app parse_chars].
  pose proof (version_value_snoc es c Hes Hc) as Hs. rewrite Hv, bind_Ret in Hs.
  rewrite Hstep by done. rewrite bind_assoc, cons_middle, app_assoc.
  pose proof (forallb_snoc _ _ _ Hes Hc) as Hes'.
  unfold version_value in Hs. destruct (_ <=? _)%Z eqn:E; rewrite <-Hs, ?bind_Ret.
  - by rewrite (IH (es ++ [c])) by (done || unfold version_value; by rewrite E).
  - by rewrite (version_value_undef_app (es ++ [c]) ds) by (done || unfold version_value; by rewrite E).
Qed.

Lemma parse_chars_number st0 st (f : option Z -> parser_request) ds s :
  (forall v c, digit_char c = true ->
     consume st0 (f (Some v)) c = v ← next_version (Some v) c; Ret (None, st, f (Some v))) ->
  (forall v c, digit_char c = true ->
     consume st (f (Some v)) c = v ← next_version (Some v) c; Ret (None, st, f (Some v))) ->
  ds <> [] -> forallb digit_char ds = true ->
  parse_chars st0 (f (Some 0%Z)) (ds ++ s) = v ← version_value ds; parse_chars st (f (Some v)) s.
Proof.
  intros H0 Hstep. destruct ds as [|c ds]; [done|]. intros _ Hds.
  rewrite <-(parse_chars_digits st f [] (c :: ds) 0%Z) by done.
  apply forallb_cons in Hds as [Hc _]. cbn [app parse_chars]. by rewrite H0, Hstep.
Qed.

Lemma parse_chars_major m u ds s :
  ds <> [] -> forallb digit_char ds = true ->
  parse_chars http_version_major_start (PRequest m u (Some 0%Z) (Some 0%Z) []) (ds ++ s) =
  v ← version_value ds; parse_chars http_version_major (PRequest m u (Some v) (Some 0%Z) []) s.
Proof.
  apply (parse_chars_number _ _ (fun v => PRequest m u v (Some 0%Z) [])); intros v c Hc;
    unfold digit_char in Hc.
  - cbn [consume p_http_version_major]. by rewrite Hc.
  - destruct (digit_char_not c Hc). cbn [consume p_http_version_major].
    by rewrite decide_False, Hc.
Qed.

Lemma parse_chars_minor m u v ds s :
  ds <> [] -> forallb digit_char ds = true ->
  parse_chars http_version_minor_start (PRequest m u (Some v) (Some 0%Z) []) (ds ++ s) =
  w ← version_value ds; parse_chars http_version_minor (PRequest m u (Some v) (Some w) []) s.
Proof.
  apply (parse_chars_number _ _ (fun w => PRequest m u (Some v) w [])); intros w c Hc;
    unfold digit_char in Hc.
  - cbn [consume p_http_version_minor]. by rewrite Hc.
  - destruct (digit_char_not c Hc). cbn [consume p_http_version_minor].
    by rewrite decide_False, Hc.
Qed.

(** The rest of the request line, overflow included. *)
Lemma parse_chars_version m u r s :
  line_ok r = true ->
  parse_chars http_version_major_start (PRequest m u (Some 0%Z) (Some 0%Z) [])
    (c_major r ++ "."%char :: c_minor r ++ CRLF ++ s) =
  major ← version_value (c_major r);
  minor ← version_value (c_minor r);
  parse_chars header_line_start (PRequest m u (Some major) (Some minor) []) s.
Proof.
  unfold line_ok. rewrite !andb_true_iff, !bool_decide_eq_true.
  intros [[[[_ Hj] Hjd] Hn] Hnd]. rewrite parse_chars_major by done.
  destruct (version_value (c_major r)) as [v| | |]; [|done..].
  cbn [mbind outcome_bind app parse_chars consume]. rewrite decide_True by done. unfold go.
  cbn [mbind outcome_bind]. rewrite parse_chars_minor by done.
  by destruct (version_value (c_minor r)) as [w| | |].
Qed.

Lemma parse_chars_line r s :
  line_ok r = true ->
  parse_chars method_start new_request (print_line r ++ s) =
  major ← version_value (c_major r);
  minor ← version_value (c_minor r);
  parse_chars header_line_start
    (PRequest (c_method r) (c_uri r) (Some major) (Some minor) []) s.
Proof.
  intros Hl. pose proof Hl as Hl'. unfold line_ok in Hl'.
  rewrite !andb_true_iff, !bool_decide_eq_true in Hl'.
  destruct Hl' as [[[[[[Hm Hmt] Hu] _] _] _] _].
  replace (print_line r ++ s) with
    (before_version (c_method r) (c_uri r) ++ "HTTP/" ++ c_major r ++ "."%char :: c_minor r ++ CRLF ++ s)
    by list_eq.
  by rewrite parse_chars_before, parse_chars_version by done.
Qed.

(** *** Headers *)

Section headers.
Context (m u : str) (v w : Z).
Abbreviation R hs := (PRequest m u (Some v) (Some w) hs).

Lemma modify_header_snoc f hs h : modify_header f (R (hs ++ [h])) = Ret (R (hs ++ [f h])).
Proof. unfold modify_header. simpl. by rewrite vec_modify_back_snoc. Qed.

Lemma reads_name hs n :
  n <> [] -> forallb token_char n = true ->
  reads header_line_start (R hs) n header_name (R (hs ++ [Header n []])).
Proof.
  destruct n as [|c n]; [done|]. intros _ [Hc Hn]%forallb_cons.
  apply (reads_run_first _ _ _ (fun q => R (hs ++ [Header q []])) token_char); [| |done].
  - apply token_char_inv in Hc as (? & ? & _ & ? & Hc). simpl.
    rewrite decide_False, decide_False, Hc by (done || by intros [_ [?|?]]).
    unfold set_headers; simpl. by rewrite modify_header_snoc.
  - clear. intros q c (_ & _ & ? & _ & Hc)%token_char_inv. simpl.
    by rewrite decide_False, Hc, modify_header_snoc.
Qed.

Lemma reads_value hs n q t :
  forallb value_char t = true ->
  reads header_value (R (hs ++ [Header n q])) t header_value (R (hs ++ [Header n (q ++ t)])).
Proof.
  apply (reads_run _ (fun q => R (hs ++ [Header n q])) value_char).
  clear. intros q c Hc. simpl. rewrite decide_False by by apply value_char_not_cr.
  apply value_char_inv in Hc. by rewrite Hc, modify_header_snoc.
Qed.

(** The states in which a line of a header can end. *)
Definition in_line (st : state) : Prop := st = header_value \/ st = header_lws.

Lemma reads_end_line st hs : in_line st -> reads st (R hs) CRLF header_line_start (R hs).
Proof. intros [-> | ->]; (eapply reads_cons; [reflexivity|]); by apply reads_one. Qed.

Lemma reads_blanks hs b :
  forallb blank b = true -> reads header_lws (R hs) b header_lws (R hs).
Proof.
  apply (reads_run _ (fun _ => R hs) blank b []). clear. intros _ c Hc. simpl.
  by rewrite decide_False, decide_True by (by apply blank_not_cr || by apply blank_inv).
Qed.

Lemma reads_fold st hs n q f :
  in_line st -> fold_ok f = true ->
  exists st', in_line st' /\
    reads st (R (hs ++ [Header n q])) (print_fold f) st' (R (hs ++ [Header n (q ++ f.2)])).
Proof.
  intros Hst. destruct f as [[|c b] t]; [done|]. unfold fold_ok, print_fold. simpl fst. simpl snd.
  rewrite !andb_true_iff. intros [[[_ [Hc Hb]%forallb_cons] Ht] Hn].
  assert (Hl : reads st (R (hs ++ [Header n q])) (CRLF ++ c :: b) header_lws (R (hs ++ [Header n q]))).
  { eapply reads_app; [by apply reads_end_line|]. eapply reads_cons; [|by apply reads_blanks].
    simpl. rewrite decide_False by by apply blank_not_cr.
    rewrite decide_True; [done|]. split; [by destruct hs|by apply blank_inv]. }
  destruct t as [|d t]; [exists header_lws; split; [by right|]; by rewrite !app_nil_r|].
  exists header_value. split; [by left|]. rewrite app_assoc. eapply reads_app; [exact Hl|].
  apply forallb_cons in Ht as [Hd Ht]. apply negb_true_iff in Hn.
  eapply reads_cons; [|rewrite (app_assoc q [d] t : q ++ d :: t = _); by apply reads_value].
  simpl. rewrite decide_False by by apply value_char_not_cr.
  rewrite decide_False by (rewrite <-blank_inv; by rewrite Hn).
  apply value_char_inv in Hd. by rewrite Hd, modify_header_snoc.
Qed.

Lemma reads_folds st hs n q fs :
  in_line st -> forallb fold_ok fs = true ->
  exists st', in_line st' /\
    reads st (R (hs ++ [Header n q])) (fs ≫= print_fold) st'
      (R (hs ++ [Header n (q ++ (fs ≫= snd))])).
Proof.
  revert st q. induction fs as [|f fs IH]; intros st q Hst Hfs.
  - exists st. split; [done|]. rewrite app_nil_r. apply reads_nil.
  - apply forallb_cons in Hfs as [Hf Hfs].
    destruct (reads_fold st hs n q f Hst Hf) as (st1 & Hst1 & R1).
    destruct (IH st1 (q ++ f.2) Hst1 Hfs) as (st' & Hst' & R2). exists st'. split; [done|].
    rewrite !bind_cons, app_assoc. by eapply reads_app.
Qed.

Lemma reads_header hs h :
  header_ok h = true ->
  reads header_line_start (R hs) (print_header h ++ CRLF) header_line_start
    (R (hs ++ [denote_header h])).
Proof.
  unfold header_ok. rewrite !andb_true_iff, bool_decide_eq_true. intros [[[Hne Hn] Hf] Hfs].
  unfold print_header, denote_header. rewrite <-app_assoc.
  eapply reads_app; [by apply reads_name|]. simpl.
  eapply reads_cons; [done|]. eapply reads_cons; [done|]. rewrite <-app_assoc.
  eapply reads_app; [by apply (reads_value _ _ [])|].
  destruct (reads_folds header_value hs (c_name h) (c_first h) (c_folds h))
    as (st & Hst & R1); [by left|done|].
  eapply reads_app; [exact R1|by apply reads_end_line].
Qed.

Lemma reads_headers hs0 hs :
  forallb header_ok hs = true ->
  reads header_line_start (R hs0) (print_headers hs) header_line_start
    (R (hs0 ++ (denote_header <$> hs))).
Proof.
  revert hs0. induction hs as [|h hs IH]; intros hs0 Hhs.
  - rewrite app_nil_r. apply reads_nil.
  - apply forallb_cons in Hhs as [Hh Hhs]. eapply reads_app; [by apply reads_header|].
    specialize (IH (hs0 ++ [denote_header h]) Hhs). by rewrite <-app_assoc in IH.
Qed.
End headers.

(** A whole head: what comes after it is left, and the only thing that can go
    wrong is a version number that does not fit an [int]. *)
Lemma parse_chars_head r s :
  request_ok r = true ->
  parse_chars method_start new_request (print_head r ++ s) =
  parsed ← denote r; Ret (Some true, s, expecting_newline_3, parsed).
Proof.
  intros [Hl Hh]%andb_true_iff. unfold print_head. rewrite <-app_assoc, parse_chars_line by done.
  unfold denote. destruct (version_value (c_major r)) as [v| | |]; [|done..].
  destruct (version_value (c_minor r)) as [w| | |]; [|done..]. cbn [mbind outcome_bind].
  by rewrite <-app_assoc, reads_headers.
Qed.

(** ** Soundness: what has been read when the machine is in a state *)

Record line_read (r : concrete_request) (v w : Z) : Prop := {
  read_ok : line_ok r = true;
  read_major : version_value (c_major r) = Ret v;
  read_minor : version_value (c_minor r) = Ret w
}.

Definition number_ok (ds : str) (v : Z) : Prop :=
  ds <> [] /\ forallb digit_char ds = true /\ version_value ds = Ret v.

Definition parsed_line (r : concrete_request) (v w : Z) (hs : list concrete_header) (l : list header)
  : parser_request :=
  PRequest (c_method r) (c_uri r) (Some v) (Some w) ((denote_header <$> hs) ++ l).

Definition before_header (r : concrete_request) (hs : list concrete_header) : str :=
  print_line r ++ print_headers hs.

#[export] Hint Unfold before_header : grammar.

(** [partial st p r]: in state [st] the request is [r] and [p] was read. *)
Inductive partial : state -> str -> parser_request -> Prop :=
| P_method_start : partial method_start [] new_request
| P_method m :
    m <> [] -> forallb token_char m = true -> partial method m (PRequest m [] None None [])
| P_uri m u :
    method_uri_ok m u -> partial uri (m ++ SP :: u) (PRequest m u None None [])
| P_literal m u st l :
    method_uri_ok m u ->
    In (st, l) [(http_version_h, []); (http_version_t_1, lit "H"); (http_version_t_2, lit "HT");
                (http_version_p, lit "HTT"); (http_version_slash, lit "HTTP")] ->
    partial st (before_version m u ++ l) (PRequest m u None None [])
| P_major_start m u :
    method_uri_ok m u ->
    partial http_version_major_start (before_version m u ++ "HTTP/")
      (PRequest m u (Some 0%Z) (Some 0%Z) [])
| P_major m u ds v :
    method_uri_ok m u -> number_ok ds v ->
    partial http_version_major (before_version m u ++ "HTTP/" ++ ds)
      (PRequest m u (Some v) (Some 0%Z) [])
| P_minor_start m u ds v :
    method_uri_ok m u -> number_ok ds v ->
    partial http_version_minor_start (before_version m u ++ "HTTP/" ++ ds ++ ["."%char])
      (PRequest m u (Some v) (Some 0%Z) [])
| P_minor m u ds v es w :
    method_uri_ok m u -> number_ok ds v -> number_ok es w ->
    partial http_version_minor (before_version m u ++ "HTTP/" ++ ds ++ "."%char :: es)
      (PRequest m u (Some v) (Some w) [])
| P_newline_1 m u ds v es w :
    method_uri_ok m u -> number_ok ds v -> number_ok es w ->
    partial expecting_newline_1 (before_version m u ++ "HTTP/" ++ ds ++ "."%char :: es ++ [CR])
      (PRequest m u (Some v) (Some w) [])
| P_line_start r v w hs :
    line_read r v w -> forallb header_ok hs = true ->
    partial header_line_start (before_header r hs) (parsed_line r v w hs [])
| P_name r v w hs n :
    line_read r v w -> forallb header_ok hs = true ->
    n <> [] -> forallb token_char n = true ->
    partial header_name (before_header r hs ++ n) (parsed_line r v w hs [Header n []])
| P_space r v w hs n :
    line_read r v w -> forallb header_ok hs = true ->
    n <> [] -> forallb token_char n = true ->
    partial space_before_header_value (before_header r hs ++ n ++ [":"%char])
      (parsed_line r v w hs [Header n []])
| P_value_first r v w hs n t :
    line_read r v w -> forallb header_ok hs = true -> header_ok (CHeader n t []) = true ->
    partial header_value (before_header r hs ++ print_header (CHeader n t []))
      (parsed_line r v w hs [denote_header (CHeader n t [])])
| P_lws r v w hs n t fs b :
    line_read r v w -> forallb header_ok hs = true ->
    header_ok (CHeader n t (fs ++ [(b, [])])) = true ->
    partial header_lws (before_header r hs ++ print_header (CHeader n t (fs ++ [(b, [])])))
      (parsed_line r v w hs [denote_header (CHeader n t (fs ++ [(b, [])]))])
| P_value_fold r v w hs n t fs b p :
    line_read r v w -> forallb header_ok hs = true -> p <> [] ->
    header_ok (CHeader n t (fs ++ [(b, p)])) = true ->
    partial header_value (before_header r hs ++ print_header (CHeader n t (fs ++ [(b, p)])))
      (parsed_line r v w hs [denote_header (CHeader n t (fs ++ [(b, p)]))])
| P_newline_2 r v w hs h :
    line_read r v w -> forallb header_ok hs = true -> header_ok h = true ->
    partial expecting_newline_2 (before_header r hs ++ print_header h ++ [CR])
      (parsed_line r v w hs [denote_header h])
| P_newline_3 r v w hs :
    line_read r v w -> forallb header_ok hs = true ->
    partial expecting_newline_3 (before_header r hs ++ [CR]) (parsed_line r v w hs []).

Lemma partial_eq st p r p' r' : partial st p r -> p = p' -> r = r' -> partial st p' r'.
Proof. by intros H <- <-. Qed.

(** A step that reads: split the tests of [consume] and keep the branches that
    go on. *)
Ltac step_cases H :=
  repeat match type of H with
  | context [if ?b then _ else _] => destruct b eqn:?
  end; unfold go, reject in H; try discriminate H; simplify_eq/=.

Lemma not_token_false c : not_token c = false -> token_char c = true.
Proof. unfold token_char. by intros ->. Qed.

Lemma ctl_false_value c : is_ctl (char_int c) = false -> value_char c = true.
Proof. apply value_char_inv. Qed.

Lemma number_ok_snoc ds v c v' :
  number_ok ds v -> is_digit (char_int c) = true -> next_version (Some v) c = Ret v' ->
  number_ok (ds ++ [c]) v'.
Proof.
  intros (Hne & Hd & Hv) Hc Hn. split; [by destruct ds|]. split; [by apply forallb_snoc|].
  by rewrite version_value_snoc, Hv.
Qed.

Lemma number_ok_one v c :
  is_digit (char_int c) = true -> next_version (Some 0%Z) c = Ret v -> number_ok [c] v.
Proof.
  intros Hc Hn. split; [done|]. split; [simpl; by rewrite andb_true_r|].
  by change [c] with ([] ++ [c]); rewrite version_value_snoc.
Qed.

(** [follows st p r]: each step from there keeps [partial]. *)
Definition follows (st : state) (p : str) (r : parser_request) : Prop :=
  forall c st' r', consume st r c = Ret (None, st', r') -> partial st' (p ++ [c]) r'.

Lemma follows_expect st c st' p r :
  (forall c', consume st r c' = expect st c st' c' r) -> partial st' (p ++ [c]) r ->
  follows st p r.
Proof.
  intros Hc Hp c' st1 r1 H. rewrite Hc in H. unfold expect in H. case_decide; [|done].
  unfold go in H. by simplify_eq.
Qed.

Lemma follows_method m :
  m <> [] -> forallb token_char m = true -> follows method m (PRequest m [] None None []).
Proof.
  intros Hne Hm c st' r' H. simpl in H. step_cases H.
  - by apply (P_uri m []).
  - apply P_method; [by destruct m|]. by apply forallb_snoc, not_token_false.
Qed.

Lemma follows_uri m u :
  method_uri_ok m u -> follows uri (m ++ SP :: u) (PRequest m u None None []).
Proof.
  intros Hmu c st' r' H. simpl in H. step_cases H.
  - eapply partial_eq; [apply (P_literal m u http_version_h []); [done|by left]| |done]. list_eq.
  - destruct Hmu as (? & ? & Hu). eapply partial_eq; [apply (P_uri m (u ++ [c]))| |done]; [|list_eq].
    split; [done|]. split; [done|]. apply forallb_snoc; [done|]. by apply uri_char_inv.
Qed.

Lemma follows_literal m u st l :
  method_uri_ok m u ->
  In (st, l) [(http_version_h, []); (http_version_t_1, lit "H"); (http_version_t_2, lit "HT");
              (http_version_p, lit "HTT"); (http_version_slash, lit "HTTP")] ->
  follows st (before_version m u ++ l) (PRequest m u None None []).
Proof.
  intros Hmu. simpl. intros [E|[E|[E|[E|[E|[]]]]]]; injection E as <- <-;
    try (eapply follows_expect; [done|]; eapply partial_eq;
         [eapply P_literal; [done|simpl; eauto 6]|list_eq|done]).
  intros c st' r' H. cbn [consume] in H. case_decide; [|done]. unfold go in H. simplify_eq.
  eapply partial_eq; [by apply P_major_start|list_eq|done].
Qed.

Lemma follows_version m u ds v es w :
  method_uri_ok m u ->
  follows http_version_major_start (before_version m u ++ "HTTP/")
    (PRequest m u (Some 0%Z) (Some 0%Z) []) /\
  (number_ok ds v -> follows http_version_major (before_version m u ++ "HTTP/" ++ ds)
    (PRequest m u (Some v) (Some 0%Z) [])) /\
  (number_ok ds v -> follows http_version_minor_start (before_version m u ++ "HTTP/" ++ ds ++ ["."%char])
    (PRequest m u (Some v) (Some 0%Z) [])) /\
  (number_ok ds v -> number_ok es w ->
   follows http_version_minor (before_version m u ++ "HTTP/" ++ ds ++ "."%char :: es)
    (PRequest m u (Some v) (Some w) [])).
Proof.
  intros Hmu. split; [|split; [|split]]; intros; intros c st' r' H'; cbn [consume p_http_version_major
    p_http_version_minor] in H'; step_cases H'; inv_ret; simplify_eq.
  - eapply partial_eq; [apply P_major; [done|by apply number_ok_one]|list_eq|done].
  - eapply partial_eq; [by apply P_minor_start|list_eq|done].
  - eapply partial_eq; [apply P_major; [done|by eapply number_ok_snoc]|list_eq|done].
  - eapply partial_eq; [apply (P_minor m u ds v [c]); [done|done|by apply number_ok_one]|list_eq|done].
  - eapply partial_eq; [by apply (P_newline_1 m u ds v es w)|list_eq|done].
  - eapply partial_eq; [apply (P_minor m u ds v (es ++ [c])); [done|done|by eapply number_ok_snoc]|list_eq|done].
Qed.

Lemma line_read_intro m u ds v es w :
  method_uri_ok m u -> number_ok ds v -> number_ok es w ->
  line_read (CRequest m u ds es []) v w.
Proof.
  intros (? & Hm & Hu) (? & Hd & ?) (? & He & ?). split; [|done..].
  unfold line_ok. simpl. by rewrite Hm, Hu, Hd, He, !bool_decide_true.
Qed.

Lemma follows_newline_1 m u ds v es w :
  method_uri_ok m u -> number_ok ds v -> number_ok es w ->
  follows expecting_newline_1 (before_version m u ++ "HTTP/" ++ ds ++ "."%char :: es ++ [CR])
    (PRequest m u (Some v) (Some w) []).
Proof.
  intros. eapply follows_expect; [done|].
  eapply partial_eq; [apply (P_line_start (CRequest m u ds es []) v w []);
    [by apply line_read_intro|done]| |done].
  unfold before_header, print_line, print_version, before_version, CRLF. simpl c_method.
  simpl c_uri. simpl c_major. simpl c_minor. cbn [print_headers mbind list_bind].
  rewrite app_nil_r. list_eq.
Qed.

(** *** Headers *)

Lemma modify_header_parsed_line f r v w hs h :
  modify_header f (parsed_line r v w hs [h]) = Ret (parsed_line r v w hs [f h]).
Proof. apply modify_header_snoc. Qed.

Lemma bind_snoc {A B} (f : A -> list B) l x : (l ++ [x]) ≫= f = (l ≫= f) ++ f x.
Proof. rewrite bind_app. simpl. by rewrite app_nil_r. Qed.

Lemma before_header_snoc r hs h :
  before_header r (hs ++ [h]) = before_header r hs ++ print_header h ++ CRLF.
Proof. unfold before_header, print_headers. by rewrite bind_snoc, app_assoc. Qed.

Lemma parsed_line_snoc r v w hs h :
  parsed_line r v w (hs ++ [h]) [] = parsed_line r v w hs [denote_header h].
Proof. unfold parsed_line. by rewrite fmap_app, app_nil_r. Qed.

(** One more character at the end of a header. *)
Lemma print_header_first n t c :
  print_header (CHeader n (t ++ [c]) []) = print_header (CHeader n t []) ++ [c].
Proof. unfold print_header; simpl. by rewrite !app_nil_r, <-app_assoc. Qed.

Lemma print_header_fold n t fs b p :
  print_header (CHeader n t (fs ++ [(b, p)])) =
  print_header (CHeader n t fs) ++ CRLF ++ b ++ p.
Proof.
  unfold print_header; simpl c_name; simpl c_first; simpl c_folds. rewrite bind_snoc.
  unfold print_fold at 2. rewrite <-!app_assoc. simpl. by rewrite <-!app_assoc.
Qed.

Lemma denote_header_fold n t fs b p :
  denote_header (CHeader n t (fs ++ [(b, p)])) = Header n (t ++ (fs ≫= snd) ++ p).
Proof. unfold denote_header; simpl. by rewrite bind_snoc. Qed.

Lemma header_ok_first n t c :
  header_ok (CHeader n t []) = true -> value_char c = true ->
  header_ok (CHeader n (t ++ [c]) []) = true.
Proof.
  unfold header_ok; simpl. rewrite !andb_true_r, !andb_true_iff. intros [[??] ?] ?.
  auto using forallb_snoc.
Qed.

Lemma header_ok_fold n t fs f :
  header_ok (CHeader n t (fs ++ [f])) = true <->
  header_ok (CHeader n t fs) = true /\ fold_ok f = true.
Proof.
  unfold header_ok; simpl. rewrite forallb_app, !andb_true_iff. simpl. rewrite andb_true_r. tauto.
Qed.

Lemma fold_ok_blank b c : blank c = true -> forallb blank b = true -> fold_ok (b ++ [c], []) = true.
Proof.
  intros Hc Hb. unfold fold_ok. simpl. rewrite forallb_snoc by done.
  rewrite bool_decide_true; [done|]. by destruct b.
Qed.

Lemma fold_ok_piece b p c :
  fold_ok (b, p) = true -> value_char c = true -> (p = [] -> blank c = false) ->
  fold_ok (b, p ++ [c]) = true.
Proof.
  unfold fold_ok. simpl fst. simpl snd. rewrite !andb_true_iff. intros [[[??] ?] Hn] Hc Hp.
  repeat split; [done|done|by apply forallb_snoc|].
  destruct p; [simpl; by rewrite Hp|done].
Qed.

Section follows_headers.
Context (r : concrete_request) (v w : Z) (hs : list concrete_header).
Hypothesis Hr : line_read r v w.
Hypothesis Hhs : forallb header_ok hs = true.

Lemma follows_name n :
  n <> [] -> forallb token_char n = true ->
  follows header_name (before_header r hs ++ n) (parsed_line r v w hs [Header n []]).
Proof.
  intros Hne Hn c st' r' H. cbn [consume] in H.
  rewrite modify_header_parsed_line, bind_Ret in H. step_cases H.
  - eapply partial_eq; [apply (P_space r v w hs n); done|list_eq|done].
  - eapply partial_eq; [apply (P_name r v w hs (n ++ [c]))|list_eq|done];
      [done..|by destruct n|by apply forallb_snoc, not_token_false].
Qed.

Lemma follows_space n :
  n <> [] -> forallb token_char n = true ->
  follows space_before_header_value (before_header r hs ++ n ++ [":"%char])
    (parsed_line r v w hs [Header n []]).
Proof.
  intros Hne Hn. eapply follows_expect; [done|].
  eapply partial_eq; [apply (P_value_first r v w hs n []); [done..|]| |done].
  - unfold header_ok; simpl. by rewrite Hn, bool_decide_true.
  - list_eq.
Qed.

(** The end of a line, from either state. *)
Lemma follows_end_line h :
  header_ok h = true ->
  partial expecting_newline_2 ((before_header r hs ++ print_header h) ++ [CR])
    (parsed_line r v w hs [denote_header h]).
Proof.
  intros Hh. eapply partial_eq; [by apply (P_newline_2 r v w hs h)| |done].
  by rewrite <-app_assoc.
Qed.

Lemma follows_value_first n t :
  header_ok (CHeader n t []) = true ->
  follows header_value (before_header r hs ++ print_header (CHeader n t []))
      (parsed_line r v w hs [denote_header (CHeader n t [])]).
Proof.
  intros Hh c st' r' H. cbn [consume] in H.
  rewrite modify_header_parsed_line, bind_Ret in H. step_cases H; [by apply follows_end_line|].
  eapply partial_eq; [apply (P_value_first r v w hs n (t ++ [c])); [done..|]| |].
  - apply header_ok_first; [done|by apply ctl_false_value].
  - by rewrite print_header_first, app_assoc.
  - unfold denote_header; simpl. by rewrite !app_nil_r.
Qed.

(** A character of a piece, the first or a later one. *)
Lemma partial_piece n t fs b p c :
  header_ok (CHeader n t (fs ++ [(b, p)])) = true -> is_ctl (char_int c) = false ->
  (p = [] -> blank c = false) ->
  partial header_value ((before_header r hs ++ print_header (CHeader n t (fs ++ [(b, p)]))) ++ [c])
    (parsed_line r v w hs [push_value c (denote_header (CHeader n t (fs ++ [(b, p)])))]).
Proof.
  intros [Hh Hf]%header_ok_fold Hc Hp.
  eapply partial_eq; [apply (P_value_fold r v w hs n t fs b (p ++ [c])); [done..|by destruct p|]| |].
  - apply header_ok_fold. split; [done|]. apply fold_ok_piece; [done| |done].
    by apply ctl_false_value.
  - rewrite !print_header_fold, <-!app_assoc. done.
  - rewrite !denote_header_fold. unfold push_value; simpl. by rewrite <-!app_assoc.
Qed.

Lemma follows_value_fold n t fs b p :
  p <> [] -> header_ok (CHeader n t (fs ++ [(b, p)])) = true ->
  follows header_value (before_header r hs ++ print_header (CHeader n t (fs ++ [(b, p)])))
      (parsed_line r v w hs [denote_header (CHeader n t (fs ++ [(b, p)]))]).
Proof.
  intros Hp Hh c st' r' H. cbn [consume] in H.
  rewrite modify_header_parsed_line, bind_Ret in H. step_cases H; [by apply follows_end_line|].
  by apply partial_piece.
Qed.

Lemma partial_blank n t fs b c :
  header_ok (CHeader n t fs) = true -> forallb blank b = true -> blank c = true ->
  partial header_lws (before_header r hs ++ print_header (CHeader n t fs) ++ CRLF ++ b ++ [c])
    (parsed_line r v w hs [denote_header (CHeader n t fs)]).
Proof.
  intros Hh Hb Hc. eapply partial_eq; [apply (P_lws r v w hs n t fs (b ++ [c])); [done..|]| |].
  - apply header_ok_fold. split; [done|by apply fold_ok_blank].
  - by rewrite print_header_fold, app_nil_r.
  - rewrite denote_header_fold, app_nil_r. done.
Qed.

Lemma follows_lws n t fs b :
  header_ok (CHeader n t (fs ++ [(b, [])])) = true ->
  follows header_lws (before_header r hs ++ print_header (CHeader n t (fs ++ [(b, [])])))
      (parsed_line r v w hs [denote_header (CHeader n t (fs ++ [(b, [])]))]).
Proof.
  intros Hh c st' r' H. cbn [consume] in H.
  rewrite modify_header_parsed_line, bind_Ret in H.
  step_cases H; [by apply follows_end_line| |].
  - apply header_ok_fold in Hh as [Hh Hb]. unfold fold_ok in Hb. simpl in Hb.
    rewrite !andb_true_iff in Hb.
    eapply partial_eq; [apply (partial_blank n t fs b c)|..]; [done|tauto|by apply blank_inv|..].
    + rewrite print_header_fold, app_nil_r, <-!app_assoc. done.
    + by rewrite denote_header_fold, app_nil_r.
  - apply partial_piece; [done|done|]. intros _. by apply bool_decide_eq_false.
Qed.

End follows_headers.

Lemma follows_line_start r v w hs :
  line_read r v w -> forallb header_ok hs = true ->
  follows header_line_start (before_header r hs) (parsed_line r v w hs []).
Proof.
  intros Hr Hhs c st' r' H. cbn [consume] in H. step_cases H.
  - by apply P_newline_3.
  - destruct a as [Hne Hc]. destruct (snoc_inv hs) as [->|(hs' & [name t fs] & ->)]; [done|].
    rewrite forallb_app in Hhs. simpl in Hhs. rewrite andb_true_r in Hhs.
    apply andb_true_iff in Hhs as [Hhs' Hh]. rewrite parsed_line_snoc, before_header_snoc.
    eapply partial_eq; [apply (partial_blank r v w hs' Hr Hhs' name t fs [] c)| |done];
      [done|done|by apply blank_inv|]. by rewrite <-!app_assoc.
  - inv_ret. eapply partial_eq; [apply (P_name r v w hs [c]); try done|done|].
    + simpl. by rewrite not_token_false.
    + unfold modify_header in Hv. simpl in Hv. rewrite app_nil_r, vec_modify_back_snoc in Hv.
      simpl in Hv. by simplify_eq.
Qed.

Lemma partial_step st p r : partial st p r -> follows st p r.
Proof.
  intros [].
  - intros c st' r' H. simpl in H. step_cases H. apply P_method; [done|].
    simpl. by rewrite not_token_false.
  - by apply follows_method.
  - by apply follows_uri.
  - by apply follows_literal.
  - by apply (follows_version m u [] 0 [] 0).
  - by apply (follows_version m u ds v [] 0).
  - by apply (follows_version m u ds v [] 0).
  - by apply (follows_version m u ds v es w).
  - by apply follows_newline_1.
  - by apply follows_line_start.
  - by apply follows_name.
  - by apply follows_space.
  - by apply follows_value_first.
  - by apply follows_lws.
  - by apply follows_value_fold.
  - eapply follows_expect; [done|]. rewrite <-parsed_line_snoc.
    eapply partial_eq; [apply (P_line_start r0 v w (hs ++ [h])); [done|]| |done].
    + by apply forallb_snoc.
    + rewrite before_header_snoc. by rewrite <-!app_assoc.
  - by intros c st' r'.
Qed.

(** A step accepts in the last state only, on a line feed. *)
Lemma consume_true st r c st' r' :
  consume st r c = Ret (Some true, st', r') ->
  st = expecting_newline_3 /\ c = LF /\ st' = st /\ r' = r.
Proof.
  destruct st; simpl; unfold expect; intros H; step_cases H; inv_ret; simplify_eq.
  case_bool_decide; by simplify_eq.
Qed.

Lemma partial_accept st p r c st' r' :
  partial st p r -> consume st r c = Ret (Some true, st', r') ->
  exists q, request_ok q = true /\ p ++ [c] = print_head q /\ denote q = Ret r' /\
            st' = expecting_newline_3.
Proof.
  intros Hp (E & -> & -> & ->)%consume_true.
  destruct Hp as [| | |m u st l _ Hl| | | | | | | | | | | | |q v w hs Hq Hhs];
    try discriminate E.
  { rewrite E in Hl. simpl in Hl. by repeat destruct Hl as [Hl|Hl]. }
  exists (CRequest (c_method q) (c_uri q) (c_major q) (c_minor q) hs).
  destruct Hq as [Hl Hv Hw]. split; [|split; [|split; [|done]]].
  - unfold request_ok. simpl c_headers. by rewrite Hhs, andb_true_r.
  - unfold before_header, print_head. by rewrite <-!app_assoc.
  - unfold denote; simpl. rewrite Hv; simpl. rewrite Hw; simpl. unfold parsed_line.
    by rewrite app_nil_r.
Qed.

Lemma partial_parse_chars st p r s rest st' r' :
  partial st p r -> parse_chars st r s = Ret (Some true, rest, st', r') ->
  exists q, request_ok q = true /\ p ++ s = print_head q ++ rest /\ denote q = Ret r' /\
            st' = expecting_newline_3.
Proof.
  revert st p r. induction s as [|c s IH]; intros st p r Hp H; [done|].
  cbn [parse_chars] in H. destruct (consume st r c) as [[[[b|] st1] r1]| | |] eqn:E; try done.
  - rewrite bind_Ret in H. simplify_eq.
    destruct (partial_accept _ _ _ _ _ _ Hp E) as (q & ? & Hq & ? & ?).
    exists q. split; [done|]. split; [|done]. rewrite <-Hq. by rewrite <-app_assoc.
  - rewrite bind_Ret in H. destruct (IH st1 (p ++ [c]) r1) as (q & ? & Hq & ?); [|done|].
    + by apply (partial_step st p r).
    + exists q. rewrite <-app_assoc in Hq. done.
Qed.

(** ** Properties *)

(** C4: the parser accepts exactly the request heads of the grammar: it returns
    true, with a request and the rest of the input, when the input is a
    well-formed head that denotes the request, followed by the rest. *)
Theorem accepts_iff (s rest : str) (st : state) (r : parser_request) :
  parse_chars method_start new_request s = Ret (Some true, rest, st, r) <->
  exists q, request_ok q = true /\ denote q = Ret r /\ s = print_head q ++ rest /\
            st = expecting_newline_3.
Proof.
  split.
  - intros H. destruct (partial_parse_chars _ [] _ _ _ _ _ P_method_start H) as (q & ? & ? & ? & ?).
    by exists q.
  - intros (q & Hq & Hd & -> & ->). by rewrite parse_chars_head, Hd.
Qed.
