(* ===== verification/RequestMessage.v ===== *)
(** * From the bytes of a request to the message

    What [parse] gives the session: the message built from an accepted head,
    when reading a head has no meaning, and what a second call makes of a head
    that came in two reads. *)
From S2P Require Import Prelude CppStd Boost BoostModel RequestParser RequestGrammar.

(** ** Version numbers *)

(** A number of at most nine digits is read without overflow. *)
Lemma decimal_bound ds :
  forallb digit_char ds = true -> (0 <= decimal ds < 10 ^ Z.of_nat (length ds))%Z.
Proof.
  induction ds as [|c ds IH] using rev_ind; intros Hds; [done|].
  rewrite forallb_app in Hds. simpl in Hds. apply andb_true_iff in Hds as [Hds Hc].
  rewrite andb_true_r in Hc. apply digit_char_code in Hc. specialize (IH Hds).
  rewrite decimal_snoc, length_app, Nat.add_1_r, Nat2Z.inj_succ, Z.pow_succ_r by lia. lia.
Qed.

Lemma decimal_short k ds :
  forallb digit_char ds = true -> (length ds <= k)%nat -> (0 <= decimal ds < 10 ^ Z.of_nat k)%Z.
Proof.
  intros Hds Hl. pose proof (decimal_bound ds Hds).
  assert (10 ^ Z.of_nat (length ds) <= 10 ^ Z.of_nat k)%Z by (apply Z.pow_le_mono_r; lia). lia.
Qed.

Lemma version_value_short ds :
  forallb digit_char ds = true -> length ds <= 9 -> version_value ds = Ret (decimal ds).
Proof.
  intros Hds Hl. pose proof (decimal_short 9 ds Hds Hl) as H.
  change (10 ^ Z.of_nat 9)%Z with 1000000000%Z in H. unfold version_value, INT_MAX.
  case_match; [done|lia].
Qed.

(** ** When reading a head has no meaning *)

(** The version numbers that have been begun when a step is undefined. *)
Definition overflows (p : str) : Prop :=
  exists m u ds, method_uri_ok m u /\ forallb digit_char ds = true /\
  (INT_MAX < decimal ds + 48)%Z /\
  (p = before_version m u ++ "HTTP/" ++ ds \/
   exists major v, number_ok major v /\
     p = before_version m u ++ "HTTP/" ++ major ++ "."%char :: ds).

Lemma version_value_undef ds : version_value ds = Undef <-> (INT_MAX < decimal ds + 48)%Z.
Proof. unfold version_value. case_match; split; done || lia. Qed.

Lemma number_undef ds v c :
  forallb digit_char ds = true -> version_value ds = Ret v ->
  is_digit (char_int c) = true -> next_version (Some v) c = Undef ->
  forallb digit_char (ds ++ [c]) = true /\ (INT_MAX < decimal (ds ++ [c]) + 48)%Z.
Proof.
  intros Hd Hv Hc Hn. split; [by apply forallb_snoc|]. apply version_value_undef.
  by rewrite version_value_snoc, Hv.
Qed.

Lemma overflows_major m u ds v c x :
  method_uri_ok m u -> forallb digit_char ds = true -> version_value ds = Ret v ->
  is_digit (char_int c) = true -> next_version (Some v) c = Undef ->
  x = before_version m u ++ "HTTP/" ++ ds ++ [c] -> overflows x.
Proof.
  intros Hmu Hd Hv Hc Hn ->. destruct (number_undef ds v c Hd Hv Hc Hn).
  exists m, u, (ds ++ [c]). auto.
Qed.

Lemma overflows_minor m u major k ds v c x :
  method_uri_ok m u -> number_ok major k -> forallb digit_char ds = true ->
  version_value ds = Ret v ->
  is_digit (char_int c) = true -> next_version (Some v) c = Undef ->
  x = before_version m u ++ "HTTP/" ++ major ++ "."%char :: ds ++ [c] -> overflows x.
Proof.
  intros Hmu Hm Hd Hv Hc Hn ->. destruct (number_undef ds v c Hd Hv Hc Hn).
  exists m, u, (ds ++ [c]). eauto 8.
Qed.

(** [bind] on a step that only the first part can make undefined. *)
Lemma bind_undef {A B} (o : outcome A) (f : A -> outcome B) :
  o ≫= f = Undef -> o = Undef \/ exists a, o = Ret a /\ f a = Undef.
Proof. destruct o; simpl; eauto; discriminate. Qed.

Lemma modify_header_undef f r : modify_header f r = Undef -> p_headers r = [].
Proof. unfold modify_header, vec_modify_back. by destruct (p_headers r). Qed.

Lemma consume_undef st r c :
  consume st r c = Undef ->
  (st ∈ [http_version_major_start; http_version_major] /\ is_digit (char_int c) = true /\
     next_version (p_http_version_major r) c = Undef) \/
  (st ∈ [http_version_minor_start; http_version_minor] /\ is_digit (char_int c) = true /\
     next_version (p_http_version_minor r) c = Undef) \/
  (st ∈ [header_lws; header_name; header_value] /\ p_headers r = []).
Proof.
  destruct st; simpl; unfold expect; intros H; step_cases H;
    apply bind_undef in H as [H|(? & _ & H)]; try discriminate H;
    try (apply modify_header_undef in H).
  - left. split; [by vm_compute; left|done].
  - left. split; [by vm_compute; right; left|done].
  - right; left. split; [by vm_compute; left|done].
  - right; left. split; [by vm_compute; right; left|done].
  - simpl in H. by destruct (p_headers r).
  - right; right. split; [by vm_compute; left|done].
  - right; right. split; [by vm_compute; right; left|done].
  - right; right. split; [by vm_compute; do 2 right; left|done].
Qed.

Lemma partial_undef st p r c :
  partial st p r -> consume st r c = Undef -> overflows (p ++ [c]).
Proof.
  intros Hp [(Hst & Hc & Hn)|[(Hst & Hc & Hn)|[Hst Hh]]]%consume_undef;
    destruct Hp as [| | |m u st l _ Hl|m u Hmu|m u ds v Hmu (? & ? & ?)|m u ds v Hmu Hds
      |m u ds v es w Hmu Hds (? & ? & ?)| | | | | | | | |];
    try absurd_in Hst; try discriminate Hh;
    try (exfalso; simpl in Hl;
         repeat (destruct Hl as [Hl|Hl]; [injection Hl as <- <-; absurd_in Hst|]); done).
  - apply (overflows_major m u [] 0 c); try done. list_eq.
  - apply (overflows_major m u ds v c); try done. list_eq.
  - apply (overflows_minor m u ds v [] 0 c); try done. list_eq.
  - apply (overflows_minor m u ds v es w c); try done. list_eq.
  - by apply app_eq_nil in Hh as [_ ?].
  - by apply app_eq_nil in Hh as [_ ?].
  - by apply app_eq_nil in Hh as [_ ?].
  - by apply app_eq_nil in Hh as [_ ?].
Qed.

Lemma partial_parse_chars_undef st p r s :
  partial st p r -> parse_chars st r s = Undef ->
  exists q rest, p ++ s = q ++ rest /\ overflows q.
Proof.
  revert st p r. induction s as [|c s IH]; intros st p r Hp H; [done|].
  cbn [parse_chars] in H. destruct (consume st r c) as [[[[b|] st1] r1]| | |] eqn:E; try done.
  - rewrite bind_Ret in H. destruct (IH st1 (p ++ [c]) r1) as (q & rest & Hq & ?); [|done|].
    + by apply (partial_step st p r).
    + exists q, rest. rewrite <-Hq. by rewrite <-app_assoc.
  - exists (p ++ [c]), s. split; [by rewrite <-app_assoc|]. by apply (partial_undef st p r).
Qed.

(** The other outcomes do not exist. *)
Lemma no_throw_next_version v c : no_throw (next_version v c).
Proof. unfold next_version. destruct v; auto with outcome. Qed.

Lemma no_throw_modify_header f r : no_throw (modify_header f r).
Proof. unfold modify_header. auto with outcome. Qed.
#[local] Hint Resolve no_throw_next_version no_throw_modify_header : outcome.

Lemma consume_no_throw st r c : no_throw (consume st r c).
Proof. destruct st; simpl; unfold expect, go, reject; auto 10 with outcome. Qed.

Lemma parse_chars_no_throw st r s : no_throw (parse_chars st r s).
Proof.
  revert st r. induction s as [|c s IH]; intros st r; [apply no_throw_ret|]. cbn [parse_chars].
  apply no_throw_bind; [apply consume_no_throw|].
  intros [[[b|] st1] r1]; [apply no_throw_ret|apply IH].
Qed.

Lemma parse_chars_overflow q rest :
  overflows q -> parse_chars method_start new_request (q ++ rest) = Undef.
Proof.
  intros (m & u & ds & Hmu & Hd & Hu%version_value_undef & H).
  assert (ds <> []) by by intros ->.
  destruct H as [->|(major & v & (? & ? & Hv) & ->)]; rewrite <-!app_assoc, parse_chars_before by done.
  - by rewrite parse_chars_major, Hu.
  - rewrite parse_chars_major, Hv by done. cbn [mbind outcome_bind app parse_chars consume].
    rewrite decide_True by done. unfold go. cbn [mbind outcome_bind].
    by rewrite parse_chars_minor, Hu.
Qed.

(** The loop of [parse] never throws, and on a first call it leaves the defined
    behaviour of C++ exactly when the input begins with a request line one of
    whose version numbers is greater than [INT_MAX - 48]; [headers.back()] is
    never called on an empty vector. *)
Lemma parse_chars_undefined_iff (s : str) :
  parse_chars method_start new_request s = Undef <-> exists q rest, s = q ++ rest /\ overflows q.
Proof.
  split.
  - apply (partial_parse_chars_undef _ []). constructor.
  - intros (q & rest & -> & Hq). by apply parse_chars_overflow.
Qed.

(** A version number of at most nine digits never overflows. *)
Lemma short_version_no_overflow ds : forallb digit_char ds = true -> length ds <= 9 ->
  version_value ds <> Undef.
Proof. intros Hd Hl. by rewrite version_value_short. Qed.

(** ** How much input is used *)

(** What a call that asks for more leaves behind is enough to go on from. *)
Lemma parse_chars_app st r s rest st' r' t :
  parse_chars st r s = Ret (None, rest, st', r') ->
  rest = [] /\ parse_chars st r (s ++ t) = parse_chars st' r' t.
Proof.
  revert st r. induction s as [|c s IH]; intros st r H; [simpl in H; by simplify_eq|].
  cbn [app parse_chars] in *. destruct (consume st r c) as [[[[b|] st1] r1]| | |]; try done.
  rewrite !bind_Ret in *. by apply IH.
Qed.

Lemma partial_of_indeterminate st p r s rest st' r' :
  partial st p r -> parse_chars st r s = Ret (None, rest, st', r') -> partial st' (p ++ s) r'.
Proof.
  revert st p r. induction s as [|c s IH]; intros st p r Hp H.
  - simpl in H. rewrite app_nil_r. by simplify_eq.
  - cbn [parse_chars] in H. destruct (consume st r c) as [[[[b|] st1] r1]| | |] eqn:E; try done.
    rewrite bind_Ret in H. rewrite (app_assoc p [c] s : p ++ c :: s = _).
    eapply IH; [|exact H]. by apply (partial_step st p r).
Qed.

(** What to send to complete a head from each state. *)
Definition completion (st : state) : str :=
  match st with
  | method_start => "G  HTTP/1.1"
  | method => "  HTTP/1.1"
  | uri => " HTTP/1.1"
  | http_version_h => "HTTP/1.1"
  | http_version_t_1 => "TTP/1.1"
  | http_version_t_2 => "TP/1.1"
  | http_version_p => "P/1.1"
  | http_version_slash => "/1.1"
  | http_version_major_start => "1.1"
  | http_version_major => ".1"
  | http_version_minor_start => "1"
  | http_version_minor => ""
  | header_name => ": "
  | space_before_header_value => " "
  | header_value | header_lws => ""
  | expecting_newline_1 | header_line_start | expecting_newline_2 | expecting_newline_3 => ""
  end ++
  match st with
  | header_line_start => CRLF
  | expecting_newline_1 | expecting_newline_2 => LF :: CRLF
  | expecting_newline_3 => [LF]
  | _ => CRLF ++ CRLF
  end.

Lemma partial_completes st p r :
  partial st p r ->
  exists r', parse_chars st r (completion st) = Ret (Some true, [], expecting_newline_3, r').
Proof.
  intros []; try (eexists; reflexivity).
  simpl in H0. repeat (destruct H0 as [H0|H0]; [injection H0 as <- <-; eexists; reflexivity|]). done.
Qed.

(** C20: the state machine asks for more input only when there is some that
    completes the request: whenever a first call is indeterminate it has used
    all its input, and the input extends to one that is accepted. *)
Theorem indeterminate_is_viable (s rest : str) (st : state) (r : parser_request) :
  parse_chars method_start new_request s = Ret (None, rest, st, r) ->
  rest = [] /\
  exists r', parse_chars method_start new_request (s ++ completion st)
             = Ret (Some true, [], expecting_newline_3, r').
Proof.
  intros H. destruct (parse_chars_app _ _ _ _ _ _ (completion st) H) as [-> ->].
  split; [done|]. apply (partial_completes st ([] ++ s)).
  by apply (partial_of_indeterminate method_start [] new_request s [] st r P_method_start).
Qed.

Lemma indeterminate_is_viable_witness :
  [] = @nil ascii /\
  exists r', parse_chars method_start new_request ("POST /a HT" ++ completion http_version_t_2)
             = Ret (Some true, [], expecting_newline_3, r').
Proof.
  apply (indeterminate_is_viable "POST /a HT" [] http_version_t_2
    (PRequest "POST" "/a" None None [])). reflexivity.
Defined.

(** ** The message *)

Section message.
Context `{BL : BeastLaws}.

(** Headers are set in order: the last one of a name is kept. *)
Definition field_of (hs : list header) (n : str) (default : option str) : option str :=
  foldl (fun v h => if iequals (h_name h) n then Some (h_value h) else v) default hs.

Definition field_ok (h : header) : bool := field_name_ok (h_name h) && field_value_ok (h_value h).

Lemma set_headers_read hs req :
  forallb field_ok hs = true ->
  let r := foldl (fun req h => set_header h req) req hs in
  req_method r = req_method req /\ req_version r = req_version req /\
  req_target r = req_target req /\ req_body r = req_body req /\
  forall n, req_field r n = field_of hs n (req_field req n).
Proof.
  revert req. induction hs as [|h hs IH]; intros req; [done|]. intros [Hh Hhs]%forallb_cons.
  cbn [foldl]. destruct (IH (set_header h req) Hhs) as (E1 & E2 & E3 & E4 & E5).
  unfold set_header in *. autorewrite with beast in *. repeat (split; [done|]).
  intros n. rewrite E5. unfold field_of. cbn [foldl].
  apply andb_true_iff in Hh as [??]. by rewrite req_set_field_get.
Qed.

Lemma translate_known req p v :
  string_to_verb (p_method p) <> verb_unknown -> version_of p = Ret v ->
  forallb field_ok (p_headers p) = true ->
  exists r, translate req p = Ret r /\ req_method r = string_to_verb (p_method p) /\
    req_target r = p_uri p /\ req_body r = req_body req /\
    ((0 < v < 100)%Z -> req_version r = v) /\
    forall n, req_field r n = field_of (p_headers p) n (req_field req n).
Proof.
  intros Hv Hver Hf. unfold translate.
  destruct (req_set_method_known _ req Hv) as (r & -> & Hm & _ & _ & Hb & Hn).
  rewrite Hver, !bind_Ret. eexists. split; [done|].
  destruct (set_headers_read (p_headers p) (req_set_target (p_uri p) (req_set_version v r)) Hf)
    as (E1 & E2 & E3 & E4 & E5).
  autorewrite with beast in *. rewrite E1, E3, E4. split; [done|]. split; [done|].
  split; [done|]. split; [intros; rewrite E2; by apply req_set_version_get|].
  intros n. rewrite E5. autorewrite with beast. by rewrite Hn.
Qed.
End message.

Lemma parse_head `{B : Beast} q rest req p :
  request_ok q = true -> denote q = Ret p ->
  parse method_start req (print_head q ++ rest) =
  r ← translate req p; Ret (Some true, rest, expecting_newline_3, r).
Proof.
  intros Hq Hp. unfold parse. by rewrite parse_chars_head, Hp by done.
Qed.

Lemma print_head_length q : 0 < length (print_head q).
Proof. unfold print_head. rewrite !length_app. simpl. lia. Qed.

(** What [version] is set to. *)
Definition head_version (q : concrete_request) : Z :=
  (decimal (c_major q) * 10 + decimal (c_minor q))%Z.

Lemma version_short (q : concrete_request) :
  request_ok q = true -> length (c_major q) <= 8 -> length (c_minor q) <= 8 ->
  exists p, denote q = Ret p /\ version_of p = Ret (head_version q) /\
    p_method p = c_method q /\ p_uri p = c_uri q /\
    p_headers p = denote_header <$> c_headers q.
Proof.
  intros [Hl _]%andb_true_iff Hj Hn. unfold line_ok in Hl.
  rewrite !andb_true_iff in Hl. destruct Hl as [[[_ Hjd] _] Hnd].
  pose proof (decimal_short 8 _ Hjd Hj). pose proof (decimal_short 8 _ Hnd Hn).
  change (10 ^ Z.of_nat 8)%Z with 100000000%Z in *.
  unfold denote. rewrite !version_value_short by (done || lia). rewrite !bind_Ret.
  eexists. split; [done|]. split; [|done].
  unfold version_of, head_version, int_result; simpl.
  rewrite in_int_true by (unfold INT_MIN, INT_MAX; lia). simpl.
  by rewrite in_int_true by (unfold INT_MIN, INT_MAX; lia).
Qed.

(** A head that is a valid request. *)
Record valid_head `{B : Beast} (q : concrete_request) : Prop := {
  valid_ok : request_ok q = true;
  valid_major : length (c_major q) <= 8;
  valid_minor : length (c_minor q) <= 8;
  valid_range : (0 < head_version q < 100)%Z;
  valid_method : string_to_verb (c_method q) <> verb_unknown;
  valid_fields : forallb field_ok (denote_header <$> c_headers q) = true
}.

Lemma parse_valid `{BL : BeastLaws} q rest req :
  valid_head q ->
  exists r, parse method_start req (print_head q ++ rest)
            = Ret (Some true, rest, expecting_newline_3, r)
    /\ req_method r = string_to_verb (c_method q) /\ req_target r = c_uri q
    /\ req_version r = head_version q /\ req_body r = req_body req
    /\ forall n, req_field r n = field_of (denote_header <$> c_headers q) n (req_field req n).
Proof.
  intros [Hq Hj Hn Hb Hm Hf].
  destruct (version_short q Hq Hj Hn) as (p & Hp & Hv & Em & Eu & Eh).
  rewrite <-Em in Hm. rewrite <-Eh in Hf |- *.
  rewrite (parse_head q rest req p) by done.
  destruct (translate_known req p _ Hm Hv Hf) as (r & -> & E1 & E2 & E3 & E4 & E5).
  exists r. rewrite <-Em, <-Eu. auto 8.
Qed.

(** C15: reading back a printed head.  The message [parse] builds from a valid
    head, folded lines included, has the head's method, target, version - ten
    times the major number plus the minor - and, under every name, the unfolded
    value of the last header of that name; the bytes after the head are left. *)
Theorem parse_message `{BL : BeastLaws} (q : concrete_request) (rest : str) (req : request) :
  valid_head q ->
  exists r, parse method_start req (print_head q ++ rest)
            = Ret (Some true, rest, expecting_newline_3, r)
    /\ req_method r = string_to_verb (c_method q) /\ req_target r = c_uri q
    /\ req_version r = (decimal (c_major q) * 10 + decimal (c_minor q))%Z /\ req_body r = req_body req
    /\ forall n, req_field r n = field_of (denote_header <$> c_headers q) n (req_field req n).
Proof. apply parse_valid. Qed.

Definition example_request : concrete_request :=
  CRequest "GET" "/static/a" "1" "1"
    [CHeader "Host" "x" []; CHeader "Accept" "a," [(lit "  ", lit "b")]].

Lemma parse_message_witness :
  exists r, parse method_start req_new (print_head example_request ++ "body")
            = Ret (Some true, lit "body", expecting_newline_3, r)
    /\ req_method r = string_to_verb "GET" /\ req_target r = lit "/static/a"
    /\ req_version r = 11%Z /\ req_body r = req_body req_new
    /\ forall n, req_field r n = field_of (denote_header <$> c_headers example_request) n
                                 (req_field req_new n).
Proof.
  apply (parse_message example_request "body" req_new).
  split; try reflexivity; [simpl; lia|simpl; lia|done|by vm_compute].
Defined.

(** A well-formed request whose method Beast does not know - any other
    token, such as [FOO] - makes [parse] throw [invalid_argument], which no
    caller catches, instead of answering it. *)
Theorem unknown_method_throws `{BL : BeastLaws} (q : concrete_request) (rest : str)
    (req : request) (p : parser_request) :
  request_ok q = true -> denote q = Ret p -> string_to_verb (c_method q) = verb_unknown ->
  parse method_start req (print_head q ++ rest) = Throw invalid_argument.
Proof.
  intros Hq Hp Hm. rewrite (parse_head q rest req p) by done. unfold translate.
  assert (p_method p = c_method q) as -> by (unfold denote in Hp; by inv_ret).
  by rewrite Hm, req_set_method_unknown.
Qed.

Lemma unknown_method_throws_witness :
  parse method_start req_new (print_head (CRequest "FOO" "/" "1" "1" []) ++ []) = Throw invalid_argument.
Proof.
  apply (unknown_method_throws _ _ _ (PRequest "FOO" "/" (Some 1%Z) (Some 1%Z) [])); reflexivity.
Defined.

(** ** A head that comes in several reads *)

(** The states after [HTTP/]. *)
Definition version_begun (st : state) : bool :=
  bool_decide (st ∉ [method_start; method; uri; http_version_h; http_version_t_1;
                     http_version_t_2; http_version_p; http_version_slash]).

Lemma consume_begun st r c st' r' :
  version_begun st = true -> p_http_version_major r = None ->
  consume st r c = Ret (None, st', r') ->
  version_begun st' = true /\ p_http_version_major r' = None.
Proof.
  intros Hst Hr H. destruct st; try discriminate Hst; simpl in H; unfold expect in H; step_cases H;
    rewrite ?Hr in *; inv_ret; simplify_eq/=; try done;
    unfold modify_header in *; inv_ret; simplify_eq/=; done.
Qed.

Lemma parse_chars_begun st r s rest st' r' :
  version_begun st = true -> p_http_version_major r = None ->
  parse_chars st r s = Ret (Some true, rest, st', r') -> p_http_version_major r' = None.
Proof.
  revert st r. induction s as [|c s IH]; intros st r Hst Hr H; [done|]. cbn [parse_chars] in H.
  destruct (consume st r c) as [[[[b|] st1] r1]| | |] eqn:E; try done; rewrite bind_Ret in H.
  - simplify_eq. apply consume_true in E as (_ & _ & _ & ->). done.
  - destruct (consume_begun _ _ _ _ _ Hst Hr E). by eapply IH.
Qed.

(** *** A head that is split in its URI *)

(** What comes after [u2], the end of the URI. *)
Definition uri_tail (q : concrete_request) (u2 : str) : str :=
  u2 ++ SP :: print_version (c_major q) (c_minor q) ++ CRLF ++ print_headers (c_headers q) ++ CRLF.

Lemma print_head_split q u1 u2 :
  c_uri q = u1 ++ u2 -> print_head q = (c_method q ++ SP :: u1) ++ uri_tail q u2.
Proof. intros Hu. unfold print_head, print_line, uri_tail. rewrite Hu. list_eq. Qed.

Lemma parse_chars_to_uri q u1 u2 :
  request_ok q = true -> c_uri q = u1 ++ u2 ->
  parse_chars method_start new_request (c_method q ++ SP :: u1) =
  Ret (None, [], uri, PRequest (c_method q) u1 None None []).
Proof.
  intros [Hl _]%andb_true_iff Hu. unfold line_ok in Hl.
  rewrite !andb_true_iff, !bool_decide_eq_true, Hu, forallb_app, andb_true_iff in Hl.
  destruct Hl as [[[[[[Hm Hmt] [Hu1 _]] _] _] _] _]. rewrite reads_method by done.
  cbn [app parse_chars consume]. rewrite decide_True by done. unfold go. rewrite bind_Ret.
  rewrite <-(app_nil_r u1) at 1. by rewrite reads_uri.
Qed.

Lemma parse_chars_uri_tail q u1 u2 v w s :
  request_ok q = true -> c_uri q = u1 ++ u2 ->
  version_value (c_major q) = Ret v -> version_value (c_minor q) = Ret w ->
  parse_chars uri new_request (uri_tail q u2 ++ s) =
  Ret (Some true, s, expecting_newline_3, PRequest [] u2 (Some v) (Some w) (denote_header <$> c_headers q)).
Proof.
  intros [Hl Hh]%andb_true_iff Hu Hv Hw.
  replace (uri_tail q u2 ++ s) with
    (u2 ++ SP :: "HTTP/" ++ c_major q ++ "."%char :: c_minor q ++ CRLF ++
     print_headers (c_headers q) ++ CRLF ++ s) by (unfold uri_tail; list_eq).
  unfold new_request. rewrite parse_chars_uri.
  - rewrite parse_chars_version by done. rewrite Hv, bind_Ret, Hw, bind_Ret. by apply reads_headers.
  - unfold line_ok in Hl. rewrite !andb_true_iff, Hu, forallb_app, andb_true_iff in Hl. tauto.
Qed.

(** The second call has lost the method, and the empty one is not known. *)
Lemma split_uri_throws `{BL : BeastLaws} q u1 u2 req rest :
  request_ok q = true -> length (c_major q) <= 8 -> length (c_minor q) <= 8 -> c_uri q = u1 ++ u2 ->
  parse method_start req (c_method q ++ SP :: u1) = Ret (None, [], uri, req) /\
  parse uri req (uri_tail q u2 ++ rest) = Throw invalid_argument.
Proof.
  intros Hq Hj Hn Hu. unfold parse. rewrite (parse_chars_to_uri q u1 u2) by done.
  split; [by rewrite bind_Ret, decide_False|].
  pose proof Hq as [Hl _]%andb_true_iff. unfold line_ok in Hl. rewrite !andb_true_iff in Hl.
  destruct Hl as [[[_ Hjd] _] Hnd].
  rewrite (parse_chars_uri_tail q u1 u2 (decimal (c_major q)) (decimal (c_minor q)))
    by (done || apply version_value_short; done || lia).
  rewrite bind_Ret, decide_True by done. unfold translate. simpl p_method.
  by rewrite string_to_verb_empty, req_set_method_unknown.
Qed.

(** C37: [parse] forgets what it has read between calls but not its state.  When
    a head is split after its [HTTP/], the first call is indeterminate and
    leaves the message as it was, and no second call ever returns true,
    whatever comes: what would be the end of a valid request reads two version
    numbers that were never written. *)
Theorem split_head_never_accepted `{B : Beast} (a rest : str) (req req' : request) (st : state) :
  parse method_start req a = Ret (None, rest, st, req') -> version_begun st = true ->
  req' = req /\
  forall b rest' st' req'', parse st req' b <> Ret (Some true, rest', st', req'').
Proof.
  intros Ha Hst. split.
  { unfold parse in Ha. inv_ret. destruct v as [[[o x] st1] r1]. simpl in Ha.
    case_decide; [inv_ret; done|by simplify_eq]. }
  intros b rest' st' req'' Hb. unfold parse in Hb. apply bind_ret_inv in Hb as ([[[o x] st1] r1] & Hp & Hb).
  case_decide as Ho; [|by simplify_eq]. subst.
  assert (p_http_version_major r1 = None) as Hm by by eapply (parse_chars_begun st new_request).
  inv_ret. unfold translate, version_of in Hv. rewrite Hm in Hv. inv_ret. done.
Qed.

Lemma split_head_never_accepted_witness :
  (exists r, parse method_start req_new ("GET / HTTP/1.1" ++ CRLF ++ "Host: x" ++ CRLF ++ CRLF)
             = Ret (Some true, [], expecting_newline_3, r)) /\
  @req_new model_beast = req_new /\
  forall b rest' st' req'',
    parse header_name req_new b <> Ret (Some true, rest', st', req'').
Proof.
  split; [eexists; reflexivity|].
  apply (split_head_never_accepted ("GET / HTTP/1.1" ++ CRLF ++ "Ho") []); reflexivity.
Defined.

(** With version numbers of at most eight digits and a known method, every
    well-formed head is accepted: no arithmetic on [int] overflows, neither
    digit by digit nor in [major * 10 + minor]. *)
Theorem short_versions_accepted `{BL : BeastLaws} (q : concrete_request) (rest : str)
    (req : request) :
  request_ok q = true -> length (c_major q) <= 8 -> length (c_minor q) <= 8 ->
  string_to_verb (c_method q) <> verb_unknown ->
  exists r, parse method_start req (print_head q ++ rest)
            = Ret (Some true, rest, expecting_newline_3, r).
Proof.
  intros Hq Hj Hn Hm.
  destruct (version_short q Hq Hj Hn) as (p & Hp & Hv & Em & _).
  rewrite (parse_head q rest req p) by done. unfold translate. rewrite Em.
  destruct (req_set_method_known _ req Hm) as (r & -> & _). rewrite bind_Ret, Hv. by eexists.
Qed.

Lemma short_versions_accepted_witness :
  exists r, parse method_start req_new (print_head example_request ++ [])
            = Ret (Some true, [], expecting_newline_3, r).
Proof. apply short_versions_accepted; [reflexivity|simpl; lia|simpl; lia|by vm_compute]. Defined.

(** ** When [parse] fails *)

Lemma head_digits q :
  request_ok q = true -> (0 <= decimal (c_major q))%Z /\ (0 <= decimal (c_minor q))%Z.
Proof.
  intros [Hl _]%andb_true_iff. unfold line_ok in Hl. rewrite !andb_true_iff in Hl.
  destruct Hl as [[[_ Hj] _] Hn]. by split; apply decimal_bound.
Qed.

(** A head whose version numbers do not fit is the case of the loop. *)
Lemma denote_cases q :
  request_ok q = true ->
  (denote q = Undef /\ (INT_MAX < Z.max (decimal (c_major q)) (decimal (c_minor q)) + 48)%Z) \/
  (exists p, denote q = Ret p /\ p_method p = c_method q /\
     (Z.max (decimal (c_major q)) (decimal (c_minor q)) + 48 <= INT_MAX)%Z /\
     version_of p = int_result (head_version q)).
Proof.
  intros [Hj Hn]%head_digits. unfold denote, version_value.
  destruct (Z.leb_spec (decimal (c_major q) + 48) INT_MAX); [|left; split; [done|lia]].
  destruct (Z.leb_spec (decimal (c_minor q) + 48) INT_MAX); [|left; split; [done|lia]].
  right. rewrite !bind_Ret. eexists. split; [done|]. split; [done|]. split; [lia|].
  unfold version_of, int_result, head_version. simpl.
  destruct (in_int (decimal (c_major q) * 10)) eqn:Ei; [done|]. unfold in_int in Ei |- *. simpl.
  case_match; [|done]. unfold INT_MIN in *. lia.
Qed.

Section fails.
Context `{BL : BeastLaws}.

(** What is made of an accepted head. *)
Lemma translate_cases q p (req : request) :
  p_method p = c_method q -> version_of p = int_result (head_version q) ->
  (0 <= head_version q)%Z ->
  (string_to_verb (c_method q) = verb_unknown /\ translate req p = Throw invalid_argument) \/
  (string_to_verb (c_method q) <> verb_unknown /\
   ((INT_MAX < head_version q)%Z /\ translate req p = Undef \/
    (head_version q <= INT_MAX)%Z /\ exists r, translate req p = Ret r)).
Proof.
  intros Hm Hv Hpos. unfold translate. rewrite Hm, Hv.
  destruct (decide (string_to_verb (c_method q) = verb_unknown)) as [Hu|Hk].
  { left. split; [done|]. by rewrite Hu, req_set_method_unknown. }
  right. split; [done|]. destruct (req_set_method_known _ req Hk) as (r & -> & _). rewrite bind_Ret.
  unfold int_result. destruct (Z.lt_ge_cases INT_MAX (head_version q)).
  - left. split; [done|]. by rewrite in_int_false.
  - right. split; [done|]. rewrite in_int_true by (unfold INT_MIN; lia). by eexists.
Qed.

(** What [parse] does with a head of the grammar. *)
Lemma parse_head_cases q rest (req : request) :
  request_ok q = true ->
  (parse method_start req (print_head q ++ rest) = Undef /\
   ((INT_MAX < Z.max (decimal (c_major q)) (decimal (c_minor q)) + 48)%Z \/
    (string_to_verb (c_method q) <> verb_unknown /\ (INT_MAX < head_version q)%Z))) \/
  ((Z.max (decimal (c_major q)) (decimal (c_minor q)) + 48 <= INT_MAX)%Z /\
   ((string_to_verb (c_method q) = verb_unknown /\
     parse method_start req (print_head q ++ rest) = Throw invalid_argument) \/
    (string_to_verb (c_method q) <> verb_unknown /\ (head_version q <= INT_MAX)%Z /\
     exists r, parse method_start req (print_head q ++ rest) = Ret r))).
Proof.
  intros Hq. unfold parse. rewrite parse_chars_head by done. pose proof (head_digits q Hq).
  destruct (denote_cases q Hq) as [[-> ?]|(p & -> & Hm & Hd & Hv)]; [left; auto|].
  rewrite !bind_Ret, decide_True by done.
  destruct (translate_cases q p req Hm Hv) as [[? ->]|[? [[? ->]|[? [r ->]]]]].
  - unfold head_version. lia.
  - right. split; [done|]. by left.
  - left. split; [done|]. by right.
  - right. split; [done|]. right. split; [done|]. split; [done|]. by eexists.
Qed.

(** A first call ends in one of three ways: the loop overflows, the input begins
    with a head, or the call returns. *)
Lemma parse_cases s (req : request) :
  (parse_chars method_start new_request s = Undef /\ parse method_start req s = Undef) \/
  (exists q rest, s = print_head q ++ rest /\ request_ok q = true) \/
  (exists r, parse method_start req s = Ret r).
Proof.
  unfold parse. destruct (parse_chars_no_throw method_start new_request s) as [H|[[[[o rest] st] r] H]];
    rewrite H; [by left|right]. rewrite bind_Ret. case_decide as Ho; [left|right; by eexists]. subst o.
  destruct (partial_parse_chars _ [] _ _ _ _ _ P_method_start H) as (q & Hq & Hs & _). by exists q, rest.
Qed.

End fails.

(** A head with a version that can be read and a method that is not known. *)
Definition example_unknown : str := print_head (CRequest "FOO" "/" "1" "1" []).


(** A nine-digit version is read, but [major * 10] is not. *)
Example long_version_undefined :
  parse method_start req_new (print_head (CRequest "GET" "/" "999999999" "1" [])) = Undef.
Proof. reflexivity. Qed.
