(* ===== verification/Handlers.v ===== *)
(** * The simple request handlers: src/src/handlers

    Echo, not-found, health, sleep, dummy and static files.  What a
    handler reads of the server that owns it is an interface, [ServerView],
    and what it reads of the machine is another, [Environment]. *)
From S2P Require Import Prelude CppStd StdMap Boost ConfigLexer ConfigParser Utils.

(** ** Interfaces *)

(** Files, the remote hosts of the reverse proxy and the generator of file
    names: outside the repository. *)
Class Environment `{B : Beast} := {
  (** The bytes of a file that can be opened. *)
  read_file : str -> option str;
  (** [std::filesystem::is_directory], which is false when it fails. *)
  is_directory : str -> bool;
  (** [create_directories] of the parent of a path does not throw.  Opening and
      writing the file itself throw nothing: see [Uploads]. *)
  can_create : str -> bool;
  (** [HttpClient::perform_request]; it throws when the network fails. *)
  perform_request : str -> str -> request -> outcome response;
  (** [to_string(random_generator()())] *)
  uuid : str
}.

(** What the handlers see of the server. *)
Class ServerView (S : Type) := {
  get_requests : S -> list ((str * Z) * Z);
  get_memes : S -> list (str * list str);
  get_prefix_map : S -> list (str * list str)
}.

(** What a handler does besides answering: it logs a meme with the server that
    owns it, or writes a file. *)
Inductive effect :=
| LogMeme (img_url : str) (selections : list str)
| WriteFile (path contents : str).

(** The effects come first: they have happened when an exception escapes. *)
Definition handled (A : Type) : Type := list effect * outcome A.

Definition handle_bind {A C} (o : outcome A) (f : A -> handled C) : handled C :=
  match o with
  | Ret a => f a
  | Throw e => ([], Throw e)
  | Undef => ([], Undef)
  | NoFuel => ([], NoFuel)
  end.

Section handlers.
Context `{B : Beast}.

(** The response most handlers build. *)
Definition text_response (content_type content : str) : response :=
  let resp := resp_new in
  let resp := resp_set_result status_ok resp in
  let resp := resp_set_field field_content_type content_type resp in
  let resp := resp_content_length (length content) resp in
  resp_set_body content resp.

(** The variant that calls [prepare_payload] instead. *)
Definition payload_response (content_type content : str) : outcome response :=
  let resp := resp_new in
  let resp := resp_set_result status_ok resp in
  let resp := resp_set_field field_content_type content_type resp in
  let resp := resp_set_body content resp in
  resp_prepare_payload resp.

(** ** echo_handler.cc *)

Definition Echo_handle_request (req : request) : response :=
  text_response "text/plain" (print_request req).

(** ** not_found_handler.cc *)

Definition NotFound_handle_request (req : request) : response :=
  show_error_page status_not_found ("Uri path " ++ req_target req ++ " not found").

(** ** health_handler.cc

    [parent] is whether [initHealth] was called. *)
Definition Health_handle_request (parent : bool) (req : request) : outcome response :=
  if negb parent then
    Ret (show_error_page status_internal_server_error
           "Health Handler was not correctly initialized")
  else payload_response "text/plain" "OK".

(** ** sleep_handler.cc, after the five seconds *)

Definition Sleep_handle_request (req : request) : outcome response :=
  payload_response "text/plain" ("Slept for 5 seconds!" ++ [LF]).

(** ** dummy_handler.cc *)

Definition Dummy_handle_request (req : request) : response := resp_new.

(** ** static_file_handler.cc *)

Section static.
Context `{F : BoostFilesystem} `{E : !Environment}.

Definition set_root_path (root_path : str) : outcome str :=
  root ← convertToAbsolutePath root_path;
  if is_directory root then
    c ← vec_back root;
    Ret (if decide (c <> SLASH) then root ++ [SLASH] else root)
  else Ret root.

(** The constructor: the check only logs, and [values[0]] is read whatever the
    number of values. *)
Definition new_StaticFileRequestHandler (config : NginxConfig) : outcome str :=
  root_path ← vec_at (configLookup config [] "root") 0;
  set_root_path root_path.

Definition parse_path_from_uri (location root uri : str) : outcome str :=
  relative_path ← relative uri location;
  Ret (root ++ relative_path).

Definition parse_content_type_from_uri (uri : str) : str :=
  let file_extension := extension uri in
  if decide (file_extension = ".txt") then "text/plain"
  else if decide (file_extension = ".html") then "text/html"
  else if decide (file_extension = ".jpeg") then "image/jpeg"
  else if decide (file_extension = ".png") then "image/png"
  else if decide (file_extension = ".zip") then "application/zip"
  else if decide (file_extension = ".css") then "text/css"
  else if decide (file_extension = ".js") then "text/javascript"
  else "text/plain".

Definition Static_handle_request (location root : str) (req : request) : outcome response :=
  let http_uri := req_target req in
  let content_type := parse_content_type_from_uri http_uri in
  path ← parse_path_from_uri location root http_uri;
  match read_file path with
  | None => Ret (show_error_page status_not_found ("File " ++ http_uri ++ " not found"))
  | Some static_file_content => Ret (text_response content_type static_file_content)
  end.
End static.
End handlers.

(** ** The responses *)

(** The length that is announced is the length of the body. *)
Definition well_sized `{B : Beast} (r : response) : Prop :=
  resp_field r field_content_length = Some (to_dec (Z.of_nat (length (resp_body r)))).

(** What the client reads of a response. *)
Definition is_response `{B : Beast} (r : response) (status : Z) (content_type body : str) : Prop :=
  resp_result r = status /\ resp_body r = body /\ well_sized r /\
  resp_field r field_content_type = Some content_type.

Section responses.
Context `{BL : BeastLaws}.

Lemma text_response_ok content_type content :
  field_value_ok content_type = true ->
  is_response (text_response content_type content) status_ok content_type content.
Proof.
  intros Hc. unfold is_response, well_sized, text_response, status_ok. by beast.
Qed.

Lemma show_error_page_ok status message :
  (0 <= status <= 999)%Z ->
  is_response (show_error_page status message) status "text/html"
    (error_page_body status message).
Proof. intros Hs. unfold is_response, well_sized, show_error_page. by beast. Qed.

Lemma payload_response_ok content_type content :
  field_value_ok content_type = true ->
  exists r, payload_response content_type content = Ret r /\
            is_response r status_ok content_type content.
Proof.
  intros Hc. unfold payload_response, is_response, well_sized, status_ok.
  set (r := resp_set_body content _).
  assert (resp_result r = 200%Z) as Hr by (unfold r; by beast).
  assert (resp_body r = content) as Hb by (unfold r; by beast).
  assert (resp_field r field_content_type = Some content_type) as Hf.
  { unfold r. autorewrite with beast. by rewrite resp_set_field_get. }
  destruct (resp_prepare_payload_ok r) as (r' & -> & E1 & E2 & E3 & E4); [by rewrite Hr|].
  exists r'. rewrite E1, E2, E3, Hr, Hb, E4, Hf by done. done.
Qed.

Lemma content_type_ok `{F : BoostFilesystem} uri :
  field_value_ok (parse_content_type_from_uri uri) = true.
Proof. unfold parse_content_type_from_uri. by repeat case_decide. Qed.
End responses.
