(* ===== verification/Status.v ===== *)
(** * The status page: src/src/handlers/status_handler.cc *)
From S2P Require Import Prelude CppStd StdMap Boost BoostModel ConfigLexer ConfigParser Utils.
From S2P Require Import Handlers.

(** [(int)(status / pow(10, (int)log10(status)))] on a positive status: the
    first digit.  The logarithm of zero is minus infinity, and converting it
    to [int] is undefined. *)
Definition floor_log10 (status : Z) : Z := Z.of_nat (pred (length (to_dec status))).

Definition first_digit (status : Z) : outcome Z :=
  if (status <=? 0)%Z then Undef else Ret (status `quot` 10 ^ floor_log10 status)%Z.

Definition status_page_head : str :=
  "<!DOCTYPE html><html><link rel ='preconnect' " ++
  "href='https://fonts.gstatic.com'>" ++
  "<link href" ++
  "='https://fonts.googleapis.com/css2?family=Handlee&display=swap' " ++
  "rel='stylesheet'>" ++
  "<style> body{ font-family: 'Handlee', cursive; font-size: 20px; " ++
  "display: block } " ++
  ".code1{ background-color: cyan } " ++
  ".code2{ background-color: green } " ++
  ".code3{ background-color: yellow } " ++
  ".code4{ background-color: red } " ++
  ".code5{ background-color: orange } " ++
  "td,th{ text-align: center; padding-right: 12px; border: 1px solid " ++
  "black } " ++
  "td{ max-width: 200px; word-wrap: break-word } " ++
  "table{ border: 1px solid black } " ++
  "#handlers-list { display: flex; flex-wrap: wrap } " ++
  ".handler{ margin-right:12px } " ++
  "</style><head><title>Status Page</title></head><body><h1>Status " ++
  "Page</h1>".

Definition prefix_items (prefixes : list str) : str :=
  prefixes ≫= fun prefix => "<li>" ++ prefix ++ "</li>".

(** The list of the handlers. *)
Definition handlers_list (handler_to_prefixes : list (str * list str)) : str :=
  match handler_to_prefixes with
  | [] => []
  | _ => "<div id='handlers-list'>" ++
         (handler_to_prefixes ≫= fun pair =>
            "<div class=handler><b>" ++ pair.1 ++ " Handler(s)</b><ol>" ++
            prefix_items pair.2 ++ "</ol></div>") ++
         "</div>"
  end.

Section status.
Context `{B : Beast}.

(** A row of the table of the requests served. *)
Definition request_row (req : (str * Z) * Z) : outcome str :=
  let '((url, status), count) := req in
  code ← first_digit status;
  Ret ("<tr><td>" ++ url ++
       "</td>" ++
       "<td class=" ++
       "code" ++
       to_dec code ++
       ">" ++ to_dec status ++ " " ++ obsolete_reason status ++
       "</td>" ++
       "<td>" ++ to_dec count ++ "</td></tr>").

(** The loop: the rows, and [num_req], an [int]. *)
Fixpoint request_rows (requests : list ((str * Z) * Z)) (rows : str) (num_req : Z)
  : outcome (str * Z) :=
  match requests with
  | [] => Ret (rows, num_req)
  | req :: requests =>
      row ← request_row req;
      num_req ← int_result (num_req + req.2);
      request_rows requests (rows ++ row) num_req
  end.

Definition requests_table (requests : list ((str * Z) * Z)) : outcome (str * Z) :=
  match requests with
  | [] => Ret ([], 0%Z)
  | _ =>
      '(rows, num_req) ← request_rows requests [] 0;
      Ret (("<table style = " ++ DQUOTE :: "width:100%" ++ DQUOTE :: ">" ++
            "<tr><th>Requested URL</th><th>Response Status " ++
            "Code</th><th>Number of Requests</th></tr>") ++ rows ++ "</table>", num_req)
  end.

Definition status_page (prefixes : list (str * list str)) (requests : list ((str * Z) * Z))
  : outcome str :=
  '(table, num_req) ← requests_table requests;
  Ret (status_page_head ++ handlers_list prefixes ++
       "<b>Total Number of Requests Served : </b>" ++ to_dec num_req ++ "<br><br>" ++
       table ++ "</body></html>").

(** [parent]: the server, once [initStatus] was called. *)
Definition Status_handle_request {S : Type} `{ServerView S} (parent : option S) (req : request)
  : outcome response :=
  match parent with
  | None => Ret (show_error_page status_internal_server_error
                   "Status Handler was not correctly initialized")
  | Some s =>
      page ← status_page (get_prefix_map s) (get_requests s);
      Ret (text_response "text/html" page)
  end.
End status.

(** ** The page *)

Section page.
Context `{B : Beast}.

(** The first digit of a status line's three. *)
Lemma first_digit_three status :
  (100 <= status <= 999)%Z -> first_digit status = Ret (status / 100)%Z.
Proof.
  intros Hs.
  assert (forallb (fun k => match first_digit (100 + Z.of_nat k) with
                            | Ret d => (d =? (100 + Z.of_nat k) / 100)%Z
                            | _ => false end) (seq 0 900) = true) as H by by vm_compute.
  rewrite forallb_forall in H. specialize (H (Z.to_nat (status - 100))).
  rewrite in_seq in H. specialize (H ltac:(lia)).
  replace (100 + Z.of_nat (Z.to_nat (status - 100)))%Z with status in H by lia.
  destruct (first_digit status); try done. f_equal. lia.
Qed.

(** The row of an entry whose status has three digits. *)
Definition plain_row (req : (str * Z) * Z) : str :=
  "<tr><td>" ++ req.1.1 ++ "</td>" ++ "<td class=" ++ "code" ++ to_dec (req.1.2 / 100) ++
  ">" ++ to_dec req.1.2 ++ " " ++ obsolete_reason req.1.2 ++ "</td>" ++
  "<td>" ++ to_dec req.2 ++ "</td></tr>".

Definition total (requests : list ((str * Z) * Z)) : Z := foldr (fun req n => req.2 + n)%Z 0%Z requests.

(** What [log_request] counts: a status that Beast knows, or 0 for one that it does
    not, and how often. *)
Definition entry_ok (req : (str * Z) * Z) : Prop :=
  (req.1.2 = 0 \/ 100 <= req.1.2 <= 999)%Z /\ (0 <= req.2)%Z.

Lemma total_nonneg requests : Forall entry_ok requests -> (0 <= total requests)%Z.
Proof. induction 1 as [|r l [_ ?] _ IH]; simpl; [lia|]. unfold total in *. lia. Qed.

(** A page can be made of these. *)
Definition countable (requests : list ((str * Z) * Z)) (num_req : Z) : bool :=
  forallb (fun req => negb (req.1.2 =? 0)%Z) requests && (num_req + total requests <=? INT_MAX)%Z.

Lemma request_rows_spec requests rows num_req :
  Forall entry_ok requests -> (0 <= num_req <= INT_MAX)%Z ->
  request_rows requests rows num_req =
  if countable requests num_req then Ret (rows ++ (requests ≫= plain_row), (num_req + total requests)%Z)
  else Undef.
Proof.
  intros Hok. revert rows num_req.
  induction Hok as [|[[url status] n] l [Hs Hn] Hl IH]; intros rows num_req H0; unfold countable.
  { simpl. rewrite app_nil_r, Z.add_0_r. by rewrite (proj2 (Z.leb_le _ _)) by lia. }
  pose proof (total_nonneg l Hl). simpl in Hs, Hn. cbn [request_rows forallb fst snd].
  change (total ((url, status, n) :: l)) with (n + total l)%Z. unfold request_row.
  destruct Hs as [->|Hs]; [done|]. rewrite first_digit_three, !bind_Ret by done. simpl snd.
  rewrite (proj2 (Z.eqb_neq status 0)) by lia. cbn [negb andb]. unfold int_result.
  destruct (Z.le_gt_cases (num_req + n) INT_MAX) as [Hle|Hgt].
  - rewrite in_int_true by (unfold INT_MIN; lia). rewrite bind_Ret, IH by lia. unfold countable.
    rewrite Z.add_assoc. by rewrite bind_cons, <-app_assoc.
  - rewrite in_int_false by lia. rewrite (proj2 (Z.leb_gt (num_req + (n + total l)) INT_MAX)) by lia.
    by rewrite andb_false_r.
Qed.

(** The table of the page. *)
Definition plain_table (requests : list ((str * Z) * Z)) : str :=
  match requests with
  | [] => []
  | _ => "<table style = " ++ DQUOTE :: "width:100%" ++ DQUOTE :: ">" ++
         "<tr><th>Requested URL</th><th>Response Status " ++
         "Code</th><th>Number of Requests</th></tr>" ++ (requests ≫= plain_row) ++ "</table>"
  end.

(** C32: the status page is exact.  Of requests that were counted under a status
    Beast knows or under 0, and not a negative number of times, the page is exactly
    the list of the handlers, the sum of the counts and, if there are any, a
    table of a header line and one row for each pair of URL and status, in the order
    of the map and with its count - if no status is 0 and the sum is at most
    [INT_MAX].  Otherwise making it has no defined behaviour: the logarithm of 0
    is converted to [int], or the sum overflows. *)
Theorem status_page_exact (prefixes : list (str * list str)) (requests : list ((str * Z) * Z)) :
  Forall entry_ok requests ->
  status_page prefixes requests =
  if forallb (fun req => negb (req.1.2 =? 0)%Z) requests && (total requests <=? INT_MAX)%Z
  then Ret (status_page_head ++ handlers_list prefixes ++
            "<b>Total Number of Requests Served : </b>" ++ to_dec (total requests) ++ "<br><br>" ++
            plain_table requests ++ "</body></html>")
  else Undef.
Proof.
  intros Hok. unfold status_page, requests_table. destruct requests as [|r l]; [done|].
  rewrite request_rows_spec by (done || unfold INT_MAX; lia).
  unfold countable. change (0 + total (r :: l))%Z with (total (r :: l)).
  destruct (_ && _); [|done]. rewrite !bind_Ret. unfold plain_table. f_equal.
Qed.

Lemma request_rows_zero requests rows num_req url n :
  ((url, 0%Z), n) ∈ requests -> no_throw (request_rows requests rows num_req) ->
  request_rows requests rows num_req = Undef.
Proof.
  revert rows num_req. induction requests as [|[[u s] k] l IH]; intros rows num_req Hin Hn.
  { by apply elem_of_nil in Hin. }
  cbn [request_rows] in *. unfold request_row, first_digit in *.
  destruct (Z.leb_spec s 0); [done|]. apply elem_of_cons in Hin as [[= <- <- <-]|Hin]; [lia|].
  rewrite !bind_Ret in *. unfold int_result in *. destruct (in_int _); [|done].
  rewrite !bind_Ret in *. by apply IH.
Qed.

Lemma request_rows_no_throw requests rows num_req : no_throw (request_rows requests rows num_req).
Proof.
  revert rows num_req. induction requests as [|[[u s] k] l IH]; intros rows num_req; cbn [request_rows].
  { apply no_throw_ret. }
  unfold request_row, first_digit. auto 10 with outcome.
Qed.

(** One response whose status Beast does not know - [result()] of it is 0, as
    of a 299 or a 520 that the reverse proxy passed on - makes every later status
    page undefined behaviour: the page takes the logarithm of 0 and converts it
    to [int]. *)
Theorem unknown_status_breaks_page (prefixes : list (str * list str))
    (requests : list ((str * Z) * Z)) (url : str) (n : Z) :
  ((url, 0%Z), n) ∈ requests -> status_page prefixes requests = Undef.
Proof.
  intros Hin. unfold status_page, requests_table. destruct requests as [|r l].
  { by apply elem_of_nil in Hin. }
  by rewrite (request_rows_zero _ _ _ _ _ Hin (request_rows_no_throw _ _ _)).
Qed.
End page.

(** ** Witnesses *)

Definition example_counts : list ((str * Z) * Z) := [((lit "/a", 200%Z), 2%Z); ((lit "/b", 404%Z), 1%Z)].

Lemma status_page_exact_witness :
  status_page [(lit "EchoHandler", [lit "/echo"])] example_counts =
  if forallb (fun req => negb (req.1.2 =? 0)%Z) example_counts && (total example_counts <=? INT_MAX)%Z
  then Ret (status_page_head ++ handlers_list [(lit "EchoHandler", [lit "/echo"])] ++
            "<b>Total Number of Requests Served : </b>" ++ to_dec (total example_counts) ++ "<br><br>" ++
            plain_table example_counts ++ "</body></html>")
  else Undef.
Proof.
  apply status_page_exact. unfold example_counts. repeat constructor; simpl; lia.
Defined.

Lemma unknown_status_breaks_page_witness :
  status_page [] [((lit "/a", 200%Z), 2%Z); ((lit "/p", 0%Z), 1%Z)] = Undef.
Proof. apply (unknown_status_breaks_page _ _ "/p" 1). right. left. Defined.
