(* ===== verification/ReverseProxy.v ===== *)
(** * The reverse proxy: src/src/handlers/reverse_proxy_handler.cc

    What is asked of the remote host, and what is changed in its answer:
    redirections, and absolute paths in the body.  The loop that rewrites the
    paths works on the string it is changing; [rewritten] says what it
    computes without reference to positions. *)
From S2P Require Import Prelude CppStd StdMap Boost BoostModel ConfigLexer ConfigParser Utils.
From S2P Require Import Handlers.

(** ** [replaced_absolute_paths] *)

(** The loop, [pos] characters into [new_body]. *)
Fixpoint replace_loop (fuel : nat) (from to new_body : str) (pos : nat) : outcome str :=
  match fuel with
  | O => NoFuel
  | S fuel =>
      match str_find new_body from pos with
      | None => Ret new_body
      | Some pos =>
          let suffix := pos + length from in
          if decide (suffix < length new_body /\ new_body !! suffix = Some SLASH)
          then replace_loop fuel from to new_body (pos + length from)
          else
            new_body ← str_replace new_body pos (length from) to;
            replace_loop fuel from to new_body (pos + length to)
      end
  end.

(** Each pass leaves fewer characters after [pos]. *)
Definition replaced_absolute_paths (location body prefix separator : str) : outcome str :=
  let from := prefix ++ separator in
  let to := prefix ++ location ++ separator in
  replace_loop (S (length body)) from to body 0.

(** ** URLs *)

Definition parse_host_from_http_url (url : str) : outcome str :=
  method_removed_url ← substr_from url 7;
  match str_find method_removed_url "/" 0 with
  | Some pos => substr method_removed_url 0 (Z.of_nat pos)
  | None => Ret method_removed_url
  end.

Definition parse_target_from_http_url (url : str) : outcome str :=
  method_removed_url ← substr_from url 7;
  match str_find method_removed_url "/" 0 with
  | Some pos => substr_from method_removed_url pos
  | None => Ret (lit "/")
  end.

(** ** The handler *)

Section proxy.
Context `{B : Beast} `{E : !Environment}.

(** The constructor: [host] and [port]. *)
Definition new_ReverseProxyRequestHandler (config : NginxConfig) : outcome (str * str) :=
  host ← vec_at (configLookup config [] "host") 0;
  port ← vec_at (configLookup config [] "port") 0;
  Ret (host, port).

Definition quoted_prefix (attribute : str) : str := attribute ++ [DQUOTE].

Definition rewritten_body (location body : str) : outcome str :=
  body ← replaced_absolute_paths location body (quoted_prefix "href=") "/";
  body ← replaced_absolute_paths location body (quoted_prefix "src=") "/";
  body ← replaced_absolute_paths location body (quoted_prefix "url(") "/";
  replaced_absolute_paths location body "url(" "\2f ".

Definition prepare_proxied_resp (location : str) (resp : response) : outcome response :=
  let resp := resp_chunked false resp in
  body ← rewritten_body location (resp_body resp);
  resp_prepare_payload (resp_set_body body resp).

(** The request that is sent. *)
Definition proxied_request (location host port : str) (req : request) : outcome request :=
  proxied_target ← substr_from (req_target req) (length location);
  let proxied_target := match proxied_target with [] => lit "/" | _ => proxied_target end in
  let req := req_set_target proxied_target req in
  let req := req_set_field field_host (host ++ ":" ++ port) req in
  Ret (req_set_field field_accept_encoding "identity" req).

(** A redirection to an absolute path is kept under the proxy's location. *)
Definition rewritten_redirect (location : str) (resp : response) : response :=
  match resp_field resp field_location with
  | Some redirect =>
      if (300 <=? resp_result resp)%Z && (resp_result resp <=? 399)%Z then
        let redirect := if rfind_at_0 redirect "/" then location ++ redirect else redirect in
        resp_set_field field_location redirect resp
      else resp
  | None => resp
  end.

Definition ReverseProxy_handle_request (location host port : str) (req : request)
  : outcome response :=
  req ← proxied_request location host port req;
  resp ← perform_request host port req;
  prepare_proxied_resp location (rewritten_redirect location resp).
End proxy.

(** ** What the loop computes *)

Section rewriting.
Context (from to : str).
Hypothesis from_ne : from <> [].

(** The next occurrence of [from], and what follows it. *)
Definition next_occurrence (s a t : str) : Prop :=
  s = a ++ from ++ t /\ find_first from s = Some (length a).

(** [rewritten s r]: from left to right every occurrence of [from] that no
    slash follows becomes [to], and what is written is not read again. *)
Inductive rewritten : str -> str -> Prop :=
| rewritten_none s : find_first from s = None -> rewritten s s
| rewritten_skip s a t r :
    next_occurrence s a (SLASH :: t) -> rewritten (SLASH :: t) r -> rewritten s (a ++ from ++ r)
| rewritten_replace s a t r :
    next_occurrence s a t -> head t <> Some SLASH -> rewritten t r -> rewritten s (a ++ to ++ r).

Lemma find_first_next s i :
  find_first from s = Some i ->
  next_occurrence s (take i s) (drop (i + length from) s) /\ length (take i s) = i.
Proof.
  intros H. destruct (find_first_spec _ _ _ H) as (Hl & t & Ht).
  assert (length (take i s) = i) as Hi by (rewrite length_take; lia).
  split; [|done]. split; [|by rewrite Hi]. rewrite <-drop_drop, Ht, drop_app_length, <-Ht.
  by rewrite take_drop.
Qed.

Lemma str_find_done p s : str_find (p ++ s) from (length p) = (λ i, length p + i) <$> find_first from s.
Proof.
  unfold str_find. rewrite decide_True by (rewrite length_app; lia). by rewrite drop_app_length.
Qed.

Lemma lookup_after (p t : str) : (p ++ t) !! length p = head t.
Proof. rewrite lookup_app_r, Nat.sub_diag by lia. by destruct t. Qed.

Lemma replace_loop_rewritten fuel p s :
  length s < fuel ->
  exists r, replace_loop fuel from to (p ++ s) (length p) = Ret (p ++ r) /\ rewritten s r.
Proof.
  revert p s. induction fuel as [|fuel IH]; intros p s Hl; [lia|]. cbn [replace_loop].
  rewrite str_find_done. destruct (find_first from s) as [i|] eqn:Hf; cbn [fmap option_fmap option_map].
  2: { exists s. split; [done|by constructor]. }
  destruct (find_first_next s i Hf) as [Hn Hi]. set (a := take i s) in *.
  set (t := drop (i + length from) s) in *. destruct Hn as [Hs Hf'].
  assert (0 < length from) by (destruct from; [done|simpl; lia]).
  assert (length t < fuel) as Ht.
  { rewrite Hs, !length_app in Hl. lia. }
  assert (p ++ s = (p ++ a ++ from) ++ t) as Hps by (rewrite Hs; by rewrite <-!app_assoc).
  assert (length p + i + length from = length (p ++ a ++ from)) as Hlen.
  { rewrite !length_app. lia. }
  assert ((p ++ s) !! length (p ++ a ++ from) = head t) as Hhead by (rewrite Hps; apply lookup_after).
  rewrite Hlen, Hhead. case_decide as Hc.
  - destruct Hc as [_ Hc]. destruct t as [|c t'] eqn:Et; simplify_eq/=.
    destruct (IH (p ++ a ++ from) (SLASH :: t') Ht) as (r & Hr & Hrw).
    exists (a ++ from ++ r). rewrite Hps, Hr. split; [by list_app|].
    eapply rewritten_skip; [split|]; [done|by rewrite Hi|done].
  - unfold str_replace. rewrite decide_True by (rewrite Hps, !length_app; lia). simpl.
    assert (take (length p + i) (p ++ s) = p ++ a) as ->.
    { rewrite Hps. replace (length p + i) with (length (p ++ a)) by (rewrite length_app; lia).
      rewrite !app_assoc, <-(app_assoc (p ++ a)). by rewrite take_app_length. }
    assert (drop (length p + i + length from) (p ++ s) = t) as ->.
    { rewrite Hlen, Hps. apply drop_app_length. }
    destruct (IH (p ++ a ++ to) t Ht) as (r & Hr & Hrw).
    exists (a ++ to ++ r). replace (length p + i + length to) with (length (p ++ a ++ to))
      by (rewrite !length_app; lia).
    replace ((p ++ a) ++ to ++ t) with ((p ++ a ++ to) ++ t) by list_app.
    rewrite Hr. split; [by list_app|].
    eapply rewritten_replace; [split; [done|by rewrite Hi]| |done]. intros Hh. apply Hc. split; [|done].
    rewrite Hps, !length_app. destruct t; [done|simpl; lia].
Qed.
End rewriting.

(** The loop always ends, and computes [rewritten]. *)
Lemma replaced_absolute_paths_rewritten location body prefix separator :
  prefix ++ separator <> [] ->
  exists r, replaced_absolute_paths location body prefix separator = Ret r /\
    rewritten (prefix ++ separator) (prefix ++ location ++ separator) body r.
Proof.
  intros Hne. unfold replaced_absolute_paths.
  by apply (replace_loop_rewritten _ _ Hne (S (length body)) [] body); [lia].
Qed.

Section functional.
Context (from to : str).

Lemma next_occurrence_unique s a t a' t' :
  next_occurrence from s a t -> next_occurrence from s a' t' -> a = a' /\ t = t'.
Proof.
  intros [Hs Hl] [Hs' Hl']. rewrite Hl in Hl'. injection Hl' as Hl'.
  rewrite Hs in Hs'. apply app_inj_1 in Hs' as [-> Hs']; [|done].
  by apply app_inv_head in Hs'.
Qed.

Lemma rewritten_unique s r r' : rewritten from to s r -> rewritten from to s r' -> r = r'.
Proof.
  intros H. revert r'. induction H as [s Hn|s a t r Hn _ IH|s a t r Hn Ht _ IH]; intros r' H';
    inversion H' as [s' Hn'|s' a' t' r1 Hn' H1|s' a' t' r1 Hn' Ht' H1]; subst;
    repeat match goal with
    | H : next_occurrence _ ?s _ _, H0 : find_first _ ?s = None |- _ =>
        destruct H as [_ H]; congruence
    | H : next_occurrence _ ?s ?a ?t, H0 : next_occurrence _ ?s ?a' ?t' |- _ =>
        destruct (next_occurrence_unique _ _ _ _ _ H H0) as [-> E]; clear H0; simplify_eq
    end; try done; by rewrite (IH r1).
Qed.
End functional.

(** C12: [replaced_absolute_paths] always ends, and what it returns is [body] with
    every occurrence of the prefix and separator, from left to right, given the
    proxy's location between the two - except where a slash follows, as in
    [//host]; nothing that was written is looked at again. *)
Theorem replaced_absolute_paths_spec (location body prefix separator r : str) :
  prefix ++ separator <> [] ->
  replaced_absolute_paths location body prefix separator = Ret r <->
  rewritten (prefix ++ separator) (prefix ++ location ++ separator) body r.
Proof.
  intros Hne. destruct (replaced_absolute_paths_rewritten location body prefix separator Hne)
    as (r0 & -> & H). split; [by intros [= <-]|].
  intros H'. f_equal. by eapply rewritten_unique.
Qed.

Lemma replaced_absolute_paths_spec_witness :
  replaced_absolute_paths "/p" "<a src=/x>" "src=" "/" = Ret (lit "<a src=/p/x>") <->
  rewritten (lit "src=" ++ "/") (lit "src=" ++ "/p" ++ "/") "<a src=/x>" "<a src=/p/x>".
Proof. by apply (replaced_absolute_paths_spec "/p" "<a src=/x>" "src=" "/"). Defined.

Example replaced_skips_hosts :
  replaced_absolute_paths "/p" "src=/a src=//b src=/" "src=" "/" =
  Ret (lit "src=/p/a src=//b src=/p/").
Proof. reflexivity. Qed.

(** ** The request that is sent and the response *)

Lemma quoted_prefix_ne attribute separator : quoted_prefix attribute ++ separator <> [].
Proof. unfold quoted_prefix. by destruct attribute. Qed.

Lemma rewritten_body_total location body : exists r, rewritten_body location body = Ret r.
Proof.
  unfold rewritten_body.
  destruct (replaced_absolute_paths_rewritten location body (quoted_prefix "href=") "/")
    as (r1 & -> & _); [apply quoted_prefix_ne|]. rewrite bind_Ret.
  destruct (replaced_absolute_paths_rewritten location r1 (quoted_prefix "src=") "/")
    as (r2 & -> & _); [apply quoted_prefix_ne|]. rewrite bind_Ret.
  destruct (replaced_absolute_paths_rewritten location r2 (quoted_prefix "url(") "/")
    as (r3 & -> & _); [apply quoted_prefix_ne|]. rewrite bind_Ret.
  by destruct (replaced_absolute_paths_rewritten location r3 "url(" "\2f ") as (r4 & -> & _); eauto.
Qed.

Section forwarding.
Context `{BL : BeastLaws}.

(** The request the proxy sends is the client's with the location cut from
    the front of the target - the root when nothing is left - and the [Host]
    and [Accept-Encoding] of the destination; a target shorter than the location
    makes [substr] throw. *)
Theorem proxied_request_spec (location host port : str) (req : request) :
  field_value_ok (host ++ ":" ++ port) = true ->
  if decide (length location <= length (req_target req)) then
    exists r, proxied_request location host port req = Ret r
    /\ req_target r = match drop (length location) (req_target req) with
                      | [] => lit "/" | t => t end
    /\ req_method r = req_method req /\ req_version r = req_version req
    /\ req_body r = req_body req
    /\ forall n, req_field r n =
         if iequals field_accept_encoding n then Some (lit "identity")
         else if iequals field_host n then Some (host ++ ":" ++ port)
         else req_field req n
  else proxied_request location host port req = Throw out_of_range.
Proof.
  intros Hv. unfold proxied_request, substr_from. case_decide; [|done]. rewrite bind_Ret.
  eexists. split; [done|]. autorewrite with beast.
  split; [by destruct (drop _ _)|]. repeat (split; [done|]). intros n. by beast.
Qed.

(** Where the client is sent. *)
Definition redirect_of (location : str) (status : Z) (redirect : str) : str :=
  if (300 <=? status)%Z && (status <=? 399)%Z && rfind_at_0 redirect "/"
  then location ++ redirect else redirect.

Lemma rewritten_redirect_ok location resp :
  resp_result (rewritten_redirect location resp) = resp_result resp /\
  resp_body (rewritten_redirect location resp) = resp_body resp.
Proof. unfold rewritten_redirect. repeat (case_match; try done); by autorewrite with beast. Qed.

Lemma rewritten_redirect_location location resp :
  (forall l, resp_field resp field_location = Some l ->
     field_value_ok (redirect_of location (resp_result resp) l) = true) ->
  resp_field (rewritten_redirect location resp) field_location =
  redirect_of location (resp_result resp) <$> resp_field resp field_location.
Proof.
  intros Hl. unfold rewritten_redirect, redirect_of in *.
  destruct (resp_field resp field_location) as [l|] eqn:El; [|by rewrite El]. simpl.
  specialize (Hl l eq_refl).
  destruct ((300 <=? resp_result resp)%Z && (resp_result resp <=? 399)%Z); [|done].
  simpl in *. rewrite resp_set_field_get by done. by rewrite iequals_refl.
Qed.

(** C30: the proxy's answer has the remote host's status, its body with the
    absolute paths rewritten, a [Content-Length] that is the length of that
    body, and in a redirection to an absolute path the proxy's location before
    the path. *)
Theorem proxy_answer `{E : !Environment} (location host port : str) (req sent : request)
    (resp : response) :
  proxied_request location host port req = Ret sent ->
  perform_request host port sent = Ret resp ->
  bodyless_status (resp_result resp) = false ->
  (forall l, resp_field resp field_location = Some l ->
     field_value_ok (redirect_of location (resp_result resp) l) = true) ->
  exists r, ReverseProxy_handle_request location host port req = Ret r
    /\ resp_result r = resp_result resp
    /\ rewritten_body location (resp_body resp) = Ret (resp_body r)
    /\ well_sized r
    /\ resp_field r field_location =
       redirect_of location (resp_result resp) <$> resp_field resp field_location.
Proof.
  intros Hs Hr Hb Hl. unfold ReverseProxy_handle_request. rewrite Hs, bind_Ret, Hr, bind_Ret.
  unfold prepare_proxied_resp. set (r1 := rewritten_redirect location resp).
  destruct (rewritten_redirect_ok location resp) as [E1 E2]. fold r1 in E1, E2.
  autorewrite with beast. rewrite E2.
  destruct (rewritten_body_total location (resp_body resp)) as [body Hbody].
  rewrite Hbody, bind_Ret. set (r2 := resp_set_body body _).
  assert (resp_result r2 = resp_result resp) as Er2 by (unfold r2; by autorewrite with beast).
  destruct (resp_prepare_payload_ok r2) as (r & -> & R1 & R2 & R3 & R4); [by rewrite Er2|].
  assert (resp_body r2 = body) as Eb2 by (unfold r2; by autorewrite with beast).
  exists r. rewrite Eb2 in R2, R3. split; [done|]. rewrite R1, R2, Er2. split; [done|]. split; [done|].
  split; [unfold well_sized; by rewrite R2, R3|]. rewrite R4 by done. unfold r2.
  autorewrite with beast. rewrite resp_chunked_field by done.
  by apply rewritten_redirect_location.
Qed.
End forwarding.

(** ** Witnesses *)

Definition remote_redirect : response (Beast := model_beast) :=
  resp_set_body "src=/x" (resp_set_field field_location "/login" (resp_set_result 302 resp_new)).

Definition redirecting_environment : Environment (B := model_beast) := {|
  read_file _ := None; is_directory _ := false; can_create _ := false; uuid := [];
  perform_request _ _ _ := Ret remote_redirect
|}.

Definition proxied_example : request (Beast := model_beast) :=
  req_set_target "/proxy/a" req_new.

Lemma proxied_request_spec_witness :
  exists r, proxied_request "/proxy" "h" "80" proxied_example = Ret r
    /\ req_target r = lit "/a"
    /\ req_method r = req_method proxied_example /\ req_version r = req_version proxied_example
    /\ req_body r = req_body proxied_example
    /\ forall n, req_field r n =
         if iequals field_accept_encoding n then Some (lit "identity")
         else if iequals field_host n then Some (lit "h" ++ ":" ++ "80")
         else req_field proxied_example n.
Proof. exact (proxied_request_spec "/proxy" "h" "80" proxied_example eq_refl). Defined.

Lemma proxy_answer_witness :
  let E := redirecting_environment in
  exists r, ReverseProxy_handle_request "/proxy" "h" "80" proxied_example = Ret r
    /\ resp_result r = resp_result remote_redirect
    /\ rewritten_body "/proxy" (resp_body remote_redirect) = Ret (resp_body r)
    /\ well_sized r
    /\ resp_field r field_location =
       redirect_of "/proxy" 302 <$> resp_field remote_redirect field_location.
Proof.
  intros E. apply (proxy_answer (E := E) "/proxy" "h" "80" proxied_example
    (req_set_field field_accept_encoding "identity"
      (req_set_field field_host "h:80" (req_set_target "/a" proxied_example)))); try reflexivity.
  intros l [= <-]. reflexivity.
Defined.
