(* ===== verification/HttpClient.v ===== *)
(** * The HTTP client: src/src/http_client.cc and src/include/mock_http_client.h

    [HttpClient::perform_request] over the operations of Boost.Asio and
    Boost.Beast it calls, each of which may throw, and the client of the tests.
    Either one is what the reverse proxy calls through its [http_client_]. *)
From S2P Require Import Prelude CppStd StdMap Boost BoostModel ConfigLexer ConfigParser Utils.
From S2P Require Import Handlers ReverseProxy.

(** ** The network *)

(** [resolve], [connect], [http::write], [http::read] and [shutdown], which
    reports its error instead of throwing. *)
Class Network `{B : Beast} := {
  endpoints : Type;
  stream : Type;
  error_code : Type;
  error_code_eq_dec :: EqDecision error_code;
  not_connected : error_code;
  resolve : str -> str -> outcome endpoints;
  stream_connect : endpoints -> outcome stream;
  http_write : stream -> request -> outcome stream;
  http_read : stream -> outcome (response * stream);
  shutdown_both : stream -> option error_code
}.

Section client.
Context `{N : Network}.

Definition perform_request_tcp (host port : str) (req : request) : outcome response :=
  results ← resolve host port;
  stream ← stream_connect results;
  stream ← http_write stream req;
  '(resp, stream) ← http_read stream;
  match shutdown_both stream with
  | Some err => if decide (err <> not_connected) then Throw system_error else Ret resp
  | None => Ret resp
  end.

(** A response has been read from the host. *)
Definition received (host port : str) (req : request) (resp : response) (st : stream) : Prop :=
  exists results st1 st2, resolve host port = Ret results /\ stream_connect results = Ret st1 /\
    http_write st1 req = Ret st2 /\ http_read st2 = Ret (resp, st).

(** The socket was closed, or the host had closed it. *)
Definition closed (st : stream) : Prop :=
  shutdown_both st = None \/ shutdown_both st = Some not_connected.

Lemma received_result host port req resp st :
  received host port req resp st ->
  perform_request_tcp host port req =
  match shutdown_both st with
  | Some err => if decide (err <> not_connected) then Throw system_error else Ret resp
  | None => Ret resp
  end.
Proof.
  intros (results & st1 & st2 & H1 & H2 & H3 & H4). unfold perform_request_tcp.
  by rewrite H1, bind_Ret, H2, bind_Ret, H3, bind_Ret, H4, bind_Ret.
Qed.

Lemma perform_request_received host port req resp :
  perform_request_tcp host port req = Ret resp ->
  exists st, received host port req resp st /\ closed st.
Proof.
  unfold perform_request_tcp. intros H. apply bind_ret_inv in H as (results & H1 & H).
  apply bind_ret_inv in H as (st1 & H2 & H). apply bind_ret_inv in H as (st2 & H3 & H).
  apply bind_ret_inv in H as ([resp' st] & H4 & H). exists st. unfold closed.
  destruct (shutdown_both st) as [err|] eqn:Hs.
  - case_decide as He; [done|]. injection H as ->. split; [by exists results, st1, st2|].
    right. by destruct (decide (err = not_connected)) as [->|].
  - injection H as ->. split; [by exists results, st1, st2|by left].
Qed.

(** The client returns a response exactly when one was received and the
    socket was closed, by it or by the host; a response that was received in full
    is lost, and [system_error] thrown, when closing fails in any other way. *)
Theorem perform_request_spec (host port : str) (req : request) :
  (forall resp, perform_request_tcp host port req = Ret resp <->
     exists st, received host port req resp st /\ closed st) /\
  (forall resp st, received host port req resp st -> ~ closed st ->
     perform_request_tcp host port req = Throw system_error).
Proof.
  split.
  - intros resp. split; [apply perform_request_received|]. intros (st & Hr & Hc).
    rewrite (received_result _ _ _ _ _ Hr). destruct Hc as [-> | ->]; [done|].
    by rewrite decide_False by tauto.
  - intros resp st Hr Hc. rewrite (received_result _ _ _ _ _ Hr). unfold closed in Hc.
    destruct (shutdown_both st) as [err|]; [|tauto]. case_decide as He; [done|].
    destruct Hc. right. by destruct (decide (err = not_connected)) as [->|].
Qed.

(** The machine on which the proxy's client is this one. *)
Definition with_client (client : str -> str -> request -> outcome response) (E : Environment)
  : Environment := {|
  read_file := @read_file B E;
  is_directory := @is_directory B E;
  can_create := @can_create B E;
  perform_request := client;
  uuid := @uuid B E
|}.
End client.

(** ** mock_http_client *)

Section mock.
Context `{B : Beast}.

(** [result] throws on a number of more than three digits. *)
Definition mock_perform_request (result_code : Z) (location host port : str) (req : request)
  : outcome response :=
  let response_content := lit "SUCCESS" in
  if (999 <? result_code)%Z then Throw invalid_argument
  else
    let resp := resp_new in
    let resp := resp_set_result result_code resp in
    let resp := resp_set_field field_content_type "text/html" resp in
    let resp := resp_set_field field_location location resp in
    let resp := resp_content_length (length response_content) resp in
    Ret (resp_set_body response_content resp).
End mock.

(** ** A network *)

(** Hosts answer with the response they are given, and closing a socket may
    fail. *)
Definition model_network (answer : response (Beast := model_beast)) (closing : option bool)
  : Network (B := model_beast) := {|
  endpoints := str; stream := unit; error_code := bool; not_connected := true;
  resolve host port := if decide (host = []) then Throw system_error else Ret (host ++ port);
  stream_connect _ := Ret tt;
  http_write _ _ := Ret tt;
  http_read _ := Ret (answer, tt);
  shutdown_both _ := closing
|}.

(** A shutdown that fails with anything but "not connected" loses the answer. *)
Example shutdown_loses_answer :
  perform_request_tcp (N := model_network remote_redirect (Some false)) "h" "80" proxied_example =
  Throw system_error.
Proof. reflexivity. Qed.

Example host_closed_first :
  perform_request_tcp (N := model_network remote_redirect (Some true)) "h" "80" proxied_example =
  Ret remote_redirect.
Proof. reflexivity. Qed.

(** The test of a redirection to an absolute path. *)
Definition mock_environment (result_code : Z) (location : str) : Environment (B := model_beast) :=
  with_client (mock_perform_request result_code location) redirecting_environment.

Example redirect_under_location :
  print_response <$> ReverseProxy_handle_request (E := mock_environment 302 "/relative/path")
    "/reverse" "hello.com" "69" (req_set_target "/reverse" req_new) =
  Ret (lit "HTTP/1.1 302 Found" ++ CR :: LF :: lit "Content-Type: text/html" ++
       CR :: LF :: lit "Location: /reverse/relative/path" ++
       CR :: LF :: lit "Content-Length: 7" ++ CR :: LF :: CR :: LF :: lit "SUCCESS").
Proof. vm_compute. reflexivity. Qed.
