(* ===== verification/Meme.v ===== *)
(** * The meme handler: src/src/handlers/meme_handler.cc

    The multipart form is read line by line from a stream whose unread part is
    passed along.  A handler's effects - the meme that is logged, the file that
    is written - come with its outcome, in the order the code has them. *)
From S2P Require Import Prelude CppStd StdMap Boost BoostModel ConfigLexer ConfigParser Utils.
From S2P Require Import Handlers.

(** ** Parts of a form *)

Definition is_boundary (boundary line : str) : bool :=
  bool_decide (line = "--" ++ boundary ++ "--" ++ [CR])
  || bool_decide (line = "--" ++ boundary ++ [CR]).

Inductive parse_state := reading_header | reading_body | reached_boundary.

#[export] Instance parse_state_eq_dec : EqDecision parse_state.
Proof. solve_decision. Defined.

Record part := Part { part_header : str; part_body : str }.

Definition add_header (line : str) (p : part) : part :=
  Part (part_header p ++ line ++ [LF]) (part_body p).
Definition add_body (line : str) (p : part) : part :=
  Part (part_header p) (part_body p ++ line ++ [LF]).

(** One line of the loop. *)
Definition parse_line (boundary : str) (st : parse_state) (crlf_end : bool) (curr_line : str)
    (p : part) : parse_state * part :=
  match st with
  | reading_header =>
      if is_boundary boundary curr_line then (reached_boundary, p)
      else if bool_decide (curr_line = [CR]) && crlf_end then (reading_body, p)
      else (reading_header, add_header curr_line p)
  | reading_body =>
      if is_boundary boundary curr_line then (reached_boundary, p)
      else (reading_body, add_body curr_line p)
  | reached_boundary => (reached_boundary, p)
  end.

Definition ends_with_cr (line : str) : bool := bool_decide (last line = Some CR).

(** The result is [state == reached_boundary], with what is unread. *)
Fixpoint parse_part_loop (fuel : nat) (boundary : str) (st : parse_state) (crlf_end : bool)
    (unread : str) (p : part) : outcome (bool * str * part) :=
  match fuel with
  | O => NoFuel
  | S fuel =>
      if decide (st = reached_boundary) then Ret (true, unread, p)
      else match getline unread with
           | None => Ret (false, unread, p)
           | Some (curr_line, unread) =>
               let '(st, p) := parse_line boundary st crlf_end curr_line p in
               parse_part_loop fuel boundary st (ends_with_cr curr_line) unread p
           end
  end.

(** Each pass but the last reads at least one character. *)
Definition parse_part (boundary unread : str) : outcome (bool * str * part) :=
  parse_part_loop (S (S (length unread))) boundary reading_header false unread (Part [] []).

(** ** Regular expressions *)

Fixpoint take_while (f : ascii -> bool) (s : str) : str :=
  match s with
  | c :: s' => if f c then c :: take_while f s' else []
  | [] => []
  end.

Definition is_alnum (c : ascii) : bool :=
  isdigit c || bool_decide (65 <= code c <= 90 \/ 97 <= code c <= 122)%Z.

(** [boundary=([-]{4,}[a-zA-Z0-9]{10,})] at the start of [s]. *)
Definition match_boundary (s : str) : option str :=
  if is_prefix "boundary=" s then
    let r := drop 9 s in
    let dashes := take_while (fun c => bool_decide (c = "-"%char)) r in
    let letters := take_while is_alnum (drop (length dashes) r) in
    if decide (4 <= length dashes /\ 10 <= length letters)
    then Some ("boundary=" ++ dashes ++ letters) else None
  else None.

(** [regex_search]: the leftmost match. *)
Fixpoint search_boundary (s : str) : option str :=
  match match_boundary s with
  | Some m => Some m
  | None => match s with [] => None | _ :: s' => search_boundary s' end
  end.

Definition is_word (c : ascii) : bool := is_alnum c || bool_decide (c = "_"%char).

(** The expression that finds a content type: a word boundary, then
    [Content-Type: ] and everything up to the end of the line.  [before] is whether a word character comes before [s]. *)
Fixpoint search_content_type (before : bool) (s : str) : option str :=
  if negb before && is_prefix "Content-Type: " s
  then Some (take_while (fun c => negb (bool_decide (c = CR \/ c = LF))) s)
  else match s with [] => None | c :: s' => search_content_type (is_word c) s' end.

(** [path /= s] for a relative [s]. *)
Definition path_append (path s : str) : str :=
  match last path with
  | None => s
  | Some c => if decide (c = SLASH) then path ++ s else path ++ SLASH :: s
  end.

(** ** The pages *)

Definition page_fonts : str :=
  "<!DOCTYPE html><html><head><link rel='preconnect' " ++
  "href='https://fonts.gstatic.com'>" ++
  "<link href" ++
  "='https://fonts.googleapis.com/" ++
  "css2?family=Odibee+Sans&family=Oswald:wght@700&family=Sigmar+One&" ++
  "display=swap' rel='stylesheet'></head>".

Definition generated_page (top bottom img_url : str) : str :=
  page_fonts ++
  "<body style=" ++ DQUOTE :: "background-color:lightblue; font-family: 'Sigmar One', " ++
  "cursive;color: navy" ++ DQUOTE :: "><div " ++
  "class='page-layout'><div class=column></div><div class='page-content " ++
  "column'><h1>Generated Meme</h1><div " ++
  "class=template><div class='top-text captions'>" ++
  top ++
  "</div>" ++
  "<div class='bottom-text captions'>" ++
  bottom ++
  "</div></div><form method='post' action='/meme/browse'><button " ++
  "style='position: " ++
  "absolute; left: 0'>Browse " ++
  "Memes</button></form><form method='post' " ++
  "action='/meme/create'><button " ++
  "style='position: absolute; right: 0'>Create a new " ++
  "Meme</button></form></div><div class=column></div></div></body>" ++
  "<style>" ++
  "button{width: 30px; border-radius: 5px;background-color: navy;color: " ++
  "white;font-family: 'Sigmar One', cursive;width:50%;font-size: 1vw;}" ++
  ".template{background-color: white; margin: auto; width: 40vw;height: " ++
  "40vw;word-break: " ++
  "normal;margin:1vw;font-family: " ++
  "'Oswald', sans-serif;text-transform: " ++
  "uppercase;background-image:url(" ++
  img_url ++
  ");background-position: center; background-size:cover; color: " ++
  "white;font-size: " ++
  "2vw;-webkit-text-stroke: 1px black;position: " ++
  "relative;align-content: center;}" ++
  ".top-text{font-size: 130%;padding: 2% 0% 2% 0%; font-weight: " ++
  "bold; width: 100%;position: " ++
  "absolute;top:0;text-align: center;}" ++
  ".bottom-text{font-size: 130%;padding: 2% 0% 2% " ++
  "0%;font-weight:bold;width:100%;position: absolute;bottom: " ++
  "0;text-align: center;}.page-layout{width: 100%;height: 100%;display: " ++
  "grid;grid-template-rows:100%;grid-template-columns: 15% 70% 15%; " ++
  "position: " ++
  "relative;}.page-content{padding-left:5%;padding-right:5%;text-align: " ++
  "center;font-size: 1.5vw;}.column {display: " ++
  "grid;justify-content:center;align-content:center;text-align:center;" ++
  "position: relative}".

Definition browse_page_head : str :=
  page_fonts ++
  "<style>" ++
  ".template{background-color: white; margin: auto; width: 300px;height: " ++
  "300px;word-break: " ++
  "normal;margin:14px;font-family: " ++
  "'Oswald', sans-serif;text-transform: " ++
  "uppercase;" ++
  "background-position: center; background-size:cover; color: " ++
  "white;font-size: " ++
  "20px;-webkit-text-stroke: 1px black;position: " ++
  "relative;align-content: center;}" ++
  ".top-text{font-size: 20px;padding: 2% 0% 2% 0%; font-weight: " ++
  "bold; width: 100%;position: " ++
  "absolute;top:0;text-align: center;}" ++
  ".bottom-text{font-size: 20px;padding: 2% 0% 2% " ++
  "0%;font-weight:bold;width:100%;position: absolute;bottom: " ++
  "0;text-align: center;}button{padding-left: 2% width: 30px; " ++
  "border-radius: " ++
  "5px;background-color: navy;color: " ++
  "white;font-family: 'Sigmar One', cursive;width:50%;font-size: " ++
  "1vw;}</style>" ++
  "<body style=" ++ DQUOTE :: "background-color:lightblue; font-family: 'Sigmar " ++
  "One', " ++
  "cursive;color: navy" ++ DQUOTE :: "><h1 style='padding-left: 2%'>Browse " ++
  "Memes</h1><form method='post' " ++
  "action='/meme/create'><button " ++
  "style='position: " ++
  "absolute; left: 0'>Create a new " ++
  "Meme</button></form><br><br>" ++
  "<div style='display:flex; flex-wrap: wrap'>".

Definition style_css (chosen_style : Z) : option str :=
  if decide (chosen_style = 1%Z) then Some []
  else if decide (chosen_style = 2%Z) then Some (lit ".captions{background-color:black}")
  else if decide (chosen_style = 3%Z)
  then Some (lit ".captions{color:black; -webkit-text-stroke: 1px white}")
  else None.

Definition caption_css (chosen_style : Z) : option str :=
  if decide (chosen_style = 1%Z) then Some (lit "color:white; -webkit-text-stroke: 1px black")
  else if decide (chosen_style = 2%Z) then Some (lit "background-color:black")
  else if decide (chosen_style = 3%Z)
  then Some (lit "color:black; -webkit-text-stroke: 1px white")
  else None.

(** [erase(remove_if(..., ::isspace))] *)
Definition remove_spaces (s : str) : str := base.filter (fun c => isspace c = false) s.

Section meme.
Context `{B : Beast} `{E : !Environment} `{F : BoostFilesystem} `{T : BoostString}.

Definition bad_request (message : str) : handled response :=
  ([], Ret (show_error_page status_bad_request message)).

(** The constructor. *)
Definition new_MemeHandler (config : NginxConfig) : outcome str :=
  root ← vec_at (configLookup config [] "root") 0;
  strip_quotes root.

(** Text pages that announce their length and then call [prepare_payload]. *)
Definition page_response (content : str) : outcome response :=
  resp_prepare_payload (text_response "text/html" content).

(** The boundary the request announces. *)
Definition request_boundary (req : request) : outcome (option str) :=
  match search_boundary (print_request req) with
  | None => Ret None
  | Some m =>
      let boundary := trim m in
      match str_find boundary "-" 0 with
      | None => Throw out_of_range
      | Some pos => Some <$> substr_from boundary pos
      end
  end.

(** The content type of the image: what follows [image/]. *)
Definition image_type (header : str) : outcome (option str) :=
  let curr_content_type :=
    match search_content_type false header with Some m => trim m | None => [] end in
  match str_find curr_content_type "image/" 0 with
  | None => Ret None
  | Some pos => Some <$> substr_from curr_content_type (pos + 6)
  end.

(** The four parts of the form, in order, and nothing after them. *)
Record form := Form {
  template_style : str;
  image_header : str;
  image_body : str;
  top_caption : str;
  bottom_caption : str
}.

(** [inr] is the message of the error. *)
Definition parse_form (boundary body : str) : outcome (form + str) :=
  match getline body with
  | None => Ret (inr (lit "Invalid meme request: no boundary"))
  | Some (line, unread) =>
      if negb (bool_decide (line = "--" ++ boundary ++ [CR]))
      then Ret (inr (lit "Invalid meme request: no boundary")) else
      '(ok, unread, style) ← parse_part boundary unread;
      if negb ok then Ret (inr (lit "Invalid meme request: error in template selection")) else
      '(ok, unread, image) ← parse_part boundary unread;
      if negb ok then Ret (inr (lit "Invalid meme request: error in image")) else
      '(ok, unread, top) ← parse_part boundary unread;
      if negb ok then Ret (inr (lit "Invalid meme request: error in top caption")) else
      '(ok, unread, bottom) ← parse_part boundary unread;
      if negb ok then Ret (inr (lit "Invalid meme request: error in bottom caption")) else
      match getline unread with
      | Some _ => Ret (inr (lit "Invalid meme request: too many fields"))
      | None => Ret (inl (Form (part_body style) (part_header image) (part_body image)
                            (part_body top) (part_body bottom)))
      end
  end.

(** The end of [generate_meme], once the meme is saved and logged. *)
Definition generated_response (top bottom style img_url : str) : outcome response :=
  chosen_style ← stoi style;
  match style_css chosen_style with
  | None => Ret (show_error_page status_bad_request "Invalid meme request")
  | Some css => page_response (generated_page top bottom img_url ++ css ++ "</style></body></html>")
  end.

Definition meme_path (root curr_content_type : str) : str :=
  path_append root (uuid ++ "." ++ curr_content_type).

Definition save_meme (root curr_content_type : str) (f : form) : handled response :=
  let path := meme_path root curr_content_type in
  if negb (can_create path) then
    ([], Ret (show_error_page status_internal_server_error
                "Could not write meme to configured filesystem"))
  else
    let style := remove_spaces (template_style f) in
    let img_url := "." ++ path in
    ([WriteFile path (image_body f); LogMeme img_url [top_caption f; bottom_caption f; style]],
     generated_response (top_caption f) (bottom_caption f) style img_url).

Definition generate_meme (root : str) (req : request) : handled response :=
  match req_field req field_content_type with
  | None => bad_request "Invalid upload request"
  | Some content_type =>
      if decide (req_method req <> verb_post) then bad_request "Invalid upload request" else
      match str_find content_type "multipart/form-data" 0 with
      | None => ([], Ret (show_error_page status_unsupported_media_type "Invalid upload content type"))
      | Some _ =>
          handle_bind (request_boundary req) (fun boundary =>
          match boundary with
          | None => bad_request "Invalid multipart form"
          | Some boundary =>
              handle_bind (parse_form boundary (req_body req)) (fun parsed =>
              match parsed with
              | inr message => bad_request message
              | inl f =>
                  handle_bind (image_type (image_header f)) (fun curr_content_type =>
                  match curr_content_type with
                  | None => bad_request "Bad file type"
                  | Some curr_content_type => save_meme root curr_content_type f
                  end)
              end)
          end)
      end
  end.

Definition browse_item (img_url style top bottom : str) : str :=
  "<div " ++
  "class=template style=" ++ DQUOTE :: "background-image:url('" ++
  img_url ++
  "')" ++ DQUOTE :: ">" ++
  "<div class='top-text captions' style='" ++
  style ++ "'>" ++ top ++
  "</div>" ++
  "<div class='bottom-text captions' style='" ++
  style ++ "'>" ++ bottom ++ "</div></div>".

(** The loop of the browsing page; [None] is a style that is not a style. *)
Fixpoint browse_items (memes : list (str * list str)) : outcome (option str) :=
  match memes with
  | [] => Ret (Some [])
  | (img_url, selections) :: memes =>
      style ← vec_at selections 2;
      chosen_style ← stoi style;
      match caption_css chosen_style with
      | None => Ret None
      | Some style =>
          top ← vec_at selections 0;
          bottom ← vec_at selections 1;
          rest ← browse_items memes;
          Ret (app (browse_item img_url style top bottom) <$> (rest : option str))
      end
  end.

Definition browse_memes (memes : list (str * list str)) : outcome response :=
  items ← browse_items memes;
  match items with
  | None => Ret (show_error_page status_bad_request "Invalid meme request")
  | Some items => page_response (browse_page_head ++ items ++ "</body></html>")
  end.

Definition create_meme : outcome response :=
  path ← convertToAbsolutePath "./memes/meme_creation.html";
  match read_file path with
  | None => Ret (show_error_page status_internal_server_error "error getting meme creation form")
  | Some meme_form_content => page_response meme_form_content
  end.

Definition Meme_handle_request {S : Type} `{ServerView S} (parent : option S) (root : str)
    (req : request) : handled response :=
  match parent with
  | None => ([], Ret (show_error_page status_internal_server_error
                        "Status Handler was not correctly initialized"))
  | Some s =>
      if decide (req_target req = lit "/meme/generate") then generate_meme root req
      else if decide (req_target req = lit "/meme/create") then ([], create_meme)
      else if decide (req_target req = lit "/meme/browse") then ([], browse_memes (get_memes s))
      else ([], Ret (show_error_page status_not_found (req_target req ++ " page not found")))
  end.
End meme.
