(* ===== verification/MemeForm.v ===== *)
(** * What the meme handler reads of a form

    The parser of the parts against a printed form: the round trip, with the
    line end that precedes a boundary left in every part. *)
From S2P Require Import Prelude CppStd Boost BoostModel Utils Handlers Meme.

(** ** Lines *)

(** The lines of a text, without their line feeds: one more than it has line
    feeds. *)
Fixpoint lines (s : str) : list str :=
  match s with
  | [] => [[]]
  | c :: s' =>
      if decide (c = LF) then [] :: lines s'
      else match lines s' with
           | [] => [[c]]
           | l :: ls => (c :: l) :: ls
           end
  end.

Definition line_text (ls : list str) : str := ls ≫= fun l => l ++ [LF].

#[global] Arguments line_text : simpl never.

Definition no_lf (l : str) : bool := forallb (fun c => negb (bool_decide (c = LF))) l.

Lemma lines_ne s : lines s <> [].
Proof. destruct s as [|c s]; [done|]. simpl. case_decide; [done|]. by case_match. Qed.

Lemma line_text_step l ls : line_text (l :: ls) = l ++ LF :: line_text ls.
Proof. unfold line_text. rewrite bind_cons. by rewrite <-app_assoc. Qed.

Lemma line_text_cons l ls r : line_text (l :: ls) ++ r = l ++ LF :: line_text ls ++ r.
Proof. rewrite line_text_step. list_app. Qed.

Lemma line_text_lines s : line_text (lines s) = s ++ [LF].
Proof.
  induction s as [|c s IH]; [done|]. simpl. case_decide as Hc.
  - subst. rewrite line_text_step. by rewrite IH.
  - destruct (lines s) as [|l ls] eqn:E; [by destruct (lines_ne s)|].
    rewrite line_text_step in *. simpl. by rewrite IH.
Qed.

Lemma lines_no_lf s : Forall (fun l => no_lf l = true) (lines s).
Proof.
  induction s as [|c s IH]; [by apply Forall_singleton|]. simpl. case_decide as Hc.
  - by constructor.
  - destruct (lines s) as [|l ls]; [apply Forall_singleton; simpl; by rewrite bool_decide_false|].
    apply Forall_cons in IH as [Hl ?]. constructor; [|done]. simpl.
    by rewrite bool_decide_false, Hl.
Qed.

Lemma split_line_line l r : no_lf l = true -> split_line (l ++ LF :: r) = (l, r).
Proof.
  induction l as [|c l IH]; [done|]. simpl.
  intros [Hc%negb_true_iff%bool_decide_eq_false Hl]%andb_true_iff.
  by rewrite decide_False, IH.
Qed.

Lemma getline_line l r : no_lf l = true -> getline (l ++ LF :: r) = Some (l, r).
Proof. intros H. unfold getline. rewrite split_line_line by done. by destruct l. Qed.

(** ** A part *)

Section part.
Context (boundary : str).
Hypothesis boundary_no_lf : no_lf boundary = true.

(** A line of a body: it is not a boundary. *)
Definition content_line (l : str) : bool := negb (is_boundary boundary l).

(** A line of a header: it ends the way lines end, and is not the empty line. *)
Definition header_line (l : str) : bool :=
  ends_with_cr l && negb (bool_decide (l = [CR])) && content_line l && no_lf l.

(** A boundary; the last one of a form has two more dashes. *)
Definition boundary_line (final : bool) : str :=
  "--" ++ boundary ++ (if final then lit "--" else []) ++ [CR].

Lemma is_boundary_line final : is_boundary boundary (boundary_line final) = true.
Proof.
  unfold is_boundary, boundary_line.
  destruct final; [rewrite bool_decide_true by done; done|].
  apply orb_true_iff. right. by rewrite bool_decide_true.
Qed.

Lemma boundary_line_no_lf final : no_lf (boundary_line final) = true.
Proof.
  unfold no_lf, boundary_line in *. rewrite !forallb_app, boundary_no_lf. by destruct final.
Qed.

(** One pass of the loop reads one line. *)
Lemma loop_line fuel st crlf_end l r p :
  st <> reached_boundary -> no_lf l = true ->
  parse_part_loop (S fuel) boundary st crlf_end (l ++ LF :: r) p =
  let '(st, p) := parse_line boundary st crlf_end l p in
  parse_part_loop fuel boundary st (ends_with_cr l) r p.
Proof. intros Hst Hl. cbn [parse_part_loop]. rewrite decide_False by done. by rewrite getline_line. Qed.

Lemma loop_body ls fuel crlf_end h b r :
  Forall (fun l => content_line l = true) ls -> Forall (fun l => no_lf l = true) ls ->
  exists crlf_end',
  parse_part_loop (length ls + fuel) boundary reading_body crlf_end (line_text ls ++ r) (Part h b) =
  parse_part_loop fuel boundary reading_body crlf_end' r (Part h (b ++ line_text ls)).
Proof.
  intros Hc Hl. revert crlf_end b. induction ls as [|l ls IH]; intros crlf_end b.
  { exists crlf_end. by rewrite app_nil_r. }
  apply Forall_cons in Hc as [Hc Hcs]. apply Forall_cons in Hl as [Hl Hls].
  destruct (IH Hcs Hls (ends_with_cr l) (b ++ l ++ [LF])) as [e He]. exists e.
  rewrite line_text_cons. simpl plus. rewrite loop_line by done. simpl.
  unfold content_line in Hc. apply negb_true_iff in Hc. rewrite Hc.
  change (add_body l (Part h b)) with (Part h (b ++ l ++ [LF])).
  rewrite He, line_text_step. by rewrite <-!app_assoc.
Qed.

Lemma loop_header ls fuel crlf_end h b r :
  Forall (fun l => header_line l = true) ls ->
  parse_part_loop (length ls + fuel) boundary reading_header crlf_end (line_text ls ++ r) (Part h b) =
  parse_part_loop fuel boundary reading_header (match ls with [] => crlf_end | _ => true end) r
    (Part (h ++ line_text ls) b).
Proof.
  intros Hl. revert crlf_end h. induction ls as [|l ls IH]; intros crlf_end h.
  { by rewrite app_nil_r. }
  apply Forall_cons in Hl as [Hl Hls]. unfold header_line in Hl.
  rewrite !andb_true_iff, !negb_true_iff in Hl. destruct Hl as [[[He Hne] Hc%negb_true_iff] Hlf].
  rewrite line_text_cons. simpl plus. rewrite loop_line by done. simpl.
  rewrite Hc, Hne. simpl. change (add_header l (Part h b)) with (Part (h ++ l ++ [LF]) b).
  rewrite IH by done.
  replace (match ls with [] => ends_with_cr l | _ => true end) with true by (destruct ls; done).
  rewrite line_text_step. by rewrite <-!app_assoc.
Qed.

Lemma length_line_text ls : length ls <= length (line_text ls).
Proof.
  induction ls as [|l ls IH]; [simpl; lia|]. rewrite line_text_step, length_app. simpl. lia.
Qed.

(** The lines of a part: its header, an empty line, its body, a boundary. *)
Lemma parse_part_lines hs ls final r :
  hs <> [] -> Forall (fun l => header_line l = true) hs ->
  Forall (fun l => content_line l = true) ls -> Forall (fun l => no_lf l = true) ls ->
  parse_part boundary (line_text hs ++ CR :: LF :: line_text ls ++ boundary_line final ++ LF :: r) =
  Ret (true, r, Part (line_text hs) (line_text ls)).
Proof.
  intros Hne Hhs Hc Hl. unfold parse_part. set (unread := line_text hs ++ _).
  assert (exists k, S (S (length unread)) = length hs + S (length ls + S (S k))) as [k ->].
  { unfold unread. rewrite length_app. cbn [length]. rewrite !length_app. cbn [length].
    pose proof (length_line_text hs). pose proof (length_line_text ls).
    exists (S (S (length unread)) - (length hs + S (length ls + 2))).
    unfold unread. rewrite length_app. cbn [length]. rewrite !length_app. cbn [length]. lia. }
  unfold unread. rewrite loop_header by done.
  replace (match hs with [] => false | _ => true end) with true by (destruct hs; done).
  change (CR :: LF :: line_text ls ++ boundary_line final ++ LF :: r) with
    ([CR] ++ LF :: line_text ls ++ boundary_line final ++ LF :: r).
  rewrite loop_line by done. cbn [parse_line].
  replace (is_boundary boundary [CR]) with false by done. simpl andb. rewrite app_nil_l. cbn iota zeta beta.
  destruct (loop_body ls (S (S k)) (ends_with_cr [CR]) (line_text hs) []
    (boundary_line final ++ LF :: r)) as [e ->]; [done|done|].
  rewrite loop_line by (done || apply boundary_line_no_lf). cbn [parse_line].
  by rewrite is_boundary_line.
Qed.

(** The text of a part as a client sends it: the line end after the content
    belongs to the boundary. *)
Definition part_text (header : list str) (content : str) (final : bool) : str :=
  line_text header ++ [CR; LF] ++ content ++ [CR; LF] ++ boundary_line final ++ [LF].

Definition part_ok (header : list str) (content : str) : bool :=
  bool_decide (header <> []) && forallb header_line header
  && forallb content_line (lines (content ++ [CR])).

Lemma forallb_Forall_eq {A} (f : A -> bool) l : forallb f l = true -> Forall (fun x => f x = true) l.
Proof. induction l; simpl; [constructor|]. intros [??]%andb_true_iff. constructor; auto. Qed.

Lemma parse_part_text header content final r :
  part_ok header content = true ->
  parse_part boundary (part_text header content final ++ r) =
  Ret (true, r, Part (line_text header) (content ++ [CR; LF])).
Proof.
  unfold part_ok. rewrite !andb_true_iff, bool_decide_eq_true. intros [[Hne Hh] Hc].
  apply forallb_Forall_eq in Hh, Hc.
  pose proof (parse_part_lines header (lines (content ++ [CR])) final r Hne Hh Hc (lines_no_lf _)) as H.
  rewrite line_text_lines in H. replace (content ++ [CR; LF]) with ((content ++ [CR]) ++ [LF]) by list_app.
  rewrite <-H. f_equal. unfold part_text. list_app.
Qed.
End part.

(** ** A form *)

Record form_text := FormText {
  style_header : list str; style_content : str;
  file_header : list str; file_content : str;
  top_header : list str; top_content : str;
  bottom_header : list str; bottom_content : str
}.

Definition form_ok (boundary : str) (f : form_text) : bool :=
  no_lf boundary
  && part_ok boundary (style_header f) (style_content f)
  && part_ok boundary (file_header f) (file_content f)
  && part_ok boundary (top_header f) (top_content f)
  && part_ok boundary (bottom_header f) (bottom_content f).

Definition print_form (boundary : str) (f : form_text) : str :=
  boundary_line boundary false ++ [LF]
  ++ part_text boundary (style_header f) (style_content f) false
  ++ part_text boundary (file_header f) (file_content f) false
  ++ part_text boundary (top_header f) (top_content f) false
  ++ part_text boundary (bottom_header f) (bottom_content f) true.

Lemma parse_form_text (boundary : str) (f : form_text) :
  form_ok boundary f = true ->
  parse_form boundary (print_form boundary f) =
  Ret (inl (Form (style_content f ++ [CR; LF]) (line_text (file_header f))
              (file_content f ++ [CR; LF]) (top_content f ++ [CR; LF])
              (bottom_content f ++ [CR; LF]))).
Proof.
  unfold form_ok. rewrite !andb_true_iff. intros [[[[Hb H1] H2] H3] H4].
  unfold parse_form, print_form. rewrite (app_assoc (boundary_line _ _)).
  rewrite <-(app_assoc (boundary_line _ _)). cbn [app].
  rewrite getline_line by by apply boundary_line_no_lf.
  rewrite bool_decide_true by (unfold boundary_line; by list_app). simpl negb. cbn iota.
  rewrite parse_part_text by done. simpl.
  rewrite parse_part_text by done. simpl.
  rewrite parse_part_text by done. simpl.
  rewrite <-(app_nil_r (part_text boundary (bottom_header f) _ _)).
  by rewrite parse_part_text by done.
Qed.

(** C14: a well-formed multipart form is read back: the four parts come out in
    order, and the image's header.  But the line end that belongs to the boundary
    after each part is kept in the part, so the file that is saved and the
    captions that are shown are two bytes longer than what was sent. *)
Theorem parse_form_print (boundary : str) (f : form_text) :
  form_ok boundary f = true ->
  parse_form boundary (print_form boundary f) =
  Ret (inl (Form (style_content f ++ [CR; LF]) (line_text (file_header f))
              (file_content f ++ [CR; LF]) (top_content f ++ [CR; LF])
              (bottom_content f ++ [CR; LF]))).
Proof. apply parse_form_text. Qed.

Definition example_form : form_text :=
  FormText ["Content-Disposition: form-data; name=template" ++ [CR]] "2"
    ["Content-Disposition: form-data; name=image" ++ [CR]; "Content-Type: image/png" ++ [CR]] "PNG"
    ["Content-Disposition: form-data; name=top" ++ [CR]] "hi"
    ["Content-Disposition: form-data; name=bottom" ++ [CR]] "there".

Lemma parse_form_print_witness :
  parse_form "----0123456789" (print_form "----0123456789" example_form) =
  Ret (inl (Form ("2" ++ [CR; LF]) (line_text (file_header example_form))
              ("PNG" ++ [CR; LF]) ("hi" ++ [CR; LF]) ("there" ++ [CR; LF]))).
Proof. by apply (parse_form_print "----0123456789" example_form). Defined.
