(* ===== verification/MemeStore.v ===== *)
(** * What the meme handler saves, logs and shows

    From a valid request to the file and the log entry, and from the log to
    the browsing page. *)
From S2P Require Import Prelude CppStd StdMap Boost BoostModel Utils Handlers Meme MemeForm.

Section store.
Context `{BL : BeastLaws} `{E : !Environment} `{F : BoostFilesystem} `{TL : BoostStringLaws}.

Lemma page_response_ok content :
  exists r, page_response content = Ret r /\ is_response r status_ok "text/html" content.
Proof.
  unfold page_response. destruct (text_response_ok "text/html" content eq_refl) as (E1 & E2 & E3 & E4).
  destruct (resp_prepare_payload_ok (text_response "text/html" content)) as (r & -> & R1 & R2 & R3 & R4);
    [by rewrite E1|].
  exists r. split; [done|]. unfold is_response, well_sized. rewrite R1, R2, R3, E2, R4 by done. done.
Qed.

(** ** Saving *)

(** The style a form asks for, as it is logged. *)
Definition logged_style (f : form_text) : str := remove_spaces (style_content f ++ [CR; LF]).

(** A valid upload - a POST of a multipart form with four parts, an image and
    a style from 1 to 3 - writes the image under the configured root with a
    fresh name, logs the captions and the style under its URL, and answers with
    the generated page. *)
Lemma generate_meme_ok (root content_type boundary type css : str) (req : request)
    (f : form_text) (i : nat) (style : Z) :
  req_method req = verb_post -> req_field req field_content_type = Some content_type ->
  str_find content_type "multipart/form-data" 0 = Some i ->
  request_boundary req = Ret (Some boundary) ->
  form_ok boundary f = true -> req_body req = print_form boundary f ->
  image_type (line_text (file_header f)) = Ret (Some type) ->
  can_create (meme_path root type) = true ->
  stoi (logged_style f) = Ret style -> style_css style = Some css ->
  let path := meme_path root type in
  let top := top_content f ++ [CR; LF] in
  let bottom := bottom_content f ++ [CR; LF] in
  exists r,
    generate_meme root req =
      ([WriteFile path (file_content f ++ [CR; LF]);
        LogMeme ("." ++ path) [top; bottom; logged_style f]], Ret r) /\
    is_response r status_ok "text/html"
      (generated_page top bottom ("." ++ path) ++ css ++ "</style></body></html>").
Proof.
  intros Hm Hct Hmp Hb Hf Hbody Hty Hcr Hst Hcss path top bottom.
  unfold generate_meme. rewrite Hct, decide_False by by intros ?.
  rewrite Hmp, Hb. cbn [handle_bind]. rewrite Hbody, (parse_form_text boundary f Hf).
  cbn [handle_bind]. simpl image_header. rewrite Hty. cbn [handle_bind]. subst path top bottom. unfold save_meme. rewrite Hcr. simpl negb. cbn iota. simpl top_caption. simpl bottom_caption.
  simpl template_style. simpl image_body. fold (logged_style f).
  unfold generated_response. rewrite Hst, bind_Ret, Hcss.
  destruct (page_response_ok (generated_page (top_content f ++ [CR; LF]) (bottom_content f ++ [CR; LF])
    ("." ++ meme_path root type) ++ css ++ "</style></body></html>")) as (r & -> & Hr).
  by exists r.
Qed.

(** The type of an image is what follows [image/] on its line. *)
Lemma image_type_line (x : str) :
  forallb (fun c => negb (bool_decide (c = CR \/ c = LF))) x = true ->
  unpadded ("Content-Type: image/" ++ x) = true ->
  image_type ("Content-Type: image/" ++ x ++ [CR; LF]) = Ret (Some x).
Proof.
  intros Hx Hp. unfold image_type.
  assert (search_content_type false ("Content-Type: image/" ++ x ++ [CR; LF])
          = Some ("Content-Type: image/" ++ x)) as ->.
  { change (Some ("Content-Type: image/" ++ take_while (fun c => negb (bool_decide (c = CR \/ c = LF)))
      (x ++ [CR; LF])) = Some ("Content-Type: image/" ++ x)). do 2 f_equal.
    clear -Hx. induction x as [|c x IH]; [done|]. simpl in *.
    apply andb_true_iff in Hx as [-> Hx]. by rewrite IH. }
  rewrite trim_unpadded by done. reflexivity.
Qed.

(** The end of the file's name is taken from the request without a check:
    for every [x] that stands on one line, an image that calls itself
    [image/x] is written to [root/uuid.x], so an [x] that climbs with [/../]
    chooses the place of the file. *)
Theorem meme_path_unchecked (root x : str) (f : form) :
  forallb (fun c => negb (bool_decide (c = CR \/ c = LF))) x = true ->
  unpadded ("Content-Type: image/" ++ x) = true ->
  image_header f = "Content-Type: image/" ++ x ++ [CR; LF] ->
  can_create (path_append root (uuid ++ "." ++ x)) = true ->
  image_type (image_header f) = Ret (Some x) /\
  head (save_meme root x f).1 = Some (WriteFile (path_append root (uuid ++ "." ++ x)) (image_body f)).
Proof.
  intros Hx Hp -> Hc. split; [by apply image_type_line|].
  unfold save_meme, meme_path. by rewrite Hc.
Qed.

(** ** Browsing *)

(** A style the browsing page can show. *)
Definition good_style (style : str) : Prop :=
  exists z css, stoi style = Ret z /\ caption_css z = Some css.

Definition good_selections (selections : list str) : Prop :=
  exists top bottom style, selections = [top; bottom; style] /\ good_style style.

Lemma browse_items_good memes :
  Forall (fun m => good_selections m.2) memes -> exists items, browse_items memes = Ret (Some items).
Proof.
  induction 1 as [|[url sel] memes (top & bottom & style & Hsel & z & css & Hz & Hc) _ [items IH]];
    [by eexists|]. simpl in Hsel. subst. cbn [browse_items]. simpl. rewrite Hz. simpl. rewrite Hc. simpl.
  rewrite IH. simpl. by eexists.
Qed.

Lemma browse_items_bad memes url top bottom style items :
  (url, [top; bottom; style]) ∈ memes -> ~ good_style style ->
  browse_items memes <> Ret (Some items).
Proof.
  intros Hin Hbad. revert items. induction memes as [|[u sel] memes IH]; intros items Hit;
    [by apply elem_of_nil in Hin|]. cbn [browse_items] in Hit.
  apply bind_ret_inv in Hit as (st & Hst & Hit). apply bind_ret_inv in Hit as (z & Hz & Hit).
  destruct (caption_css z) as [css|] eqn:Hc; [|done].
  apply elem_of_cons in Hin as [Heq|Hin].
  - simplify_eq/=. injection Hst as <-. apply Hbad. by exists z, css.
  - inv_ret. destruct v1 as [rest|]; [|done]. by apply (IH Hin rest).
Qed.

(** The browsing page shows every meme when all the logged styles are from 1
    to 3. *)
Theorem browse_shows_all (memes : list (str * list str)) :
  Forall (fun m => good_selections m.2) memes ->
  exists r items, browse_items memes = Ret (Some items) /\ browse_memes memes = Ret r /\
    is_response r status_ok "text/html" (browse_page_head ++ items ++ "</body></html>").
Proof.
  intros [items Hit]%browse_items_good. unfold browse_memes. rewrite Hit, bind_Ret.
  destruct (page_response_ok (browse_page_head ++ items ++ "</body></html>")) as (r & -> & Hr).
  eauto.
Qed.

(** An upload is logged before its style is looked at.  A form whose style is
    not from 1 to 3 is refused, or makes [stoi] throw, but stays in the log; and
    while a meme with such a style is in the log, no browse request ever gets the
    page: it is answered 400 or makes [stoi] throw. *)
Theorem bad_style_blocks_browsing (root type : str) (f : form) (memes : list (str * list str))
    (url : str) :
  can_create (meme_path root type) = true ->
  ~ good_style (remove_spaces (template_style f)) ->
  (exists path, LogMeme path [top_caption f; bottom_caption f; remove_spaces (template_style f)]
     ∈ (save_meme root type f).1) /\
  ((url, [top_caption f; bottom_caption f; remove_spaces (template_style f)]) ∈ memes ->
   forall r, browse_memes memes = Ret r -> resp_result r = status_bad_request).
Proof.
  intros Hc Hbad. split.
  - unfold save_meme. rewrite Hc. eexists. simpl. right. left.
  - intros Hin r Hr. unfold browse_memes in Hr. inv_ret. destruct v as [items|].
    + by destruct (browse_items_bad _ _ _ _ _ items Hin Hbad).
    + inv_ret. by apply show_error_page_ok.
Qed.
End store.

(** ** Witnesses *)

Definition meme_environment : Environment (B := model_beast) := {|
  read_file _ := None; is_directory _ := false; can_create _ := true;
  perform_request _ _ _ := Throw invalid_argument; uuid := "0000"
|}.

#[local] Existing Instance meme_environment.

Definition upload_request : request :=
  req_set_body (print_form "----0123456789" example_form)
    (req_set_field field_content_type "multipart/form-data; boundary=----0123456789"
      (Message (VKnown "POST") 0 11 (lit "/meme/generate") [] [])).

Lemma generate_meme_example :
  let path := meme_path "/memes" "png" in
  let top := top_content example_form ++ [CR; LF] in
  let bottom := bottom_content example_form ++ [CR; LF] in
  exists r,
    generate_meme "/memes" upload_request =
      ([WriteFile path (file_content example_form ++ [CR; LF]);
        LogMeme ("." ++ path) [top; bottom; logged_style example_form]], Ret r) /\
    is_response r status_ok "text/html"
      (generated_page top bottom ("." ++ path) ++ ".captions{background-color:black}" ++ "</style></body></html>").
Proof.
  apply (generate_meme_ok "/memes" "multipart/form-data; boundary=----0123456789" "----0123456789"
    "png" ".captions{background-color:black}" upload_request example_form 0 2); vm_compute; reflexivity.
Defined.

Definition climbing : form :=
  Form "1" ("Content-Type: image/" ++ "png/../../etc/passwd" ++ [CR; LF]) "root::0:0" "a" "b".

Lemma meme_path_unchecked_witness :
  image_type (image_header climbing) = Ret (Some (lit "png/../../etc/passwd")) /\
  head (save_meme "/memes" "png/../../etc/passwd" climbing).1 =
    Some (WriteFile (path_append "/memes" (uuid ++ "." ++ "png/../../etc/passwd")) (image_body climbing)).
Proof. apply (meme_path_unchecked "/memes" "png/../../etc/passwd" climbing); reflexivity. Defined.

Lemma browse_shows_all_witness :
  exists r items, browse_items [(lit "./m", [lit "a"; lit "b"; lit "3"])] = Ret (Some items) /\
    browse_memes [(lit "./m", [lit "a"; lit "b"; lit "3"])] = Ret r /\
    is_response r status_ok "text/html" (browse_page_head ++ items ++ "</body></html>").
Proof.
  apply (browse_shows_all [(lit "./m", [lit "a"; lit "b"; lit "3"])]).
  apply Forall_singleton. exists "a", "b", "3". split; [reflexivity|].
  eexists 3%Z, _. split; reflexivity.
Defined.

Lemma bad_style_blocks_browsing_witness :
  (exists path, LogMeme path [lit "a"; lit "b"; remove_spaces "9"]
     ∈ (save_meme "/memes" "png" (Form "9" [] [] "a" "b")).1) /\
  ((lit "./m", [lit "a"; lit "b"; remove_spaces "9"]) ∈ [(lit "./m", [lit "a"; lit "b"; lit "9"])] ->
   forall r, browse_memes [(lit "./m", [lit "a"; lit "b"; lit "9"])] = Ret r ->
     resp_result r = status_bad_request).
Proof.
  apply (bad_style_blocks_browsing "/memes" "png" (Form "9" [] [] "a" "b")); [reflexivity|].
  intros (z & css & Hz & Hc). vm_compute in Hz. injection Hz as <-. vm_compute in Hc. discriminate.
Defined.
