(* ===== verification/Server.v ===== *)
(** * The server: src/src/server.cc

    The objects the server keeps and the maps it keeps them in.  A
    [RequestHandler *] is the index of an object in [objects_]; the maps are
    ordered as [std::map] is.  Connections and threads are in [Concurrency], the
    signal and the destructor in [Lifecycle]. *)
From S2P Require Import Prelude CppStd StdMap Boost ConfigLexer ConfigParser Utils Handlers Status.
From S2P Require Import ReverseProxy Meme.

(** ** Data *)

(** The classes derived from [RequestHandler], with their members;
    [parent] is whether [init...] has set the pointer to the server. *)
Inductive RequestHandler :=
| EchoRequestHandler
| StaticFileRequestHandler (location root : str)
| ReverseProxyRequestHandler (location host port : str)
| NotFoundRequestHandler
| StatusRequestHandler (parent : bool)
| HealthRequestHandler (parent : bool)
| SleepHandler
| MemeHandler (parent : bool) (root : str).

(** The constructors of the classes that know their server give them none. *)
Definition new_StatusRequestHandler : RequestHandler := StatusRequestHandler false.
Definition new_HealthRequestHandler : RequestHandler := HealthRequestHandler false.

(** [initStatus(this)], [initHealth(this)] and [initMeme(this)]: members of one
    class each. *)
Definition initStatus (h : RequestHandler) : RequestHandler :=
  match h with StatusRequestHandler _ => StatusRequestHandler true | _ => h end.
Definition initHealth (h : RequestHandler) : RequestHandler :=
  match h with HealthRequestHandler _ => HealthRequestHandler true | _ => h end.
Definition initMeme (h : RequestHandler) : RequestHandler :=
  match h with MemeHandler _ root => MemeHandler true root | _ => h end.

Definition handler_types : list str :=
  [lit "EchoHandler"; lit "StaticHandler"; lit "ReverseProxyHandler"; lit "NotFoundHandler";
   lit "StatusHandler"; lit "HealthHandler"; lit "SleepHandler"; lit "MemeHandler"].

Record server := Server {
  objects_ : list RequestHandler;
  location_to_handler_ : list (str * nat);
  handler_to_prefixes_ : list (str * list str);
  type_to_handler_ : list (str * list nat);
  requests_ : list ((str * Z) * Z);
  memes_ : list (str * list str)
}.

Definition empty_server : server := Server [] [] [] [] [] [].

Definition with_requests (m : list ((str * Z) * Z)) (s : server) : server :=
  Server (objects_ s) (location_to_handler_ s) (handler_to_prefixes_ s) (type_to_handler_ s)
    m (memes_ s).
Definition with_memes (m : list (str * list str)) (s : server) : server :=
  Server (objects_ s) (location_to_handler_ s) (handler_to_prefixes_ s) (type_to_handler_ s)
    (requests_ s) m.

#[export] Instance server_view : ServerView server := {|
  get_requests := requests_;
  get_memes := memes_;
  get_prefix_map := handler_to_prefixes_
|}.

(** ** Logs *)

Definition log_request (req_resp : str * Z) (s : server) : outcome server :=
  match map_find req_resp (requests_ s) with
  | Some n => n ← int_result (n + 1); Ret (with_requests (map_assign req_resp n (requests_ s)) s)
  | None => Ret (with_requests (map_assign req_resp 1%Z (requests_ s)) s)
  end.

Definition log_meme (img_url : str) (selections : list str) (s : server) : server :=
  match map_find img_url (memes_ s) with
  | Some _ => s
  | None => with_memes (map_assign img_url selections (memes_ s)) s
  end.

(** What a handler did to the server; a file it wrote is not part of it. *)
Definition apply_effect (s : server) (e : effect) : server :=
  match e with
  | LogMeme img_url selections => log_meme img_url selections s
  | WriteFile _ _ => s
  end.

(** ** Handlers *)

(** [m[k].push_back(v)] *)
Definition push_back_at {V} (k : str) (v : V) (m : list (str * list V)) : list (str * list V) :=
  map_assign k (default [] (map_find k m) ++ [v]) m.

Section server.
Context `{B : Beast} `{E : !Environment} `{F : BoostFilesystem} `{T : BoostString}.

(** The constructor a type names, and the call that gives the object its
    server; [None] is the branch for an unknown type. *)
Definition create_handler (type loc : str) (config : NginxConfig) : outcome (option RequestHandler) :=
  if decide (type = lit "EchoHandler") then Ret (Some EchoRequestHandler)
  else if decide (type = lit "StaticHandler") then
    root ← new_StaticFileRequestHandler config; Ret (Some (StaticFileRequestHandler loc root))
  else if decide (type = lit "ReverseProxyHandler") then
    '(host, port) ← new_ReverseProxyRequestHandler config;
    Ret (Some (ReverseProxyRequestHandler loc host port))
  else if decide (type = lit "NotFoundHandler") then Ret (Some NotFoundRequestHandler)
  else if decide (type = lit "SleepHandler") then Ret (Some SleepHandler)
  else if decide (type = lit "MemeHandler") then
    root ← new_MemeHandler config; Ret (Some (initMeme (MemeHandler false root)))
  else if decide (type = lit "StatusHandler") then Ret (Some (initStatus new_StatusRequestHandler))
  else if decide (type = lit "HealthHandler") then Ret (Some (initHealth new_HealthRequestHandler))
  else Ret None.

(** The new object is the next index. *)
Definition add_handler (type location loc : str) (handler : RequestHandler) (s : server) : server :=
  let ptr := length (objects_ s) in
  Server (objects_ s ++ [handler])
    (map_assign loc ptr (location_to_handler_ s))
    (push_back_at type location (handler_to_prefixes_ s))
    (push_back_at type ptr (type_to_handler_ s))
    (requests_ s) (memes_ s).

Definition create_and_add_handler (type location : str) (config : NginxConfig) (s : server)
  : outcome server :=
  loc ← convertToAbsolutePath location;
  handler ← create_handler type loc config;
  match handler with
  | None => Ret s
  | Some handler => Ret (add_handler type location loc handler s)
  end.

(** A statement of a server block. *)
Definition get_location (s : server) (server_statement : NginxConfigStatement) : outcome server :=
  match server_statement with
  | Statement [name; location; type] (Some location_config) =>
      if decide (name = lit "location") then
        if decide (type ∈ handler_types) then create_and_add_handler type location location_config s
        else Ret s
      else Ret s
  | _ => Ret s
  end.

Fixpoint get_locations (s : server) (server_config : NginxConfig) : outcome server :=
  match server_config with
  | [] => Ret s
  | st :: server_config => s ← get_location s st; get_locations s server_config
  end.

Fixpoint getHandlers (s : server) (config : NginxConfig) : outcome server :=
  match config with
  | [] => Ret s
  | Statement [name] (Some server_config) :: config =>
      if decide (name = lit "server") then s ← get_locations s server_config; getHandlers s config
      else getHandlers s config
  | _ :: config => getHandlers s config
  end.

(** A port is 16 bits wide: [int] to [uint_least16_t]. *)
Definition endpoint_port (port_num : Z) : Z := (port_num mod 2 ^ 16)%Z.

(** The constructor: [None] when it returns before it listens; otherwise the
    port it listens on.  [directories] is what creating the two directories
    gave: the first call throws when it fails, the second sets [ec]. [listen]
    is opening the acceptor, which throws when the port cannot be had. *)
Definition new_server (directories : outcome bool) (listen : Z -> outcome unit)
    (config : NginxConfig) : outcome (option (Z * server)) :=
  created ← directories;
  if negb created then Ret None
  else
    port_num ← getPortNumber config;
    if decide (port_num = (-1)%Z) then Ret None
    else
      _ ← listen (endpoint_port port_num);
      s ← getHandlers empty_server config;
      Ret (Some (endpoint_port port_num, s)).

(** ** Looking up *)

Fixpoint find_type (ptr : nat) (m : list (str * list nat)) : option str :=
  match m with
  | [] => None
  | (t, ptrs) :: m => if decide (ptr ∈ ptrs) then Some t else find_type ptr m
  end.

Definition get_handler_type (ptr : option nat) (s : server) : str :=
  match ptr with
  | None => "Bad"
  | Some ptr => default (lit "Unknown") (find_type ptr (type_to_handler_ s))
  end.

(** The loop over the parents of a path: [inr] is the path it ends at. *)
Fixpoint find_prefix (fuel : nat) (uri : str) (m : list (str * nat)) : outcome (nat + str) :=
  match fuel with
  | O => NoFuel
  | S fuel =>
      if has_parent_path uri then
        match map_find uri m with
        | Some handler => Ret (inl handler)
        | None => find_prefix fuel (parent_path uri) m
        end
      else Ret (inr uri)
  end.

(** Each parent is shorter. *)
Definition get_request_handler (request_uri : str) (s : server) : outcome (option nat) :=
  uri ← convertToAbsolutePath request_uri;
  found ← find_prefix (S (S (length uri))) uri (location_to_handler_ s);
  match found with
  | inl handler => Ret (Some handler)
  | inr _ => Ret (map_find [] (location_to_handler_ s))
  end.

(** ** Handling a request: the virtual call *)

Definition handle_request (handler : RequestHandler) (s : server) (req : request)
  : handled response :=
  match handler with
  | EchoRequestHandler => ([], Ret (Echo_handle_request req))
  | StaticFileRequestHandler location root => ([], Static_handle_request location root req)
  | ReverseProxyRequestHandler location host port =>
      ([], ReverseProxy_handle_request location host port req)
  | NotFoundRequestHandler => ([], Ret (NotFound_handle_request req))
  | StatusRequestHandler parent => ([], Status_handle_request (if parent then Some s else None) req)
  | HealthRequestHandler parent => ([], Health_handle_request parent req)
  | SleepHandler => ([], Sleep_handle_request req)
  | MemeHandler parent root => Meme_handle_request (if parent then Some s else None) root req
  end.

(** A call through a pointer. *)
Definition call_handler (ptr : nat) (s : server) (req : request) : server * outcome response :=
  match objects_ s !! ptr with
  | None => (s, Undef)
  | Some handler =>
      let '(effects, resp) := handle_request handler s req in
      (foldl apply_effect s effects, resp)
  end.
End server.
