(* ===== verification/ExampleServer.v ===== *)
(** * A concrete server

    A file system without links, a machine with two files and a remote host,
    and the server of a small configuration: what the theorems about the server
    are evaluated at. *)
From S2P Require Import Prelude CppStd StdMap Boost BoostModel ConfigLexer ConfigParser Utils.
From S2P Require Import Handlers Status ReverseProxy Meme Server.

(** ** A file system without links *)

Lemma join_path_app ds es : join_path (ds ++ es) = join_path ds ++ join_path es.
Proof. apply bind_app. Qed.

(** A name of more than 255 bytes cannot be asked for. *)
Definition lexical_relative (p base : str) : outcome str :=
  if existsb (fun d => 255 <? length d) (split_path p) then Throw system_error
  else if decide (base = []) then Ret []
  else match convertToAbsolutePath (F := model_filesystem) p with
       | Ret q => Ret (match drop (length base) q with [] => lit "." | _ :: r => r end)
       | _ => Ret p
       end.

Definition lexical_filesystem : BoostFilesystem := {|
  system_complete := model_system_complete;
  parent_path := model_parent_path;
  has_parent_path p := bool_decide (model_parent_path p <> []);
  extension := model_extension;
  relative := lexical_relative
|}.

#[export] Instance lexical_filesystem_laws : BoostFilesystemLaws lexical_filesystem.
Proof.
  destruct model_filesystem_laws. split; try done.
  intros p base. simpl. unfold lexical_relative. case_match; [by left|]. right.
  case_decide; [by eexists|]. case_match; by eexists.
Qed.

(** There are no links, and there is no way from the empty path. *)
Lemma lexical_below (p : str) (ds es : list str) (r : str) :
  absolute_uri p = true -> ds <> [] -> forallb clean_component (ds ++ es) = true ->
  convertToAbsolutePath (F := lexical_filesystem) p = Ret (join_path (ds ++ es)) ->
  relative (BoostFilesystem := lexical_filesystem) p (join_path ds) = Ret r -> below es r.
Proof.
  intros _ Hne Hc Hp H. simpl in H. unfold lexical_relative in H. case_match; [done|].
  rewrite decide_False in H by (by destruct ds).
  replace (convertToAbsolutePath (F := model_filesystem) p) with (Ret (join_path (ds ++ es))) in H by done.
  rewrite join_path_app, drop_app_length in H. injection H as <-.
  rewrite forallb_app in Hc. apply andb_true_iff in Hc as [_ Hes].
  pose proof (below_clean es Hes) as Hb. by destruct es.
Qed.

Lemma lexical_from_empty (p r : str) :
  absolute_uri p = true -> relative (BoostFilesystem := lexical_filesystem) p [] = Ret r -> r = [].
Proof.
  intros _. simpl. unfold lexical_relative. case_match; [done|]. rewrite decide_True by done. by intros [= <-].
Qed.

(** ** A machine *)

Definition example_environment : Environment (B := model_beast) := {|
  read_file p := if decide (p = lit "/srv/www/a.txt") then Some (lit "hello")
                 else if decide (p = lit "/srv/memes/meme_creation.html") then Some (lit "<form>")
                 else None;
  is_directory p := bool_decide (p = lit "/srv/www");
  can_create _ := true;
  perform_request _ _ _ := Ret remote_redirect;
  uuid := "0000"
|}.

#[local] Existing Instance lexical_filesystem.
#[local] Existing Instance example_environment.

(** ** A configuration and its server *)

Definition location_statement (location type : str) (fields : NginxConfig) : NginxConfigStatement :=
  Statement [lit "location"; location; type] (Some fields).

Definition server_config : NginxConfig :=
  [Statement [lit "server"] (Some
    [Statement [lit "port"; lit "80"] None;
     location_statement "/" "NotFoundHandler" [];
     location_statement "/static" "StaticHandler" [Statement [lit "root"; lit "/srv/www"] None];
     location_statement "/echo" "EchoHandler" [];
     location_statement "/proxy" "ReverseProxyHandler"
       [Statement [lit "host"; lit "h"] None; Statement [lit "port"; lit "80"] None];
     location_statement "/status" "StatusHandler" [];
     location_statement "/meme" "MemeHandler" [Statement [lit "root"; lit "/memes"] None]])].

Definition example_server : server :=
  match getHandlers empty_server server_config with Ret s => s | _ => empty_server end.

Lemma example_server_made : getHandlers empty_server server_config = Ret example_server.
Proof. vm_compute. reflexivity. Qed.

Example example_server_objects :
  objects_ example_server =
  [NotFoundRequestHandler; StaticFileRequestHandler "/static" "/srv/www/"; EchoRequestHandler;
   ReverseProxyRequestHandler "/proxy" "h" "80"; StatusRequestHandler true;
   MemeHandler true "/memes"].
Proof. vm_compute. reflexivity. Qed.

Example new_server_port : exists s, new_server (Ret true) (fun _ => Ret tt) server_config = Ret (Some (80%Z, s)).
Proof. eexists. vm_compute. reflexivity. Qed.
