(* ===== verification/ServerLookup.v ===== *)
(** * Which handler serves a request

    Dispatch against its specification: the handler of the longest location
    that is a prefix of the path. *)
From S2P Require Import Prelude CppStd StdMap Boost BoostModel ConfigLexer ConfigParser Utils.
From S2P Require Import Handlers Status ReverseProxy Meme Server ExampleServer.

(** ** The longest prefix *)

Section lookup.
Context `{FL : BoostFilesystemLaws}.

(** The reference: from the whole path up to the root. *)
Fixpoint longest_prefix (n : nat) (ds : list str) (m : list (str * nat)) : option nat :=
  match map_find (join_path (take n ds)) m with
  | Some h => Some h
  | None => match n with O => None | S n => longest_prefix n ds m end
  end.

Lemma join_path_snoc ds d : join_path (ds ++ [d]) = join_path ds ++ SLASH :: d.
Proof. unfold join_path. rewrite bind_app. simpl. by rewrite app_nil_r. Qed.

Lemma length_join_path ds : length ds <= length (join_path ds).
Proof.
  induction ds as [|d ds IH]; [simpl; lia|].
  change (join_path (d :: ds)) with (SLASH :: d ++ join_path ds). simpl. rewrite length_app. lia.
Qed.

Lemma has_parent_join ds :
  forallb clean_component ds = true -> has_parent_path (join_path ds) = bool_decide (ds <> []).
Proof.
  intros Hds. rewrite has_parent_path_spec.
  destruct (snoc_inv ds) as [->|(l & d & ->)].
  - by rewrite parent_path_empty.
  - apply bool_decide_ext. split; [by destruct l|]. intros _.
    destruct l as [|e l].
    + simpl in Hds. rewrite andb_true_r in Hds.
      change (join_path ([] ++ [d])) with (join_path [d]). by rewrite parent_path_top.
    + rewrite parent_path_step by done. done.
Qed.

Lemma has_parent_root : has_parent_path [SLASH] = false.
Proof. rewrite has_parent_path_spec, parent_path_root. done. Qed.

Lemma find_prefix_longest fuel ds m :
  forallb clean_component ds = true -> S (length ds) < fuel ->
  exists found, find_prefix fuel (join_path ds) m = Ret found /\
    match found with inl h => Some h | inr _ => map_find [] m end
    = longest_prefix (length ds) ds m.
Proof.
  revert fuel. induction ds as [|d ds IH] using rev_ind; intros fuel Hds Hf.
  { destruct fuel; [lia|]. cbn [find_prefix]. rewrite has_parent_join by done. simpl.
    eexists. split; [done|]. by destruct (map_find [] m). }
  destruct fuel as [|fuel]; [lia|]. cbn [find_prefix]. rewrite has_parent_join by done.
  rewrite bool_decide_true by by destruct ds. rewrite length_app, Nat.add_1_r in *.
  cbn [longest_prefix]. rewrite take_ge by (rewrite length_app; simpl; lia).
  destruct (map_find (join_path (ds ++ [d])) m) as [h|]; [by eexists|].
  pose proof Hds as Hds'. rewrite forallb_app in Hds'. apply andb_true_iff in Hds' as [Hds' Hd].
  simpl in Hd. rewrite andb_true_r in Hd.
  assert (longest_prefix (length ds) (ds ++ [d]) m = longest_prefix (length ds) ds m) as ->.
  { clear -ds. assert (forall n, n <= length ds ->
      longest_prefix n (ds ++ [d]) m = longest_prefix n ds m) as H; [|by apply H].
    induction n as [|n IHn]; intros Hn; simpl; [done|].
    rewrite take_app_le by done. rewrite IHn by lia. done. }
  destruct ds as [|e ds'].
  - destruct fuel as [|fuel]; [simpl in *; lia|].
    change (join_path ([] ++ [d])) with (join_path [d]).
    rewrite (parent_path_top d Hd). cbn [find_prefix]. rewrite has_parent_root.
    eexists. split; [done|]. simpl. by destruct (map_find [] m).
  - rewrite parent_path_step by done. apply IH; [done|lia].
Qed.

Lemma longest_prefix_Some n ds m h :
  longest_prefix n ds m = Some h <->
  exists k, k <= n /\ map_find (join_path (take k ds)) m = Some h /\
    forall j, k < j <= n -> map_find (join_path (take j ds)) m = None.
Proof.
  induction n as [|n IH]; cbn [longest_prefix].
  - destruct (map_find (join_path (take 0 ds)) m) as [h'|] eqn:E.
    + split; [intros [= <-]; exists 0; split; [lia|]; split; [done|lia]|].
      intros (k & Hk & Hf & _). replace k with 0 in Hf by lia. congruence.
    + split; [done|]. intros (k & Hk & Hf & _). replace k with 0 in Hf by lia. congruence.
  - destruct (map_find (join_path (take (S n) ds)) m) as [h'|] eqn:E.
    + split; [intros [= <-]; exists (S n); split; [lia|]; split; [done|lia]|].
      intros (k & Hk & Hf & Hn). destruct (decide (k = S n)) as [->|]; [congruence|].
      rewrite Hn in E by lia. done.
    + rewrite IH. split; intros (k & Hk & Hf & Hn); exists k.
      * split; [lia|]. split; [done|]. intros j Hj.
        destruct (decide (j = S n)) as [->|]; [done|]. apply Hn. lia.
      * destruct (decide (k = S n)) as [->|]; [congruence|].
        split; [lia|]. split; [done|]. intros j Hj. apply Hn. lia.
Qed.

Lemma longest_prefix_None n ds m :
  longest_prefix n ds m = None <-> forall j, j <= n -> map_find (join_path (take j ds)) m = None.
Proof.
  induction n as [|n IH]; cbn [longest_prefix].
  - split; [|intros H; by rewrite H by lia]. intros H j Hj. replace j with 0 by lia.
    by destruct (map_find (join_path (take 0 ds)) m).
  - destruct (map_find (join_path (take (S n) ds)) m) eqn:E.
    + split; [done|]. intros H. by rewrite H in E by lia.
    + rewrite IH. split; [|auto]. intros H j Hj. destruct (decide (j = S n)) as [->|]; [done|].
      apply H. lia.
Qed.

Lemma get_request_handler_longest uri s q :
  convertToAbsolutePath uri = Ret q ->
  exists ds, q = join_path ds /\ forallb clean_component ds = true /\
    get_request_handler uri s = Ret (longest_prefix (length ds) ds (location_to_handler_ s)).
Proof.
  intros Hc. destruct (convert_normal _ _ Hc) as (ds & -> & Hds). exists ds. split; [done|].
  split; [done|]. unfold get_request_handler. rewrite Hc, bind_Ret.
  destruct (find_prefix_longest (S (S (length (join_path ds)))) ds (location_to_handler_ s) Hds)
    as (found & -> & Hf); [pose proof (length_join_path ds); lia|].
  rewrite bind_Ret, <-Hf. by destruct found.
Qed.

(** C6: longest match.  The handler found for a URI is the one of the longest
    location that is a prefix, by whole components, of the URI's path; when
    there is none, not even the root, there is no handler.  The search always
    ends. *)
Theorem get_request_handler_spec (uri q : str) (s : server) :
  convertToAbsolutePath uri = Ret q ->
  exists ds result, q = join_path ds /\ get_request_handler uri s = Ret result /\
    match result with
    | Some h => exists k, k <= length ds
        /\ map_find (join_path (take k ds)) (location_to_handler_ s) = Some h
        /\ forall j, k < j <= length ds ->
             map_find (join_path (take j ds)) (location_to_handler_ s) = None
    | None => forall j, j <= length ds ->
             map_find (join_path (take j ds)) (location_to_handler_ s) = None
    end.
Proof.
  intros Hc. destruct (get_request_handler_longest uri s q Hc) as (ds & -> & _ & Hg).
  exists ds, (longest_prefix (length ds) ds (location_to_handler_ s)). split; [done|].
  split; [done|]. destruct (longest_prefix _ _ _) as [h|] eqn:El.
  - by apply longest_prefix_Some.
  - by apply longest_prefix_None.
Qed.
End lookup.

(** ** Witness *)

#[local] Existing Instance lexical_filesystem.

Lemma get_request_handler_spec_witness :
  exists ds result, lit "/static/a.txt" = join_path ds /\
    get_request_handler "/static/x/../a.txt" example_server = Ret result /\
    match result with
    | Some h => exists k, k <= length ds
        /\ map_find (join_path (take k ds)) (location_to_handler_ example_server) = Some h
        /\ forall j, k < j <= length ds ->
             map_find (join_path (take j ds)) (location_to_handler_ example_server) = None
    | None => forall j, j <= length ds ->
             map_find (join_path (take j ds)) (location_to_handler_ example_server) = None
    end.
Proof.
  apply (get_request_handler_spec "/static/x/../a.txt" "/static/a.txt" example_server).
  vm_compute. reflexivity.
Defined.

Example static_is_dispatched : get_request_handler "/static/x/../a.txt" example_server = Ret (Some 1).
Proof. vm_compute. reflexivity. Qed.

Example root_is_the_default : get_request_handler "/elsewhere" example_server = Ret (Some 0).
Proof. vm_compute. reflexivity. Qed.
