(* ===== verification/ServerState.v ===== *)
(** * The invariant of the server's maps

    The maps, the objects they point to and the logs stay consistent; what the
    configuration registers; the type of a handler; the counts of the
    requests. *)
From S2P Require Import Prelude CppStd StdMap Boost BoostModel ConfigLexer ConfigParser Utils.
From S2P Require Import Handlers Status ReverseProxy Meme Server ExampleServer ServerLookup.

(** ** The invariant *)

(** The name of a class in a configuration. *)
Definition type_name (h : RequestHandler) : str :=
  match h with
  | EchoRequestHandler => "EchoHandler"
  | StaticFileRequestHandler _ _ => "StaticHandler"
  | ReverseProxyRequestHandler _ _ _ => "ReverseProxyHandler"
  | NotFoundRequestHandler => "NotFoundHandler"
  | StatusRequestHandler _ => "StatusHandler"
  | HealthRequestHandler _ => "HealthHandler"
  | SleepHandler => "SleepHandler"
  | MemeHandler _ _ => "MemeHandler"
  end.

(** The object was built for this location, and knows its server. *)
Definition built_for (loc : str) (h : RequestHandler) : Prop :=
  match h with
  | StaticFileRequestHandler location _ => location = loc
  | ReverseProxyRequestHandler location _ _ => location = loc
  | StatusRequestHandler parent | HealthRequestHandler parent | MemeHandler parent _ => parent = true
  | _ => True
  end.

Definition normal_path (q : str) : Prop :=
  exists ds, q = join_path ds /\ forallb clean_component ds = true.

Record server_inv (s : server) : Prop := {
  inv_locations : map_sorted (location_to_handler_ s);
  inv_types : map_sorted (type_to_handler_ s);
  inv_prefixes : map_sorted (handler_to_prefixes_ s);
  inv_requests : map_sorted (requests_ s);
  inv_memes : map_sorted (memes_ s);
  inv_target loc p :
    map_find loc (location_to_handler_ s) = Some p ->
    normal_path loc /\ exists h, objects_ s !! p = Some h /\ built_for loc h;
  inv_typed t ps p :
    map_find t (type_to_handler_ s) = Some ps -> p ∈ ps ->
    exists h, objects_ s !! p = Some h /\ type_name h = t;
  inv_listed p h :
    objects_ s !! p = Some h ->
    exists ps, map_find (type_name h) (type_to_handler_ s) = Some ps /\ p ∈ ps
}.

Lemma server_inv_empty : server_inv empty_server.
Proof. by split. Qed.

Lemma push_back_at_sorted {V} k (v : V) m : map_sorted m -> map_sorted (push_back_at k v m).
Proof. apply map_assign_sorted. Qed.

Lemma map_find_push_back_at {V} k k' (v : V) m :
  map_sorted m ->
  map_find k' (push_back_at k v m) =
  if decide (k = k') then Some (default [] (map_find k m) ++ [v]) else map_find k' m.
Proof. intros Hm. unfold push_back_at. by rewrite map_find_assign. Qed.

Lemma lookup_snoc_inv {A} (l : list A) x p y :
  (l ++ [x]) !! p = Some y -> l !! p = Some y \/ (p = length l /\ y = x).
Proof.
  intros [H|[Hl H]]%lookup_app_Some; [by left|right].
  apply list_lookup_singleton_Some in H as [? <-]. split; [lia|done].
Qed.

Lemma lookup_snoc_old {A} (l : list A) x p y : l !! p = Some y -> (l ++ [x]) !! p = Some y.
Proof. apply lookup_app_l_Some. Qed.

Lemma add_handler_inv type location loc h s :
  server_inv s -> type = type_name h -> built_for loc h -> normal_path loc ->
  server_inv (add_handler type location loc h s).
Proof.
  intros Hs -> Hb Hn. destruct Hs as [H1 H2 H3 H4 H5 H6 H7 H8]. unfold add_handler.
  split; simpl; try done; try (by apply map_assign_sorted); try (by apply push_back_at_sorted).
  - intros loc' p. rewrite map_find_assign by done. case_decide as E.
    + intros [= <-]. subst. split; [done|]. exists h. by rewrite list_lookup_middle.
    + intros Hp. destruct (H6 loc' p Hp) as (? & h' & Hh & ?). split; [done|].
      exists h'. split; [by apply lookup_snoc_old|done].
  - intros t ps p. rewrite map_find_push_back_at by done. case_decide as E.
    + intros [= <-] [Hp|Hp]%elem_of_app.
      * subst. destruct (map_find (type_name h) (type_to_handler_ s)) as [ps|] eqn:Eps;
          [|by apply elem_of_nil in Hp].
        destruct (H7 _ _ p Eps Hp) as (h' & Hh & ?). exists h'. split; [by apply lookup_snoc_old|done].
      * apply list_elem_of_singleton in Hp as ->. exists h. by rewrite list_lookup_middle.
    + intros Hps Hp. destruct (H7 _ _ _ Hps Hp) as (h' & Hh & ?). exists h'.
      split; [by apply lookup_snoc_old|done].
  - intros p h' [Hp|[-> ->]]%lookup_snoc_inv; rewrite map_find_push_back_at by done.
    + destruct (H8 p h' Hp) as (ps & Hps & Hin). case_decide as E; [|by eauto].
      rewrite <-E in Hps. rewrite Hps. simpl. eexists. split; [done|]. apply elem_of_app. by left.
    + rewrite decide_True by done. eexists. split; [done|]. apply elem_of_app. right. by left.
Qed.

Section state.
Context `{B : Beast} `{E : !Environment} `{F : BoostFilesystem} `{T : BoostString}.

Lemma create_handler_type type loc config h :
  create_handler type loc config = Ret (Some h) -> type = type_name h /\ built_for loc h.
Proof.
  unfold create_handler. intros H.
  repeat (case_decide; [subst; inv_ret; repeat case_match; inv_ret; simplify_eq; done|]).
  done.
Qed.

(** A type of the list is never refused. *)
Lemma create_handler_known type loc config o :
  type ∈ handler_types -> create_handler type loc config = Ret o -> exists h, o = Some h.
Proof.
  unfold create_handler. intros Ht H.
  repeat (case_decide; [subst; inv_ret; repeat case_match; inv_ret; simplify_eq; by eexists|]).
  exfalso. unfold handler_types in Ht. repeat (apply elem_of_cons in Ht as [Ht|Ht]; [done|]).
  by apply elem_of_nil in Ht.
Qed.

Lemma create_and_add_handler_inv type location config s s' :
  server_inv s -> create_and_add_handler type location config s = Ret s' -> server_inv s'.
Proof.
  intros Hs H. unfold create_and_add_handler in H. inv_ret. destruct v0 as [h|]; inv_ret; [|done].
  apply create_handler_type in Hv0 as [-> Hb]. apply add_handler_inv; try done.
  by apply convert_normal in Hv.
Qed.

(** ** What the configuration registers *)

(** A block that is looked at. *)
Definition location_block (st : NginxConfigStatement) : option (str * str * NginxConfig) :=
  match st with
  | Statement [name; location; type] (Some config) =>
      if decide (name = lit "location") then
        if decide (type ∈ handler_types) then Some (type, location, config) else None
      else None
  | _ => None
  end.

Definition location_blocks (config : NginxConfig) : list (str * str * NginxConfig) :=
  config ≫= fun st =>
    match st with
    | Statement [name] (Some server_config) =>
        if decide (name = lit "server") then omap location_block server_config else []
    | _ => []
    end.

Fixpoint register (s : server) (blocks : list (str * str * NginxConfig)) : outcome server :=
  match blocks with
  | [] => Ret s
  | (type, location, config) :: blocks =>
      s ← create_and_add_handler type location config s; register s blocks
  end.

Lemma register_app s b1 b2 : register s (b1 ++ b2) = s ← register s b1; register s b2.
Proof.
  revert s. induction b1 as [|[[t l] c] b1 IH]; intros s; [done|]. simpl.
  destruct (create_and_add_handler t l c s); simpl; auto.
Qed.

Lemma get_location_register s st :
  get_location s st = match location_block st with
                      | Some (type, location, config) => create_and_add_handler type location config s
                      | None => Ret s
                      end.
Proof. unfold get_location, location_block. by repeat case_match. Qed.

Lemma get_locations_register s config :
  get_locations s config = register s (omap location_block config).
Proof.
  revert s. induction config as [|st config IH]; intros s; [done|]. cbn [get_locations].
  rewrite get_location_register. simpl. destruct (location_block st) as [[[t l] c]|]; simpl.
  - by destruct (create_and_add_handler t l c s); simpl.
  - apply IH.
Qed.

Lemma getHandlers_register s config : getHandlers s config = register s (location_blocks config).
Proof.
  revert s. induction config as [|st config IH]; intros s; [done|].
  unfold location_blocks. rewrite bind_cons. fold (location_blocks config).
  rewrite register_app. destruct st as [[|name [|]] [server_config|]]; simpl; auto.
  case_decide; simpl; [|auto]. rewrite get_locations_register.
  destruct (register s _); simpl; auto.
Qed.

Lemma register_inv s blocks s' : server_inv s -> register s blocks = Ret s' -> server_inv s'.
Proof.
  revert s. induction blocks as [|[[t l] c] blocks IH]; intros s Hs H; simpl in H; [by inv_ret|].
  inv_ret. eapply IH; [|done]. by eapply create_and_add_handler_inv.
Qed.

(** The objects are the blocks', in order; of several blocks for one location
    the last is found. *)
Definition registered (b : str * str * NginxConfig) (loc : str) (h : RequestHandler) : Prop :=
  convertToAbsolutePath b.1.2 = Ret loc /\ create_handler b.1.1 loc b.2 = Ret (Some h).

Record registry (blocks : list (str * str * NginxConfig)) (locs : list str) (s : server) : Prop := {
  reg_objects : Forall3 registered blocks locs (objects_ s);
  reg_locations loc p :
    map_find loc (location_to_handler_ s) = Some p <->
    locs !! p = Some loc /\ forall p', p < p' -> locs !! p' <> Some loc;
  reg_prefixes t :
    default [] (map_find t (handler_to_prefixes_ s)) =
    omap (fun b => if decide (b.1.1 = t) then Some b.1.2 else None) blocks
}.

Lemma registry_empty : registry [] [] empty_server.
Proof. split; [constructor| |done]. intros loc p. simpl. split; [done|by intros [? _]]. Qed.

Lemma registry_add blocks locs s b loc h :
  server_inv s -> registry blocks locs s -> registered b loc h ->
  registry (blocks ++ [b]) (locs ++ [loc]) (add_handler b.1.1 b.1.2 loc h s).
Proof.
  intros Hs [H1 H2 H3] Hb. pose proof (inv_locations s Hs). pose proof (inv_prefixes s Hs).
  assert (length locs = length (objects_ s)) as Hlen
    by (apply Forall3_length_lm in H1 as H1'; apply Forall3_length_lr in H1; congruence).
  split; unfold add_handler; simpl.
  - apply Forall3_app; [done|]. apply Forall3_cons; [done|]. apply Forall3_nil.
  - intros loc' p. rewrite map_find_assign by done. case_decide as Ek.
    + subst loc'. rewrite <-Hlen. split.
      * intros [= <-]. split; [by rewrite list_lookup_middle|]. intros p' Hp' Hl.
        apply lookup_lt_Some in Hl. rewrite length_app in Hl. simpl in Hl. lia.
      * intros [Hp Hlast]. apply lookup_snoc_inv in Hp as [Hp|[-> _]]; [|done].
        exfalso. apply (Hlast (length locs)); [by eapply lookup_lt_Some|].
        by rewrite list_lookup_middle.
    + rewrite H2. split; intros [Hp Hlast]; (split; [|intros p' Hp' Hl]).
      * by apply lookup_snoc_old.
      * apply lookup_snoc_inv in Hl as [Hl|[_ ?]]; [by apply (Hlast p')|done].
      * apply lookup_snoc_inv in Hp as [Hp|[_ ?]]; done.
      * apply (Hlast p' Hp'). by apply lookup_snoc_old.
  - intros t. rewrite map_find_push_back_at, omap_app by done. simpl.
    case_decide as Ek; [subst t; simpl; by rewrite H3|]. rewrite app_nil_r. apply H3.
Qed.

Lemma register_registry blocks0 locs0 s blocks s' :
  server_inv s -> registry blocks0 locs0 s ->
  Forall (fun b => b.1.1 ∈ handler_types) blocks -> register s blocks = Ret s' ->
  exists locs, registry (blocks0 ++ blocks) (locs0 ++ locs) s'.
Proof.
  revert blocks0 locs0 s. induction blocks as [|[[t l] c] blocks IH]; intros blocks0 locs0 s Hs Hr Ht H.
  { simpl in H. inv_ret. exists []. by rewrite !app_nil_r. }
  apply Forall_cons in Ht as [Ht Hts]. simpl in Ht.
  cbn [register] in H. apply bind_ret_inv in H as (s1 & Hs1 & H).
  pose proof (create_and_add_handler_inv _ _ _ _ _ Hs Hs1) as Hi.
  unfold create_and_add_handler in Hs1. apply bind_ret_inv in Hs1 as (loc & Hloc & Hs1).
  apply bind_ret_inv in Hs1 as (o & Ho & Hs1).
  destruct (create_handler_known _ _ _ _ Ht Ho) as [h ->]. inv_ret.
  destruct (IH (blocks0 ++ [(t, l, c)]) (locs0 ++ [loc]) (add_handler t l loc h s))
    as [locs Hlocs]; try done.
  { by apply (registry_add blocks0 locs0 s (t, l, c) loc h). }
  exists (loc :: locs). by rewrite <-!app_assoc in Hlocs.
Qed.

Lemma location_blocks_known config : Forall (fun b => b.1.1 ∈ handler_types) (location_blocks config).
Proof.
  apply Forall_forall. intros b Hb. unfold location_blocks in Hb.
  apply list_elem_of_bind in Hb as (st & Hb & _). repeat case_match; try by apply elem_of_nil in Hb.
  apply list_elem_of_omap in Hb as (st' & _ & Hst). unfold location_block in Hst.
  by repeat case_match; simplify_eq.
Qed.

Lemma getHandlers_inv s config s' : server_inv s -> getHandlers s config = Ret s' -> server_inv s'.
Proof. rewrite getHandlers_register. apply register_inv. Qed.

(** C11: what the server holds after reading its configuration.  There is one
    object for every location block of a server block whose type is known, in
    order; a location leads to the last block that names it, and every type
    lists the locations of its blocks. *)
Theorem getHandlers_registers (config : NginxConfig) (s : server) :
  getHandlers empty_server config = Ret s ->
  exists locs, registry (location_blocks config) locs s.
Proof.
  rewrite getHandlers_register.
  apply (register_registry [] [] empty_server);
    [apply server_inv_empty|apply registry_empty|apply location_blocks_known].
Qed.

End state.

(** ** The type of a handler *)

Lemma find_type_Some ptr m t : find_type ptr m = Some t -> exists ps, (t, ps) ∈ m /\ ptr ∈ ps.
Proof.
  induction m as [|[t' ps] m IH]; simpl; [done|]. case_decide.
  - intros [= ->]. exists ps. split; [left|done].
  - intros H'. destruct (IH H') as (ps' & ? & ?). exists ps'. split; [by right|done].
Qed.

Lemma find_type_None ptr m t ps : find_type ptr m = None -> (t, ps) ∈ m -> ptr ∉ ps.
Proof.
  induction m as [|[t' ps'] m IH]; simpl; [by intros _ ?%elem_of_nil|]. case_decide; [done|].
  intros Hn [[= -> ->]|Hin]%elem_of_cons; [done|by apply IH].
Qed.

(** C40: the metric names every handler by its type.  In a server that satisfies the
    invariant, [get_handler_type] of a pointer to an object is the name of the
    object's class, [Bad] only for the null pointer, and [Unknown] only for a
    pointer to no object. *)
Theorem get_handler_type_spec (s : server) (p : option nat) :
  server_inv s ->
  get_handler_type p s =
  match p with
  | None => lit "Bad"
  | Some p => match objects_ s !! p with Some h => type_name h | None => lit "Unknown" end
  end.
Proof.
  intros Hs. destruct p as [p|]; [|done]. simpl.
  destruct (find_type p (type_to_handler_ s)) as [t|] eqn:Ef.
  - apply find_type_Some in Ef as (ps & Hin & Hp).
    apply map_find_sorted in Hin; [|apply Hs].
    destruct (inv_typed s Hs _ _ _ Hin Hp) as (h & -> & <-). done.
  - destruct (objects_ s !! p) as [h|] eqn:Eh; [|done].
    destruct (inv_listed s Hs _ _ Eh) as (ps & Hps & Hin). exfalso.
    by eapply find_type_None; [..|exact Hin]; [|by apply map_find_Some_elem].
Qed.

(** ** The logs *)

Fixpoint log_requests (l : list (str * Z)) (s : server) : outcome server :=
  match l with
  | [] => Ret s
  | r :: l => s ← log_request r s; log_requests l s
  end.

Definition count (k : str * Z) (s : server) : Z := default 0%Z (map_find k (requests_ s)).

Definition occurrences (k : str * Z) (l : list (str * Z)) : Z :=
  Z.of_nat (length (base.filter (fun k' => k' = k) l)).

Lemma log_request_ok k s :
  map_sorted (requests_ s) -> (0 <= count k s < INT_MAX)%Z ->
  exists s', log_request k s = Ret s' /\ map_sorted (requests_ s') /\
    (forall k', count k' s' = count k' s + if decide (k = k') then 1 else 0)%Z /\
    memes_ s' = memes_ s /\ objects_ s' = objects_ s.
Proof.
  intros Hm Hc. unfold log_request, count in *.
  destruct (map_find k (requests_ s)) as [n|] eqn:En; simpl in Hc.
  - unfold int_result. rewrite in_int_true by (unfold INT_MIN; lia). simpl.
    eexists. split; [done|]. simpl. split; [by apply map_assign_sorted|]. split; [|done].
    intros k'. rewrite map_find_assign by done. case_decide; [subst; rewrite En; simpl; lia|lia].
  - eexists. split; [done|]. simpl. split; [by apply map_assign_sorted|]. split; [|done].
    intros k'. rewrite map_find_assign by done. case_decide; [subst; rewrite En; simpl; lia|lia].
Qed.

Lemma occurrences_cons k k' l :
  occurrences k (k' :: l) = ((if decide (k' = k) then 1 else 0) + occurrences k l)%Z.
Proof. unfold occurrences. rewrite filter_cons. case_decide; simpl; lia. Qed.

(** The log counts.  As long as no count reaches the largest [int], logging
    requests in sequence adds to every pair of URL and status the number of times
    it occurs among them, and changes no meme. *)
Theorem log_requests_counts (l : list (str * Z)) (s : server) :
  map_sorted (requests_ s) ->
  (forall k, 0 <= count k s /\ count k s + Z.of_nat (length l) <= INT_MAX)%Z ->
  exists s', log_requests l s = Ret s' /\ memes_ s' = memes_ s /\
    forall k, (count k s' = count k s + occurrences k l)%Z.
Proof.
  revert s. induction l as [|k l IH]; intros s Hm Hb.
  { exists s. split; [done|]. split; [done|]. intros k. unfold occurrences. simpl. lia. }
  cbn [log_requests]. simpl length in Hb.
  destruct (log_request_ok k s Hm) as (s1 & -> & Hm1 & Hc & Hme & _); [specialize (Hb k); lia|].
  rewrite bind_Ret. destruct (IH s1 Hm1) as (s' & -> & Hme' & Hc').
  { intros k'. rewrite Hc. specialize (Hb k'). case_decide; lia. }
  exists s'. split; [done|]. split; [congruence|]. intros k'. rewrite Hc', Hc, occurrences_cons.
  case_decide; lia.
Qed.

(** The log of memes keeps the first entry of a URL. *)
Lemma log_meme_first_wins (url url' : str) (selections : list str) (s : server) :
  map_sorted (memes_ s) ->
  map_find url' (memes_ (log_meme url selections s)) =
  match map_find url' (memes_ s) with
  | Some v => Some v
  | None => if decide (url = url') then Some selections else None
  end.
Proof.
  intros Hm. unfold log_meme. destruct (map_find url (memes_ s)) as [v|] eqn:Ev; simpl.
  - case_match eqn:E'; [done|]. case_decide; congruence.
  - rewrite map_find_assign by done. case_decide; [subst; by rewrite Ev|]. by case_match.
Qed.

(** ** What is kept *)

Section kept.
Context `{B : Beast} `{E : !Environment} `{F : BoostFilesystem} `{T : BoostString}.

(** What answering and logging do to the server: the objects and the maps of
    handlers never change. *)
Definition same_handlers (s s' : server) : Prop :=
  objects_ s' = objects_ s /\ location_to_handler_ s' = location_to_handler_ s /\
  type_to_handler_ s' = type_to_handler_ s /\ handler_to_prefixes_ s' = handler_to_prefixes_ s.

Lemma same_handlers_trans s1 s2 s3 : same_handlers s1 s2 -> same_handlers s2 s3 -> same_handlers s1 s3.
Proof. intros (?&?&?&?) (?&?&?&?). repeat split; congruence. Qed.

Definition keeps (s s' : server) : Prop := same_handlers s s' /\ (server_inv s -> server_inv s').

Lemma keeps_refl s : keeps s s.
Proof. by split. Qed.

Lemma keeps_trans s1 s2 s3 : keeps s1 s2 -> keeps s2 s3 -> keeps s1 s3.
Proof. intros [H1 H2] [H3 H4]. split; [by eapply same_handlers_trans|auto]. Qed.

(** Only the locations matter to the dispatch. *)
Lemma get_request_handler_kept uri s s' :
  keeps s s' -> get_request_handler uri s' = get_request_handler uri s.
Proof. intros [(_ & Hl & _) _]. unfold get_request_handler. by rewrite Hl. Qed.

Lemma keeps_log_request k s s' : log_request k s = Ret s' -> keeps s s'.
Proof.
  unfold log_request. intros H. destruct (map_find k (requests_ s)) as [n|] eqn:En; inv_ret;
    (split; [done|]); intros []; split; simpl; try done; by apply map_assign_sorted.
Qed.

Lemma keeps_log_meme u l s : keeps s (log_meme u l s).
Proof.
  unfold log_meme. destruct (map_find u (memes_ s)); [apply keeps_refl|].
  split; [done|]. intros []; split; simpl; try done. by apply map_assign_sorted.
Qed.

Lemma keeps_effects es s : keeps s (foldl apply_effect s es).
Proof.
  revert s. induction es as [|e es IH]; intros s; [apply keeps_refl|]. simpl.
  eapply keeps_trans; [|apply IH]. destruct e; [apply keeps_log_meme|apply keeps_refl].
Qed.

Lemma keeps_call_handler ptr s r s1 o : call_handler ptr s r = (s1, o) -> keeps s s1.
Proof.
  unfold call_handler. destruct (objects_ s !! ptr) as [h|]; [|intros [= <- _]; apply keeps_refl].
  destruct (handle_request h s r) as [es o']. intros [= <- _]. apply keeps_effects.
Qed.
End kept.

(** ** Witnesses *)

#[local] Existing Instance lexical_filesystem.
#[local] Existing Instance example_environment.

Lemma getHandlers_registers_witness :
  exists locs, registry (location_blocks server_config) locs example_server.
Proof. apply getHandlers_registers. vm_compute. reflexivity. Defined.

Lemma example_server_inv : server_inv example_server.
Proof. eapply getHandlers_inv; [apply server_inv_empty|apply example_server_made]. Qed.

Lemma get_handler_type_spec_witness :
  get_handler_type (Some 1) example_server =
  match objects_ example_server !! 1 with Some h => type_name h | None => lit "Unknown" end.
Proof. apply (get_handler_type_spec example_server (Some 1)), example_server_inv. Defined.

Lemma log_requests_counts_witness :
  exists s', log_requests [(lit "/a", 200%Z); (lit "/b", 404%Z); (lit "/a", 200%Z)] example_server = Ret s' /\
    memes_ s' = memes_ example_server /\
    forall k, (count k s' = count k example_server
      + occurrences k [(lit "/a", 200%Z); (lit "/b", 404%Z); (lit "/a", 200%Z)])%Z.
Proof.
  apply log_requests_counts; [exact I|]. intros k.
  assert (count k example_server = 0%Z) as -> by reflexivity. unfold INT_MAX. simpl. lia.
Defined.
