(* ===== verification/ServerSafety.v ===== *)
(** * What a request can reach, and what every response is

    A static handler opens nothing outside its root; every handler's response
    announces the length it has, or is one without a body that the proxy passes on. *)
From S2P Require Import Prelude CppStd StdMap Boost BoostModel ConfigLexer ConfigParser Utils.
From S2P Require Import Handlers Status ReverseProxy Meme MemeForm MemeStore Server ExampleServer.
From S2P Require Import ServerLookup ServerState.

(** ** Paths *)

(** Two ways to write a clean path are the same. *)
Lemma join_path_inj ds es :
  forallb clean_component ds = true -> forallb clean_component es = true ->
  join_path ds = join_path es -> ds = es.
Proof.
  intros Hd He H. apply (f_equal split_path) in H. rewrite !split_path_join in H by done.
  destruct ds, es; by simplify_eq.
Qed.

Section confined.
Context `{B : Beast} `{E : !Environment} `{FL : BoostFilesystemLaws}.

(** [boost::filesystem::relative] where no name on the way is a symbolic
    link, on a path from the root: when it returns, it names the components that
    come after those of the base. *)
Hypothesis relative_below : forall p ds es r,
  absolute_uri p = true -> ds <> [] -> forallb clean_component (ds ++ es) = true ->
  convertToAbsolutePath p = Ret (join_path (ds ++ es)) ->
  relative p (join_path ds) = Ret r -> below es r.

(** The empty path is not absolute, and has nothing in common with a path from
    the root. *)
Hypothesis relative_from_empty : forall p r,
  absolute_uri p = true -> relative p [] = Ret r -> r = [].

(** C7: a static handler is confined to its root.  When no name on the way is a
    symbolic link, then for a URI that begins with one slash and was dispatched to
    it, however many [/../] it has, the handler throws or opens a path that is its
    root followed by the components of the URI's path that come after its
    location, none of which is [..].  For the location [/] it always opens the
    root itself: that location is kept as the empty path, from which
    [boost::filesystem::relative] leads nowhere. *)
Theorem static_handler_confined (s : server) (uri : str) (p : nat) (location root : str) :
  server_inv s -> absolute_uri uri = true -> get_request_handler uri s = Ret (Some p) ->
  objects_ s !! p = Some (StaticFileRequestHandler location root) ->
  exists ds es, location = join_path ds /\ forallb clean_component es = true /\
    convertToAbsolutePath uri = Ret (join_path (ds ++ es)) /\
    match parse_path_from_uri location root uri with
    | Ret path => exists r, path = root ++ r /\ (lit ".." ∉ split_path r) /\
        match ds with [] => r = [] | _ => below es r end
    | Throw e => e = system_error
    | _ => False
    end.
Proof.
  intros Hs Ha Hg Ho. pose proof Hg as Hg'. unfold get_request_handler in Hg'. inv_ret. clear Hg' Hv0 v0.
  destruct (get_request_handler_longest uri s v Hv) as (ds & -> & Hds & Hg2).
  rewrite Hg in Hg2. injection Hg2 as Hl. symmetry in Hl. apply longest_prefix_Some in Hl as (k & Hk & Hf & _).
  destruct (inv_target s Hs _ _ Hf) as (_ & h & Hh & Hb). rewrite Ho in Hh. injection Hh as <-.
  simpl in Hb. subst location.
  exists (take k ds), (drop k ds). rewrite take_drop. split; [done|].
  assert (forallb clean_component (drop k ds) = true) as Hd.
  { rewrite <-(take_drop k ds), forallb_app in Hds. by apply andb_true_iff in Hds as [_ ?]. }
  split; [done|]. split; [done|]. unfold parse_path_from_uri.
  destruct (relative_outcome uri (join_path (take k ds))) as [->|[r Hr]]; [done|]. rewrite Hr, bind_Ret.
  exists r. split; [done|]. destruct (take k ds) as [|d ds'] eqn:Et.
  - apply relative_from_empty in Hr as ->; [|done]. split; [by intros ?%elem_of_nil|done].
  - rewrite <-Et in Hr.
    assert (below (drop k ds) r) as Hb.
    { apply (relative_below uri (take k ds)); [done|by rewrite Et|by rewrite take_drop..|done]. }
    split; [|done]. by apply (below_no_ups (drop k ds)).
Qed.
End confined.

(** ** Lengths *)

Create HintDb sized.

Definition sized `{B : Beast} (o : outcome response) : Prop := forall r, o = Ret r -> well_sized r.

Section sizes.
Context `{BL : BeastLaws} `{E : !Environment} `{F : BoostFilesystem} `{T : BoostString}.

Lemma sized_response r status content_type body :
  is_response r status content_type body -> sized (Ret r).
Proof. intros (_ & _ & H & _) r' [= <-]. done. Qed.

Lemma sized_error status message : (0 <= status <= 999)%Z -> sized (Ret (show_error_page status message)).
Proof. intros. by eapply sized_response, show_error_page_ok. Qed.

Lemma sized_text content_type content :
  field_value_ok content_type = true -> sized (Ret (text_response content_type content)).
Proof. intros. by eapply sized_response, text_response_ok. Qed.

Lemma sized_page content : sized (page_response content).
Proof. destruct (page_response_ok content) as (r & -> & Hr). by eapply sized_response. Qed.

Lemma sized_payload content_type content :
  field_value_ok content_type = true -> sized (payload_response content_type content).
Proof. intros H. destruct (payload_response_ok content_type content H) as (r & -> & Hr). by eapply sized_response. Qed.

Lemma sized_bind {A} (o : outcome A) f : (forall a, sized (f a)) -> sized (o ≫= f).
Proof. intros H r Hr. inv_ret. by eapply H. Qed.

Lemma sized_throw (o : outcome response) : (forall r, o <> Ret r) -> sized o.
Proof. intros H r Hr. by destruct (H r). Qed.

Lemma sized_handle_bind {A} (o : outcome A) f :
  (forall a, sized (f a).2) -> sized (handle_bind o f).2.
Proof. intros H. by destruct o; [apply H|..]; simpl; apply sized_throw. Qed.

Hint Extern 1 (sized (_, _).2) => cbn [snd] : sized.
Hint Resolve sized_page sized_bind sized_handle_bind : sized.
Hint Extern 2 (sized (Ret (show_error_page _ _))) => apply sized_error; vm_compute; intuition congruence : sized.
Hint Extern 2 (sized (bad_request _).2) => apply sized_error; vm_compute; intuition congruence : sized.
Hint Extern 3 (sized (Ret (text_response _ _))) => apply sized_text; reflexivity : sized.
Hint Extern 3 (sized (payload_response _ _)) => apply sized_payload; reflexivity : sized.

Lemma sized_generate root req : sized (generate_meme root req).2.
Proof.
  unfold generate_meme. repeat case_match; auto with sized.
  apply sized_handle_bind. intros [boundary|]; [|auto with sized].
  apply sized_handle_bind. intros [f'|message]; [|auto with sized].
  apply sized_handle_bind. intros [ty|]; [|auto with sized].
  unfold save_meme. case_match; simpl; [auto with sized|]. unfold generated_response.
  apply sized_bind. intros z. case_match; auto with sized.
Qed.

Lemma sized_meme parent root req (s : server) :
  sized (Meme_handle_request (if (parent : bool) then Some s else None) root req).2.
Proof.
  unfold Meme_handle_request. destruct parent; [|simpl; auto with sized].
  repeat case_decide; simpl; [apply sized_generate|..|auto with sized].
  - unfold create_meme. apply sized_bind. intros path. case_match; auto with sized.
  - unfold browse_memes. apply sized_bind. intros [items|]; auto with sized.
Qed.

(** The proxy's answer, when there is one. *)
Lemma sized_proxy location host port req r :
  ReverseProxy_handle_request location host port req = Ret r ->
  well_sized r \/ (bodyless_status (resp_result r) = true /\ resp_body r = []).
Proof.
  intros H. unfold ReverseProxy_handle_request in H. inv_ret. unfold prepare_proxied_resp in H.
  apply bind_ret_inv in H as (body & Hb & H). set (r2 := resp_set_body body _) in *.
  destruct (bodyless_status (resp_result r2)) eqn:Hs.
  - right. destruct (resp_prepare_payload_bodyless r2 r Hs H) as [E1 E2]. by rewrite E1.
  - left. destruct (resp_prepare_payload_ok r2 Hs) as (r' & Hr & _ & R2 & R3 & _).
    rewrite H in Hr. injection Hr as <-. unfold well_sized. by rewrite R2, R3.
Qed.

Lemma sized_handler h s req :
  match h with ReverseProxyRequestHandler _ _ _ => True | _ => sized (handle_request h s req).2 end.
Proof.
  destruct h; simpl; try done.
  - by apply sized_text.
  - unfold Static_handle_request. apply sized_bind. intros path.
    case_match; [apply sized_text, content_type_ok|auto with sized].
  - unfold NotFound_handle_request. auto with sized.
  - unfold Status_handle_request. destruct parent; [|auto with sized].
    apply sized_bind. intros page. auto with sized.
  - unfold Health_handle_request. destruct parent; simpl; auto with sized.
  - unfold Sleep_handle_request. auto with sized.
  - apply sized_meme.
Qed.

(** C22: a client that keeps the connection open finds the next response.
    Whatever handler answers, and whatever it answers, the response's
    [Content-Length] is the length of its body - or it is the answer of a remote
    host that the proxy passes on with a status to which there is no body (1xx, 204
    or 304), and it has none. *)
Theorem every_response_well_sized (h : RequestHandler) (s : server) (req : request) (r : response) :
  (handle_request h s req).2 = Ret r ->
  well_sized r \/
  (bodyless_status (resp_result r) = true /\ resp_body r = [] /\
   exists location host port, h = ReverseProxyRequestHandler location host port).
Proof.
  intros Hr. pose proof (sized_handler h s req) as Hs. destruct h; try (left; exact (Hs r Hr)).
  destruct (sized_proxy _ _ _ _ _ Hr) as [?|[? ?]]; [by left|right]. eauto 6.
Qed.
End sizes.

(** ** Witnesses *)

#[local] Existing Instance lexical_filesystem.
#[local] Existing Instance example_environment.

Lemma static_handler_confined_witness :
  exists ds es, lit "/static" = join_path ds /\ forallb clean_component es = true /\
    convertToAbsolutePath "/static/x/../a.txt" = Ret (join_path (ds ++ es)) /\
    match parse_path_from_uri "/static" "/srv/www/" "/static/x/../a.txt" with
    | Ret path => exists r, path = lit "/srv/www/" ++ r /\ (lit ".." ∉ split_path r) /\
        match ds with [] => r = [] | _ => below es r end
    | Throw e => e = system_error
    | _ => False
    end.
Proof.
  apply (static_handler_confined lexical_below lexical_from_empty example_server "/static/x/../a.txt" 1);
    [apply example_server_inv|reflexivity|vm_compute; reflexivity|vm_compute; reflexivity].
Defined.

(** A static handler at [/] opens its root, whatever it is asked for, and one
    name that is too long is an exception. *)
Example static_at_the_root :
  parse_path_from_uri [] "/srv/www/" "/a.txt" = Ret (lit "/srv/www/") /\
  parse_path_from_uri "/static" "/srv/www/" ("/static/" ++ replicate 256 "a"%char) = Throw system_error.
Proof. split; vm_compute; reflexivity. Qed.

Lemma every_response_well_sized_witness :
  exists r, (handle_request (StaticFileRequestHandler "/static" "/srv/www/") example_server
               (req_set_target "/static/a.txt" req_new)).2 = Ret r /\
    (well_sized r \/
     (bodyless_status (resp_result r) = true /\ resp_body r = [] /\
      exists location host port,
        StaticFileRequestHandler "/static" "/srv/www/" = ReverseProxyRequestHandler location host port)).
Proof.
  eexists. split; [vm_compute; reflexivity|].
  apply (every_response_well_sized (StaticFileRequestHandler "/static" "/srv/www/") example_server
    (req_set_target "/static/a.txt" req_new)).
  vm_compute. reflexivity.
Defined.
