(* ===== verification/Uploads.v ===== *)
(** * Images that were uploaded

    The meme handler writes files, the static handler reads them.  A store of
    files connects the two: the program writes to it and reads from it through
    whatever name leads to the same place.  An image is served by a static
    location with the same root, and the type it is given can put it anywhere. *)
From S2P Require Import Prelude CppStd StdMap Boost BoostModel ConfigLexer ConfigParser Utils.
From S2P Require Import Handlers Status ReverseProxy Meme MemeForm MemeStore Server ExampleServer.
From S2P Require Import ServerLookup ServerState ServerSafety.

(** ** Files *)

(** Reading a file that can be opened, and [std::ofstream] on a path: whether it
    can be opened, how many of the bytes that are put into it get to the file -
    not all, when the disk is full - and the files with these bytes in it.
    Neither failure is reported unless the program asks. *)
Class FileStore := {
  file_state : Type;
  file_read : file_state -> str -> option str;
  file_opens : file_state -> str -> bool;
  file_stores : file_state -> str -> str -> nat;
  file_write : str -> str -> file_state -> file_state
}.

Class FileStoreLaws (F : BoostFilesystem) (D : FileStore) : Prop := {
  (** Two names of one place, which holds when no name is a link: what can be
      read there is what was written. *)
  file_read_written (p p' q contents c : str) (fs : file_state) :
    file_opens fs p = true ->
    convertToAbsolutePath p = Ret q -> convertToAbsolutePath p' = Ret q ->
    file_read (file_write p contents fs) p' = Some c -> c = contents;
  file_read_other (p p' q q' contents : str) (fs : file_state) :
    convertToAbsolutePath p = Ret q -> convertToAbsolutePath p' = Ret q' -> q <> q' ->
    file_read (file_write p contents fs) p' = file_read fs p'
}.

Section files.
Context `{B : Beast} `{D : FileStore}.

(** The program does not ask: a file that cannot be opened stays as it was, and
    one that cannot be filled is cut off. *)
Definition apply_file (fs : file_state) (e : effect) : file_state :=
  match e with
  | WriteFile path contents =>
      if file_opens fs path then file_write path (take (file_stores fs path contents) contents) fs
      else fs
  | LogMeme _ _ => fs
  end.

(** All of [contents] gets to the file. *)
Definition saved (fs : file_state) (path contents : str) : bool :=
  file_opens fs path && (length contents <=? file_stores fs path contents).

Lemma apply_saved fs path contents :
  saved fs path contents = true ->
  file_opens fs path = true /\ apply_file fs (WriteFile path contents) = file_write path contents fs.
Proof.
  intros [Ho Hs%Nat.leb_le]%andb_true_iff. split; [done|]. simpl. by rewrite Ho, take_ge.
Qed.

(** What a handler leaves of the files. *)
Definition apply_files (effects : list effect) (fs : file_state) : file_state :=
  foldl apply_file fs effects.

(** The machine with these files. *)
Definition with_files (fs : file_state) (E : Environment) : Environment := {|
  read_file := file_read fs;
  is_directory := @is_directory B E;
  can_create := @can_create B E;
  perform_request := @perform_request B E;
  uuid := @uuid B E
|}.
End files.

(** ** Paths below a directory *)

(** What a slash separates. *)
Lemma split_path_slash s t :
  split_path (s ++ SLASH :: t) =
  split_path s ++ (if bool_decide (s = [] \/ last s = Some SLASH) then [[]] else []) ++ split_path t.
Proof.
  induction s as [|c s IH]; [done|].
  cbn [app split_path]. rewrite IH. destruct s as [|d s].
  - rewrite (bool_decide_true ([] = [] \/ _)) by auto. simpl.
    destruct (decide (c = SLASH)) as [->|Hc]; [by rewrite bool_decide_true by auto|].
    by rewrite bool_decide_false by (intros [?|[= ?]]; done).
  - rewrite (bool_decide_ext (c :: d :: s = [] \/ last (c :: d :: s) = Some SLASH)
      (d :: s = [] \/ last (d :: s) = Some SLASH)) 
      by (split; (intros [?|?]; [done|by right])).
    destruct (decide (c = SLASH)); [done|]. by destruct (next_dir_split (d :: s)) as [-> _].
Qed.

Lemma resolve_app ds es comps : resolve (ds ++ es) comps = resolve ds comps ≫= resolve es.
Proof.
  revert comps. induction ds as [|d ds IH]; intros comps; [done|]. simpl.
  destruct (add_dir comps d); [apply IH|done..].
Qed.

Lemma resolve_slash s t comps :
  resolve (split_path (s ++ SLASH :: t)) comps = resolve (split_path s) comps ≫= resolve (split_path t).
Proof.
  rewrite split_path_slash, resolve_app. destruct (resolve (split_path s) comps); [simpl|done..].
  by case_match.
Qed.

(** The root of the meme handler: neither in quotes nor a name with two slashes
    at its beginning, and not the root of the file system. *)
Definition plain_root (root : str) : bool :=
  match root with
  | [] => false
  | c :: s => bool_decide (c <> DQUOTE) && negb (bool_decide (c = SLASH /\ (s = [] \/ head s = Some SLASH)))
  end.

Section paths.
Context `{FL : BoostFilesystemLaws}.

Lemma strip_quotes_plain c s : c <> DQUOTE -> strip_quotes (c :: s) = Ret (c :: s).
Proof. intros Hc. unfold strip_quotes. rewrite bool_decide_false; [done|]. by intros [= ?]. Qed.

Lemma convert_resolve c s :
  c <> DQUOTE ->
  convertToAbsolutePath (c :: s) =
  p ← system_complete (c :: s); comps ← resolve (split_path p) []; Ret (join_path comps).
Proof. intros Hc. by apply convert_resolved, strip_quotes_plain. Qed.

Lemma convert_below c s t :
  c <> DQUOTE -> ~ (c = SLASH /\ (s = [] \/ head s = Some SLASH)) ->
  convertToAbsolutePath (c :: s ++ SLASH :: t) =
  p ← system_complete (c :: s); comps ← resolve (split_path p) [];
  comps ← resolve (split_path t) comps; Ret (join_path comps).
Proof.
  intros Hc Hs. rewrite convert_resolve by done. rewrite system_complete_extend.
  - destruct (system_complete (c :: s)) as [p| | |]; [|done..]. cbn [fmap outcome_fmap].
    rewrite !bind_Ret, resolve_slash. by destruct (resolve (split_path p) []).
  - intros [-> Hh]. apply Hs. split; [done|]. destruct s as [|d s]; [by left|by right].
Qed.

(** The root without a slash at its end. *)
Lemma plain_root_base root :
  plain_root root = true -> exists c s, c <> DQUOTE /\
    ~ (c = SLASH /\ (s = [] \/ head s = Some SLASH)) /\
    (root = c :: s \/ root = c :: s ++ [SLASH]) /\
    forall name, path_append root name = c :: s ++ SLASH :: name.
Proof.
  destruct root as [|c s]; [done|]. unfold plain_root.
  intros [Hc%bool_decide_eq_true Hs%negb_true_iff%bool_decide_eq_false]%andb_true_iff.
  destruct (decide (last (c :: s) = Some SLASH)) as [Hl|Hl].
  - destruct (snoc_inv s) as [->|(s' & d & ->)].
    { injection Hl as ->. destruct Hs. auto. }
    assert (d = SLASH) as ->.
    { change (c :: s' ++ [d]) with ((c :: s') ++ [d]) in Hl. rewrite last_snoc in Hl. by injection Hl. }
    exists c, s'. split; [done|]. split.
    { intros [-> [->|Hh]]; apply Hs; split; auto. destruct s'; [done|by right]. }
    split; [by right|]. intros name. unfold path_append. rewrite Hl, decide_True by done.
    simpl. by rewrite <-app_assoc.
  - exists c, s. split; [done|]. split; [done|]. split; [by left|]. intros name. unfold path_append.
    destruct (last (c :: s)) as [d|] eqn:Ed; [|by apply last_None in Ed].
    rewrite decide_False; [done|]. by intros ->.
Qed.

Lemma split_path_name name : clean_component name = true -> split_path name = [name].
Proof. intros (Hne & _ & _ & Hd)%clean_component_inv. by apply (split_path_component name []). Qed.

(** The components of a root. *)
Lemma resolve_root root ds :
  plain_root root = true -> convertToAbsolutePath root = Ret (join_path ds) ->
  forallb clean_component ds = true -> forall name,
  convertToAbsolutePath (path_append root name) =
  comps ← resolve (split_path name) ds; Ret (join_path comps).
Proof.
  intros Hr Hc Hds name. destruct (plain_root_base root Hr) as (c & s & Hq & Hs & Hroot & ->).
  rewrite convert_below by done.
  assert (exists p comps, system_complete (c :: s) = Ret p /\ resolve (split_path p) [] = Ret comps /\
    join_path comps = join_path ds) as (p & comps & -> & Hres & Hj).
  { destruct Hroot as [-> | ->].
    - rewrite convert_resolve in Hc by done. apply bind_ret_inv in Hc as (p & ? & Hc).
      apply bind_ret_inv in Hc as (comps & ? & [= ?]). eauto.
    - rewrite convert_below in Hc by done. apply bind_ret_inv in Hc as (p & ? & Hc).
      apply bind_ret_inv in Hc as (comps & ? & [= ?]). eauto. }
  rewrite bind_Ret, Hres, bind_Ret. replace comps with ds; [done|].
  symmetry. apply join_path_inj; [|done|done].
  eapply resolve_clean; [apply split_path_no_slash| |exact Hres]. done.
Qed.
(** A file in the directory that the root names. *)
Lemma convert_path_append root name ds :
  plain_root root = true -> clean_component name = true ->
  convertToAbsolutePath root = Ret (join_path ds) -> forallb clean_component ds = true ->
  convertToAbsolutePath (path_append root name) = Ret (join_path (ds ++ [name])).
Proof.
  intros Hr Hn Hc Hds. rewrite (resolve_root root ds Hr Hc Hds), (split_path_name name Hn).
  rewrite resolve_clean_self; [done|]. simpl. by rewrite Hn.
Qed.
End paths.

(** ** An upload that climbs *)

(** What leads up [k] directories. *)
Fixpoint ups (k : nat) : str :=
  match k with
  | 0 => []
  | S k => lit "/.." ++ ups k
  end.

(** The type of an image whose file lands at [/ts], from a root of [depth]
    directories: below the root is first a directory [uuid.x]. *)
Definition climbing_type (depth : nat) (ts : list str) : str := lit "x" ++ ups (S depth) ++ join_path ts.

Lemma resolve_join s ts comps l :
  forallb clean_component ts = true -> resolve (split_path s) comps = Ret l ->
  resolve (split_path (s ++ join_path ts)) comps = Ret (l ++ ts).
Proof.
  revert s comps l. induction ts as [|t ts IH]; intros s comps l Hts Hs.
  { change (join_path []) with (@nil ascii). by rewrite !app_nil_r. }
  simpl in Hts. apply andb_true_iff in Hts as [Ht Hts].
  change (join_path (t :: ts)) with (SLASH :: t ++ join_path ts).
  rewrite resolve_slash, Hs. simpl. rewrite (IH t l (l ++ [t]) Hts).
  - by rewrite <-app_assoc.
  - rewrite (split_path_name t Ht). apply resolve_clean_self. simpl. by rewrite Ht.
Qed.

Lemma resolve_ups k s ts comps l :
  forallb clean_component ts = true -> resolve (split_path s) comps = Ret l -> length l = k ->
  resolve (split_path (s ++ ups k ++ join_path ts)) comps = Ret ts.
Proof.
  revert s comps l. induction k as [|k IH]; intros s comps l Hts Hs Hl.
  - destruct l; [|done]. apply (resolve_join s ts comps [] Hts Hs).
  - destruct (snoc_inv l) as [->|(l' & x & ->)]; [done|]. rewrite length_app in Hl. simpl in Hl.
    change (ups (S k) ++ join_path ts) with (SLASH :: lit ".." ++ ups k ++ join_path ts).
    rewrite resolve_slash, Hs. apply (IH _ _ l'); [done| |lia].
    change (split_path (lit "..")) with [lit ".."]. simpl. unfold add_dir.
    rewrite decide_True by done. by rewrite vec_pop_back_snoc.
Qed.

(** ** Roots *)

Lemma last_join_path ds :
  forallb clean_component ds = true -> ds <> [] ->
  exists c, last (join_path ds) = Some c /\ c <> SLASH.
Proof.
  intros Hds Hne. destruct (snoc_inv ds) as [->|(l & d & ->)]; [done|].
  rewrite forallb_app, andb_true_iff in Hds. destruct Hds as [_ Hd]. simpl in Hd.
  rewrite andb_true_r in Hd. apply clean_component_inv in Hd as (Hd & _ & _ & Hs).
  rewrite join_path_snoc. destruct (snoc_inv d) as [->|(d' & c & ->)]; [done|].
  exists c. rewrite app_comm_cons, app_assoc, last_snoc. split; [done|]. intros ->.
  rewrite forallb_app, andb_true_iff in Hs. by destruct Hs.
Qed.

Section roots.
Context `{B : Beast} `{E : !Environment} `{FL : BoostFilesystemLaws}.

(** The root the meme handler keeps names the directory that the value of the
    field does. *)
Lemma convert_stripped value root :
  strip_quotes value = Ret root -> plain_root root = true ->
  convertToAbsolutePath value = convertToAbsolutePath root.
Proof.
  intros Hs Hp. destruct root as [|c s]; [done|]. unfold plain_root in Hp.
  apply andb_true_iff in Hp as [Hc%bool_decide_eq_true _].
  unfold convertToAbsolutePath. by rewrite Hs, strip_quotes_plain by done.
Qed.

(** Both handlers get their root from the same field. *)
Lemma roots_agree static_config meme_config root q root' :
  configLookup static_config [] "root" = configLookup meme_config [] "root" ->
  new_MemeHandler meme_config = Ret root -> plain_root root = true ->
  convertToAbsolutePath root = Ret q -> is_directory q = true ->
  new_StaticFileRequestHandler static_config = Ret root' ->
  exists ds, q = join_path ds /\ forallb clean_component ds = true /\ ds <> [] /\ root' = q ++ [SLASH].
Proof.
  intros Hsame Hm Hp Hq Hd Hs. unfold new_MemeHandler in Hm. unfold new_StaticFileRequestHandler in Hs.
  rewrite Hsame in Hs. apply bind_ret_inv in Hm as (value & Hv & Hstrip). rewrite Hv, bind_Ret in Hs.
  unfold set_root_path in Hs. rewrite (convert_stripped value root Hstrip Hp), Hq, bind_Ret, Hd in Hs.
  destruct (convert_normal root q Hq) as (ds & -> & Hds).
  assert (ds <> []) as Hne by (by intros ->).
  destruct (last_join_path ds Hds Hne) as (c & Hl & Hc). exists ds.
  unfold vec_back in Hs. rewrite Hl, bind_Ret, decide_True in Hs by done. by injection Hs as <-.
Qed.
End roots.

(** ** An upload *)

Section upload.
Context `{BL : BeastLaws} `{E : !Environment} `{F : BoostFilesystem} `{TL : BoostStringLaws}.

(** What the meme handler takes for an image [image/type]. *)
Record valid_upload (root : str) (f : form_text) (type css : str) (req : request) : Prop := {
  upload_target : req_target req = lit "/meme/generate";
  upload_method : req_method req = verb_post;
  upload_form : exists content_type i boundary,
    req_field req field_content_type = Some content_type /\
    str_find content_type "multipart/form-data" 0 = Some i /\
    request_boundary req = Ret (Some boundary) /\
    form_ok boundary f = true /\ req_body req = print_form boundary f;
  upload_type : image_type (line_text (file_header f)) = Ret (Some type);
  upload_place : can_create (meme_path root type) = true;
  upload_style : exists style, stoi (logged_style f) = Ret style /\ style_css style = Some css
}.

Definition upload_effects (root : str) (f : form_text) (type : str) : list effect :=
  [WriteFile (meme_path root type) (file_content f ++ [CR; LF]);
   LogMeme ("." ++ meme_path root type)
     [top_content f ++ [CR; LF]; bottom_content f ++ [CR; LF]; logged_style f]].

Definition upload_page (root : str) (f : form_text) (type css : str) : str :=
  generated_page (top_content f ++ [CR; LF]) (bottom_content f ++ [CR; LF])
    ("." ++ meme_path root type) ++ css ++ "</style></body></html>".

Lemma upload_answered (root : str) (f : form_text) (type css : str) (req : request) (srv : server) :
  valid_upload root f type css req ->
  exists page : response, handle_request (MemeHandler true root) srv req = (upload_effects root f type, Ret page) /\
    is_response page status_ok "text/html" (upload_page root f type css).
Proof.
  intros [Ht Hm (ct & i & boundary & Hct & Hmp & Hb & Hf & Hbody) Hty Hcr (style & Hst & Hcss)].
  simpl. unfold Meme_handle_request. rewrite Ht, decide_True by done.
  eapply generate_meme_ok; eassumption.
Qed.
End upload.

(** ** Uploading and fetching *)

Section uploads.
Context `{BL : BeastLaws} `{E : !Environment} `{FL : BoostFilesystemLaws} `{TL : BoostStringLaws}.
Context `{D : FileStore} `{DL : !FileStoreLaws F D}.

Lemma static_serves `{E' : !Environment} ls ds name contents g :
  relative (join_path (ls ++ [name])) (join_path ls) = Ret name ->
  read_file (join_path (ds ++ [name])) = Some contents ->
  req_target g = join_path (ls ++ [name]) ->
  Static_handle_request (E := E') (join_path ls) (join_path ds ++ [SLASH]) g =
  Ret (text_response (parse_content_type_from_uri (req_target g)) contents).
Proof.
  intros Hr Hf Hg. unfold Static_handle_request, parse_path_from_uri. rewrite Hg, Hr, !bind_Ret.
  rewrite <-app_assoc. change ([SLASH] ++ name) with (SLASH :: name). by rewrite <-join_path_snoc, Hf.
Qed.

(** What an upload leaves of the files. *)
Lemma upload_saved root f type fs ds :
  plain_root root = true -> clean_component (uuid ++ "." ++ type) = true ->
  convertToAbsolutePath root = Ret (join_path ds) -> forallb clean_component ds = true ->
  saved fs (meme_path root type) (file_content f ++ [CR; LF]) = true ->
  forall c, file_read (apply_files (upload_effects root f type) fs) (join_path (ds ++ [uuid ++ "." ++ type])) = Some c ->
    c = file_content f ++ [CR; LF].
Proof.
  intros Hp Hn Hc Hds Hs c. unfold apply_files. cbn [foldl upload_effects].
  destruct (apply_saved _ _ _ Hs) as [Ho ->].
  apply (file_read_written _ _ (join_path (ds ++ [uuid ++ "." ++ type]))); [done| |].
  - by apply convert_path_append.
  - apply convert_clean; [|by destruct ds]. rewrite forallb_app, Hds. cbn [forallb]. by rewrite Hn.
Qed.

(** An image that was uploaded is served.  When a static location and the meme
    handler have the same root, as the shipped configuration has them, a valid
    upload of an image [image/type] is answered with its page, and when the file
    was saved and can be read and looked at, the static handler then serves it
    under its location, with the content that was sent and the line end that the
    form parser keeps. *)
Theorem uploaded_image_served (static_config meme_config : NginxConfig) (ls : list str) (meme_loc : str)
    (hs hm : RequestHandler) (root q type css : str) (req : request)
    (f : form_text) (srv : server) (fs : file_state) :
  configLookup static_config [] "root" = configLookup meme_config [] "root" ->
  create_handler "StaticHandler" (join_path ls) static_config = Ret (Some hs) ->
  create_handler "MemeHandler" meme_loc meme_config = Ret (Some hm) ->
  new_MemeHandler meme_config = Ret root -> plain_root root = true ->
  convertToAbsolutePath root = Ret q -> is_directory q = true ->
  valid_upload root f type css req ->
  let name := uuid ++ "." ++ type in
  forallb clean_component (ls ++ [name]) = true ->
  exists effects page,
    handle_request hm srv req = (effects, Ret page) /\ resp_result page = status_ok /\
    (saved fs (meme_path root type) (file_content f ++ [CR; LF]) = true ->
     relative (join_path (ls ++ [name])) (join_path ls) = Ret name ->
     is_Some (file_read (apply_files effects fs) (q ++ SLASH :: name)) ->
     forall (srv' : server) (g : request), req_target g = join_path (ls ++ [name]) ->
       handle_request (E := with_files (apply_files effects fs) E) hs srv' g =
       ([], Ret (text_response (parse_content_type_from_uri (req_target g)) (file_content f ++ [CR; LF])))).
Proof.
  intros Hsame Hcs Hcm Hroot Hp Hq Hd Hup name Hls.
  change (create_handler "MemeHandler" meme_loc meme_config) with
    (root ← new_MemeHandler meme_config; Ret (Some (initMeme (MemeHandler false root)))) in Hcm.
  rewrite Hroot in Hcm. injection Hcm as <-.
  change (create_handler "StaticHandler" (join_path ls) static_config) with
    (root ← new_StaticFileRequestHandler static_config;
     Ret (Some (StaticFileRequestHandler (join_path ls) root))) in Hcs.
  apply bind_ret_inv in Hcs as (root' & Hs & Hcs). injection Hcs as <-.
  destruct (roots_agree _ _ _ _ _ Hsame Hroot Hp Hq Hd Hs) as (ds & -> & Hds & Hne & ->).
  destruct (upload_answered root f type css req srv Hup) as (page & Hans & Hpage).
  exists (upload_effects root f type), page. split; [exact Hans|]. split; [apply Hpage|].
  intros Hsaved Hrel [c Hc] srv' g Hg. rewrite <-join_path_snoc in Hc.
  assert (clean_component name = true) as Hn
    by (rewrite forallb_app, andb_true_iff in Hls; by destruct Hls as [_ [? _]%andb_true_iff]).
  rewrite (upload_saved root f type fs ds Hp Hn Hq Hds Hsaved c Hc) in Hc.
  simpl. f_equal. by apply (static_serves ls ds name).
Qed.
End uploads.

(** ** Where an upload can write *)

Definition climbing_line (depth : nat) (ts : list str) : str :=
  "Content-Type: image/" ++ climbing_type depth ts ++ [CR].

(** Bytes that stay as they are when the line of the type is read. *)
Definition on_one_line (s : str) : bool :=
  forallb (fun c => negb (bool_decide (c = CR \/ c = LF))) s.

Lemma on_one_line_ups k s : on_one_line s = true -> on_one_line (ups k ++ s) = true.
Proof. intros Hs. induction k as [|k IH]; [done|]. exact IH. Qed.

Lemma unpadded_end s t :
  s <> [] -> isspace <$> head s = Some false -> isspace <$> last t = Some false ->
  unpadded (s ++ t) = true.
Proof.
  intros Hs Hh Hl. destruct s as [|c s]; [done|].
  destruct (last t) as [d|] eqn:Ed; [|done]. simpl in *. injection Hh as Hc. injection Hl as Hd.
  assert (last (c :: s ++ t) = Some d) as Hlast by (rewrite app_comm_cons, last_app; by rewrite Ed).
  unfold unpadded. by rewrite Hlast, Hc, Hd.
Qed.

Lemma unpadded_last s : s <> [] -> unpadded s = true -> isspace <$> last s = Some false.
Proof.
  intros Hs. destruct s as [|c s]; [done|]. unfold unpadded. destruct (last (c :: s)) as [d|] eqn:Ed.
  - intros [_ Hd%negb_true_iff]%andb_true_iff. simpl. by rewrite Hd.
  - by apply last_None in Ed.
Qed.

Section anywhere.
Context `{BL : BeastLaws} `{E : !Environment} `{FL : BoostFilesystemLaws} `{TL : BoostStringLaws}.
Context `{D : FileStore} `{DL : !FileStoreLaws F D}.

(** C31: an upload can write anywhere.  For every root that is not written in an
    unusual way and every place [/ts] whose path is on one line and has no blanks at
    its ends, there is a type of image that a client can send such that the file of
    a valid upload of that type is the one at [/ts], as long as the directories on
    the way can be made.  The upload is answered with the page of a meme, and when
    its file was saved, what can be read at [/ts] afterwards is what was uploaded. *)
Theorem upload_writes_anywhere (root : str) (ds ts : list str) :
  plain_root root = true -> convertToAbsolutePath root = Ret (join_path ds) ->
  forallb clean_component ds = true -> forallb clean_component ts = true -> ts <> [] ->
  on_one_line (join_path ts) = true -> unpadded (join_path ts) = true ->
  clean_component (uuid ++ ".x") = true ->
  let type := climbing_type (length ds) ts in
  image_type (line_text [climbing_line (length ds) ts]) = Ret (Some type) /\
  convertToAbsolutePath (meme_path root type) = Ret (join_path ts) /\
  forall (f : form_text) (css : str) (req : request) (srv : server) (fs : file_state),
    valid_upload root f type css req ->
    exists page, (handle_request (MemeHandler true root) srv req).2 = Ret page /\
      resp_result page = status_ok /\
      (saved fs (meme_path root type) (file_content f ++ [CR; LF]) = true ->
       forall c,
         file_read (apply_files (handle_request (MemeHandler true root) srv req).1 fs) (join_path ts) = Some c ->
         c = file_content f ++ [CR; LF]).
Proof.
  intros Hr Hc Hds Hts Hne Hl Hu Hx type.
  assert (convertToAbsolutePath (meme_path root type) = Ret (join_path ts)) as Hplace.
  { unfold meme_path, type, climbing_type. rewrite (resolve_root root ds Hr Hc Hds).
    replace (uuid ++ "." ++ lit "x" ++ ups (S (length ds)) ++ join_path ts)
      with ((uuid ++ ".x") ++ ups (S (length ds)) ++ join_path ts) by (by rewrite <-app_assoc).
    rewrite (resolve_ups _ _ ts ds (ds ++ [uuid ++ ".x"])); [done|done| |].
    - rewrite (split_path_name _ Hx). apply resolve_clean_self. by apply andb_true_iff.
    - rewrite length_app. simpl. lia. }
  split; [|split; [done|]].
  - assert (line_text [climbing_line (length ds) ts] = "Content-Type: image/" ++ type ++ [CR; LF]) as ->
      by (unfold climbing_line; rewrite line_text_step; list_app).
    apply image_type_line; [by apply (on_one_line_ups (S (length ds)))|].
    unfold type, climbing_type. rewrite !app_assoc.
    apply unpadded_end; [done|done|]. apply unpadded_last; [by destruct ts|done].
  - intros f css req srv fs Hup.
    destruct (upload_answered root f type css req srv Hup) as (page & -> & Hpage & _).
    exists page. split; [done|]. split; [done|]. intros Hs c. unfold apply_files. cbn [fst foldl upload_effects].
    destruct (apply_saved _ _ _ Hs) as [Ho ->].
    apply (file_read_written _ _ (join_path ts)); [done|done|by apply convert_clean].
Qed.

(** Nobody asks whether the file was saved: an upload whose file cannot be
    opened leaves the files as they were, and is logged and answered like any
    other. *)
Theorem unsaved_upload_answered (root : str) (f : form_text) (type css : str) (req : request)
    (srv : server) (fs : file_state) :
  valid_upload root f type css req -> file_opens fs (meme_path root type) = false ->
  exists page, handle_request (MemeHandler true root) srv req = (upload_effects root f type, Ret page) /\
    is_response page status_ok "text/html" (upload_page root f type css) /\
    apply_files (upload_effects root f type) fs = fs.
Proof.
  intros Hup Ho. destruct (upload_answered root f type css req srv Hup) as (page & Ha & Hp).
  exists page. split; [done|]. split; [done|]. unfold apply_files. simpl. by rewrite Ho.
Qed.
End anywhere.

(** ** Witness *)

(** Files under their absolute paths, on a disk that is not full; no name has
    more than 255 bytes. *)
#[export] Instance model_store `{F : BoostFilesystem} : FileStore := {|
  file_state := gmap str str;
  file_read fs p := match convertToAbsolutePath p with Ret q => fs !! q | _ => None end;
  file_opens fs p := forallb (fun d => length d <=? 255) (split_path p);
  file_stores fs p contents := length contents;
  file_write p contents fs :=
    match convertToAbsolutePath p with Ret q => <[q := contents]> fs | _ => fs end
|}.

#[export] Instance model_store_laws `{F : BoostFilesystem} : FileStoreLaws F model_store.
Proof.
  split; simpl.
  - intros p p' q contents c fs _ -> ->. rewrite lookup_insert_eq. by intros [= <-].
  - intros p p' q q' contents fs -> -> Hq. by rewrite lookup_insert_ne.
Qed.

#[local] Existing Instance lexical_filesystem.

(** The machine of the shipped configuration, in the directory [/srv]. *)
Definition shipped_environment : Environment (B := model_beast) := {|
  read_file _ := None;
  is_directory p := bool_decide (p ∈ [lit "/srv/memes/imgs"; lit "/srv/static_files"; lit "/srv"]);
  can_create _ := true;
  perform_request _ _ _ := Throw system_error;
  uuid := "0000"
|}.

#[local] Existing Instance shipped_environment.

(** src/server_config *)
Definition shipped_lines : list str :=
  [[];
   lit "server {";
   lit "  port 80; # port to serve on";
   [];
   lit "  location /echo EchoHandler {";
   [];
   lit "  }";
   lit "  location /echo_v2 EchoHandler {";
   [];
   lit "  }";
   lit "  location /echo_v3/ EchoHandler {";
   [];
   lit "  }";
   lit "  location /static StaticHandler {";
   (lit "    root " ++ DQUOTE :: lit "./static_files/" ++ DQUOTE :: lit ";");
   lit "  }";
   lit "  location /static_root_dir StaticHandler {";
   (lit "    root " ++ DQUOTE :: lit "/" ++ DQUOTE :: lit "; # root of directory");
   lit "  }";
   lit "  location /static_dev StaticHandler {";
   lit "    root .;";
   lit "  }";
   lit "  location /uw ReverseProxyHandler {";
   lit "    port 80;";
   lit "    host www.washington.edu;";
   lit "  }";
   lit "  location /nyu ReverseProxyHandler {";
   lit "    port 80;";
   lit "    host www.nyu.edu;";
   lit "  }";
   lit "  location /bitly ReverseProxyHandler {";
   lit "    port 80;";
   lit "    host bit.ly;";
   lit "  }";
   lit "  location / NotFoundHandler {";
   [];
   lit "  }";
   lit "  location /status StatusHandler {";
   lit "    ";
   lit "  }";
   [];
   lit "  location /health HealthHandler {";
   lit "    ";
   lit "  }";
   lit "  ";
   lit "  location /sleep SleepHandler {";
   lit "    ";
   lit "  }";
   [];
   lit "  location /memes/imgs StaticHandler {";
   (lit "    root " ++ DQUOTE :: lit "./memes/imgs/" ++ DQUOTE :: lit "; # Should match root in memehandler");
   lit "  }";
   [];
   lit "  location /meme MemeHandler {";
   (lit "    root " ++ DQUOTE :: lit "./memes/imgs/" ++ DQUOTE :: lit ";");
   lit "  }";
   lit "}"].

Definition shipped_file : str := shipped_lines ≫= fun l => l ++ [LF].

Definition shipped_config : NginxConfig :=
  match Parse_file (Some shipped_file) with Ret (_, Some config) => config | _ => [] end.

Lemma shipped_file_parsed : Parse_file (Some shipped_file) = Ret (true, Some shipped_config).
Proof. vm_compute. reflexivity. Qed.

Definition shipped_server : server :=
  match getHandlers empty_server shipped_config with Ret s => s | _ => empty_server end.

Lemma shipped_server_made : getHandlers empty_server shipped_config = Ret shipped_server.
Proof. vm_compute. reflexivity. Qed.

(** The root of a location is ["/"] in the shipped file; its absolute path is the
    empty string, which is no directory, so that files are looked for in the
    directory the server runs in. *)
Example shipped_static_root_dir :
  objects_ shipped_server !! 4 = Some (StaticFileRequestHandler "/static_root_dir" []) /\
  parse_path_from_uri "/static_root_dir" [] "/static_root_dir/etc/hosts" = Ret (lit "etc/hosts").
Proof. split; vm_compute; reflexivity. Qed.

(** The query of a URI counts as a part of its last component. *)
Example shipped_query :
  get_request_handler "/health" shipped_server = Ret (Some 11) /\
  get_request_handler "/health?probe=1" shipped_server = Ret (Some 9) /\
  objects_ shipped_server !! 11 = Some (HealthRequestHandler true) /\
  objects_ shipped_server !! 9 = Some NotFoundRequestHandler.
Proof. repeat split; vm_compute; reflexivity. Qed.

(** The block of a location. *)
Definition shipped_block (location : str) : NginxConfig :=
  match list_find (fun b => b.1.2 = location) (location_blocks shipped_config) with
  | Some (_, b) => b.2
  | None => []
  end.

Definition shipped_upload : request (Beast := model_beast) :=
  req_set_body (print_form "----0123456789" example_form)
    (req_set_field field_content_type "multipart/form-data; boundary=----0123456789"
      (Message (VKnown "POST") 0 11 (lit "/meme/generate") [] [])).

Lemma shipped_upload_valid :
  valid_upload "./memes/imgs/" example_form "png" ".captions{background-color:black}" shipped_upload.
Proof.
  split; try (vm_compute; reflexivity).
  - exists "multipart/form-data; boundary=----0123456789", 0, "----0123456789". by vm_compute.
  - exists 2%Z. by vm_compute.
Qed.

Lemma uploaded_image_served_witness :
  exists effects page,
    handle_request (MemeHandler true "./memes/imgs/") shipped_server shipped_upload = (effects, Ret page) /\
    resp_result page = status_ok /\
    (saved ∅ "./memes/imgs/0000.png" (lit "PNG" ++ [CR; LF]) = true ->
     relative "/memes/imgs/0000.png" "/memes/imgs" = Ret (lit "0000.png") ->
     is_Some (file_read (apply_files effects ∅) "/srv/memes/imgs/0000.png") ->
     forall (srv' : server) (g : request), req_target g = lit "/memes/imgs/0000.png" ->
       handle_request (E := with_files (apply_files effects ∅) shipped_environment)
         (StaticFileRequestHandler "/memes/imgs" "/srv/memes/imgs/") srv' g =
       ([], Ret (text_response (parse_content_type_from_uri (req_target g)) (lit "PNG" ++ [CR; LF])))).
Proof.
  pose proof (uploaded_image_served (shipped_block "/memes/imgs")
    (shipped_block "/meme") [lit "memes"; lit "imgs"] "/meme"
    (StaticFileRequestHandler "/memes/imgs" "/srv/memes/imgs/") (MemeHandler true "./memes/imgs/")
    "./memes/imgs/" "/srv/memes/imgs" "png" ".captions{background-color:black}" shipped_upload
    example_form shipped_server ∅) as H.
  do 7 (specialize (H ltac:(vm_compute; reflexivity))).
  exact (H shipped_upload_valid ltac:(vm_compute; reflexivity)).
Defined.

Example shipped_upload_kept :
  saved (∅ : file_state (FileStore := model_store)) "./memes/imgs/0000.png" (lit "PNG" ++ [CR; LF]) = true /\
  relative "/memes/imgs/0000.png" "/memes/imgs" = Ret (lit "0000.png") /\
  file_read (apply_files (upload_effects "./memes/imgs/" example_form "png") ∅) "/srv/memes/imgs/0000.png" =
    Some (lit "PNG" ++ [CR; LF]).
Proof. repeat split; vm_compute; reflexivity. Qed.

(** A directory in which nothing can be made. *)
Definition full_store : FileStore := {|
  file_state := unit; file_read _ _ := None; file_opens _ _ := false;
  file_stores _ _ _ := 0; file_write _ _ fs := fs
|}.

Definition climbing_form : form_text :=
  FormText (style_header example_form) "2"
    [climbing_line 3 [lit "etc"; lit "passwd"]] "root::0:0"
    (top_header example_form) "a" (bottom_header example_form) "b".

Definition climbing_upload : request (Beast := model_beast) :=
  req_set_body (print_form "----0123456789" climbing_form) shipped_upload.

Lemma climbing_upload_valid :
  valid_upload "./memes/imgs/" climbing_form (climbing_type 3 [lit "etc"; lit "passwd"])
    ".captions{background-color:black}" climbing_upload.
Proof.
  split; try (vm_compute; reflexivity).
  - exists "multipart/form-data; boundary=----0123456789", 0, "----0123456789". by vm_compute.
  - exists 2%Z. by vm_compute.
Qed.

Lemma climbing_upload_kept :
  saved (∅ : file_state (FileStore := model_store))
    (meme_path "./memes/imgs/" "x/../../../../etc/passwd") (lit "root::0:0" ++ [CR; LF]) = true /\
  file_read (apply_files
    (upload_effects "./memes/imgs/" climbing_form (climbing_type 3 [lit "etc"; lit "passwd"])) ∅) "/etc/passwd" =
    Some (lit "root::0:0" ++ [CR; LF]).
Proof. split; vm_compute; reflexivity. Qed.

Lemma upload_writes_anywhere_witness :
  climbing_type 3 [lit "etc"; lit "passwd"] = lit "x/../../../../etc/passwd" /\
  exists page,
    (handle_request (MemeHandler true "./memes/imgs/") shipped_server climbing_upload).2 = Ret page /\
    resp_result page = status_ok /\
    exists c, file_read (apply_files
      (handle_request (MemeHandler true "./memes/imgs/") shipped_server climbing_upload).1 ∅) "/etc/passwd" =
      Some c /\ c = lit "root::0:0" ++ [CR; LF].
Proof.
  split; [reflexivity|].
  pose proof (upload_writes_anywhere "./memes/imgs/" [lit "srv"; lit "memes"; lit "imgs"]
    [lit "etc"; lit "passwd"]) as H.
  do 8 (specialize (H ltac:(by vm_compute))). destruct H as (_ & _ & H).
  destruct (H climbing_form ".captions{background-color:black}" climbing_upload shipped_server ∅
    climbing_upload_valid) as (page & Hp & Hs & Hc).
  destruct climbing_upload_kept as [Hsaved Hread]. exists page. split; [exact Hp|]. split; [exact Hs|].
  destruct (upload_answered _ _ _ _ _ shipped_server climbing_upload_valid) as (page' & Ha & _).
  exists (lit "root::0:0" ++ [CR; LF]).
  assert (file_read (apply_files
    (handle_request (MemeHandler true "./memes/imgs/") shipped_server climbing_upload).1 ∅) "/etc/passwd" =
    Some (lit "root::0:0" ++ [CR; LF])) as Hr by (rewrite Ha; exact Hread).
  split; [exact Hr|exact (Hc Hsaved _ Hr)].
Defined.

Lemma unsaved_upload_answered_witness :
  exists page,
    handle_request (MemeHandler true "./memes/imgs/") shipped_server shipped_upload =
      (upload_effects "./memes/imgs/" example_form "png", Ret page) /\
    is_response page status_ok "text/html"
      (upload_page "./memes/imgs/" example_form "png" ".captions{background-color:black}") /\
    apply_files (D := full_store) (upload_effects "./memes/imgs/" example_form "png") tt = tt.
Proof. apply (unsaved_upload_answered (D := full_store)); [apply shipped_upload_valid|reflexivity]. Defined.
