(* ===== verification/Socket.v ===== *)
(** * Sockets: src/include/tcp_socket_wrapper.h and src/include/mock_socket.h

    A session is a template over its socket.  What a callback asks of the
    socket and gets at once is an interface, [Socket]; what it starts -
    [read_some], [read], [write] - is an [operation].  Boost.Asio completes the
    operations of a [tcp_socket_wrapper] later, by an [event]; a [mock_socket]
    calls back before its methods return. *)
From S2P Require Import Prelude CppStd.

(** ** What a session relies on *)

(** [get_endpoint_address()], as it is for the duration of a callback. *)
Class Socket := { get_endpoint_address : outcome str }.

(** The peer is there. *)
Class Connected (K : Socket) : Prop := connected : exists a, get_endpoint_address = Ret a.

(** The asynchronous operations. *)
Inductive operation :=
| ReadSome
| Read (bytes : Z)
| Write (buffer : str)
| Done.

(** Their completions: what was read, or an error. *)
Inductive event :=
| GotSome (data : str)
| GotBytes (data : str)
| Written
| Failed.

#[export] Instance event_eq_dec : EqDecision event.
Proof. solve_decision. Defined.

(** ** tcp_socket_wrapper

    [remote_endpoint()] throws when the socket is not connected any more. *)
Definition tcp_socket_wrapper (peer : option str) : Socket := {|
  get_endpoint_address := match peer with Some address => Ret address | None => Throw system_error end
|}.

#[export] Instance tcp_connected address : Connected (tcp_socket_wrapper (Some address)).
Proof. by exists address. Qed.

(** The parameter of [read] is an [int]; what a session gives is a [size_t]. *)
Definition to_read (bytes : Z) : Z := ((bytes + 2 ^ 31) mod 2 ^ 32 - 2 ^ 31)%Z.

Lemma to_read_int n : (0 <= n <= INT_MAX)%Z -> to_read n = n.
Proof. unfold to_read, INT_MAX. intros H. rewrite Z.mod_small; lia. Qed.

(** What [async_read_some] on a buffer of [size] bytes, [async_read] with
    [transfer_exactly] and [async_write] may report: at most the size of the
    buffer and not nothing, exactly what was asked, and that all is written. *)
Definition possible (size : nat) (op : operation) (e : event) : bool :=
  match op, e with
  | ReadSome, GotSome data => bool_decide (0 < length data <= size)
  | Read n, GotBytes data => bool_decide (Z.of_nat (length data) = n)
  | Write _, Written => true
  | (ReadSome | Read _ | Write _), Failed => true
  | _, _ => false
  end.

(** ** mock_socket *)

Record mock_socket := MockSocket {
  fake_input_buffer : str;
  fake_output_buffer : str
}.

Definition set_input_buffer (buf : str) (m : mock_socket) : mock_socket :=
  MockSocket buf (fake_output_buffer m).
Definition get_output_buffer (m : mock_socket) : str := fake_output_buffer m.

Definition mock_socket_socket : Socket := {| get_endpoint_address := Ret (lit "1.2.3.4") |}.

#[export] Instance mock_connected : Connected mock_socket_socket.
Proof. by eexists. Qed.

(** [read_some]: with nothing to read it returns without calling back. *)
Definition mock_read_some (size : nat) (m : mock_socket) : option (str * mock_socket) :=
  match fake_input_buffer m with
  | [] => None
  | input =>
      let bytes_transferred := size `min` length input in
      Some (take bytes_transferred input,
            set_input_buffer (drop bytes_transferred input) m)
  end.

(** [read]: what there is, up to the number of bytes asked for; a negative
    number is a large one once it is a size. *)
Definition mock_read (bytes_to_read : Z) (m : mock_socket) : str * mock_socket :=
  let input := fake_input_buffer m in
  let bytes_transferred :=
    if (bytes_to_read <? 0)%Z then length input else Z.to_nat bytes_to_read `min` length input in
  (take bytes_transferred input, set_input_buffer (drop bytes_transferred input) m).

Definition mock_write (buf : str) (m : mock_socket) : mock_socket :=
  MockSocket (fake_input_buffer m) buf.

(** A read takes the first bytes of the input and no more than was asked. *)
Lemma mock_read_some_spec size m data m' :
  mock_read_some size m = Some (data, m') ->
  fake_input_buffer m = data ++ fake_input_buffer m' /\ length data <= size /\
  (0 < size -> data <> []) /\ fake_output_buffer m' = fake_output_buffer m.
Proof.
  unfold mock_read_some. destruct (fake_input_buffer m) as [|c input] eqn:E; [done|].
  intros H. injection H as <- <-. split; [symmetry; apply take_drop|].
  split; [rewrite length_take; lia|]. split; [|done]. intros. destruct size; [lia|done].
Qed.

Lemma mock_read_spec n m :
  fake_input_buffer m = (mock_read n m).1 ++ fake_input_buffer (mock_read n m).2.
Proof. symmetry. apply take_drop. Qed.
