(* ===== verification/Session.v ===== *)
(** * The session: src/src/session.cc

    A session is the three callbacks of a connection, over a socket.  Each
    callback starts one operation on the socket; [write] goes on after it has
    started its own, which is [finish].  A connection is the session, the server
    it shares with the others, the operation under way and what was sent. *)
From S2P Require Import Prelude CppStd StdMap Boost ConfigLexer ConfigParser Utils RequestParser.
From S2P Require Import Handlers Status ReverseProxy Meme Server Socket.

(** [max_length], the size of [data_]. *)
Definition max_length : nat := 1024.

Section session.
Context `{B : Beast} `{E : !Environment} `{F : BoostFilesystem} `{T : BoostString} `{K : Socket}.

(** [request_handler_] is not set by the constructor: [None]; a null pointer is
    [Some None]. *)
Record session := Session {
  request_parser_ : state;
  request_ : request;
  response_ : response;
  request_handler_ : option (option nat);
  body_data : str
}.

Definition new_session : session := Session method_start req_new resp_new None [].

Definition with_parser (p : state) (s : session) : session :=
  Session p (request_ s) (response_ s) (request_handler_ s) (body_data s).
Definition with_request (r : request) (s : session) : session :=
  Session (request_parser_ s) r (response_ s) (request_handler_ s) (body_data s).
Definition with_response (r : response) (s : session) : session :=
  Session (request_parser_ s) (request_ s) r (request_handler_ s) (body_data s).
Definition with_handler (h : option nat) (s : session) : session :=
  Session (request_parser_ s) (request_ s) (response_ s) (Some h) (body_data s).
Definition with_body_data (b : str) (s : session) : session :=
  Session (request_parser_ s) (request_ s) (response_ s) (request_handler_ s) b.

(** What a callback leaves: the session, the server and the operation. *)
Definition result : Type := session * server * operation.

(** A line of the log that begins with the address of the peer.
    [Logger::init] sets no filter, so that lines of every severity are put
    together and their arguments evaluated. *)
Definition log_address : outcome unit := _ ← get_endpoint_address; Ret tt.

(** Passing an uninitialised pointer has no meaning. *)
Definition log_session_metric (s : session) (srv : server) : outcome str :=
  address ← get_endpoint_address;
  match request_handler_ s with
  | None => Undef
  | Some ptr =>
      Ret ("[ResponseMetric]" ++
           "[" ++ address ++ "]" ++
           "[" ++ get_handler_type ptr srv ++ "]" ++
           "[" ++ req_target (request_ s) ++ "]" ++
           "[" ++ to_dec (resp_result (response_ s)) ++ "]")
  end.

Definition read_header (s : session) (srv : server) : outcome result :=
  _ ← log_address; Ret (s, srv, ReadSome).

Definition read_body (content_length : Z) (s : session) (srv : server) : outcome result :=
  _ ← log_address; Ret (s, srv, Read content_length).

(** [write], up to the call that starts the operation. *)
Definition write (s : session) (srv : server) : outcome result :=
  _ ← log_session_metric s srv;
  let response_str := print_response (response_ s) in
  _ ← log_address;
  Ret (s, srv, Write response_str).

(** The rest of [write], which looks at the session again. *)
Definition write_rest (s : session) (srv : server) : outcome server :=
  log_request (req_target (request_ s), int_to_status (resp_result (response_ s))) srv.

(** The rest of a callback, when nothing happens to the session while its
    operation is being started. *)
Definition finish (r : result) : outcome result :=
  let '(s, srv, op) := r in
  match op with
  | Write _ => srv ← write_rest s srv; Ret (s, srv, op)
  | _ => Ret r
  end.

(** [request_handler_->handle_request(request_)], stored in [response_]. *)
Definition answer (ptr : nat) (s : session) (srv : server) : outcome (session * server) :=
  let '(srv, resp) := call_handler ptr srv (request_ s) in
  resp ← resp;
  Ret (with_response resp s, srv).

(** The value of the header; -1 when it is not a number. *)
Definition content_length_of (req : request) : outcome Z :=
  match default [] (req_field req field_content_length) with
  | [] => Ret 0%Z
  | v => catch_all (stoi v) (-1)%Z
  end.

Definition append_body (t : str) (s : session) : session :=
  with_request (req_set_body (req_body (request_ s) ++ t) (request_ s)) s.

Definition bad_header_response : response :=
  show_error_page status_bad_request "Invalid request headers or content length".

Definition bad_uri_response (target : str) : response :=
  show_error_page status_bad_request ("Error getting handler for uri " ++ target).

(** [handle_request], and the line that logs the status it gave. *)
Definition answer_logged (ptr : nat) (s : session) (srv : server) : outcome (session * server) :=
  '(s, srv) ← answer ptr s srv; _ ← log_address; Ret (s, srv).

(** The branch for a complete header; [rest] is from [header_read_end] to the
    end of what was read. *)
Definition handle_complete_header (content_length : Z) (rest : str) (s : session) (srv : server)
  : outcome result :=
  _ ← log_address;
  handler ← get_request_handler (req_target (request_ s)) srv;
  let s := with_handler handler s in
  match handler with
  | None =>
      _ ← log_address;
      write (with_response (bad_uri_response (req_target (request_ s))) s) srv
  | Some ptr =>
      if decide (content_length = 0%Z) then
        '(s, srv) ← answer_logged ptr s srv; write s srv
      else
        let request_body_bytes := Z.of_nat (length rest) in
        _ ← log_address;
        if (content_length <=? request_body_bytes)%Z then
          '(s, srv) ← answer_logged ptr (append_body (take (Z.to_nat content_length) rest) s) srv;
          write s srv
        else
          read_body (content_length - request_body_bytes) (append_body rest s) srv
  end.

Definition handle_read_header (data : str) (s : session) (srv : server) : outcome result :=
  '(request_parse_result, rest, p, req) ← parse (request_parser_ s) (request_ s) data;
  let s := with_request req (with_parser p s) in
  content_length ← content_length_of (request_ s);
  if decide (request_parse_result = Some false \/ (content_length < 0)%Z) then
    _ ← log_address;
    write (with_response bad_header_response s) srv
  else match request_parse_result with
       | Some _ => handle_complete_header content_length rest s srv
       | None => _ ← log_address; read_header s srv
       end.

(** The bytes read are added to [body_data], which is then the rest of the
    body. *)
Definition handle_read_body (data : str) (s : session) (srv : server) : outcome result :=
  let s := with_body_data (body_data s ++ data) s in
  let s := append_body (body_data s) s in
  match request_handler_ s with
  | None => Undef
  | Some (Some ptr) => '(s, srv) ← answer ptr s srv; write s srv
  | Some None => write (with_response (show_error_page status_bad_request default_message) s) srv
  end.

Definition handle_write (s : session) (srv : server) : outcome result :=
  _ ← log_address;
  let s := with_parser reset s in
  let s := with_request (req_set_body [] (req_clear (request_ s))) s in
  let s := with_body_data [] s in
  read_header s srv.

(** What every callback does when it is told of an error: the session ends. *)
Definition handle_error (s : session) (srv : server) : outcome result :=
  _ ← log_address; Ret (s, srv, Done).

(** The callback of an operation. *)
Definition callback (op : operation) (e : event) (s : session) (srv : server) : outcome result :=
  match op, e with
  | ReadSome, GotSome data => handle_read_header data s srv
  | Read _, GotBytes data => handle_read_body data s srv
  | Write _, Written => handle_write s srv
  | _, _ => handle_error s srv
  end.

(** [start] *)
Definition start (s : session) (srv : server) : outcome result := _ ← log_address; read_header s srv.

(** ** Connections *)

Record connection := Connection {
  conn_session : session;
  conn_server : server;
  under_way : operation;
  sent : list str
}.

Definition connect (out : list str) (r : result) : connection :=
  let '(s, srv, op) := r in Connection s srv op out.

(** A callback that runs to the end. *)
Definition returned (out : list str) (o : outcome result) : outcome connection :=
  r ← o; r ← finish r; Ret (connect out r).

(** What the peer has been sent when an operation completes. *)
Definition sent_by (op : operation) (e : event) : list str :=
  match op, e with Write buffer, Written => [buffer] | _, _ => [] end.

(** An operation completes, and its callback runs to the end. *)
Definition complete (e : event) (c : connection) : outcome connection :=
  returned (sent c ++ sent_by (under_way c) e)
    (callback (under_way c) e (conn_session c) (conn_server c)).

Fixpoint run (events : list event) (c : connection) : outcome connection :=
  match events with
  | [] => Ret c
  | e :: events => c ← complete e c; run events c
  end.

(** A connection from its start. *)
Definition run_connection (events : list event) (srv : server) : outcome connection :=
  r ← start new_session srv; run events (connect [] r).
End session.
