(* ===== verification/SessionServe.v ===== *)
(** * What a connection does with a request

    A request is answered by the handler of its URI with exactly its body,
    however its bytes are split into reads after the head, and leaves the
    session ready for the next. *)
From S2P Require Import Prelude CppStd StdMap Boost BoostModel ConfigLexer ConfigParser Utils.
From S2P Require Import RequestParser RequestGrammar RequestMessage Handlers Status ReverseProxy.
From S2P Require Import Meme Server ExampleServer ServerLookup ServerState Socket Session.

Section serve.
Context `{BL : BeastLaws} `{E : !Environment} `{F : BoostFilesystem} `{T : BoostString}.
Context `{C : Connected}.

(** ** A peer that is there *)

Lemma log_address_ok : log_address = Ret tt.
Proof. unfold log_address. by destruct connected as [a ->]. Qed.

Lemma answer_logged_ok ptr s srv : answer_logged ptr s srv = answer ptr s srv.
Proof.
  unfold answer_logged. rewrite log_address_ok. by destruct (answer ptr s srv) as [[]| | |].
Qed.

Lemma read_header_ok s srv : read_header s srv = Ret (s, srv, ReadSome).
Proof. unfold read_header. by rewrite log_address_ok. Qed.

Lemma read_body_ok n s srv : read_body n s srv = Ret (s, srv, Read n).
Proof. unfold read_body. by rewrite log_address_ok. Qed.

Lemma write_ok s srv h :
  request_handler_ s = Some h -> write s srv = Ret (s, srv, Write (print_response (response_ s))).
Proof.
  intros Hh. unfold write, log_session_metric. rewrite Hh, log_address_ok.
  by destruct connected as [a ->].
Qed.

(** ** One request *)

(** Nothing of an earlier request is left. *)
Record ready (s : session) : Prop := {
  ready_parser : request_parser_ s = method_start;
  ready_body : req_body (request_ s) = [];
  ready_data : body_data s = [];
  ready_fields n : req_field (request_ s) n = None
}.

Lemma ready_new : ready new_session.
Proof. split; simpl; try done; intros; by autorewrite with beast. Qed.

(** The session once its response is written. *)
Definition after_write (s : session) : session :=
  with_body_data [] (with_request (req_set_body [] (req_clear (request_ s))) (with_parser reset s)).

Lemma handle_write_ok s srv : handle_write s srv = Ret (after_write s, srv, ReadSome).
Proof. unfold handle_write. by rewrite log_address_ok, bind_Ret, read_header_ok. Qed.

Lemma ready_after_write s : ready (after_write s).
Proof. split; simpl; try done; [|intros n]; by autorewrite with beast. Qed.

Lemma target_after_write s : req_target (request_ (after_write s)) = req_target (request_ s).
Proof. simpl. by autorewrite with beast. Qed.

Lemma ready_written s srv :
  exists s', handle_write s srv = Ret (s', srv, ReadSome) /\ ready s' /\
    request_handler_ s' = request_handler_ s.
Proof. exists (after_write s). split; [apply handle_write_ok|]. split; [apply ready_after_write|done]. Qed.

(** The value of a header of the head. *)
Definition head_field (q : concrete_request) (n : str) : option str :=
  field_of (denote_header <$> c_headers q) n None.

(** The message the handler is given. *)
Definition carries (r : request) (q : concrete_request) (body : str) : Prop :=
  req_method r = string_to_verb (c_method q) /\ req_target r = c_uri q /\
  req_version r = head_version q /\ req_body r = body /\
  forall n, req_field r n = head_field q n.

Lemma parse_ready q rest s :
  valid_head q -> ready s ->
  exists r, parse (request_parser_ s) (request_ s) (print_head q ++ rest)
            = Ret (Some true, rest, expecting_newline_3, r) /\ carries r q [].
Proof.
  intros Hq [R1 R2 R3 R4]. rewrite R1.
  destruct (parse_valid q rest (request_ s) Hq) as (r & ? & ? & ? & ? & Hb & Hf).
  exists r. split; [done|]. unfold carries, head_field. rewrite Hb, R2.
  repeat (split; [done|]). intros n. by rewrite Hf, R4.
Qed.

(** The head's [Content-Length]. *)
Definition head_length (q : concrete_request) : outcome Z :=
  match default [] (head_field q field_content_length) with
  | [] => Ret 0%Z
  | v => catch_all (stoi v) (-1)%Z
  end.

Lemma content_length_carries r q body : carries r q body -> content_length_of r = head_length q.
Proof. intros (_ & _ & _ & _ & Hf). unfold content_length_of, head_length. by rewrite Hf. Qed.

Lemma carries_append r q b t :
  carries r q b -> carries (req_set_body (req_body r ++ t) r) q (b ++ t).
Proof.
  intros (H1 & H2 & H3 & H4 & H5). unfold carries. autorewrite with beast. rewrite H4.
  repeat (split; [done|]). intros n. autorewrite with beast. apply H5.
Qed.

(** The events that bring [body] after the head: all of it, and maybe more,
    with the head, or its end in a second read. *)
Definition request_events (q : concrete_request) (part more : str) : list event :=
  GotSome (print_head q ++ part) :: match more with [] => [] | _ => [GotBytes more] end.

Lemma complete_read data s srv out :
  complete (GotSome data) (Connection s srv ReadSome out) = returned out (handle_read_header data s srv).
Proof. unfold complete; simpl. by rewrite app_nil_r. Qed.

Lemma complete_body data s srv n out :
  complete (GotBytes data) (Connection s srv (Read n) out) = returned out (handle_read_body data s srv).
Proof. unfold complete; simpl. by rewrite app_nil_r. Qed.

Lemma run_request_events q part more s srv out :
  run (request_events q part more) (Connection s srv ReadSome out) =
  c ← returned out (handle_read_header (print_head q ++ part) s srv);
  match more with [] => Ret c | _ => complete (GotBytes more) c end.
Proof.
  unfold request_events. cbn [run]. rewrite complete_read.
  destruct (returned _ _) as [c| | |]; [|done..]. rewrite !bind_Ret.
  destruct more; [done|]. simpl run. by destruct (complete _ _).
Qed.

(** A handler is called, its response is written and logged, and the write
    completes. *)
Lemma answer_written ptr s srv out h :
  request_handler_ s = Some h ->
  (c ← returned out ('(s, srv) ← answer ptr s srv; write s srv); run [Written] c) =
  let '(srv1, answered) := call_handler ptr srv (request_ s) in
  resp ← answered;
  srv2 ← log_request (req_target (request_ s), int_to_status (resp_result resp)) srv1;
  Ret (Connection (after_write (with_response resp s)) srv2 ReadSome (out ++ [print_response resp])).
Proof.
  intros Hh. unfold answer. destruct (call_handler ptr srv (request_ s)) as [srv1 [resp| | |]]; [|done..].
  rewrite !bind_Ret, (write_ok (with_response resp s) srv1 h) by done.
  unfold returned, finish, write_rest. rewrite !bind_Ret. simpl.
  destruct (log_request _ srv1) as [srv2| | |]; [|done..]. rewrite !bind_Ret. cbn [run connect].
  unfold complete; simpl. by rewrite handle_write_ok.
Qed.

Lemma handle_read_header_valid q rest s srv n ptr :
  valid_head q -> ready s -> head_length q = Ret n -> (0 <= n)%Z ->
  get_request_handler (c_uri q) srv = Ret (Some ptr) ->
  exists s1, request_handler_ s1 = Some (Some ptr) /\ body_data s1 = [] /\
    carries (request_ s1) q [] /\
    handle_read_header (print_head q ++ rest) s srv =
      if decide (n = 0%Z) then '(s, srv) ← answer ptr s1 srv; write s srv
      else if (n <=? Z.of_nat (length rest))%Z
      then '(s, srv) ← answer ptr (append_body (take (Z.to_nat n) rest) s1) srv; write s srv
      else Ret (append_body rest s1, srv, Read (n - Z.of_nat (length rest))).
Proof.
  intros Hq Hs Hn Hpos Hg. unfold handle_read_header.
  destruct (parse_ready q rest s Hq Hs) as (r & Hr & Hc). rewrite Hr, bind_Ret.
  cbn [request_ with_request with_parser]. rewrite (content_length_carries r q []), Hn, bind_Ret by done.
  rewrite decide_False by (intros [?|?]; [done|lia]).
  unfold handle_complete_header. cbn [request_ with_request with_parser].
  destruct Hc as (H1 & H2 & H3).
  rewrite H2, Hg, log_address_ok, !bind_Ret, !answer_logged_ok, read_body_ok.
  eexists (with_handler (Some ptr) (with_request r (with_parser expecting_newline_3 s))).
  split; [done|]. split; [apply Hs|]. split; [done|]. reflexivity.
Qed.

Lemma run_app es1 es2 (c : connection) : run (es1 ++ es2) c = c ← run es1 c; run es2 c.
Proof.
  revert c. induction es1 as [|e es1 IH]; intros c; [done|]. cbn [app run].
  destruct (complete e c); simpl; auto.
Qed.

Lemma body_read q ptr part more s1 srv :
  request_handler_ s1 = Some (Some ptr) -> body_data s1 = [] -> carries (request_ s1) q [] ->
  exists s3, carries (request_ s3) q (part ++ more) /\ request_handler_ s3 = Some (Some ptr) /\
    handle_read_body more (append_body part s1) srv = '(s, srv) ← answer ptr s3 srv; write s srv.
Proof.
  intros Hh Hb Hc. unfold handle_read_body.
  set (s2 := with_body_data (body_data (append_body part s1) ++ more) (append_body part s1)).
  assert (body_data s2 = more) as Hb2 by (simpl; by rewrite Hb).
  assert (request_handler_ (append_body (body_data s2) s2) = Some (Some ptr)) as Hh2 by done.
  rewrite Hh2. exists (append_body (body_data s2) s2).
  split; [|done]. rewrite Hb2. unfold append_body; simpl.
  apply (carries_append _ q part), (carries_append _ q []). done.
Qed.

(** A request that comes on a connection, in one read or two. *)
Record client_request := ClientRequest {
  cr_head : concrete_request;
  cr_length : Z;
  cr_part : str;
  cr_more : str
}.

(** The head is valid and announces the length; the body is in the first read, or
    partly there and the rest in a second. *)
Record cr_valid (x : client_request) : Prop := {
  cr_valid_head : valid_head (cr_head x);
  cr_announced : head_length (cr_head x) = Ret (cr_length x);
  cr_natural : (0 <= cr_length x)%Z;
  cr_split :
    (cr_more x = [] /\ (cr_length x <= Z.of_nat (length (cr_part x)))%Z) \/
    (cr_more x <> [] /\ (Z.of_nat (length (cr_part x) + length (cr_more x)) = cr_length x)%Z)
}.

Definition cr_body (x : client_request) : str := take (Z.to_nat (cr_length x)) (cr_part x ++ cr_more x).

(** What happens on the connection until its response is written. *)
Definition cr_events (x : client_request) : list event :=
  request_events (cr_head x) (cr_part x) (cr_more x) ++ [Written].

(** The key it is counted under. *)
Definition cr_key (x : client_request) (resp : response) : str * Z :=
  (c_uri (cr_head x), int_to_status (resp_result resp)).

(** All that a request does: the handler is called with one message, which
    carries it, and its response is logged and written. *)
Lemma serve_one (x : client_request) (s : session) (srv : server) (ptr : nat) (out : list str) :
  cr_valid x -> ready s -> get_request_handler (c_uri (cr_head x)) srv = Ret (Some ptr) ->
  exists s1, carries (request_ s1) (cr_head x) (cr_body x) /\ request_handler_ s1 = Some (Some ptr) /\
    run (cr_events x) (Connection s srv ReadSome out) =
    let '(srv1, answered) := call_handler ptr srv (request_ s1) in
    resp ← answered; srv2 ← log_request (cr_key x resp) srv1;
    Ret (Connection (after_write (with_response resp s1)) srv2 ReadSome (out ++ [print_response resp])).
Proof.
  destruct x as [q n part more]. intros [Hq Hn Hpos Hsplit] Hs Hg. unfold cr_events, cr_body, cr_key.
  cbn [cr_head cr_length cr_part cr_more] in *. rewrite run_app, run_request_events.
  assert (forall s1 body, carries (request_ s1) q body -> request_handler_ s1 = Some (Some ptr) ->
    (c ← returned out ('(s, srv) ← answer ptr s1 srv; write s srv); run [Written] c) =
    let '(srv1, answered) := call_handler ptr srv (request_ s1) in
    resp ← answered; srv2 ← log_request (c_uri q, int_to_status (resp_result resp)) srv1;
    Ret (Connection (after_write (with_response resp s1)) srv2 ReadSome (out ++ [print_response resp])))
    as Hanswer.
  { intros s1 body (_ & <- & _) Hh. by apply (answer_written ptr s1 srv out (Some ptr)). }
  destruct (handle_read_header_valid q part s srv n ptr Hq Hs Hn Hpos Hg) as (s1 & Hh & Hb & Hc & ->).
  destruct Hsplit as [[-> Hle]|[Hne Hlen]].
  - rewrite app_nil_r, bind_ret_r. case_decide as H0.
    + subst n. exists s1. split; [done|]. split; [done|]. by eapply Hanswer.
    + rewrite (proj2 (Z.leb_le _ _) Hle). exists (append_body (take (Z.to_nat n) part) s1).
      pose proof (carries_append _ q [] (take (Z.to_nat n) part) Hc) as Hc'.
      split; [done|]. split; [done|]. by eapply Hanswer.
  - assert (0 < length more) by (destruct more; [done|simpl; lia]).
    rewrite decide_False by lia.
    destruct (Z.leb_spec n (Z.of_nat (length part))); [destruct more; [done|simpl in *; lia]|].
    unfold returned at 1. rewrite !bind_Ret. cbn [finish]. rewrite !bind_Ret. cbn [connect].
    destruct (body_read q ptr part more s1 srv Hh Hb Hc) as (s3 & Hr & Hh3 & Hcomp).
    exists s3. rewrite take_ge by (rewrite length_app; lia). split; [done|]. split; [done|].
    destruct more as [|c more]; [done|]. rewrite complete_body, Hcomp. by eapply Hanswer.
Qed.

(** ** Requests that follow each other *)

(** The configuration has a handler for it. *)
Definition dispatched (srv : server) (x : client_request) : Prop :=
  exists ptr, get_request_handler (c_uri (cr_head x)) srv = Ret (Some ptr).

(** What is promised of requests that are answered one after the other: each
    time the handler of the URI is called once, on the server as it was left,
    with a message that carries the request, and what it answers is logged. *)
Inductive exchange : server -> list (client_request * request * response) -> server -> Prop :=
| exchange_nil srv : exchange srv [] srv
| exchange_cons x ptr r srv srv1 resp srv2 l srv3 :
    get_request_handler (c_uri (cr_head x)) srv = Ret (Some ptr) ->
    carries r (cr_head x) (cr_body x) ->
    call_handler ptr srv r = (srv1, Ret resp) -> log_request (cr_key x resp) srv1 = Ret srv2 ->
    exchange srv2 l srv3 -> exchange srv ((x, r, resp) :: l) srv3.

(** The requests and the responses of an exchange. *)
Definition asked (l : list (client_request * request * response)) : list client_request := (fst ∘ fst) <$> l.
Definition told (l : list (client_request * request * response)) : list str := (print_response ∘ snd) <$> l.

(** Why a request is not answered: its handler fails, or its response cannot be
    counted. *)
Inductive refused (srv : server) (x : client_request) : Prop :=
| handler_refuses ptr r :
    get_request_handler (c_uri (cr_head x)) srv = Ret (Some ptr) ->
    carries r (cr_head x) (cr_body x) ->
    (forall resp, (call_handler ptr srv r).2 <> Ret resp) -> refused srv x
| log_refuses ptr r srv1 resp :
    get_request_handler (c_uri (cr_head x)) srv = Ret (Some ptr) ->
    carries r (cr_head x) (cr_body x) -> call_handler ptr srv r = (srv1, Ret resp) ->
    (forall srv2, log_request (cr_key x resp) srv1 <> Ret srv2) -> refused srv x.

(** A call is answered and logged, or the request is refused. *)
Lemma answered_or_refused srv x ptr r :
  get_request_handler (c_uri (cr_head x)) srv = Ret (Some ptr) -> carries r (cr_head x) (cr_body x) ->
  (exists srv1 resp srv2, call_handler ptr srv r = (srv1, Ret resp) /\
     log_request (cr_key x resp) srv1 = Ret srv2) \/
  (refused srv x /\ forall srv1 resp srv2, call_handler ptr srv r = (srv1, Ret resp) ->
     log_request (cr_key x resp) srv1 <> Ret srv2).
Proof.
  intros Hg Hc. destruct (call_handler ptr srv r) as [srv1 o] eqn:Hcall.
  assert ((forall resp, o <> Ret resp) -> refused srv x) as Hfail.
  { intros Ho. apply (handler_refuses srv x ptr r Hg Hc). by rewrite Hcall. }
  destruct o as [resp| | |]; [|right; split; [by apply Hfail|done]..].
  assert ((forall srv2, log_request (cr_key x resp) srv1 <> Ret srv2) -> refused srv x) as Hlog
    by (intros Hn; by apply (log_refuses srv x ptr r srv1 resp)).
  destruct (log_request (cr_key x resp) srv1) as [srv2| | |] eqn:El;
    [left; by exists srv1, resp, srv2|right; split; [by apply Hlog|];
     intros ? ? ? [= <- <-]; by rewrite El..].
Qed.

Lemma served_keeps ptr srv r srv1 o k srv2 :
  call_handler ptr srv r = (srv1, o) -> log_request k srv1 = Ret srv2 -> keeps srv srv2.
Proof. intros H1%keeps_call_handler H2%keeps_log_request. by eapply keeps_trans. Qed.

Lemma dispatched_kept srv srv' x : keeps srv srv' -> dispatched srv x -> dispatched srv' x.
Proof. intros Hk [ptr Hg]. exists ptr. by rewrite (get_request_handler_kept _ _ _ Hk). Qed.

Lemma exchange_keeps srv l srv' : exchange srv l srv' -> keeps srv srv'.
Proof.
  induction 1 as [srv|x ptr r srv srv1 resp srv2 l srv3 _ _ Hc Hl _ IH]; [apply keeps_refl|].
  eapply keeps_trans; [by eapply served_keeps|exact IH].
Qed.

(** C1: a valid request is answered with its own body.  On a session that is
    ready, a head and a body of [Content-Length] bytes - in the first read, or
    partly there and the rest in a second - reach the handler of the URI as one
    request with the head's method, target, version and fields and exactly these
    bytes as its body; when the handler answers, its response is logged once and
    sent, and the session is ready again. *)
Theorem request_served (q : concrete_request) (n : Z) (s : session)
    (srv : server) (ptr : nat) (part more : str) (out : list str) :
  valid_head q -> ready s -> head_length q = Ret n -> (0 <= n)%Z ->
  get_request_handler (c_uri q) srv = Ret (Some ptr) ->
  (more = [] /\ (n <= Z.of_nat (length part))%Z) \/
  (more <> [] /\ (Z.of_nat (length part + length more) = n)%Z) ->
  exists r, carries r q (take (Z.to_nat n) (part ++ more)) /\
    forall srv1 resp srv2,
      call_handler ptr srv r = (srv1, Ret resp) ->
      log_request (c_uri q, int_to_status (resp_result resp)) srv1 = Ret srv2 ->
      exists s', run (request_events q part more ++ [Written]) (Connection s srv ReadSome out)
                 = Ret (Connection s' srv2 ReadSome (out ++ [print_response resp])) /\
        ready s' /\ exists h, request_handler_ s' = Some h.
Proof.
  intros Hq Hs Hn Hpos Hg Hsplit.
  destruct (serve_one (ClientRequest q n part more) s srv ptr out (Build_cr_valid (ClientRequest q n part more) Hq Hn Hpos Hsplit) Hs Hg)
    as (s1 & Hc & Hh & Hrun).
  exists (request_ s1). split; [exact Hc|]. intros srv1 resp srv2 Hcall Hlog.
  unfold cr_events, cr_key in Hrun. cbn [cr_head cr_part cr_more] in Hrun.
  rewrite Hcall, bind_Ret, Hlog, bind_Ret in Hrun. eexists. split; [exact Hrun|].
  split; [apply ready_after_write|by exists (Some ptr)].
Qed.

(** C10: requests that follow each other on a connection are answered in order.
    Of any sequence of valid requests for which the server has handlers, whatever
    these are, each is given to its handler alone - nothing of the requests before
    it, body or fields, is left - called once, on the server as the request before
    left it, and is answered with what the handler returns; this goes on to the end
    of the sequence, or to the first request whose handler fails or whose response
    cannot be counted, and there the connection does not go on. *)
Theorem connection_serves_in_order (xs : list client_request) (srv : server) (s : session) (out : list str) :
  Forall cr_valid xs -> Forall (dispatched srv) xs -> ready s ->
  exists l rest srv' s', xs = asked l ++ rest /\ exchange srv l srv' /\
    run (asked l ≫= cr_events) (Connection s srv ReadSome out) =
      Ret (Connection s' srv' ReadSome (out ++ told l)) /\ ready s' /\
    match rest with
    | [] => True
    | x :: _ => refused srv' x /\
                forall c, run (cr_events x) (Connection s' srv' ReadSome (out ++ told l)) <> Ret c
    end.
Proof.
  intros Hv. revert srv s out. induction Hv as [|x xs Hx _ IH]; intros srv s out Hd Hs.
  { exists [], [], srv, s. unfold asked, told. simpl. rewrite app_nil_r. split; [done|]. split; [constructor|done]. }
  apply Forall_cons in Hd as [[ptr Hg] Hd].
  destruct (serve_one x s srv ptr out Hx Hs Hg) as (s1 & Hc & _ & Hrun).
  destruct (answered_or_refused srv x ptr (request_ s1) Hg Hc)
    as [(srv1 & resp & srv2 & Hcall & Hlog)|[Hr Hno]]; cycle 1.
  { exists [], (x :: xs), srv, s. unfold asked, told. rewrite !fmap_nil, app_nil_r. split; [done|]. split; [constructor|].
    split; [done|]. split; [done|]. split; [exact Hr|]. intros c. rewrite Hrun.
    destruct (call_handler ptr srv (request_ s1)) as [srv1 [resp| | |]]; try done. rewrite bind_Ret. intros H.
    apply bind_ret_inv in H as (srv2 & Hlog & _). by apply (Hno srv1 resp srv2). }
  rewrite Hcall, bind_Ret, Hlog, bind_Ret in Hrun.
  destruct (IH srv2 (after_write (with_response resp s1)) (out ++ [print_response resp]))
    as (l & rest & srv' & s' & -> & He & Hrest & Hs' & Hlast).
  { eapply Forall_impl; [exact Hd|]. intros y. apply dispatched_kept. by eapply served_keeps. }
  { apply ready_after_write. }
  exists ((x, request_ s1, resp) :: l), rest, srv', s'. split; [done|]. split; [by econstructor|].
  unfold asked, told. rewrite !fmap_cons, bind_cons, run_app. cbn [fst snd compose]. rewrite Hrun, bind_Ret.
  rewrite <-app_assoc in Hrest, Hlast. by split.
Qed.
End serve.

(** ** Witnesses *)

#[local] Existing Instance lexical_filesystem.
#[local] Existing Instance example_environment.
#[local] Instance example_socket : Socket := tcp_socket_wrapper (Some (lit "1.2.3.4")).
#[local] Instance example_connected : Connected example_socket := tcp_connected _.

(** A POST with a body of five bytes, in two reads. *)
Definition example_post : concrete_request :=
  CRequest "POST" "/echo/x" "1" "1" [CHeader "Content-Length" "5" []].

Lemma example_post_valid : valid_head example_post.
Proof. split; try reflexivity; [simpl; lia|simpl; lia|done|by vm_compute]. Qed.

Lemma request_served_witness :
  exists r, carries r example_post (take (Z.to_nat 5) (lit "hel" ++ "lo")) /\
    forall srv1 resp srv2,
      call_handler 2 example_server r = (srv1, Ret resp) ->
      log_request (c_uri example_post, int_to_status (resp_result resp)) srv1 = Ret srv2 ->
      exists s', run (request_events example_post "hel" "lo" ++ [Written])
                   (Connection new_session example_server ReadSome [])
                 = Ret (Connection s' srv2 ReadSome ([] ++ [print_response resp])) /\
        ready s' /\ exists h, request_handler_ s' = Some h.
Proof.
  apply (request_served example_post 5 new_session example_server 2 "hel" "lo" []);
    [apply example_post_valid|apply ready_new|reflexivity|lia|vm_compute; reflexivity|].
  right. split; [done|reflexivity].
Defined.

(** A request that every handler answers alike, whatever its fields. *)
Definition example_get : concrete_request := CRequest "GET" "/elsewhere" "1" "1" [].

Lemma example_get_valid : valid_head example_get.
Proof. split; try reflexivity; [simpl; lia|simpl; lia|done|by vm_compute]. Qed.

Definition example_not_found : response (Beast := model_beast) :=
  show_error_page status_not_found ("Uri path " ++ c_uri example_get ++ " not found").

Definition logged_once : server :=
  match log_request (c_uri example_get, 404%Z) example_server with Ret s => s | _ => example_server end.

(** A request with a body in two reads, which is echoed, and one without. *)
Definition example_requests : list client_request :=
  [ClientRequest example_post 5 "hel" "lo"; ClientRequest example_get 0 [] []].

Lemma example_requests_valid : Forall cr_valid example_requests.
Proof.
  constructor; [|apply Forall_singleton]; split;
    [apply example_post_valid|reflexivity|simpl; lia|by right|apply example_get_valid|reflexivity|simpl; lia|by left].
Qed.

Lemma example_requests_dispatched : Forall (dispatched example_server) example_requests.
Proof.
  constructor; [exists 2; vm_compute; reflexivity|]. apply Forall_singleton. exists 0. vm_compute. reflexivity.
Qed.

Lemma connection_serves_in_order_witness :
  exists l rest srv' s', example_requests = asked l ++ rest /\ exchange example_server l srv' /\
    run (asked l ≫= cr_events) (Connection new_session example_server ReadSome []) =
      Ret (Connection s' srv' ReadSome ([] ++ told l)) /\ ready s' /\
    match rest with
    | [] => True
    | x :: _ => refused srv' x /\
                forall c, run (cr_events x) (Connection s' srv' ReadSome ([] ++ told l)) <> Ret c
    end.
Proof.
  apply connection_serves_in_order;
    [apply example_requests_valid|apply example_requests_dispatched|apply ready_new].
Defined.

(** Both are answered. *)
Example example_requests_answered :
  sent <$> run (example_requests ≫= cr_events) (Connection new_session example_server ReadSome []) =
  Ret [print_response (text_response "text/plain" (print_head example_post ++ "hello"));
       print_response example_not_found].
Proof. vm_compute. reflexivity. Qed.
