(* ===== verification/SessionSafety.v ===== *)
(** * What every connection keeps, and where one goes wrong

    What the callbacks keep of the server and of the pointers to its handlers;
    the answers to bad requests. *)
From S2P Require Import Prelude CppStd StdMap Boost BoostModel ConfigLexer ConfigParser Utils.
From S2P Require Import RequestParser RequestGrammar RequestMessage Handlers Status ReverseProxy.
From S2P Require Import Meme Server ExampleServer ServerLookup ServerState Socket Session.
From S2P Require Import SessionServe.

Section safety.
Context `{BL : BeastLaws} `{E : !Environment} `{FL : BoostFilesystemLaws} `{T : BoostString}.
Context `{K : Socket}.

(** ** What a callback keeps *)

(** A pointer to a handler leads to an object, and stays one. *)
Definition pointer_ok (srv : server) (h : option (option nat)) : Prop :=
  forall p, h = Some (Some p) -> p < length (objects_ srv).

(** A body is only read for a handler that was found. *)
Definition session_ok (srv : server) (c : session * operation) : Prop :=
  pointer_ok srv (request_handler_ c.1) /\
  match c.2 with
  | Read n => (0 < n)%Z /\ exists p, request_handler_ c.1 = Some (Some p)
  | _ => True
  end.

(** Up to the operation they start, callbacks do not touch the requests that
    are counted either. *)
Definition quiet (s s' : server) : Prop := keeps s s' /\ requests_ s' = requests_ s.

Lemma quiet_refl s : quiet s s.
Proof. split; [apply keeps_refl|done]. Qed.

Lemma quiet_effects es s : quiet s (foldl apply_effect s es).
Proof.
  split; [apply keeps_effects|]. revert s. induction es as [|e es IH]; intros s; [done|].
  simpl. rewrite IH. destruct e; [|done]. simpl. unfold log_meme. by destruct (map_find _ _).
Qed.

Lemma quiet_answer ptr s srv s' srv' : answer ptr s srv = Ret (s', srv') ->
  quiet srv srv' /\ request_handler_ s' = request_handler_ s.
Proof.
  unfold answer, call_handler. intros H. destruct (objects_ srv !! ptr) as [h|]; [|by inv_ret].
  destruct (handle_request h srv (request_ s)) as [es o] eqn:Eh. inv_ret.
  split; [apply quiet_effects|done].
Qed.

Lemma quiet_answer_logged ptr s srv s' srv' : answer_logged ptr s srv = Ret (s', srv') ->
  quiet srv srv' /\ request_handler_ s' = request_handler_ s.
Proof.
  unfold answer_logged. intros H. apply bind_ret_inv in H as ([s1 srv1] & Ha & H). inv_ret.
  by apply quiet_answer in Ha.
Qed.

Lemma write_result s srv r : write s srv = Ret r -> r = (s, srv, Write (print_response (response_ s))).
Proof. unfold write. intros H. by inv_ret. Qed.

(** The result of a callback on a session. *)
Definition callback_ok (srv : server) (r : result) : Prop :=
  let '(s', srv', op) := r in quiet srv srv' /\ session_ok srv' (s', op).

Lemma pointer_ok_keeps srv srv' h : keeps srv srv' -> pointer_ok srv h -> pointer_ok srv' h.
Proof. intros [[E1 _] _] H p Hp. rewrite E1. by apply H. Qed.

Lemma write_kept s srv r : pointer_ok srv (request_handler_ s) -> write s srv = Ret r -> callback_ok srv r.
Proof. intros Hp ->%write_result. split; [apply quiet_refl|by split]. Qed.

Lemma answer_write_kept ptr s srv r (f : nat -> session -> server -> outcome (session * server)) :
  (forall s' srv', f ptr s srv = Ret (s', srv') ->
     quiet srv srv' /\ request_handler_ s' = request_handler_ s) ->
  pointer_ok srv (request_handler_ s) ->
  ('(s, srv) ← f ptr s srv; write s srv) = Ret r -> callback_ok srv r.
Proof.
  intros Hf Hp H. apply bind_ret_inv in H as ([s1 srv1] & [Hk Hh]%Hf & ->%write_result).
  split; [done|]. split; [|done]. simpl. rewrite Hh. by eapply pointer_ok_keeps; [apply Hk|].
Qed.

Lemma found_pointer srv uri p :
  server_inv srv -> get_request_handler uri srv = Ret (Some p) -> p < length (objects_ srv).
Proof.
  intros Hs Hg. pose proof Hg as Hg'. unfold get_request_handler in Hg'. inv_ret. clear Hg' Hv0 v0.
  destruct (get_request_handler_longest uri srv v Hv) as (ds & _ & _ & Hg2).
  rewrite Hg in Hg2. injection Hg2 as Hl. symmetry in Hl. apply longest_prefix_Some in Hl as (k & _ & Hf & _).
  destruct (inv_target srv Hs _ _ Hf) as (_ & h & Hh & _). by eapply lookup_lt_Some.
Qed.

Lemma handle_complete_header_ok n rest s srv r :
  server_inv srv -> pointer_ok srv (request_handler_ s) -> (0 <= n)%Z ->
  handle_complete_header n rest s srv = Ret r -> callback_ok srv r.
Proof.
  intros Hs Hp Hn H. unfold handle_complete_header in H.
  apply bind_ret_inv in H as (_ & _ & H).
  apply bind_ret_inv in H as (h & Hh & H). destruct h as [ptr|].
  - assert (pointer_ok srv (Some (Some ptr))) as Hptr.
    { intros p [= <-]. by eapply found_pointer. }
    case_decide; [by eapply answer_write_kept; [apply quiet_answer_logged| |exact H]|].
    apply bind_ret_inv in H as (_ & _ & H).
    destruct (Z.leb_spec n (Z.of_nat (length rest)));
      [by eapply answer_write_kept; [apply quiet_answer_logged| |exact H]|].
    unfold read_body in H. inv_ret. split; [apply quiet_refl|]. split; [done|]. split; [lia|by eexists].
  - apply bind_ret_inv in H as (_ & _ & H). by eapply write_kept; [|exact H].
Qed.

Lemma handle_read_header_ok data s srv r :
  server_inv srv -> pointer_ok srv (request_handler_ s) ->
  handle_read_header data s srv = Ret r -> callback_ok srv r.
Proof.
  intros Hs Hp H. unfold handle_read_header in H.
  apply bind_ret_inv in H as ([[[res rest] p] req] & _ & H).
  apply bind_ret_inv in H as (n & _ & H).
  case_decide as Hbad; [apply bind_ret_inv in H as (_ & _ & H); by eapply write_kept; [|exact H]|].
  destruct res as [b|].
  - apply (handle_complete_header_ok n rest (with_request req (with_parser p s)) srv r Hs Hp); [|exact H]. apply Z.nlt_ge. tauto.
  - unfold read_header in H. inv_ret. split; [apply quiet_refl|]. by split.
Qed.

Lemma handle_read_body_ok data s srv r :
  pointer_ok srv (request_handler_ s) -> handle_read_body data s srv = Ret r -> callback_ok srv r.
Proof.
  intros Hp H. unfold handle_read_body in H.
  destruct (request_handler_ (append_body _ _)) as [[ptr|]|] eqn:Eh; [| |done].
  - by eapply answer_write_kept; [apply quiet_answer| |exact H].
  - by eapply write_kept; [|exact H].
Qed.

Lemma callback_kept op e s srv r :
  server_inv srv -> session_ok srv (s, op) -> callback op e s srv = Ret r -> callback_ok srv r.
Proof.
  intros Hs [Hp Hop] H. simpl in Hp.
  destruct op, e; simpl in H;
    try (unfold handle_error in H; inv_ret; split; [apply quiet_refl|by split]).
  - by eapply handle_read_header_ok.
  - by eapply handle_read_body_ok.
  - unfold handle_write, read_header in H. inv_ret. split; [apply quiet_refl|by split].
Qed.

Lemma keeps_write_rest s srv srv' : write_rest s srv = Ret srv' -> keeps srv srv'.
Proof. apply keeps_log_request. Qed.

Lemma start_kept s srv r :
  pointer_ok srv (request_handler_ s) -> start s srv = Ret r ->
  r = (s, srv, ReadSome) /\ callback_ok srv r.
Proof.
  unfold start, read_header. intros Hp H. inv_ret. split; [done|].
  split; [apply quiet_refl|by split].
Qed.
End safety.

(** ** Bad requests *)

Section bad.
Context `{BL : BeastLaws} `{E : !Environment} `{FL : BoostFilesystemLaws} `{T : BoostString}.
Context `{C : Connected}.

(** What is read first is rejected by the state machine. *)
Definition rejected (data : str) : Prop :=
  exists rest st r, parse_chars method_start new_request data = Ret (Some false, rest, st, r).

Lemma handle_rejected data s srv :
  ready s -> rejected data ->
  exists s1, handle_read_header data s srv = write (with_response bad_header_response s1) srv /\
    request_ s1 = request_ s /\ request_handler_ s1 = request_handler_ s.
Proof.
  intros [R1 R2 R3 R4] (rest & st & r & Hr). unfold handle_read_header, parse.
  rewrite R1, Hr, bind_Ret. rewrite decide_False by done. rewrite bind_Ret.
  cbn [request_ with_request with_parser]. unfold content_length_of. rewrite R4. simpl.
  rewrite log_address_ok. by eexists.
Qed.

(** C36: a bad first request is not answered within the defined behaviour of C++:
    the session writes the 400 page through [log_session_metric], which reads
    [request_handler_] before anything has set it. *)
Theorem first_bad_request_undefined (data : str) (srv : server) :
  rejected data -> run_connection [GotSome data] srv = Undef.
Proof.
  intros Hd. unfold run_connection, start. rewrite log_address_ok, bind_Ret, read_header_ok, bind_Ret.
  cbn [run connect]. rewrite complete_read.
  destruct (handle_rejected data new_session srv ready_new Hd) as (s1 & -> & _ & Hh).
  unfold write, log_session_metric. destruct connected as [a ->]. simpl. by rewrite Hh.
Qed.

(** C39: a later bad request is answered: when a handler pointer has been set by an
    earlier request, a head the parser rejects gets the 400 page, is logged once
    under the last target, and leaves the session ready. *)
Theorem later_bad_request_answered (data : str) (s : session) (srv srv' : server)
    (h : option nat) (out : list str) :
  ready s -> request_handler_ s = Some h -> rejected data ->
  log_request (req_target (request_ s), int_to_status status_bad_request) srv = Ret srv' ->
  exists s', run [GotSome data; Written] (Connection s srv ReadSome out)
             = Ret (Connection s' srv' ReadSome (out ++ [print_response bad_header_response])) /\ ready s'.
Proof.
  intros Hs Hh Hd Hl. cbn [run]. rewrite complete_read.
  destruct (handle_rejected data s srv Hs Hd) as (s1 & -> & Hreq & Hh1).
  rewrite (write_ok (with_response bad_header_response s1) srv h) by (simpl; by rewrite Hh1).
  unfold returned, finish, write_rest. simpl. rewrite Hreq.
  assert (resp_result bad_header_response = status_bad_request) as ->.
  { by apply (show_error_page_ok status_bad_request "Invalid request headers or content length"). }
  rewrite Hl. simpl. unfold complete; simpl.
  destruct (ready_written (with_response bad_header_response s1) srv') as (s' & -> & Hr & _).
  by exists s'.
Qed.
End bad.

(** ** Witnesses *)

#[local] Existing Instance lexical_filesystem.
#[local] Existing Instance example_environment.
#[local] Instance example_socket : Socket := tcp_socket_wrapper (Some (lit "1.2.3.4")).
#[local] Instance example_connected : Connected example_socket := tcp_connected _.

Lemma example_rejected : rejected "GET?".
Proof. eexists _, _, _. reflexivity. Qed.

Lemma first_bad_request_undefined_witness : run_connection [GotSome "GET?"] example_server = Undef.
Proof. apply first_bad_request_undefined, example_rejected. Defined.

Definition served_session : session := with_handler (Some 0) new_session.

Lemma later_bad_request_answered_witness :
  exists s' srv', run [GotSome "GET?"; Written] (Connection served_session example_server ReadSome [])
    = Ret (Connection s' srv' ReadSome ([] ++ [print_response bad_header_response])) /\ ready s'.
Proof.
  destruct (log_request (req_target (request_ served_session), int_to_status status_bad_request)
    example_server) as [srv'| | |] eqn:El; [|by vm_compute in El..].
  destruct (later_bad_request_answered "GET?" served_session example_server srv' (Some 0) [])
    as (s' & Hrun & Hr); [split; try reflexivity; intros; reflexivity|reflexivity|apply example_rejected|done|].
  by exists s', srv'.
Defined.
