(* ===== verification/Concurrency.v ===== *)
(** * Many connections on a pool of threads: src/src/server.cc

    [start_accept] and [handle_accept], and the callbacks that the threads of
    [run] execute.  A thread may still be inside [write] when the operation it
    has started completes and another thread takes the next callback of the same
    session: [w_busy] is what such threads have left to do. *)
From S2P Require Import Prelude CppStd StdMap Boost BoostModel ConfigLexer ConfigParser Utils.
From S2P Require Import RequestParser RequestGrammar RequestMessage Handlers Status ReverseProxy.
From S2P Require Import Meme Server ExampleServer ServerLookup ServerState Socket Session.
From S2P Require Import SessionServe SessionSafety.

Section world.
Context `{B : Beast} `{E : !Environment} `{F : BoostFilesystem} `{T : BoostString}.

(** The server, the sessions that were started with the operation each has
    under way, the session that waits for a connection, the sessions whose
    [write] has not come to its end, and what was given to the sockets. *)
Record world := World {
  w_server : server;
  w_sessions : list (session * operation);
  w_accepting : option session;
  w_busy : list nat;
  w_writes : list str
}.

Definition with_accepting (a : option session) (w : world) : world :=
  World (w_server w) (w_sessions w) a (w_busy w) (w_writes w).

(** What a callback of session [i] leaves when it has started its operation. *)
Definition started (i : nat) (r : result) (w : world) : world :=
  let '(s, srv, op) := r in
  World srv (<[i := (s, op)]> (w_sessions w)) (w_accepting w)
    (match op with Write _ => i :: w_busy w | _ => w_busy w end)
    (match op with Write buffer => w_writes w ++ [buffer] | _ => w_writes w end).

(** ** Accepting *)

Definition add_session (r : result) (w : world) : world :=
  let '(s, srv, op) := r in
  World srv (w_sessions w ++ [(s, op)]) (w_accepting w) (w_busy w) (w_writes w).

Definition start_accept (w : world) : world := with_accepting (Some new_session) w.

(** [error], or a socket whose peer may be gone already: its address is asked
    for before the session is started. *)
Definition handle_accept (error : bool) (peer : option str) (s : session) (w : world)
  : outcome world :=
  let K := tcp_socket_wrapper peer in
  w ← (if error then Ret w
       else
         _ ← log_address;
         r ← start s (w_server w);
         Ret (add_session r w));
  Ret (start_accept w).

(** ** Callbacks *)

(** What Boost.Asio may report, and the peer of the socket at that time. *)
Inductive completion :=
| Accepted (peer : option str)
| AcceptFailed
| Completed (i : nat) (e : event) (peer : option str).

Definition enabled (c : completion) (w : world) : bool :=
  match c with
  | Accepted _ | AcceptFailed => match w_accepting w with Some _ => true | None => false end
  | Completed i e _ =>
      match w_sessions w !! i with Some (_, op) => possible max_length op e | None => false end
  end.

(** The callback up to the operation it starts. *)
Definition begin (c : completion) (w : world) : outcome world :=
  match c with
  | Accepted peer =>
      match w_accepting w with
      | Some s => handle_accept false peer s (with_accepting None w)
      | None => Ret w
      end
  | AcceptFailed =>
      match w_accepting w with
      | Some s => handle_accept true None s (with_accepting None w)
      | None => Ret w
      end
  | Completed i e peer =>
      match w_sessions w !! i with
      | Some (s, op) =>
          let K := tcp_socket_wrapper peer in
          r ← callback op e s (w_server w);
          Ret (started i r w)
      | None => Ret w
      end
  end.

(** The rest of the [write] of the thread at [k], under the mutex of the
    server: the session is looked at as it is then. *)
Definition resume (k : nat) (w : world) : outcome world :=
  match w_busy w !! k with
  | Some i =>
      match w_sessions w !! i with
      | Some (s, _) =>
          srv ← write_rest s (w_server w);
          Ret (World srv (w_sessions w) (w_accepting w) (delete k (w_busy w)) (w_writes w))
      | None => Ret w
      end
  | None => Ret w
  end.

(** A thread that is free takes a callback, or one that is not goes on. *)
Inductive step (threads : nat) : world -> world -> Prop :=
| step_begin c w w' :
    enabled c w = true -> length (w_busy w) < threads -> begin c w = Ret w' -> step threads w w'
| step_resume k w w' :
    k < length (w_busy w) -> resume k w = Ret w' -> step threads w w'.

(** The constructor starts to accept. *)
Definition first_world (srv : server) : world := start_accept (World srv [] None [] []).
End world.

(** ** The invariant *)

Section invariant.
Context `{BL : BeastLaws} `{E : !Environment} `{FL : BoostFilesystemLaws} `{T : BoostString}.

(** The pointers of the sessions lead to handlers, a connection is always being
    waited for, and the threads inside [write] are inside that of a session. *)
Record world_inv (w : world) : Prop := {
  winv_server : server_inv (w_server w);
  winv_sessions : Forall (session_ok (w_server w)) (w_sessions w);
  winv_accepting : w_accepting w = Some new_session;
  winv_busy : Forall (fun i => i < length (w_sessions w)) (w_busy w)
}.

Lemma sessions_kept srv srv' l :
  keeps srv srv' -> Forall (session_ok srv) l -> Forall (session_ok srv') l.
Proof.
  intros Hk Hf. eapply Forall_impl; [exact Hf|]. intros [s op] [Hp Ho]. split; [by eapply pointer_ok_keeps|done].
Qed.

Lemma session_ok_new srv : session_ok srv (new_session, ReadSome).
Proof. split; [by intros p|done]. Qed.

Lemma world_inv_first srv : server_inv srv -> world_inv (first_world srv).
Proof. by split. Qed.

Lemma busy_more n m l : n <= m -> Forall (fun i => i < n) l -> Forall (fun i => i < m) l.
Proof. intros Hn Hl. eapply Forall_impl; [exact Hl|]. simpl. lia. Qed.

Lemma handle_accept_inv error peer w w' :
  world_inv w -> handle_accept error peer new_session (with_accepting None w) = Ret w' -> world_inv w'.
Proof.
  intros [Hs Hf Ha Hb] H. unfold handle_accept in H. apply bind_ret_inv in H as (w1 & H1 & H).
  injection H as <-. destruct error; [by injection H1 as <-|].
  apply bind_ret_inv in H1 as (_ & _ & H1). apply bind_ret_inv in H1 as (r & Hr & H1).
  injection H1 as <-. apply start_kept in Hr as [-> _]; [|by intros p]. split; simpl; try done.
  - apply Forall_app. split; [done|]. apply Forall_singleton, session_ok_new.
  - rewrite length_app. eapply busy_more; [|exact Hb]. lia.
Qed.

Lemma started_inv i r w :
  world_inv w -> i < length (w_sessions w) -> callback_ok (w_server w) r -> world_inv (started i r w).
Proof.
  destruct r as [[s srv] op]. intros [Hs Hf Ha Hb] Hi [[Hk _] Hok]. split; simpl; try done.
  - by apply Hk.
  - apply Forall_insert; [|done]. by eapply sessions_kept.
  - rewrite length_insert. destruct op; try done. by apply Forall_cons.
Qed.

Lemma begin_inv c w w' : world_inv w -> begin c w = Ret w' -> world_inv w'.
Proof.
  intros Hw. pose proof (winv_accepting w Hw) as Ha. destruct c as [peer| |i e peer]; simpl.
  - rewrite Ha. by apply handle_accept_inv.
  - rewrite Ha. by apply handle_accept_inv.
  - destruct (w_sessions w !! i) as [[s op]|] eqn:Hi; [|by intros [= <-]]. intros H.
    apply bind_ret_inv in H as (r & Hr & H). injection H as <-.
    apply started_inv; [done|by eapply lookup_lt_Some|].
    eapply callback_kept; [apply Hw| |exact Hr]. by eapply Forall_lookup_1; [apply Hw|].
Qed.

Lemma resume_inv k w w' : world_inv w -> resume k w = Ret w' -> world_inv w'.
Proof.
  intros Hw H. unfold resume in H. destruct (w_busy w !! k) as [i|]; [|by injection H as <-].
  destruct (w_sessions w !! i) as [[s op]|]; [|by injection H as <-].
  apply bind_ret_inv in H as (srv & Hk%keeps_write_rest & H). injection H as <-.
  destruct Hw as [Hs Hf Ha Hb]. split; simpl; [by apply Hk|by eapply sessions_kept|done|].
  by apply Forall_delete.
Qed.

Lemma step_inv threads w w' : world_inv w -> step threads w w' -> world_inv w'.
Proof.
  intros Hw Hstep. destruct Hstep as [c w w' _ _ Hb|k w w' _ Hr];
    [by eapply begin_inv|by eapply resume_inv].
Qed.

Lemma resume_keeps k w w' : resume k w = Ret w' -> keeps (w_server w) (w_server w').
Proof.
  unfold resume. intros H. destruct (w_busy w !! k) as [i|]; [|injection H as <-; apply keeps_refl].
  destruct (w_sessions w !! i) as [[s op]|]; [|injection H as <-; apply keeps_refl].
  apply bind_ret_inv in H as (srv & Hk%keeps_write_rest & H). by injection H as <-.
Qed.

Lemma begin_keeps c w w' : world_inv w -> begin c w = Ret w' -> keeps (w_server w) (w_server w').
Proof.
  intros Hw H. pose proof (winv_accepting w Hw) as Ha. destruct c as [peer| |i e peer]; simpl in H.
  - rewrite Ha in H. unfold handle_accept in H. apply bind_ret_inv in H as (w1 & H1 & H).
    injection H as <-. apply bind_ret_inv in H1 as (_ & _ & H1). apply bind_ret_inv in H1 as (r & Hr & H1).
    injection H1 as <-. apply start_kept in Hr as [-> _]; [apply keeps_refl|by intros p].
  - rewrite Ha in H. injection H as <-. apply keeps_refl.
  - destruct (w_sessions w !! i) as [[s op]|] eqn:Hi; [|injection H as <-; apply keeps_refl].
    apply bind_ret_inv in H as (r & Hr & H). injection H as <-.
    apply callback_kept in Hr; [|apply Hw|by eapply Forall_lookup_1; [apply Hw|]].
    destruct r as [[s' srv'] op']. apply Hr.
Qed.

Lemma step_keeps threads w w' : world_inv w -> step threads w w' -> keeps (w_server w) (w_server w').
Proof.
  intros Hw Hstep. destruct Hstep as [c w w' _ _ Hb|k w w' _ Hr];
    [by eapply begin_keeps|by eapply resume_keeps].
Qed.

Lemma steps_keep threads w w' :
  world_inv w -> rtc (step threads) w w' -> world_inv w' /\ keeps (w_server w) (w_server w').
Proof.
  intros Hw Hr. induction Hr as [w|w w1 w2 Hs _ IH]; [split; [done|apply keeps_refl]|].
  destruct IH as [Hw2 Hk]; [by eapply step_inv|]. split; [done|].
  eapply keeps_trans; [|exact Hk]. by eapply step_keeps.
Qed.

Lemma reachable_keeps config srv threads w :
  getHandlers empty_server config = Ret srv -> rtc (step threads) (first_world srv) w ->
  world_inv w /\ keeps srv (w_server w).
Proof.
  intros Hg Hr. apply (steps_keep threads (first_world srv)); [|done].
  eapply world_inv_first, getHandlers_inv; [apply server_inv_empty|done].
Qed.

(** A connection is accepted. *)
Lemma begin_accepted w (address : str) :
  w_accepting w = Some new_session ->
  begin (Accepted (Some address)) w =
  Ret (start_accept (World (w_server w) (w_sessions w ++ [(new_session, ReadSome)]) None
                       (w_busy w) (w_writes w))).
Proof. intros Ha. unfold begin. by rewrite Ha. Qed.

(** The invariant of the running server.  From a server made from a
    configuration, whatever connections are accepted, however many threads there
    are and however their callbacks interleave - a session's next callback may
    overtake the end of its last [write] - the server's maps stay consistent,
    every session's handler pointer leads to an object of the server, a session
    reads a body only for a handler it has found, and a connection is always
    being waited for, also after a failed accept. *)
Theorem reachable_world_inv (config : NginxConfig) (srv : server) (threads : nat) (w : world) :
  getHandlers empty_server config = Ret srv -> rtc (step threads) (first_world srv) w -> world_inv w.
Proof.
  intros Hg Hr. assert (world_inv (first_world srv)) as Hi.
  { apply world_inv_first. eapply getHandlers_inv; [apply server_inv_empty|done]. }
  clear Hg. induction Hr as [|w w1 w2 Hw _ IH]; [done|]. apply IH. by eapply step_inv.
Qed.
End invariant.

(** ** Witnesses *)

#[local] Existing Instance lexical_filesystem.
#[local] Existing Instance example_environment.

(** A connection is accepted and reads a request that is answered. *)
Definition example_world : world :=
  World example_server [(new_session, ReadSome)] (Some new_session) [] [].

Definition example_inside : world :=
  match begin (Completed 0 (GotSome (print_head example_get)) (Some (lit "1.2.3.4"))) example_world with
  | Ret w => w
  | _ => example_world
  end.

Definition example_answered : world :=
  match resume 0 example_inside with Ret w => w | _ => example_inside end.

Lemma example_accepted :
  begin (Accepted (Some (lit "1.2.3.4"))) (first_world example_server) = Ret example_world.
Proof. done. Qed.

Lemma example_begun :
  begin (Completed 0 (GotSome (print_head example_get)) (Some (lit "1.2.3.4"))) example_world =
  Ret example_inside /\ w_busy example_inside = [0].
Proof. split; by_evaluation. Qed.

Lemma example_resumed : resume 0 example_inside = Ret example_answered /\ w_busy example_answered = [].
Proof. split; by_evaluation. Qed.

Lemma example_steps threads :
  0 < threads -> rtc (step threads) (first_world example_server) example_answered.
Proof.
  intros Ht.
  eapply rtc_l; [eapply step_begin; [|exact Ht|apply example_accepted]; reflexivity|].
  destruct example_begun as [Hb Hi].
  eapply rtc_l; [eapply step_begin; [by_evaluation|exact Ht|exact Hb]|].
  apply rtc_once. apply (step_resume _ 0); [rewrite Hi; simpl; lia|apply example_resumed].
Qed.

Lemma reachable_world_inv_witness : world_inv example_answered.
Proof.
  apply (reachable_world_inv server_config example_server 4);
    [apply example_server_made|apply example_steps; lia].
Defined.
