(* ===== verification/Logging.v ===== *)
(** * What is logged when callbacks overlap

    Every response that is given to a socket is counted once, whatever the
    interleaving.  It is not always counted for its own URL: [write] reads the
    session again after it has started its operation, and by then another
    thread may have put the next request there. *)
From S2P Require Import Prelude CppStd StdMap Boost BoostModel ConfigLexer ConfigParser Utils.
From S2P Require Import RequestParser RequestGrammar RequestMessage Handlers Status ReverseProxy.
From S2P Require Import Meme Server ExampleServer ServerLookup ServerState Socket Session.
From S2P Require Import SessionServe SessionSafety Concurrency.

(** ** The sum of the counts *)

Lemma total_assign k n (m : list ((str * Z) * Z)) :
  map_sorted m ->
  total (map_assign k n m) = (total m - default 0 (map_find k m) + n)%Z.
Proof.
  induction m as [|[k' n'] m IH]; intros Hm; [unfold total; simpl; lia|].
  destruct Hm as [Hlt Hm]. cbn [map_assign map_find]. specialize (IH Hm).
  unfold total in *. case_decide as Hk; [simpl; lia|].
  destruct (kless k k') eqn:Hkk; [|simpl; rewrite IH; lia].
  rewrite map_find_lt; [simpl; lia|].
  eapply Forall_impl; [exact Hlt|]. intros [k2 n2] H. simpl in *. by eapply kless_trans.
Qed.

Section logging.
Context `{BL : BeastLaws} `{E : !Environment} `{FL : BoostFilesystemLaws} `{T : BoostString}.

Lemma total_log_request k s s' :
  map_sorted (requests_ s) -> log_request k s = Ret s' ->
  total (requests_ s') = (total (requests_ s) + 1)%Z.
Proof.
  intros Hs H. unfold log_request in H.
  destruct (map_find k (requests_ s)) as [n|] eqn:Hn.
  - apply bind_ret_inv in H as (v & Hv & H). injection H as <-. unfold int_result in Hv.
    destruct (in_int (n + 1)); [injection Hv as <-|done]. simpl. rewrite total_assign, Hn by done.
    simpl. lia.
  - injection H as <-. simpl. rewrite total_assign, Hn by done. simpl. lia.
Qed.

(** What was given to the sockets is counted, or about to be. *)
Definition log_inv (w : world) : Prop :=
  world_inv w /\
  (total (requests_ (w_server w)) + Z.of_nat (length (w_busy w)) = Z.of_nat (length (w_writes w)))%Z.

Lemma begin_log c w w' : log_inv w -> begin c w = Ret w' -> log_inv w'.
Proof.
  intros [Hw Hl] H. split; [by eapply begin_inv|]. pose proof (winv_accepting w Hw) as Ha.
  destruct c as [peer| |i e peer]; simpl in H.
  - rewrite Ha in H. unfold handle_accept in H. apply bind_ret_inv in H as (w1 & H1 & H).
    injection H as <-. apply bind_ret_inv in H1 as (_ & _ & H1). apply bind_ret_inv in H1 as (r & Hr & H1).
    injection H1 as <-. apply start_kept in Hr as [-> _]; [done|by intros p].
  - rewrite Ha in H. unfold handle_accept in H. simpl in H. by injection H as <-.
  - destruct (w_sessions w !! i) as [[s op]|] eqn:Hi; [|by injection H as <-].
    apply bind_ret_inv in H as (r & Hr & H). injection H as <-.
    apply callback_kept in Hr; [|apply Hw|by eapply Forall_lookup_1; [apply Hw|]].
    destruct r as [[s' srv'] op']. destruct Hr as [[_ Hq] _]. simpl. rewrite Hq.
    destruct op'; simpl; try done. rewrite length_app. simpl. lia.
Qed.

Lemma resume_log k w w' : log_inv w -> resume k w = Ret w' -> log_inv w'.
Proof.
  intros [Hw Hl] H. split; [by eapply resume_inv|]. unfold resume in H.
  destruct (w_busy w !! k) as [i|] eqn:Hk; [|by injection H as <-].
  destruct (w_sessions w !! i) as [[s op]|]; [|by injection H as <-].
  apply bind_ret_inv in H as (srv & Hlog & H). injection H as <-. simpl.
  apply total_log_request in Hlog; [|apply Hw]. apply lookup_lt_Some in Hk as Hlt.
  rewrite Hlog, length_delete by by eexists. lia.
Qed.

Lemma register_requests blocks s s' : register s blocks = Ret s' -> requests_ s' = requests_ s.
Proof.
  revert s. induction blocks as [|[[t l] c] blocks IH]; intros s H; [by injection H as <-|].
  cbn [register] in H. apply bind_ret_inv in H as (s1 & Hs1 & H). rewrite (IH _ H).
  unfold create_and_add_handler in Hs1. apply bind_ret_inv in Hs1 as (loc & _ & Hs1).
  apply bind_ret_inv in Hs1 as ([h|] & _ & Hs1); by simplify_eq/=.
Qed.

Lemma log_inv_first config srv :
  getHandlers empty_server config = Ret srv -> log_inv (first_world srv).
Proof.
  intros Hg. split; [apply world_inv_first; eapply getHandlers_inv; [apply server_inv_empty|done]|].
  rewrite getHandlers_register in Hg. apply register_requests in Hg. simpl. by rewrite Hg.
Qed.

Lemma log_step threads w w' : log_inv w -> step threads w w' -> log_inv w'.
Proof.
  intros Hw Hstep. destruct Hstep as [c w w' _ _ Hb|k w w' _ Hr]; [by eapply begin_log|by eapply resume_log].
Qed.

(** However many threads there are and however their callbacks interleave, the
    counts of the requests add up to the number of responses given to the
    sockets, less those whose [write] is not at its end. *)
Theorem every_response_counted (config : NginxConfig) (srv : server) (threads : nat) (w : world) :
  getHandlers empty_server config = Ret srv -> rtc (step threads) (first_world srv) w ->
  (total (requests_ (w_server w)) + Z.of_nat (length (w_busy w)) = Z.of_nat (length (w_writes w)))%Z.
Proof.
  intros Hg%log_inv_first Hr. cut (log_inv w); [by intros [_ ?]|].
  induction Hr as [w|w w1 w2 Hs _ IH]; [done|]. by eapply IH, log_step.
Qed.

(** ** A callback that overtakes *)

Lemma call_handler_requests ptr srv r srv1 resp :
  call_handler ptr srv r = (srv1, resp) -> requests_ srv1 = requests_ srv.
Proof.
  unfold call_handler. destruct (objects_ srv !! ptr) as [h|]; [|by intros [= <- _]].
  destruct (handle_request h srv r) as [es o]. intros [= <- _]. apply quiet_effects.
Qed.

(** What a callback makes of a request whose message the session has. *)
Definition answering (i ptr : nat) (s : session) (w : world) : outcome world :=
  let '(srv1, answered) := call_handler ptr (w_server w) (request_ s) in
  resp ← answered; Ret (started i (with_response resp s, srv1, Write (print_response resp)) w).

Lemma answer_begun (K := fun address => tcp_socket_wrapper (Some address)) address i ptr s w h :
  request_handler_ s = Some h ->
  (r ← ('(s, srv) ← answer ptr s (w_server w); write (K := K address) s srv); Ret (started i r w)) =
  answering i ptr s w.
Proof.
  intros Hh. unfold answer, answering.
  destruct (call_handler ptr (w_server w) (request_ s)) as [srv1 [resp| | |]]; [|done..].
  rewrite !bind_Ret. by rewrite (write_ok (K := K address) (with_response resp s) srv1 h Hh), bind_Ret.
Qed.

(** A request that comes in one read; what follows it there is dropped. *)
Lemma begin_message q n part w i s ptr address :
  valid_head q -> ready s -> head_length q = Ret n -> (0 <= n <= Z.of_nat (length part))%Z ->
  w_sessions w !! i = Some (s, ReadSome) ->
  get_request_handler (c_uri q) (w_server w) = Ret (Some ptr) ->
  exists s1, carries (request_ s1) q (take (Z.to_nat n) part) /\
    begin (Completed i (GotSome (print_head q ++ part)) (Some address)) w = answering i ptr s1 w.
Proof.
  intros Hq Hs Hn [Hpos Hle] Hi Hg. unfold begin. rewrite Hi. unfold callback.
  destruct (handle_read_header_valid (K := tcp_socket_wrapper (Some address)) q part s (w_server w) n ptr
    Hq Hs Hn Hpos Hg) as (s1 & Hh & _ & Hc & ->).
  rewrite (proj2 (Z.leb_le _ _) Hle). case_decide as H0.
  - subst n. exists s1. split; [exact Hc|by eapply answer_begun].
  - exists (append_body (take (Z.to_nat n) part) s1). split; [apply (carries_append _ q [] _ Hc)|].
    by eapply answer_begun.
Qed.

Lemma answering_ok i ptr s w srv1 resp :
  call_handler ptr (w_server w) (request_ s) = (srv1, Ret resp) ->
  answering i ptr s w = Ret (started i (with_response resp s, srv1, Write (print_response resp)) w).
Proof. intros H. unfold answering. by rewrite H. Qed.

Lemma begin_head q w i s ptr srv1 resp address :
  valid_head q -> ready s -> head_length q = Ret 0%Z -> w_sessions w !! i = Some (s, ReadSome) ->
  get_request_handler (c_uri q) (w_server w) = Ret (Some ptr) ->
  (forall r, carries r q [] -> call_handler ptr (w_server w) r = (srv1, Ret resp)) ->
  exists s1, begin (Completed i (GotSome (print_head q)) (Some address)) w =
      Ret (started i (s1, srv1, Write (print_response resp)) w) /\
    req_target (request_ s1) = c_uri q /\ response_ s1 = resp /\
    requests_ srv1 = requests_ (w_server w).
Proof.
  intros Hq Hs Hn Hi Hg Hcall. rewrite <-(app_nil_r (print_head q)).
  destruct (begin_message q 0 [] w i s ptr address) as (s1 & Hc & ->); try done.
  rewrite (answering_ok i ptr s1 w srv1 resp) by by apply Hcall. eexists. split; [done|].
  pose proof (call_handler_requests _ _ _ _ _ (Hcall _ Hc)). by destruct Hc as (_ & ? & _).
Qed.

(** A request whose body ends in a second read. *)
Lemma begin_partial q n part w i s ptr address :
  valid_head q -> ready s -> head_length q = Ret n -> (Z.of_nat (length part) < n)%Z ->
  w_sessions w !! i = Some (s, ReadSome) ->
  get_request_handler (c_uri q) (w_server w) = Ret (Some ptr) ->
  exists s1, request_handler_ s1 = Some (Some ptr) /\ body_data s1 = [] /\ carries (request_ s1) q [] /\
    begin (Completed i (GotSome (print_head q ++ part)) (Some address)) w =
      Ret (started i (append_body part s1, w_server w, Read (n - Z.of_nat (length part))) w).
Proof.
  intros Hq Hs Hn Hlt Hi Hg. unfold begin. rewrite Hi. unfold callback.
  destruct (handle_read_header_valid (K := tcp_socket_wrapper (Some address)) q part s (w_server w) n ptr
    Hq Hs Hn ltac:(lia) Hg) as (s1 & Hh & Hb & Hc & ->).
  rewrite decide_False by lia. destruct (Z.leb_spec n (Z.of_nat (length part))); [lia|].
  by exists s1.
Qed.

Lemma begin_rest q n part more w i s1 ptr address :
  request_handler_ s1 = Some (Some ptr) -> body_data s1 = [] -> carries (request_ s1) q [] ->
  w_sessions w !! i = Some (append_body part s1, Read n) ->
  exists s2, carries (request_ s2) q (part ++ more) /\
    begin (Completed i (GotBytes more) (Some address)) w = answering i ptr s2 w.
Proof.
  intros Hh Hb Hc Hi. unfold begin. rewrite Hi. unfold callback.
  destruct (body_read (K := tcp_socket_wrapper (Some address)) q ptr part more s1 (w_server w) Hh Hb Hc)
    as (s3 & Hc3 & Hh3 & ->).
  exists s3. split; [exact Hc3|]. by eapply answer_begun.
Qed.

Lemma begin_written w i s buffer address :
  w_sessions w !! i = Some (s, Write buffer) ->
  exists s1, begin (Completed i Written (Some address)) w = Ret (started i (s1, w_server w, ReadSome) w) /\
    ready s1.
Proof.
  intros Hi. unfold begin. rewrite Hi. unfold callback.
  destruct (ready_written (K := tcp_socket_wrapper (Some address)) s (w_server w)) as (s1 & Hw & Hr & _).
  rewrite Hw, bind_Ret. by exists s1.
Qed.

Lemma log_request_other k k' s s' :
  map_sorted (requests_ s) -> k <> k' -> log_request k s = Ret s' ->
  map_sorted (requests_ s') /\ map_find k' (requests_ s') = map_find k' (requests_ s).
Proof.
  intros Hs Hk H. unfold log_request in H. destruct (map_find k (requests_ s)) as [n|].
  - apply bind_ret_inv in H as (v & _ & H). injection H as <-. simpl.
    split; [by apply map_assign_sorted|]. by rewrite map_find_assign, decide_False.
  - injection H as <-. simpl. split; [by apply map_assign_sorted|]. by rewrite map_find_assign, decide_False.
Qed.

(** What one [read_some] can bring. *)
Definition fits (e : event) : Prop :=
  match e with GotSome data => length data <= max_length | _ => True end.

Lemma enabled_read w i s (data : str) address :
  w_sessions w !! i = Some (s, ReadSome) -> data <> [] -> fits (GotSome data) ->
  enabled (Completed i (GotSome data) (Some address)) w = true.
Proof.
  intros Hi Hne Hf. unfold enabled. rewrite Hi. simpl. apply bool_decide_eq_true.
  split; [|exact Hf]. destruct data; [done|simpl; lia].
Qed.

Lemma print_head_more q part : print_head q ++ part <> [].
Proof.
  intros H. apply app_eq_nil in H as [H _]. pose proof (print_head_length q) as Hl. rewrite H in Hl.
  simpl in Hl. lia.
Qed.

Lemma enabled_head w i s q address :
  w_sessions w !! i = Some (s, ReadSome) -> length (print_head q) <= max_length ->
  enabled (Completed i (GotSome (print_head q)) (Some address)) w = true.
Proof.
  intros Hi Hl. rewrite <-(app_nil_r (print_head q)).
  eapply enabled_read; [exact Hi|apply print_head_more|]. simpl. by rewrite app_nil_r.
Qed.

(** The rest of a [write] counts what the session holds by then. *)
Lemma resume_ok k w i s op uri resp srv :
  w_busy w !! k = Some i -> w_sessions w !! i = Some (s, op) ->
  req_target (request_ s) = uri -> response_ s = resp ->
  log_request (uri, int_to_status (resp_result resp)) (w_server w) = Ret srv ->
  resume k w = Ret (World srv (w_sessions w) (w_accepting w) (delete k (w_busy w)) (w_writes w)).
Proof. intros Hk Hi <- <- Hl. unfold resume. rewrite Hk, Hi. unfold write_rest. by rewrite Hl. Qed.

(** A client sends a request, takes the response and sends another while the
    thread of the first is still inside [write]. *)
Lemma overtaking q1 q2 w i s ptr1 ptr2 srv1 srv2 resp1 resp2 :
  valid_head q1 -> head_length q1 = Ret 0%Z -> length (print_head q1) <= max_length ->
  valid_head q2 -> head_length q2 = Ret 0%Z -> length (print_head q2) <= max_length ->
  w_sessions w !! i = Some (s, ReadSome) -> ready s -> w_busy w = [] ->
  get_request_handler (c_uri q1) (w_server w) = Ret (Some ptr1) ->
  (forall r, carries r q1 [] -> call_handler ptr1 (w_server w) r = (srv1, Ret resp1)) ->
  get_request_handler (c_uri q2) srv1 = Ret (Some ptr2) ->
  (forall r, carries r q2 [] -> call_handler ptr2 srv1 r = (srv2, Ret resp2)) ->
  exists s3, req_target (request_ s3) = c_uri q2 /\ response_ s3 = resp2 /\
    requests_ srv2 = requests_ (w_server w) /\
    rtc (step 2) w (World srv2 (<[i := (s3, Write (print_response resp2))]> (w_sessions w)) (w_accepting w)
      [i; i] (w_writes w ++ [print_response resp1; print_response resp2])).
Proof.
  intros Hq1 Hn1 Hl1 Hq2 Hn2 Hl2 Hi Hs Hb Hg1 Hc1 Hg2 Hc2. apply lookup_lt_Some in Hi as Hlt.
  destruct (begin_head q1 w i s ptr1 srv1 resp1 [] Hq1 Hs Hn1 Hi Hg1 Hc1) as (s1 & B1 & _ & _ & Hreq1).
  set (w1 := started i (s1, srv1, Write (print_response resp1)) w) in *.
  assert (w_sessions w1 !! i = Some (s1, Write (print_response resp1))) as Hi1
    by by apply list_lookup_insert_eq.
  destruct (begin_written w1 i s1 _ [] Hi1) as (s2 & B2 & Hr2).
  set (w2 := started i (s2, w_server w1, ReadSome) w1) in *.
  assert (w_sessions w2 !! i = Some (s2, ReadSome)) as Hi2
    by (apply list_lookup_insert_eq; simpl; by rewrite length_insert).
  destruct (begin_head q2 w2 i s2 ptr2 srv2 resp2 [] Hq2 Hr2 Hn2 Hi2 Hg2 Hc2) as (s3 & B3 & Ht & Hresp & Hreq2).
  exists s3. split; [done|]. split; [done|]. split; [by rewrite Hreq2|].
  eapply rtc_l; [refine (step_begin _ _ _ _ (enabled_head w i s q1 _ Hi Hl1) _ B1); rewrite Hb; simpl; lia|].
  eapply rtc_l; [eapply step_begin; [|simpl; rewrite Hb; simpl; lia|exact B2]|].
  { cbn [enabled]. by rewrite Hi1. }
  apply rtc_once. eapply step_begin; [exact (enabled_head w2 i s2 q2 [] Hi2 Hl2)|simpl; rewrite Hb; simpl; lia|].
  rewrite B3. unfold started. simpl. by rewrite !list_insert_insert_eq, Hb, <-app_assoc.
Qed.

(** C33: with two threads a response can be counted under the URL of the next
    request.  A client sends a request, takes the response and sends another
    before the first thread has come to the end of [write]; when both threads
    have, the second request is counted twice and the first not at all. *)
Theorem counted_under_the_next_url (q1 q2 : concrete_request) (w : world) (i : nat) (s : session)
    (ptr1 ptr2 : nat) (srv1 srv2 srv3 srv4 : server) (resp1 resp2 : response) :
  let key q resp := (c_uri q, int_to_status (resp_result resp)) in
  valid_head q1 -> head_length q1 = Ret 0%Z -> length (print_head q1) <= max_length ->
  valid_head q2 -> head_length q2 = Ret 0%Z -> length (print_head q2) <= max_length ->
  w_sessions w !! i = Some (s, ReadSome) -> ready s -> w_busy w = [] ->
  map_sorted (requests_ (w_server w)) ->
  get_request_handler (c_uri q1) (w_server w) = Ret (Some ptr1) ->
  (forall r, carries r q1 [] -> call_handler ptr1 (w_server w) r = (srv1, Ret resp1)) ->
  get_request_handler (c_uri q2) srv1 = Ret (Some ptr2) ->
  (forall r, carries r q2 [] -> call_handler ptr2 srv1 r = (srv2, Ret resp2)) ->
  log_request (key q2 resp2) srv2 = Ret srv3 -> log_request (key q2 resp2) srv3 = Ret srv4 ->
  key q1 resp1 <> key q2 resp2 ->
  exists w', rtc (step 2) w w' /\ w_server w' = srv4 /\ w_busy w' = [] /\
    w_writes w' = w_writes w ++ [print_response resp1; print_response resp2] /\
    map_find (key q1 resp1) (requests_ srv4) = map_find (key q1 resp1) (requests_ (w_server w)).
Proof.
  intros key Hq1 Hn1 Hl1 Hq2 Hn2 Hl2 Hi Hs Hb Hm Hg1 Hc1 Hg2 Hc2 Hlog3 Hlog4 Hk.
  destruct (overtaking q1 q2 w i s ptr1 ptr2 srv1 srv2 resp1 resp2) as (s3 & Ht & Hresp & Hreq & Hsteps);
    try done.
  set (w3 := World srv2 _ _ _ _) in Hsteps.
  assert (w_sessions w3 !! i = Some (s3, Write (print_response resp2))) as Hi3
    by (apply list_lookup_insert_eq; by eapply lookup_lt_Some).
  pose proof (resume_ok 0 w3 i s3 _ _ _ srv3 eq_refl Hi3 Ht Hresp Hlog3) as B4.
  set (w4 := World srv3 _ _ _ _) in B4.
  pose proof (resume_ok 0 w4 i s3 _ _ _ srv4 eq_refl Hi3 Ht Hresp Hlog4) as B5.
  set (w5 := World srv4 _ _ _ _) in B5.
  exists w5. split; [|split; [done|split; [done|split; [done|]]]].
  - etransitivity; [exact Hsteps|].
    eapply rtc_l; [eapply step_resume; [|exact B4]; simpl; lia|].
    apply rtc_once. eapply step_resume; [|exact B5]. simpl. lia.
  - rewrite <-Hreq in Hm |- *.
    destruct (log_request_other _ (key q1 resp1) _ _ Hm (not_eq_sym Hk) Hlog3) as [Hm3 <-].
    by destruct (log_request_other _ (key q1 resp1) _ _ Hm3 (not_eq_sym Hk) Hlog4) as [_ <-].
Qed.
End logging.

(** ** Witnesses *)

#[local] Existing Instance lexical_filesystem.
#[local] Existing Instance example_environment.

Lemma every_response_counted_witness :
  (total (requests_ (w_server example_answered)) + Z.of_nat (length (w_busy example_answered)) =
   Z.of_nat (length (w_writes example_answered)))%Z.
Proof.
  apply (every_response_counted server_config example_server 4);
    [apply example_server_made|apply example_steps; lia].
Defined.

Definition example_other : concrete_request := CRequest "GET" "/other" "1" "1" [].

Lemma example_other_valid : valid_head example_other.
Proof. split; try reflexivity; [simpl; lia|simpl; lia|done|by vm_compute]. Qed.

Definition example_not_found_at (q : concrete_request) : response (Beast := model_beast) :=
  show_error_page status_not_found ("Uri path " ++ c_uri q ++ " not found").

Lemma example_call (q : concrete_request) r :
  carries r q [] -> call_handler 0 example_server r = (example_server, Ret (example_not_found_at q)).
Proof.
  intros (_ & Ht & _). unfold call_handler. rewrite example_server_objects. simpl.
  unfold NotFound_handle_request, example_not_found_at. change (m_target r) with (req_target r).
  by rewrite Ht.
Qed.

Definition logged_twice : server :=
  match log_request (c_uri example_other, 404%Z) example_server with
  | Ret s => match log_request (c_uri example_other, 404%Z) s with Ret s => s | _ => s end
  | _ => example_server
  end.

Lemma counted_under_the_next_url_witness :
  exists w', rtc (step 2) example_world w' /\ w_server w' = logged_twice /\ w_busy w' = [] /\
    w_writes w' = w_writes example_world ++
      [print_response (example_not_found_at example_get); print_response (example_not_found_at example_other)] /\
    map_find (c_uri example_get, 404%Z) (requests_ logged_twice) =
    map_find (c_uri example_get, 404%Z) (requests_ (w_server example_world)).
Proof.
  eapply (counted_under_the_next_url example_get example_other example_world 0 new_session 0 0
    example_server example_server);
    [apply example_get_valid|reflexivity|vm_compute; lia|apply example_other_valid|reflexivity|
     vm_compute; lia|reflexivity|apply ready_new|reflexivity|done|vm_compute; reflexivity|
     apply example_call|vm_compute; reflexivity|apply example_call|vm_compute; reflexivity|
     vm_compute; reflexivity|by vm_compute].
Defined.
