(* ===== verification/Races.v ===== *)
(** * Data races on the maps of the server

    [write] takes the mutex of the server to log a request.  The handlers read
    [requests_] and read and write [memes_] without it.  The accesses of a
    callback to these maps are those of the handler it calls; two callbacks that
    may run at the same time race when one writes what the other uses and not
    both hold the mutex.  (The other maps are written before the first
    connection is accepted and only read from then on.) *)
From S2P Require Import Prelude CppStd StdMap Boost BoostModel ConfigLexer ConfigParser Utils.
From S2P Require Import RequestParser RequestGrammar RequestMessage Handlers Status ReverseProxy.
From S2P Require Import Meme Server ExampleServer ServerLookup ServerState Socket Session.
From S2P Require Import SessionServe SessionSafety Concurrency Logging.

(** ** Accesses *)

Inductive shared := Requests | Memes | Prefixes.

#[export] Instance shared_eq_dec : EqDecision shared.
Proof. solve_decision. Defined.

Record access := Access {
  what : shared;
  writes : bool;
  (** under [mtx_] *)
  guarded : bool
}.

#[export] Instance access_eq_dec : EqDecision access.
Proof. solve_decision. Defined.

Definition conflict (x y : access) : bool :=
  bool_decide (what x = what y) && (writes x || writes y) && negb (guarded x && guarded y).

Section accesses.
Context `{B : Beast} `{E : !Environment} `{F : BoostFilesystem} `{T : BoostString}.

(** [log_meme]: it looks for the URL, and adds it when it is not there. *)
Definition effect_accesses (s : server) (e : effect) : list access :=
  match e with
  | LogMeme img_url _ =>
      Access Memes false false ::
      match map_find img_url (memes_ s) with Some _ => [] | None => [Access Memes true false] end
  | WriteFile _ _ => []
  end.

(** The getters a handler calls. *)
Definition handler_reads (h : RequestHandler) (req : request) : list access :=
  match h with
  | StatusRequestHandler true => [Access Requests false false; Access Prefixes false false]
  | MemeHandler true _ =>
      if decide (req_target req = lit "/meme/browse") then [Access Memes false false] else []
  | _ => []
  end.

Definition handler_accesses (h : RequestHandler) (s : server) (req : request) : list access :=
  handler_reads h req ++ ((handle_request h s req).1 ≫= effect_accesses s).

(** [log_request], inside [write]. *)
Definition log_request_accesses : list access := [Access Requests false true; Access Requests true true].

(** The handler that a callback calls, and the request it is given.  After a
    head the address of the peer is logged before that. *)
Definition called `{K : Socket} (op : operation) (e : event) (s : session) (srv : server) : option (nat * request) :=
  match op, e with
  | ReadSome, GotSome data =>
      match parse (request_parser_ s) (request_ s) data, get_endpoint_address with
      | Ret (Some true, rest, _, req), Ret _ =>
          match content_length_of req, get_request_handler (req_target req) srv with
          | Ret n, Ret (Some ptr) =>
              if (n <? 0)%Z then None
              else if decide (n = 0%Z) then Some (ptr, req)
              else if (n <=? Z.of_nat (length rest))%Z
              then Some (ptr, req_set_body (req_body req ++ take (Z.to_nat n) rest) req)
              else None
          | _, _ => None
          end
      | _, _ => None
      end
  | Read _, GotBytes data =>
      match request_handler_ s with
      | Some (Some ptr) =>
          Some (ptr, req_set_body (req_body (request_ s) ++ body_data s ++ data) (request_ s))
      | _ => None
      end
  | _, _ => None
  end.

Definition callback_accesses `{K : Socket} (op : operation) (e : event) (s : session) (srv : server) : list access :=
  match called op e s srv with
  | Some (ptr, req) =>
      match objects_ srv !! ptr with Some h => handler_accesses h srv req | None => [] end
  | None => []
  end.

(** ** What runs at the same time *)

(** A callback, or the rest of a [write]. *)
Inductive activity :=
| Callback (c : completion)
| Rest (k : nat).

Definition active (w : world) (a : activity) : bool :=
  match a with
  | Callback c => enabled c w
  | Rest k => bool_decide (k < length (w_busy w))
  end.

Definition activity_accesses (w : world) (a : activity) : list access :=
  match a with
  | Callback (Completed i e peer) =>
      match w_sessions w !! i with
      | Some (s, op) => callback_accesses (K := tcp_socket_wrapper peer) op e s (w_server w)
      | None => []
      end
  | Callback _ => []
  | Rest _ => log_request_accesses
  end.

(** The socket a completion is of; [None] is the acceptor. *)
Definition socket_of (c : completion) : option nat :=
  match c with Completed i _ _ => Some i | _ => None end.

(** There are threads for both: a [write] that goes on has its own. *)
Definition together (threads : nat) (w : world) (a b : activity) : Prop :=
  active w a = true /\ active w b = true /\
  match a, b with
  | Rest k, Rest k' => k <> k'
  | Rest _, Callback _ | Callback _, Rest _ => length (w_busy w) < threads
  | Callback c, Callback c' => socket_of c <> socket_of c' /\ length (w_busy w) + 2 <= threads
  end.

Definition race (threads : nat) (w : world) : Prop :=
  exists a b x y, together threads w a b /\ x ∈ activity_accesses w a /\
    y ∈ activity_accesses w b /\ conflict x y = true.
End accesses.

(** ** The accesses are those of the code *)

Section footprint.
Context `{B : Beast} `{E : !Environment} `{F : BoostFilesystem} `{T : BoostString}.

Lemma answer_server ptr s srv s' srv' :
  answer ptr s srv = Ret (s', srv') -> srv' = (call_handler ptr srv (request_ s)).1.
Proof.
  unfold answer. destruct (call_handler ptr srv (request_ s)) as [srv1 resp]. intros H.
  apply bind_ret_inv in H as (r & _ & H). by injection H as _ <-.
Qed.

Lemma answer_write_server `{K : Socket} ptr s srv r :
  ('(s, srv) ← answer ptr s srv; write s srv) = Ret r ->
  r.1.2 = (call_handler ptr srv (request_ s)).1.
Proof.
  intros H. apply bind_ret_inv in H as ([s1 srv1] & Ha%answer_server & ->%write_result). done.
Qed.

Lemma answer_logged_write_server `{K : Socket} ptr s srv r :
  ('(s, srv) ← answer_logged ptr s srv; write s srv) = Ret r ->
  r.1.2 = (call_handler ptr srv (request_ s)).1.
Proof.
  intros H. apply bind_ret_inv in H as ([s1 srv1] & Ha & ->%write_result).
  apply bind_ret_inv in Ha as ([s2 srv2] & Ha%answer_server & H).
  apply bind_ret_inv in H as (_ & _ & H). by injection H as _ <-.
Qed.

(** The server a callback leaves is the one the handler it calls leaves. *)
Lemma called_header `{K : Socket} data s srv r :
  handle_read_header data s srv = Ret r ->
  r.1.2 = match called ReadSome (GotSome data) s srv with
          | Some (ptr, req) => (call_handler ptr srv req).1
          | None => srv
          end.
Proof.
  unfold handle_read_header, called. intros H.
  apply bind_ret_inv in H as ([[[res rest] p] req] & -> & H).
  apply bind_ret_inv in H as (n & Hn & H). cbn [request_ with_request with_parser] in Hn.
  case_decide as Hbad.
  { apply bind_ret_inv in H as (_ & _ & ->%write_result). simpl.
    destruct res as [[]|], get_endpoint_address; try done. rewrite Hn.
    destruct (get_request_handler _ srv) as [[]| | |]; try done.
    destruct (Z.ltb_spec n 0); [done|]. destruct Hbad; [done|lia]. }
  destruct res as [[]|]; [|tauto|]; cycle 1.
  { apply bind_ret_inv in H as (_ & _ & H). unfold read_header in H.
    apply bind_ret_inv in H as (_ & _ & H). by injection H as <-. }
  unfold handle_complete_header in H. apply bind_ret_inv in H as (u & Ha & H).
  unfold log_address in Ha. destruct get_endpoint_address; [|done..].
  apply bind_ret_inv in H as (h & Hh & H). cbn [request_ with_request with_parser] in Hh.
  rewrite Hn, Hh. destruct h as [ptr|]; [|by apply bind_ret_inv in H as (_ & _ & ->%write_result)].
  destruct (Z.ltb_spec n 0); [tauto|]. case_decide; [by apply answer_logged_write_server in H|].
  apply bind_ret_inv in H as (_ & _ & H).
  destruct (n <=? _)%Z; [by apply answer_logged_write_server in H|].
  unfold read_body in H. apply bind_ret_inv in H as (_ & _ & H). by injection H as <-.
Qed.

Lemma called_body `{K : Socket} data s srv r n :
  handle_read_body data s srv = Ret r ->
  r.1.2 = match called (Read n) (GotBytes data) s srv with
          | Some (ptr, req) => (call_handler ptr srv req).1
          | None => srv
          end.
Proof.
  unfold handle_read_body, called. cbn [request_handler_ with_body_data append_body with_request].
  destruct (request_handler_ s) as [[ptr|]|]; [|by intros ->%write_result|done].
  by intros ->%answer_write_server.
Qed.

Lemma called_callback `{K : Socket} op e s srv r :
  callback op e s srv = Ret r ->
  r.1.2 = match called op e s srv with
          | Some (ptr, req) => (call_handler ptr srv req).1
          | None => srv
          end.
Proof.
  destruct op, e; try apply called_header; try apply called_body; intros H;
    try (unfold callback, handle_error in H; apply bind_ret_inv in H as (_ & _ & H); by injection H as <-).
  unfold callback, handle_write, read_header in H. apply bind_ret_inv in H as (_ & _ & H).
  apply bind_ret_inv in H as (_ & _ & H). by injection H as <-.
Qed.

(** ** What is not accessed does not matter *)

Definition touches (m : shared) (l : list access) : bool :=
  existsb (fun a => bool_decide (what a = m)) l.

Definition writes_to (m : shared) (l : list access) : bool :=
  existsb (fun a => bool_decide (what a = m) && writes a) l.

Lemma writes_to_app m l1 l2 : writes_to m (l1 ++ l2) = writes_to m l1 || writes_to m l2.
Proof. apply existsb_app. Qed.

(** [log_meme] on a URL that is there changes nothing. *)
Lemma effects_kept es s :
  writes_to Memes (es ≫= effect_accesses s) = false -> foldl apply_effect s es = s.
Proof.
  induction es as [|e es IH]; [done|]. rewrite bind_cons, writes_to_app. intros [He Hes]%orb_false_iff.
  simpl. assert (apply_effect s e = s) as ->; [|auto].
  destruct e as [url sel|p c]; [|done]. simpl in *. unfold log_meme.
  by destruct (map_find url (memes_ s)).
Qed.

Lemma handle_request_requests h s req m :
  touches Requests (handler_accesses h s req) = false ->
  handle_request h (with_requests m s) req = handle_request h s req.
Proof. destruct h as [| | | |[]|[]| |[]]; intros Ht; simpl in *; done. Qed.

Lemma handle_request_memes h s req m :
  touches Memes (handler_accesses h s req) = false ->
  handle_request h (with_memes m s) req = handle_request h s req.
Proof.
  destruct h as [| | | |[]|[]| |[] root]; intros Ht; try done. simpl in *.
  unfold handler_accesses, touches in Ht. rewrite existsb_app in Ht.
  apply orb_false_iff in Ht as [Hr _]. simpl in Hr. unfold Meme_handle_request.
  repeat case_decide; done.
Qed.

(** C17: the accesses are all there are.  A handler that is not said to read
    [requests_] answers and does the same whatever is in it, and so for
    [memes_]; one that is not said to write [memes_] leaves the server as it is,
    and none changes [requests_]; and a callback changes the server only by the
    handler that it is said to call. *)
Theorem accesses_complete `{K : Socket} (h : RequestHandler) (s : server) (req : request) :
  (touches Requests (handler_accesses h s req) = false ->
   forall m, handle_request h (with_requests m s) req = handle_request h s req) /\
  (touches Memes (handler_accesses h s req) = false ->
   forall m, handle_request h (with_memes m s) req = handle_request h s req) /\
  (writes_to Memes (handler_accesses h s req) = false ->
   foldl apply_effect s (handle_request h s req).1 = s) /\
  requests_ (foldl apply_effect s (handle_request h s req).1) = requests_ s /\
  forall op e sess r, callback op e sess s = Ret r ->
    r.1.2 = match called op e sess s with
            | Some (ptr, req) => (call_handler ptr s req).1
            | None => s
            end.
Proof.
  split; [intros; by apply handle_request_requests|].
  split; [intros; by apply handle_request_memes|]. split.
  - unfold handler_accesses. rewrite writes_to_app. intros [_ H]%orb_false_iff. by apply effects_kept.
  - split; [apply quiet_effects|]. intros op e sess r. apply called_callback.
Qed.
End footprint.

(** ** When there is no race *)

Section races.
Context `{BL : BeastLaws} `{E : !Environment} `{FL : BoostFilesystemLaws} `{T : BoostString}.

(** Neither of the classes that use what is logged. *)
Definition uses_logs (h : RequestHandler) : bool :=
  match h with StatusRequestHandler _ | MemeHandler _ _ => true | _ => false end.

Lemma no_logs_accesses h s req : uses_logs h = false -> handler_accesses h s req = [].
Proof. by destruct h. Qed.

Lemma callback_accesses_none `{K : Socket} op e s srv :
  Forall (fun h => uses_logs h = false) (objects_ srv) -> callback_accesses op e s srv = [].
Proof.
  intros Hf. unfold callback_accesses. destruct (called op e s srv) as [[ptr req]|]; [|done].
  destruct (objects_ srv !! ptr) as [h|] eqn:Hh; [|done].
  apply no_logs_accesses. exact (Forall_lookup_1 _ _ _ _ Hf Hh).
Qed.

Lemma activity_accesses_none w c :
  Forall (fun h => uses_logs h = false) (objects_ (w_server w)) ->
  activity_accesses w (Callback c) = [].
Proof.
  intros Hf. destruct c as [| |i e peer]; try done. simpl.
  destruct (w_sessions w !! i) as [[s op]|]; [|done]. by apply callback_accesses_none.
Qed.

(** The mutex orders the ends of two [write]s. *)
Lemma rests_do_not_conflict x y :
  x ∈ log_request_accesses -> y ∈ log_request_accesses -> conflict x y = false.
Proof.
  unfold log_request_accesses. intros Hx Hy.
  apply list_elem_of_In in Hx, Hy. simpl in Hx, Hy.
  by destruct Hx as [<-|[<-|[]]], Hy as [<-|[<-|[]]].
Qed.

(** When nothing races.  On one thread, and on any number of threads when the
    configuration has neither a status nor a meme handler, no state that is
    reached has two accesses to one map at the same time of which one writes and
    not both hold the mutex. *)
Theorem race_free (config : NginxConfig) (srv : server) (threads : nat) (w : world) :
  getHandlers empty_server config = Ret srv ->
  threads <= 1 \/ Forall (fun h => uses_logs h = false) (objects_ srv) ->
  rtc (step threads) (first_world srv) w -> ~ race threads w.
Proof.
  intros Hg Hcase Hr (a & b & x & y & (Ha & Hb & Htog) & Hx & Hy & Hc).
  destruct (reachable_keeps _ _ _ _ Hg Hr) as [_ [(Ho & _) _]].
  destruct a as [c|k], b as [c'|k'].
  4: { simpl in Hx, Hy. by rewrite rests_do_not_conflict in Hc. }
  all: destruct Hcase as [Ht|Hf]; [|rewrite <-Ho in Hf;
    rewrite activity_accesses_none in Hx || rewrite activity_accesses_none in Hy; try done;
    by apply elem_of_nil in Hx || by apply elem_of_nil in Hy].
  - lia.
  - simpl in Hb. apply bool_decide_eq_true in Hb. lia.
  - simpl in Ha. apply bool_decide_eq_true in Ha. lia.
Qed.
(** ** A race *)

Lemma called_head `{C : Connected} q s srv ptr :
  valid_head q -> ready s -> head_length q = Ret 0%Z -> get_request_handler (c_uri q) srv = Ret (Some ptr) ->
  exists r, called ReadSome (GotSome (print_head q)) s srv = Some (ptr, r).
Proof.
  intros Hq Hs Hn Hg. destruct (parse_ready q [] s Hq Hs) as (r & Hp & Hc). rewrite app_nil_r in Hp.
  exists r. unfold called. rewrite Hp. destruct connected as [address ->].
  rewrite (content_length_carries r q [] Hc), Hn. destruct Hc as (_ & Ht & _). by rewrite Ht, Hg.
Qed.

Lemma two_accepted threads srv :
  0 < threads ->
  rtc (step threads) (first_world srv)
    (World srv [(new_session, ReadSome); (new_session, ReadSome)] (Some new_session) [] []).
Proof.
  intros Ht. eapply rtc_l; [by apply (step_begin _ (Accepted (Some [])) _ (start_accept
    (World srv [(new_session, ReadSome)] None [] [])))|].
  apply rtc_once. by apply (step_begin _ (Accepted (Some []))).
Qed.

(** C25: the status page races.  With two threads, one client's request that is
    answered and another's for the status page are enough: while the first thread
    logs the request under the mutex, the second may read the map it is logged
    in without it. *)
Theorem status_page_races (threads : nat) (srv srv1 : server) (q1 q2 : concrete_request)
    (ptr1 ptr2 : nat) (resp1 : response) :
  2 <= threads ->
  valid_head q1 -> head_length q1 = Ret 0%Z -> length (print_head q1) <= max_length ->
  valid_head q2 -> head_length q2 = Ret 0%Z -> length (print_head q2) <= max_length ->
  get_request_handler (c_uri q1) srv = Ret (Some ptr1) ->
  (forall r, carries r q1 [] -> call_handler ptr1 srv r = (srv1, Ret resp1)) ->
  get_request_handler (c_uri q2) srv1 = Ret (Some ptr2) ->
  objects_ srv1 !! ptr2 = Some (StatusRequestHandler true) ->
  exists w, rtc (step threads) (first_world srv) w /\ race threads w.
Proof.
  intros Ht Hq1 Hn1 Hl1 Hq2 Hn2 Hl2 Hg1 Hc1 Hg2 Ho2.
  set (w := World srv [(new_session, ReadSome); (new_session, ReadSome)] (Some new_session) [] []).
  destruct (begin_head q1 w 0 new_session ptr1 srv1 resp1 [] Hq1 ready_new Hn1 eq_refl Hg1 Hc1)
    as (s1 & B1 & _). set (w1 := started 0 _ w) in B1. exists w1. split.
  { eapply rtc_r; [apply two_accepted; lia|]. eapply step_begin; [|simpl; lia|exact B1].
    cbn [enabled w_sessions lookup list_lookup possible]. apply bool_decide_eq_true.
    split; [apply print_head_length|done]. }
  destruct (called_head (K := tcp_socket_wrapper (Some [])) q2 new_session srv1 ptr2 Hq2 ready_new Hn2 Hg2)
    as [r Hr].
  exists (Rest 0), (Callback (Completed 1 (GotSome (print_head q2)) (Some []))),
    (Access Requests true true), (Access Requests false false).
  split; [split; [done|split; [|simpl; lia]]|split; [|split; [|done]]].
  - cbn. apply bool_decide_eq_true. split; [apply print_head_length|done].
  - simpl. right. left.
  - cbn [activity_accesses w_sessions w1 started w list_insert insert lookup list_lookup w_server].
    unfold callback_accesses. rewrite Hr, Ho2. unfold handler_accesses. simpl. left.
Qed.
End races.

(** ** Witnesses *)

#[local] Existing Instance lexical_filesystem.
#[local] Existing Instance example_environment.

Lemma race_free_witness :
  ~ race 1 example_answered.
Proof.
  apply (race_free server_config example_server 1 example_answered);
    [apply example_server_made|by left|apply example_steps; lia].
Defined.

Definition example_status : concrete_request := CRequest "GET" "/status" "1" "1" [].

Lemma example_status_valid : valid_head example_status.
Proof. split; try reflexivity; [simpl; lia|simpl; lia|done|by vm_compute]. Qed.

Lemma status_page_races_witness :
  exists w, rtc (step 2) (first_world example_server) w /\ race 2 w.
Proof.
  apply (status_page_races 2 example_server example_server example_get example_status 0 4
           (example_not_found_at example_get));
    [lia|apply example_get_valid|reflexivity|vm_compute; lia|apply example_status_valid|reflexivity|
     vm_compute; lia|vm_compute; reflexivity|apply example_call|vm_compute; reflexivity|
     vm_compute; reflexivity].
Defined.
