(* ===== verification/History.v ===== *)
(** * What the server never forgets

    The logs of the server only grow: a meme keeps the entry it got first, no
    count goes down, and what was sent stays sent, whatever is served
    afterwards and however callbacks interleave. *)
From S2P Require Import Prelude CppStd StdMap Boost BoostModel ConfigLexer ConfigParser Utils.
From S2P Require Import RequestParser RequestGrammar RequestMessage Handlers Status ReverseProxy.
From S2P Require Import Meme Server ExampleServer ServerLookup ServerState Socket Session.
From S2P Require Import SessionServe SessionSafety Concurrency Logging Races.

(** A later state of the logs. *)
Record grows (s s' : server) : Prop := {
  grows_memes url selections :
    map_find url (memes_ s) = Some selections -> map_find url (memes_ s') = Some selections;
  grows_counts k : (count k s <= count k s')%Z
}.

#[export] Instance grows_preorder : PreOrder grows.
Proof.
  split; [by split|]. intros s1 s2 s3 [M1 C1] [M2 C2]. split; [auto|]. intros k.
  etransitivity; eauto.
Qed.

Lemma grows_log_meme url selections s : map_sorted (memes_ s) -> grows s (log_meme url selections s).
Proof.
  intros Hs. unfold log_meme. destruct (map_find url (memes_ s)) as [v|] eqn:Hu; [done|].
  split; [|done]. intros url' v Hv. simpl. rewrite map_find_assign by done.
  case_decide; [congruence|done].
Qed.

Lemma grows_effects es s : server_inv s -> grows s (foldl apply_effect s es).
Proof.
  revert s. induction es as [|e es IH]; intros s Hs; [done|]. simpl.
  transitivity (apply_effect s e).
  - destruct e; [apply grows_log_meme, Hs|done].
  - apply IH. by apply (keeps_effects [e] s).
Qed.

Lemma grows_log_request k s s' : map_sorted (requests_ s) -> log_request k s = Ret s' -> grows s s'.
Proof.
  intros Hs H. unfold log_request in H. destruct (map_find k (requests_ s)) as [n|] eqn:Hn.
  - apply bind_ret_inv in H as (v & Hv & H). injection H as <-. unfold int_result in Hv.
    destruct (in_int (n + 1)); [injection Hv as <-|done]. split; [done|]. intros k'. unfold count. simpl.
    rewrite map_find_assign by done. case_decide; [subst; rewrite Hn; simpl; lia|done].
  - injection H as <-. split; [done|]. intros k'. unfold count. simpl.
    rewrite map_find_assign by done. case_decide; [subst; rewrite Hn; simpl; lia|done].
Qed.

Section history.
Context `{BL : BeastLaws} `{E : !Environment} `{FL : BoostFilesystemLaws} `{T : BoostString}.

Lemma grows_call_handler ptr s req : server_inv s -> grows s (call_handler ptr s req).1.
Proof.
  intros Hs. unfold call_handler. destruct (objects_ s !! ptr) as [h|]; [|done].
  destruct (handle_request h s req) as [es o]. by apply grows_effects.
Qed.

Lemma grows_callback `{K : Socket} op e s srv r :
  server_inv srv -> callback op e s srv = Ret r -> grows srv r.1.2.
Proof.
  intros Hs ->%called_callback. destruct (called op e s srv) as [[ptr req]|]; [|done].
  by apply grows_call_handler.
Qed.

(** The world goes on. *)
Definition later (w w' : world) : Prop :=
  grows (w_server w) (w_server w') /\ w_writes w `prefix_of` w_writes w' /\
  length (w_sessions w) <= length (w_sessions w').

#[export] Instance later_preorder : PreOrder later.
Proof.
  split; [by repeat split|]. intros w1 w2 w3 (G1 & P1 & L1) (G2 & P2 & L2).
  split; [by transitivity (w_server w2)|]. split; [by transitivity (w_writes w2)|lia].
Qed.

Lemma later_begin c w w' : world_inv w -> begin c w = Ret w' -> later w w'.
Proof.
  intros Hw H. pose proof (winv_accepting w Hw) as Ha. destruct c as [peer| |i e peer]; simpl in H.
  - rewrite Ha in H. unfold handle_accept in H. apply bind_ret_inv in H as (w1 & H1 & H).
    injection H as <-. apply bind_ret_inv in H1 as (_ & _ & H1). apply bind_ret_inv in H1 as (r & Hr & H1).
    injection H1 as <-. apply start_kept in Hr as [-> _]; [|by intros p].
    split; [done|]. split; [done|]. simpl. rewrite length_app. lia.
  - rewrite Ha in H. by injection H as <-.
  - destruct (w_sessions w !! i) as [[s op]|]; [|by injection H as <-].
    apply bind_ret_inv in H as (r & Hr%grows_callback & H); [|apply Hw]. injection H as <-.
    destruct r as [[s' srv'] op']. split; [done|]. split.
    + simpl. destruct op'; try done. by apply prefix_app_r.
    + simpl. by rewrite length_insert.
Qed.

Lemma later_resume k w w' : world_inv w -> resume k w = Ret w' -> later w w'.
Proof.
  intros Hw H. unfold resume in H. destruct (w_busy w !! k) as [i|]; [|by injection H as <-].
  destruct (w_sessions w !! i) as [[s op]|]; [|by injection H as <-].
  apply bind_ret_inv in H as (srv & Hl & H). injection H as <-.
  split; [|done]. eapply grows_log_request; [apply Hw|exact Hl].
Qed.

Lemma later_step threads w w' : world_inv w -> step threads w w' -> later w w'.
Proof.
  intros Hw Hstep. destruct Hstep as [c w w' _ _ Hb|k w w' _ Hr]; [by eapply later_begin|by eapply later_resume].
Qed.
End history.
