(* ===== verification/Machine.v ===== *)
(** * The machine the server runs on

    While the server runs, files are written and read, every upload gets a new
    name, and the remote hosts answer as they like.  A machine is a world with
    the files as they are; each callback runs at a moment, which says what is
    drawn and answered during it. *)
From S2P Require Import Prelude CppStd StdMap Boost BoostModel ConfigLexer ConfigParser Utils.
From S2P Require Import RequestParser RequestGrammar RequestMessage Handlers Status ReverseProxy.
From S2P Require Import Meme MemeForm MemeStore Server ExampleServer ServerLookup ServerState.
From S2P Require Import ServerSafety Uploads Socket Session SessionServe SessionSafety Concurrency.
From S2P Require Import Logging Races History.

(** ** The callback that calls a handler *)

Section answers.
Context `{B : Beast} `{E : !Environment} `{F : BoostFilesystem} `{T : BoostString}.

Lemma answer_write_ok `{C : Connected} ptr s srv srv1 resp :
  request_handler_ s = Some (Some ptr) -> call_handler ptr srv (request_ s) = (srv1, Ret resp) ->
  ('(s, srv) ← answer ptr s srv; write s srv) =
  Ret (with_response resp s, srv1, Write (print_response resp)).
Proof.
  intros Hh Hc. unfold answer. rewrite Hc, !bind_Ret.
  by rewrite (write_ok (with_response resp s) srv1 _ Hh).
Qed.

(** When the peer is there, what the handler answers is written. *)
Lemma called_answers `{C : Connected} op e s srv ptr req srv1 resp :
  called op e s srv = Some (ptr, req) -> call_handler ptr srv req = (srv1, Ret resp) ->
  exists s1, callback op e s srv = Ret (s1, srv1, Write (print_response resp)).
Proof.
  intros H Hc. destruct op, e as [data|data| |]; try done; simpl in H.
  - destruct (parse (request_parser_ s) (request_ s) data) as [[[[[[]|] rest] p] r]| | |] eqn:Hp; try done.
    destruct connected as [address Ha]. rewrite Ha in H.
    destruct (content_length_of r) as [n| | |] eqn:Hn; try done.
    destruct (get_request_handler (req_target r) srv) as [[q|]| | |] eqn:Hg; try done.
    unfold callback, handle_read_header. rewrite Hp, bind_Ret. cbn [request_ with_request with_parser].
    rewrite Hn, bind_Ret. destruct (Z.ltb_spec n 0); [done|].
    rewrite decide_False by (intros [?|?]; [done|lia]).
    unfold handle_complete_header. cbn [request_ with_request with_parser].
    rewrite Hg, log_address_ok, !bind_Ret, !answer_logged_ok.
    destruct (decide (n = 0%Z)); [injection H as -> ->|destruct (n <=? _)%Z; [injection H as -> <-|done]];
      eexists; by apply answer_write_ok.
  - unfold callback, handle_read_body.
    cbn [request_handler_ with_body_data append_body with_request].
    destruct (request_handler_ s) as [[q|]|] eqn:Hh; try done. injection H as -> <-.
    eexists. by apply answer_write_ok.
Qed.
End answers.

(** ** Machines *)

(** What a callback finds outside of the program besides the files. *)
Record moment `{B : Beast} := Moment {
  drawn : str;
  answered : str -> str -> request -> outcome response
}.

Section machine.
Context `{B : Beast} `{E : !Environment} `{F : BoostFilesystem} `{T : BoostString} `{D : FileStore}.

Definition at_moment (t : moment) (fs : file_state) : Environment (B := B) := {|
  read_file := file_read fs;
  is_directory := @is_directory B E;
  can_create := @can_create B E;
  perform_request := answered t;
  uuid := drawn t
|}.

Record machine := Machine {
  m_world : world;
  m_files : file_state
}.

(** What the handler that a callback calls does. *)
Definition completion_effects (E' : Environment (B := B)) (c : completion) (w : world) : list effect :=
  match c with
  | Completed i e peer =>
      match w_sessions w !! i with
      | Some (s, op) =>
          match called (K := tcp_socket_wrapper peer) op e s (w_server w) with
          | Some (ptr, req) =>
              match objects_ (w_server w) !! ptr with
              | Some h => (handle_request (E := E') h (w_server w) req).1
              | None => []
              end
          | None => []
          end
      | None => []
      end
  | _ => []
  end.

(** A step of the world at a moment, with what it does to the files. *)
Inductive mstep (threads : nat) (es : list effect) : machine -> machine -> Prop :=
| mstep_begin t c w w' fs :
    enabled c w = true -> length (w_busy w) < threads ->
    begin (E := at_moment t fs) c w = Ret w' -> es = completion_effects (at_moment t fs) c w ->
    mstep threads es (Machine w fs) (Machine w' (apply_files es fs))
| mstep_resume k w w' fs :
    k < length (w_busy w) -> resume k w = Ret w' -> es = [] ->
    mstep threads es (Machine w fs) (Machine w' fs).

Definition runs (threads : nat) (m m' : machine) : Prop := exists es, mstep threads es m m'.

(** A file that is written is not the one at [q]. *)
Definition elsewhere (q : str) (e : effect) : Prop :=
  match e with
  | WriteFile p _ => exists q', convertToAbsolutePath p = Ret q' /\ q' <> q
  | LogMeme _ _ => True
  end.

(** A step that leaves the file at [q] alone. *)
Definition spares (q : str) (threads : nat) (m m' : machine) : Prop :=
  exists es, mstep threads es m m' /\ Forall (elsewhere q) es.

(** The callback of [c] calls the handler at [ptr] with [req]; the peer is there. *)
Definition calls (w : world) (c : completion) (ptr : nat) (req : request) : Prop :=
  exists i e address s op, c = Completed i e (Some address) /\ w_sessions w !! i = Some (s, op) /\
    called (K := tcp_socket_wrapper (Some address)) op e s (w_server w) = Some (ptr, req).

Lemma runs_world threads m m' :
  runs threads m m' -> exists t, step (E := at_moment t (m_files m)) threads (m_world m) (m_world m').
Proof.
  intros [es [t c w w' fs He Hl Hb _|k w w' fs Hk Hr _]]; simpl.
  - exists t. by eapply step_begin.
  - exists (Moment B [] (fun _ _ _ => Undef)). by eapply step_resume.
Qed.

(** A callback as a function. *)
Definition play (t : moment) (c : completion) (m : machine) : outcome machine :=
  let E' := at_moment t (m_files m) in
  w ← begin (E := E') c (m_world m);
  Ret (Machine w (apply_files (completion_effects E' c (m_world m)) (m_files m))).

(** The answer of a handler that is called. *)
Lemma calls_answered threads t c w fs ptr h req es resp :
  enabled c w = true -> length (w_busy w) < threads -> calls w c ptr req ->
  objects_ (w_server w) !! ptr = Some h ->
  handle_request (E := at_moment t fs) h (w_server w) req = (es, Ret resp) ->
  exists w', mstep threads es (Machine w fs) (Machine w' (apply_files es fs)) /\
    w_writes w' = w_writes w ++ [print_response resp] /\
    w_server w' = foldl apply_effect (w_server w) es.
Proof.
  intros He Hl (i & e & address & s & op & -> & Hi & Hc) Ho Hh.
  destruct (called_answers (K := tcp_socket_wrapper (Some address)) (E := at_moment t fs) op e s
    (w_server w) ptr req (foldl apply_effect (w_server w) es) resp Hc) as [s1 Hs1].
  { unfold call_handler. by rewrite Ho, Hh. }
  eexists. split; [|split].
  - eapply (mstep_begin _ _ t (Completed i e (Some address))); [done|done| |].
    + unfold begin. rewrite Hi. by rewrite Hs1, bind_Ret.
    + simpl. by rewrite Hi, Hc, Ho, Hh.
  - done.
  - done.
Qed.
End machine.

(** ** Invariants *)

Section invariant.
Context `{BL : BeastLaws} `{E : !Environment} `{FL : BoostFilesystemLaws} `{T : BoostString}.
Context `{D : FileStore} `{DL : !FileStoreLaws F D}.

Lemma machine_steps threads m m' :
  world_inv (m_world m) -> rtc (runs threads) m m' ->
  world_inv (m_world m') /\ keeps (w_server (m_world m)) (w_server (m_world m')).
Proof.
  intros Hw Hr. induction Hr as [m|m m1 m2 Hs _ IH]; [split; [done|apply keeps_refl]|].
  apply runs_world in Hs as [t Hs].
  destruct IH as [Hw2 Hk]; [by eapply (step_inv (E := at_moment t (m_files m)))|]. split; [done|].
  eapply keeps_trans; [|exact Hk]. by eapply (step_keeps (E := at_moment t (m_files m))).
Qed.

Lemma machine_keeps config srv fs threads m :
  getHandlers empty_server config = Ret srv ->
  rtc (runs threads) (Machine (first_world srv) fs) m ->
  world_inv (m_world m) /\ keeps srv (w_server (m_world m)).
Proof.
  intros Hg Hr. apply (machine_steps threads (Machine (first_world srv) fs)); [|done].
  eapply world_inv_first, getHandlers_inv; [apply server_inv_empty|done].
Qed.

(** C13: the server never forgets.  However many threads there are, whatever they
    serve, however the files change and the remote hosts answer: in every state
    that is reached the maps and the pointers are consistent and a connection is
    being waited for, and from any such state on the entry of a meme that is
    logged stays what it is, no count of requests goes down, no session goes
    away, and what is sent is added to what was sent before. *)
Theorem machine_history (config : NginxConfig) (srv : server) (threads : nat) (fs : file_state)
    (m m' : machine) :
  getHandlers empty_server config = Ret srv ->
  rtc (runs threads) (Machine (first_world srv) fs) m -> rtc (runs threads) m m' ->
  world_inv (m_world m') /\ later (m_world m) (m_world m').
Proof.
  intros Hg Hr Hs. destruct (machine_keeps _ _ _ _ _ Hg Hr) as [Hw _].
  split; [apply (machine_steps threads m m' Hw Hs)|]. clear Hg Hr.
  induction Hs as [m|m m1 m2 Hm _ IH]; [done|]. apply runs_world in Hm as [t Ht].
  transitivity (m_world m1); [by eapply (later_step (E := at_moment t (m_files m)))|].
  apply IH. by eapply (step_inv (E := at_moment t (m_files m))).
Qed.

Lemma spared_files q p es fs :
  convertToAbsolutePath p = Ret q -> Forall (elsewhere q) es ->
  file_read (apply_files es fs) p = file_read fs p.
Proof.
  intros Hp. revert fs. induction es as [|e es IH]; intros fs; [done|].
  intros [He Hes]%Forall_cons. change (apply_files (e :: es) fs) with (apply_files es (apply_file fs e)).
  rewrite (IH _ Hes).
  destruct e as [url sel|p' contents]; [done|]. destruct He as (q' & Hq' & Hne). simpl.
  destruct (file_opens fs p'); [by eapply file_read_other|done].
Qed.

Lemma spared threads q p m m' :
  convertToAbsolutePath p = Ret q -> rtc (spares q threads) m m' ->
  rtc (runs threads) m m' /\ file_read (m_files m') p = file_read (m_files m) p.
Proof.
  intros Hp. induction 1 as [m|m m1 m2 [es [Hs He]] _ [Hr IH]]; [done|].
  split; [by eapply rtc_l; [exists es|]|]. rewrite IH.
  destruct Hs as [t c w w' fs _ _ _ _|k w w' fs _ _ _]; [|done]. by eapply spared_files.
Qed.

End invariant.

(** ** An image that was uploaded stays *)

Section stays.
Context `{BL : BeastLaws} `{E : !Environment} `{FL : BoostFilesystemLaws} `{TL : BoostStringLaws}.
Context `{D : FileStore} `{DL : !FileStoreLaws F D}.

(** C8: an image that was uploaded is served from then on.  Whatever the server
    has done, on any number of threads, a valid upload that reaches the meme
    handler is answered with its page, whether its file could be saved or not.  If
    it was saved and can be read, and [relative] finds the image below the static
    location, then however long the server goes on, whatever names are drawn and
    whatever the remote hosts answer, as long as nothing is written to the same
    file, every request for the image that reaches a static location with the same
    root is answered with the content that was sent and the line end that the form
    parser keeps. *)
Theorem upload_stays_served (config : NginxConfig) (srv : server) (threads : nat) (fs : file_state)
    (m : machine) (t : moment) (c : completion) (ptr : nat) (root type css : str) (ds ls : list str)
    (f : form_text) (req : request) :
  getHandlers empty_server config = Ret srv ->
  rtc (runs threads) (Machine (first_world srv) fs) m ->
  objects_ srv !! ptr = Some (MemeHandler true root) -> plain_root root = true ->
  convertToAbsolutePath root = Ret (join_path ds) -> forallb clean_component ds = true ->
  enabled c (m_world m) = true -> length (w_busy (m_world m)) < threads ->
  calls (m_world m) c ptr req ->
  valid_upload (E := at_moment t (m_files m)) root f type css req ->
  let name := drawn t ++ "." ++ type in
  let image := file_content f ++ [CR; LF] in
  clean_component name = true ->
  let effects := upload_effects (E := at_moment t (m_files m)) root f type in
  exists m1 page, mstep threads effects m m1 /\
    w_writes (m_world m1) = w_writes (m_world m) ++ [print_response page] /\
    is_response page status_ok "text/html" (upload_page (E := at_moment t (m_files m)) root f type css) /\
    (saved (m_files m) (meme_path (E := at_moment t (m_files m)) root type) image = true ->
     is_Some (file_read (apply_files effects (m_files m)) (join_path (ds ++ [name]))) ->
     relative (join_path (ls ++ [name])) (join_path ls) = Ret name ->
     forall (m2 : machine) (c2 : completion) (ptr2 : nat) (g : request),
       rtc (spares (join_path (ds ++ [name])) threads) m1 m2 ->
       objects_ srv !! ptr2 = Some (StaticFileRequestHandler (join_path ls) (join_path ds ++ [SLASH])) ->
       enabled c2 (m_world m2) = true -> length (w_busy (m_world m2)) < threads ->
       calls (m_world m2) c2 ptr2 g -> req_target g = join_path (ls ++ [name]) ->
       exists m3, mstep threads [] m2 m3 /\
         w_writes (m_world m3) = w_writes (m_world m2) ++
           [print_response (text_response (parse_content_type_from_uri (req_target g)) image)]).
Proof.
  intros Hg Hr Hp Hroot Hc Hds He Hl Hcalls Hup name image Hn effects.
  destruct (machine_keeps _ _ _ _ _ Hg Hr) as [Hw [(Ho & _) _]].
  destruct m as [w fs1]. cbn [m_world m_files] in *. rewrite <-Ho in Hp.
  destruct (upload_answered (E := at_moment t fs1) root f type css req (w_server w) Hup) as (page & Ha & Hpage).
  destruct (calls_answered threads t c w fs1 ptr _ req _ page He Hl Hcalls Hp Ha) as (w1 & Hs & Hwr & _).
  set (m1 := Machine w1 _) in Hs. exists m1, page. split; [exact Hs|]. split; [exact Hwr|].
  split; [exact Hpage|].
  intros Hsaved [contents Hread] Hrel m2 c2 ptr2 g Hsp Hp2 He2 Hl2 Hcalls2 Htg.
  assert (contents = image) as ->
    by exact (upload_saved (E := at_moment t fs1) root f type fs1 ds Hroot Hn Hc Hds Hsaved contents Hread).
  assert (convertToAbsolutePath (join_path (ds ++ [name])) = Ret (join_path (ds ++ [name]))) as Hq.
  { apply convert_clean; [|by destruct ds]. rewrite forallb_app, Hds. cbn [forallb]. by rewrite Hn. }
  destruct (spared threads _ _ m1 m2 Hq Hsp) as [Hr2 Hf].
  assert (runs threads (Machine w fs1) m1) as Hs1 by by eexists.
  destruct (machine_keeps config srv fs threads m2 Hg) as [_ [(Ho2 & _) _]].
  { etransitivity; [exact Hr|]. by eapply rtc_l. }
  destruct m2 as [w2 fs2]. cbn [m_world m_files] in *. rewrite <-Ho2 in Hp2.
  destruct (calls_answered threads t c2 w2 fs2 ptr2 _ g []
    (text_response (parse_content_type_from_uri (req_target g)) image) He2 Hl2 Hcalls2 Hp2) as (w3 & Hs3 & Hwr3 & _).
  - simpl. f_equal. apply (static_serves ls ds name); [done| |done].
    simpl. rewrite Hf. exact Hread.
  - by exists (Machine w3 (apply_files [] fs2)).
Qed.
End stays.

(** ** Witness *)

#[local] Existing Instance lexical_filesystem.
#[local] Existing Instance shipped_environment.

Definition upload_head : concrete_request :=
  CRequest "POST" "/meme/generate" "1" "1"
    [CHeader "Content-Type" "multipart/form-data; boundary=----0123456789" [];
     CHeader "Content-Length" "322" []].

Definition upload_completion : completion :=
  Completed 0 (GotSome (print_head upload_head ++ print_form "----0123456789" example_form)) (Some []).

Definition upload_moment : moment (B := model_beast) := Moment _ "0000" (fun _ _ _ => Throw system_error).

(** The shipped server with two connections. *)
Definition shipped_machine : machine := {|
  m_world := World shipped_server [(new_session, ReadSome); (new_session, ReadSome)] (Some new_session) [] [];
  m_files := ∅
|}.

Lemma accepted_machine threads srv l fs :
  0 < threads ->
  runs threads (Machine (World srv l (Some new_session) [] []) fs)
    (Machine (World srv (l ++ [(new_session, ReadSome)]) (Some new_session) [] []) fs).
Proof.
  intros Ht. exists []. by apply (mstep_begin threads [] upload_moment (Accepted (Some [])) _ _ fs).
Qed.

Lemma shipped_machine_reached : rtc (runs 2) (Machine (first_world shipped_server) ∅) shipped_machine.
Proof.
  eapply rtc_l; [apply (accepted_machine 2 shipped_server []); lia|].
  apply rtc_once. apply (accepted_machine 2 shipped_server [(new_session, ReadSome)]). lia.
Qed.

Definition uploaded : request :=
  match called (K := tcp_socket_wrapper (Some [])) ReadSome
    (GotSome (print_head upload_head ++ print_form "----0123456789" example_form))
    new_session shipped_server with
  | Some (_, req) => req
  | None => req_new
  end.

Lemma uploaded_calls : calls (m_world shipped_machine) upload_completion 14 uploaded.
Proof.
  exists 0, (GotSome (print_head upload_head ++ print_form "----0123456789" example_form)), [], new_session, ReadSome.
  split; [reflexivity|]. split; [reflexivity|]. vm_compute. reflexivity.
Qed.

Lemma uploaded_valid :
  valid_upload (E := at_moment upload_moment ∅) "./memes/imgs/" example_form "png"
    ".captions{background-color:black}" uploaded.
Proof.
  split; try (vm_compute; reflexivity).
  - exists "multipart/form-data; boundary=----0123456789", 0, "----0123456789". by vm_compute.
  - exists 2%Z. by vm_compute.
Qed.

Lemma uploaded_kept :
  saved (∅ : file_state (FileStore := model_store)) "./memes/imgs/0000.png" (lit "PNG" ++ [CR; LF]) = true /\
  relative "/memes/imgs/0000.png" "/memes/imgs" = Ret (lit "0000.png") /\
  file_read (apply_files (upload_effects (E := at_moment upload_moment ∅) "./memes/imgs/" example_form "png") ∅)
    "/srv/memes/imgs/0000.png" = Some (lit "PNG" ++ [CR; LF]).
Proof. repeat split; vm_compute; reflexivity. Qed.

Lemma upload_stays_served_witness :
  exists m1 page,
    mstep 2 (upload_effects (E := at_moment upload_moment ∅) "./memes/imgs/" example_form "png") shipped_machine m1 /\
    w_writes (m_world m1) = [print_response page] /\
    is_response page status_ok "text/html"
      (upload_page (E := at_moment upload_moment ∅) "./memes/imgs/" example_form "png"
         ".captions{background-color:black}") /\
    (forall (m2 : machine) (c2 : completion) (ptr2 : nat) (g : request),
      rtc (spares "/srv/memes/imgs/0000.png" 2) m1 m2 ->
      objects_ shipped_server !! ptr2 =
        Some (StaticFileRequestHandler "/memes/imgs" "/srv/memes/imgs/") ->
      enabled c2 (m_world m2) = true -> length (w_busy (m_world m2)) < 2 ->
      calls (m_world m2) c2 ptr2 g -> req_target g = lit "/memes/imgs/0000.png" ->
      exists m3, mstep 2 [] m2 m3 /\
        w_writes (m_world m3) = w_writes (m_world m2) ++
          [print_response (text_response (parse_content_type_from_uri (req_target g)) (lit "PNG" ++ [CR; LF]))]).
Proof.
  pose proof (upload_stays_served shipped_config shipped_server 2 ∅ shipped_machine
    upload_moment upload_completion 14 "./memes/imgs/" "png" ".captions{background-color:black}"
    [lit "srv"; lit "memes"; lit "imgs"] [lit "memes"; lit "imgs"] example_form uploaded
    shipped_server_made shipped_machine_reached) as H.
  do 4 (specialize (H ltac:(vm_compute; reflexivity))).
  specialize (H ltac:(vm_compute; reflexivity) ltac:(simpl; lia) uploaded_calls uploaded_valid
    ltac:(vm_compute; reflexivity)).
  destruct H as (m1 & page & H1 & H2 & H3 & H4). exists m1, page. split; [exact H1|]. split; [exact H2|].
  split; [exact H3|]. destruct uploaded_kept as (Hs & Hrel & Hread).
  exact (H4 Hs (mk_is_Some _ _ Hread) Hrel).
Defined.

Lemma after_upload :
  exists m, rtc (runs 2) shipped_machine m /\
    w_server (m_world m) = foldl apply_effect shipped_server
      (upload_effects (E := at_moment upload_moment ∅) "./memes/imgs/" example_form "png").
Proof.
  destruct (upload_answered (E := at_moment upload_moment ∅) _ _ _ _ _ shipped_server uploaded_valid)
    as (page & Ha & _).
  destruct (calls_answered 2 upload_moment upload_completion (m_world shipped_machine) ∅ 14
    (MemeHandler true "./memes/imgs/") uploaded _ page ltac:(by vm_compute) ltac:(simpl; lia)
    uploaded_calls ltac:(by vm_compute) Ha) as (w & Hs & _ & Hw).
  eexists. split; [apply rtc_once; by eexists|exact Hw].
Qed.

Lemma machine_history_witness :
  exists m, memes_ (w_server (m_world m)) <> [] /\
    world_inv (m_world m) /\ later (m_world shipped_machine) (m_world m).
Proof.
  destruct after_upload as (m & Hm & Hw). exists m. split.
  - rewrite Hw. by vm_compute.
  - exact (machine_history shipped_config shipped_server 2 ∅ shipped_machine m
      shipped_server_made shipped_machine_reached Hm).
Defined.

(** The other connection asks for the image. *)
Definition fetch_head : concrete_request := CRequest "GET" "/memes/imgs/0000.png" "1" "1" [].

Definition fetch_completion : completion := Completed 1 (GotSome (print_head fetch_head)) (Some []).

Example upload_then_fetch :
  (last ∘ w_writes ∘ m_world <$>
     (m ← play upload_moment upload_completion shipped_machine; play upload_moment fetch_completion m)) =
  Ret (Some (print_response (text_response "image/png" (lit "PNG" ++ [CR; LF])))).
Proof. vm_compute. reflexivity. Qed.

(** Before the upload it is not there. *)
Example fetch_before_upload :
  (last ∘ w_writes ∘ m_world <$> play upload_moment fetch_completion shipped_machine) =
  Ret (Some (print_response (show_error_page status_not_found "File /memes/imgs/0000.png not found"))).
Proof. vm_compute. reflexivity. Qed.
