(* ===== verification/Authentic.v ===== *)
(** * What is sent on a connection

    Whatever bytes come on the connections, in whatever pieces, and however
    callbacks interleave: what a session sends is the answer of the handler that
    the configuration gives for the request the session holds, called with a
    body of exactly the announced length - or one of two error pages. *)
From S2P Require Import Prelude CppStd StdMap Boost BoostModel ConfigLexer ConfigParser Utils.
From S2P Require Import RequestParser RequestGrammar RequestMessage Handlers Status ReverseProxy.
From S2P Require Import Meme MemeForm MemeStore Server ExampleServer ServerLookup ServerState.
From S2P Require Import ServerSafety Uploads Socket Session SessionServe SessionSafety Concurrency.
From S2P Require Import Logging Races History Machine.

(** ** Parsing leaves the body alone *)

Section body.
Context `{BL : BeastLaws}.

Lemma translate_body req p r : translate req p = Ret r -> req_body r = req_body req.
Proof.
  unfold translate. intros H. apply bind_ret_inv in H as (r1 & Hm & H).
  apply bind_ret_inv in H as (v & _ & H). injection H as <-.
  assert (req_body r1 = req_body req) as Hr1.
  { destruct (decide (string_to_verb (p_method p) = verb_unknown)) as [Hu|Hu].
    - by rewrite Hu, req_set_method_unknown in Hm.
    - destruct (req_set_method_known _ req Hu) as (r2 & Hr2 & _ & _ & _ & Hb & _). congruence. }
  rewrite <-Hr1. assert (req_body (req_set_target (p_uri p) (req_set_version v r1)) = req_body r1) as <-
    by by autorewrite with beast.
  generalize (req_set_target (p_uri p) (req_set_version v r1)) as r2.
  induction (p_headers p) as [|h hs IH]; intros r2; [done|]. simpl. rewrite IH.
  unfold set_header. by autorewrite with beast.
Qed.

Lemma parse_body p req data res rest p' req' :
  parse p req data = Ret (res, rest, p', req') -> req_body req' = req_body req.
Proof.
  unfold parse. intros H. apply bind_ret_inv in H as ([[[res1 rest1] p1] r1] & _ & H).
  case_decide; [|by injection H as _ _ _ <-].
  apply bind_ret_inv in H as (r2 & Hr2%translate_body & H). by injection H as _ _ _ <-.
Qed.

(** The body does not count. *)
Lemma content_length_body b req : content_length_of (req_set_body b req) = content_length_of req.
Proof. unfold content_length_of. by rewrite req_set_body_field. Qed.

Lemma stoi_range s z : stoi s = Ret z -> (INT_MIN <= z <= INT_MAX)%Z.
Proof.
  unfold stoi. destruct (strtol10 s) as [z'|]; [|done]. destruct (in_int z') eqn:Hz; [|done].
  intros [= <-]. unfold in_int in Hz. lia.
Qed.

Lemma content_length_range req n : content_length_of req = Ret n -> (n <= INT_MAX)%Z.
Proof.
  unfold content_length_of. destruct (default [] _) as [|c v]; [by intros [= <-]|].
  unfold catch_all. destruct (stoi (c :: v)) as [z| | |] eqn:Hz; try done; intros [= <-]; [|done].
  apply stoi_range in Hz. lia.
Qed.
End body.

(** ** Sessions *)

Section authentic.
Context `{BL : BeastLaws} `{FL : BoostFilesystemLaws} `{T : BoostString}.
(** The environments that callbacks may find. *)
Context (found : Environment (B := B) -> Prop).

(** How a session has come to its response, on the server [srv]. *)
Inductive answered_on (srv : server) (s : session) : Prop :=
| answered_bad_header :
    response_ s = bad_header_response -> answered_on srv s
| answered_bad_uri :
    get_request_handler (req_target (request_ s)) srv = Ret None ->
    response_ s = bad_uri_response (req_target (request_ s)) -> answered_on srv s
| answered_by_handler E ptr h srv' es :
    get_request_handler (req_target (request_ s)) srv = Ret (Some ptr) ->
    objects_ srv !! ptr = Some h -> keeps srv srv' -> found E ->
    content_length_of (request_ s) = Ret (Z.of_nat (length (req_body (request_ s)))) ->
    handle_request (E := E) h srv' (request_ s) = (es, Ret (response_ s)) -> answered_on srv s.

(** A session that waits for the rest of a body. *)
Record awaits (srv : server) (s : session) (n : Z) : Prop := {
  awaits_some : (0 < n)%Z;
  awaits_length : content_length_of (request_ s) = Ret (Z.of_nat (length (req_body (request_ s))) + n)%Z;
  awaits_buffer : body_data s = [];
  awaits_handler : exists ptr, request_handler_ s = Some (Some ptr) /\
    get_request_handler (req_target (request_ s)) srv = Ret (Some ptr)
}.

(** A session that has not ended, and its operation. *)
Definition authentic (srv : server) (c : session * operation) : Prop :=
  let '(s, op) := c in
  match op with
  | ReadSome => req_body (request_ s) = [] /\ body_data s = []
  | Read n => awaits srv s n
  | Write buffer => buffer = print_response (response_ s) /\ answered_on srv s
  | Done => False
  end.

Lemma authentic_new srv : authentic srv (new_session, ReadSome).
Proof. split; [apply req_new_body|done]. Qed.

Section callback.
Context `{E : !Environment} `{K : Socket} (Hfound : found E).
Context (srv srv0 : server) (Hkept : keeps srv srv0).

Lemma authentic_write s srv1 r :
  answered_on srv s -> write s srv1 = Ret r -> authentic srv (r.1.1, r.2).
Proof. by intros Ha ->%write_result. Qed.

(** A handler is called. *)
Lemma authentic_answer ptr s r :
  get_request_handler (req_target (request_ s)) srv = Ret (Some ptr) ->
  content_length_of (request_ s) = Ret (Z.of_nat (length (req_body (request_ s)))) ->
  ('(s, srv) ← answer ptr s srv0; write s srv) = Ret r -> authentic srv (r.1.1, r.2).
Proof.
  intros Hg Hn H. apply bind_ret_inv in H as ([s1 srv1] & Ha & H). eapply authentic_write; [|exact H].
  unfold answer, call_handler in Ha. destruct Hkept as [(Ho & _) _].
  destruct (objects_ srv0 !! ptr) as [h|] eqn:Hh; [|done]. rewrite Ho in Hh.
  destruct (handle_request h srv0 (request_ s)) as [es o] eqn:Eh.
  apply bind_ret_inv in Ha as (resp & -> & Ha). injection Ha as <- <-.
  by eapply (answered_by_handler srv (with_response resp s) E ptr h srv0 es).
Qed.

Lemma answer_logged_answer ptr s srv1 r :
  ('(s, srv) ← answer_logged ptr s srv1; write s srv) = Ret r ->
  ('(s, srv) ← answer ptr s srv1; write s srv) = Ret r.
Proof.
  intros H. apply bind_ret_inv in H as ([s1 srv2] & Ha & H). unfold answer_logged in Ha.
  apply bind_ret_inv in Ha as ([s2 srv3] & -> & Ha). apply bind_ret_inv in Ha as (_ & _ & Ha).
  injection Ha as -> ->. exact H.
Qed.

Lemma authentic_complete n rest s r :
  req_body (request_ s) = [] -> body_data s = [] -> content_length_of (request_ s) = Ret n -> (0 <= n)%Z ->
  handle_complete_header n rest s srv0 = Ret r -> authentic srv (r.1.1, r.2).
Proof.
  intros Hb Hd Hn Hpos H. unfold handle_complete_header in H. apply bind_ret_inv in H as (_ & _ & H).
  apply bind_ret_inv in H as (o & Hg & H). rewrite (get_request_handler_kept _ _ _ Hkept) in Hg.
  destruct o as [ptr|]; cycle 1.
  { apply bind_ret_inv in H as (_ & _ & H). eapply authentic_write; [|exact H]. by apply answered_bad_uri. }
  case_decide as H0.
  { apply answer_logged_answer in H. eapply authentic_answer; [| |exact H]; [exact Hg|].
    simpl. by rewrite Hb, Hn, H0. }
  apply bind_ret_inv in H as (_ & _ & H). destruct (Z.leb_spec n (Z.of_nat (length rest))) as [Hle|Hlt].
  - apply answer_logged_answer in H. eapply authentic_answer; [| |exact H].
    + simpl. by rewrite req_set_body_target.
    + simpl. rewrite content_length_body, req_set_body_get, Hb, Hn. simpl. f_equal.
      rewrite length_take. lia.
  - unfold read_body in H. apply bind_ret_inv in H as (_ & _ & H). injection H as <-.
    split; simpl; [lia| |done|].
    + rewrite content_length_body, req_set_body_get, Hb, Hn. simpl. f_equal. lia.
    + exists ptr. by rewrite req_set_body_target.
Qed.

Lemma authentic_header data s r :
  authentic srv (s, ReadSome) -> handle_read_header data s srv0 = Ret r -> authentic srv (r.1.1, r.2).
Proof.
  intros [Hb Hd] H. unfold handle_read_header in H.
  apply bind_ret_inv in H as ([[[res rest] p] req] & Hp%parse_body & H).
  apply bind_ret_inv in H as (n & Hn & H). rewrite Hb in Hp.
  case_decide as Hbad.
  { apply bind_ret_inv in H as (_ & _ & H). eapply authentic_write; [|exact H]. by apply answered_bad_header. }
  destruct res as [b|].
  - eapply authentic_complete; [| |exact Hn| |exact H]; [done|done|]. apply Z.nlt_ge. tauto.
  - apply bind_ret_inv in H as (_ & _ & H). unfold read_header in H.
    apply bind_ret_inv in H as (_ & _ & H). by injection H as <-.
Qed.

Lemma authentic_body data s n r :
  authentic srv (s, Read n) -> Z.of_nat (length data) = n ->
  handle_read_body data s srv0 = Ret r -> authentic srv (r.1.1, r.2).
Proof.
  intros [_ Hl Hd (ptr & Hh & Hg)] Hn H. unfold handle_read_body in H. rewrite Hd in H.
  cbn [request_handler_ append_body with_request with_body_data body_data app] in H. rewrite Hh in H.
  eapply authentic_answer; [| |exact H]; simpl.
  - by rewrite req_set_body_target.
  - rewrite content_length_body, req_set_body_get, Hl, length_app. f_equal. lia.
Qed.

(** Every callback keeps it, and only a failure ends a session: it goes on after
    every response, whatever the request says about the connection. *)
Lemma authentic_callback s op e r :
  authentic srv (s, op) -> possible max_length op e = true -> e <> Failed ->
  callback op e s srv0 = Ret r -> authentic srv (r.1.1, r.2).
Proof.
  intros Ha Hp He H. destruct op, e; try done; cbn [callback] in H.
  - by eapply authentic_header.
  - simpl in Hp. apply bool_decide_eq_true in Hp. by eapply authentic_body.
  - unfold handle_write, read_header in H. apply bind_ret_inv in H as (_ & _ & H).
    apply bind_ret_inv in H as (_ & _ & H). injection H as <-. split; [apply req_set_body_get|done].
Qed.

Lemma failed_callback s op r : callback op Failed s srv0 = Ret r -> r.2 = Done.
Proof.
  intros H. assert (handle_error s srv0 = Ret r) as H' by (by destruct op).
  unfold handle_error in H'. apply bind_ret_inv in H' as (_ & _ & H'). by injection H' as <-.
Qed.
End callback.

(** ** Worlds and machines *)

(** Every session has ended or is authentic. *)
Definition sessions_authentic (srv : server) (w : world) : Prop :=
  Forall (fun c => c.2 = Done \/ authentic srv c) (w_sessions w).

Lemma authentic_begin `{E : !Environment} (srv : server) c w w' :
  found E -> world_inv w -> keeps srv (w_server w) -> sessions_authentic srv w ->
  enabled c w = true -> begin c w = Ret w' -> sessions_authentic srv w'.
Proof.
  intros HE Hw Hk Hs He H. pose proof (winv_accepting w Hw) as Ha. unfold sessions_authentic in *.
  destruct c as [peer| |i e peer]; simpl in H.
  - rewrite Ha in H. unfold handle_accept in H. apply bind_ret_inv in H as (w1 & H1 & H).
    injection H as <-. apply bind_ret_inv in H1 as (_ & _ & H1). apply bind_ret_inv in H1 as (r & Hr & H1).
    injection H1 as <-. apply start_kept in Hr as [-> _]; [|by intros p].
    apply Forall_app. split; [done|]. apply Forall_singleton. right. apply authentic_new.
  - rewrite Ha in H. by injection H as <-.
  - simpl in He. destruct (w_sessions w !! i) as [[s op]|] eqn:Hi; [|done].
    apply bind_ret_inv in H as (r & Hr & H). injection H as <-.
    destruct r as [[s' srv'] op'] eqn:Er. simpl. apply Forall_insert; [done|].
    destruct (decide (e = Failed)) as [->|Hne]; [left; by apply failed_callback in Hr|right].
    pose proof (Forall_lookup_1 _ _ _ _ Hs Hi) as [Hd|Hauth]; [simpl in Hd; subst op; by destruct e|].
    by apply (authentic_callback (K := tcp_socket_wrapper peer) HE srv (w_server w) Hk s op e (s', srv', op')).
Qed.

Lemma authentic_resume (srv : server) k w w' :
  sessions_authentic srv w -> resume k w = Ret w' -> sessions_authentic srv w'.
Proof.
  intros Hs H. unfold resume in H. destruct (w_busy w !! k) as [i|]; [|by injection H as <-].
  destruct (w_sessions w !! i) as [[s op]|]; [|by injection H as <-].
  apply bind_ret_inv in H as (srv' & _ & H). by injection H as <-.
Qed.
End authentic.

Section machine.
Context `{BL : BeastLaws} `{E : !Environment} `{FL : BoostFilesystemLaws} `{T : BoostString}.
Context `{D : FileStore}.

(** What a callback may find. *)
Definition at_some_moment (E' : Environment (B := B)) : Prop := exists t fs, E' = at_moment t fs.

Lemma authentic_runs threads srv m m' :
  world_inv (m_world m) -> keeps srv (w_server (m_world m)) ->
  sessions_authentic at_some_moment srv (m_world m) -> runs threads m m' ->
  sessions_authentic at_some_moment srv (m_world m').
Proof.
  intros Hw Hk Hs [es Hm]. destruct Hm as [t c w w' fs He _ Hb _|k w w' fs _ Hr _]; cbn [m_world] in *.
  - refine (authentic_begin at_some_moment (E := at_moment t fs) srv c w w' _ Hw Hk Hs He Hb).
    by exists t, fs.
  - by eapply authentic_resume.
Qed.

Lemma machine_authentic config srv threads fs m :
  getHandlers empty_server config = Ret srv ->
  rtc (runs threads) (Machine (first_world srv) fs) m ->
  sessions_authentic at_some_moment srv (m_world m).
Proof.
  intros Hg. apply (rtc_ind_r (fun m => sessions_authentic at_some_moment srv (m_world m)));
    [apply Forall_nil_2|].
  intros m1 m2 Hr Hm Hs. destruct (machine_keeps _ _ _ _ _ Hg Hr) as [Hw Hk]. by eapply authentic_runs.
Qed.

(** C3: every answer is authentic.  From a server made from a configuration,
    whatever bytes come on its connections and in whatever pieces, however many
    threads there are and however their callbacks interleave, while files change,
    names are drawn and remote hosts answer as they like: what a session is
    sending is its response, and that is what the handler which the configuration
    gives for the URI of the request it holds has answered to exactly this
    request, with a body of the length its head announced; or the page for a bad
    head; or, when no handler was found, the page for that. *)
Theorem every_answer_authentic (config : NginxConfig) (srv : server) (threads : nat) (fs : file_state)
    (m : machine) (i : nat) (s : session) (buffer : str) :
  getHandlers empty_server config = Ret srv ->
  rtc (runs threads) (Machine (first_world srv) fs) m ->
  w_sessions (m_world m) !! i = Some (s, Write buffer) ->
  buffer = print_response (response_ s) /\ answered_on at_some_moment srv s.
Proof.
  intros Hg Hr Hi. pose proof (machine_authentic _ _ _ _ _ Hg Hr) as Hs.
  by destruct (Forall_lookup_1 _ _ _ _ Hs Hi).
Qed.

(** C38: what is read of a body.  In every state that is reached, a session that
    reads the rest of a body has found the handler of its URI, asks for at least
    one byte and for exactly those that the body it has so far is short of the
    announced length, and the number survives the conversion to [int] in the
    socket's [read]. *)
Theorem body_read_in_range (config : NginxConfig) (srv : server) (threads : nat) (fs : file_state)
    (m : machine) (i : nat) (s : session) (n : Z) :
  getHandlers empty_server config = Ret srv ->
  rtc (runs threads) (Machine (first_world srv) fs) m ->
  w_sessions (m_world m) !! i = Some (s, Read n) ->
  (0 < n <= INT_MAX)%Z /\ to_read n = n /\
  content_length_of (request_ s) = Ret (Z.of_nat (length (req_body (request_ s))) + n)%Z /\
  exists ptr, request_handler_ s = Some (Some ptr) /\
    get_request_handler (req_target (request_ s)) srv = Ret (Some ptr).
Proof.
  intros Hg Hr Hi. pose proof (machine_authentic _ _ _ _ _ Hg Hr) as Hs.
  destruct (Forall_lookup_1 _ _ _ _ Hs Hi) as [?|[Hpos Hl _ Hp]]; [done|].
  pose proof (content_length_range _ _ Hl). assert (0 < n <= INT_MAX)%Z by lia.
  split; [done|]. split; [apply to_read_int; lia|]. by split.
Qed.

(** C16: no response is lost to the log and none is counted twice.  However many
    threads there are, whatever the machine does and however callbacks
    interleave, the counts of the requests add up to the number of responses
    given to the sockets, less those whose [write] is not at its end. *)
Theorem responses_counted (config : NginxConfig) (srv : server) (threads : nat) (fs : file_state)
    (m : machine) :
  getHandlers empty_server config = Ret srv ->
  rtc (runs threads) (Machine (first_world srv) fs) m ->
  (total (requests_ (w_server (m_world m))) + Z.of_nat (length (w_busy (m_world m))) =
   Z.of_nat (length (w_writes (m_world m))))%Z.
Proof.
  intros Hg Hr. cut (log_inv (m_world m)); [by intros [_ ?]|].
  revert Hr. apply (rtc_ind_r (fun m => log_inv (m_world m))); [by eapply log_inv_first|].
  intros m1 m2 _ [t Hs]%runs_world Hl. by eapply (log_step (E := at_moment t (m_files m1))).
Qed.
End machine.

(** ** Witnesses *)

#[local] Existing Instance lexical_filesystem.
#[local] Existing Instance shipped_environment.

(** A callback of the shipped machine. *)
Lemma shipped_begun c r i :
  enabled c (m_world shipped_machine) = true ->
  begin (E := at_moment upload_moment ∅) c (m_world shipped_machine) =
    Ret (started i r (m_world shipped_machine)) ->
  exists m, rtc (runs 2) (Machine (first_world shipped_server) ∅) m /\
    m_world m = started i r (m_world shipped_machine).
Proof.
  intros He Hb. eexists (Machine _ _). split; [|reflexivity]. eapply rtc_r; [apply shipped_machine_reached|].
  eexists. refine (mstep_begin 2 _ upload_moment c (m_world shipped_machine) _ ∅ He _ Hb eq_refl). simpl. lia.
Qed.

Lemma not_found_sent :
  exists m s, rtc (runs 2) (Machine (first_world shipped_server) ∅) m /\
    w_sessions (m_world m) !! 0 = Some (s, Write (print_response (example_not_found_at example_get))).
Proof.
  destruct (begin_head (E := at_moment upload_moment ∅) example_get (m_world shipped_machine) 0 new_session
    9 shipped_server (example_not_found_at example_get) []) as (s & Hb & _);
    [apply example_get_valid|apply ready_new|reflexivity|reflexivity|vm_compute; reflexivity| |].
  - intros r (_ & Ht & _). unfold call_handler. cbn [m_world w_server shipped_machine].
    assert (objects_ shipped_server !! 9 = Some NotFoundRequestHandler) as -> by (vm_compute; reflexivity).
    simpl. unfold NotFound_handle_request, example_not_found_at. change (m_target r) with (req_target r).
    by rewrite Ht.
  - destruct (shipped_begun _ _ _ (enabled_head (m_world shipped_machine) 0 new_session example_get [] eq_refl
      ltac:(vm_compute; lia)) Hb) as (m & Hr & Hm).
    exists m, s. split; [exact Hr|]. by rewrite Hm.
Qed.

Lemma every_answer_authentic_witness :
  exists s, answered_on at_some_moment shipped_server s /\
    print_response (example_not_found_at example_get) = print_response (response_ s).
Proof.
  destruct not_found_sent as (m & s & Hr & Hi). exists s.
  destruct (every_answer_authentic shipped_config shipped_server 2 ∅ m 0 s _ shipped_server_made Hr Hi).
  by split.
Defined.

(** A length is read up to the first byte that is no digit. *)
Example length_prefix :
  content_length_of (req_set_field field_content_length "12abc" (req_new (Beast := model_beast))) = Ret 12%Z.
Proof. vm_compute. reflexivity. Qed.

Lemma upload_head_valid : valid_head upload_head.
Proof. split; try reflexivity; [simpl; lia|simpl; lia|done|by vm_compute]. Qed.

Lemma body_awaited :
  exists m s, rtc (runs 2) (Machine (first_world shipped_server) ∅) m /\
    w_sessions (m_world m) !! 0 = Some (s, Read 322).
Proof.
  destruct (begin_partial (E := at_moment upload_moment ∅) upload_head 322 [] (m_world shipped_machine) 0
    new_session 14 []) as (s & _ & _ & _ & Hb);
    [apply upload_head_valid|apply ready_new|vm_compute; reflexivity|simpl; lia|reflexivity|
     vm_compute; reflexivity|].
  rewrite app_nil_r in Hb.
  destruct (shipped_begun _ _ _ (enabled_head (m_world shipped_machine) 0 new_session upload_head [] eq_refl
    ltac:(vm_compute; lia)) Hb) as (m & Hr & Hm).
  exists m, (append_body [] s). split; [exact Hr|]. by rewrite Hm.
Qed.

Lemma body_read_in_range_witness :
  exists s, to_read 322 = 322%Z /\ 
    content_length_of (request_ s) = Ret (Z.of_nat (length (req_body (request_ s))) + 322)%Z.
Proof.
  destruct body_awaited as (m & s & Hr & Hi). exists s.
  destruct (body_read_in_range shipped_config shipped_server 2 ∅ m 0 s 322 shipped_server_made Hr Hi)
    as (_ & H1 & H2 & _). by split.
Defined.

Lemma responses_counted_witness :
  exists m, w_sessions (m_world m) <> [] /\
    (total (requests_ (w_server (m_world m))) + Z.of_nat (length (w_busy (m_world m))) =
     Z.of_nat (length (w_writes (m_world m))))%Z.
Proof.
  destruct not_found_sent as (m & s & Hr & Hi). exists m. split; [by destruct (w_sessions (m_world m))|].
  exact (responses_counted shipped_config shipped_server 2 ∅ m shipped_server_made Hr).
Defined.
