(* ===== verification/Termination.v ===== *)
(** * Every callback comes to an end

    The loops of the handlers, of the dispatch and of the parser have the fuel
    they need, whatever the request, the server and the configuration: a
    callback of a session returns, throws or leaves the defined behaviour of
    C++, and never loops.  The remote host of a proxy is the only thing that is
    waited for. *)
From S2P Require Import Prelude CppStd StdMap Boost BoostModel ConfigLexer ConfigParser Utils.
From S2P Require Import RequestParser RequestGrammar RequestMessage Handlers Status ReverseProxy.
From S2P Require Import Meme MemeForm Server ExampleServer ServerLookup Socket Session SessionServe.

(** ** Computations that end *)

Definition ends {A} (o : outcome A) : Prop := o <> NoFuel.

Lemma ends_ret {A} (a : A) : ends (Ret a).
Proof. done. Qed.

Lemma ends_throw {A} e : ends (@Throw A e).
Proof. done. Qed.

Lemma ends_undef {A} : ends (@Undef A).
Proof. done. Qed.

Lemma ends_bind {A C} (o : outcome A) (f : A -> outcome C) :
  ends o -> (forall a, ends (f a)) -> ends (o ≫= f).
Proof. intros H Hf. by destruct o; [apply Hf|..]. Qed.

Lemma ends_fmap {A C} (o : outcome A) (f : A -> C) : ends o -> ends (f <$> o).
Proof. by destruct o. Qed.

Lemma ends_no_throw {A} (o : outcome A) : no_throw o -> ends o.
Proof. by intros [->|[a ->]]. Qed.

Lemma ends_if {A} (b : bool) (o1 o2 : outcome A) : ends o1 -> ends o2 -> ends (if b then o1 else o2).
Proof. by destruct b. Qed.

Lemma ends_decide {A} P `{Decision P} (o1 o2 : outcome A) :
  ends o1 -> ends o2 -> ends (if decide P then o1 else o2).
Proof. by destruct (decide P). Qed.

Lemma ends_handle_bind {A C} (o : outcome A) (f : A -> handled C) :
  ends o -> (forall a, ends (f a).2) -> ends (handle_bind o f).2.
Proof. intros H Hf. by destruct o; [apply Hf|..]. Qed.

Create HintDb ends.
#[export] Hint Resolve ends_ret ends_throw ends_undef ends_bind ends_fmap ends_if ends_decide
  ends_handle_bind : ends.

(** Take a computation apart down to the calls that have lemmas. *)
Ltac ends :=
  repeat first
    [ solve [auto with ends]
    | progress intros
    | match goal with
      | |- ends (match ?x with _ => _ end) => destruct x
      | |- ends (match ?x with _ => _ end).2 => destruct x
      | |- ends (_, _).2 => cbn [snd]
      end
    | apply ends_bind | apply ends_fmap | apply ends_handle_bind ].

(** ** The standard library *)

Lemma ends_substr_from s pos : ends (substr_from s pos).
Proof. unfold substr_from. ends. Qed.

Lemma ends_int_result z : ends (int_result z).
Proof. unfold int_result. ends. Qed.

Lemma ends_stoi s : ends (stoi s).
Proof. unfold stoi. ends. Qed.

Lemma ends_vec_at {A} (l : list A) i : ends (vec_at l i).
Proof. unfold vec_at. ends. Qed.

Lemma ends_catch_all {A} (o : outcome A) h : ends o -> ends (catch_all o h).
Proof. by destruct o. Qed.

#[export] Hint Resolve ends_substr_from ends_int_result ends_stoi ends_vec_at ends_catch_all : ends.

(** ** The handlers *)

Section handlers.
Context `{BL : BeastLaws} `{E : !Environment} `{FL : BoostFilesystemLaws} `{T : BoostString}.

Lemma ends_convert path : ends (convertToAbsolutePath path).
Proof. by destruct (convert_outcome path) as [->|[->|[q ->]]]. Qed.
Hint Resolve ends_convert : ends.

Lemma ends_payload r : ends (resp_prepare_payload r).
Proof. apply resp_prepare_payload_returns. Qed.
Hint Resolve ends_payload : ends.

Lemma ends_request_row row : ends (request_row row).
Proof. destruct row as [[u st] c]. unfold request_row, first_digit. ends. Qed.
Hint Resolve ends_request_row : ends.

Lemma ends_request_rows l rows n : ends (request_rows l rows n).
Proof.
  revert rows n. induction l as [|row l IH]; intros rows n; [done|]. cbn [request_rows]. ends.
Qed.
Hint Resolve ends_request_rows : ends.

Lemma ends_status {S} `{ServerView S} (parent : option S) req : ends (Status_handle_request parent req).
Proof. unfold Status_handle_request, status_page, requests_table. ends. Qed.

Lemma split_line_shorter c s : length (split_line (c :: s)).2 < length (c :: s).
Proof.
  assert (forall s, length (split_line s).2 <= length s) as Hle.
  { intros s'. induction s' as [|d s' IH]; [done|]. simpl. case_decide; simpl; [lia|].
    destruct (split_line s'). simpl in *. lia. }
  simpl. case_decide; simpl; [lia|]. pose proof (Hle s). destruct (split_line s). simpl in *. lia.
Qed.

Lemma ends_parse_part_loop fuel boundary st crlf_end unread p :
  length unread < fuel -> ends (parse_part_loop fuel boundary st crlf_end unread p).
Proof.
  revert st crlf_end unread p. induction fuel as [|fuel IH]; intros st crlf_end unread p Hf; [lia|].
  cbn [parse_part_loop]. case_decide; [done|]. destruct unread as [|c s]; [done|].
  cbn [getline]. pose proof (split_line_shorter c s) as Hl.
  destruct (split_line (c :: s)) as [line rest]. destruct (parse_line _ _ _ _ _) as [st' p'].
  apply IH. simpl in *. lia.
Qed.

Lemma ends_parse_part boundary unread : ends (parse_part boundary unread).
Proof. apply ends_parse_part_loop. lia. Qed.
Hint Resolve ends_parse_part : ends.

Lemma ends_parse_form boundary body : ends (parse_form boundary body).
Proof. unfold parse_form. ends. Qed.

Lemma ends_request_boundary req : ends (request_boundary req).
Proof. unfold request_boundary. ends. Qed.

Lemma ends_image_type header : ends (image_type header).
Proof. unfold image_type. ends. Qed.

Lemma ends_page content : ends (page_response content).
Proof. apply ends_payload. Qed.
Hint Resolve ends_parse_form ends_request_boundary ends_image_type ends_page : ends.

Lemma ends_browse_items memes : ends (browse_items memes).
Proof. induction memes as [|[u l] memes IH]; [done|]. cbn [browse_items]. ends. Qed.
Hint Resolve ends_browse_items : ends.

Lemma ends_meme {S} `{ServerView S} (parent : option S) root req :
  ends (Meme_handle_request parent root req).2.
Proof.
  unfold Meme_handle_request, generate_meme, bad_request, save_meme, generated_response, create_meme,
    browse_memes. ends.
Qed.

(** The network answers or fails. *)
Hypothesis remote_ends : forall host port req, ends (perform_request host port req).

Lemma ends_proxy location host port req : ends (ReverseProxy_handle_request location host port req).
Proof.
  unfold ReverseProxy_handle_request, proxied_request. apply ends_bind; [ends|intros req'].
  apply ends_bind; [apply remote_ends|intros resp]. unfold prepare_proxied_resp.
  edestruct rewritten_body_total as [b ->]. apply ends_payload.
Qed.

Lemma ends_static location root req : ends (Static_handle_request location root req).
Proof.
  unfold Static_handle_request, parse_path_from_uri.
  destruct (relative_outcome (req_target req) location) as [->|[r ->]]; [done|]. ends.
Qed.

Lemma ends_call_handler ptr srv req : ends (call_handler ptr srv req).2.
Proof.
  unfold call_handler. destruct (objects_ srv !! ptr) as [h|]; [|done].
  assert (ends (handle_request h srv req).2) as He.
  { destruct h; cbn [handle_request snd]; try done.
    - apply ends_static.
    - apply ends_proxy.
    - apply ends_status.
    - unfold Health_handle_request, payload_response. ends.
    - apply ends_payload.
    - apply ends_meme. }
  by destruct (handle_request h srv req).
Qed.

(** ** The session *)

Lemma ends_translate req parsed : ends (translate req parsed).
Proof.
  unfold translate. apply ends_bind; [|unfold version_of; ends].
  destruct (decide (string_to_verb (p_method parsed) = verb_unknown)) as [->|Hv].
  - by rewrite req_set_method_unknown.
  - by destruct (req_set_method_known _ req Hv) as (r & -> & _).
Qed.

Lemma ends_parse st req data : ends (parse st req data).
Proof.
  unfold parse. apply ends_bind; [apply ends_no_throw, parse_chars_no_throw|].
  intros [[[res rest] st'] parsed]. case_decide; [|done].
  apply ends_bind; [apply ends_translate|done].
Qed.

Lemma ends_get_request_handler uri srv : ends (get_request_handler uri srv).
Proof.
  destruct (convert_outcome uri) as [Hu|[Hu|[q Hq]]]; [unfold get_request_handler; by rewrite Hu..|].
  by destruct (get_request_handler_longest uri srv q Hq) as (ds & _ & _ & ->).
Qed.

Lemma ends_log_request k srv : ends (log_request k srv).
Proof. unfold log_request. ends. Qed.

Hint Resolve ends_parse ends_get_request_handler ends_log_request : ends.

(** The socket gives an address or throws. *)
Context `{K : Socket}.
Hypothesis address_ends : ends get_endpoint_address.

Lemma ends_log_address : ends log_address.
Proof. unfold log_address. ends. Qed.
Hint Resolve ends_log_address : ends.

Lemma ends_write s srv : ends (write s srv).
Proof. unfold write, log_session_metric. ends. Qed.

Lemma ends_answer ptr s srv : ends (answer ptr s srv).
Proof.
  unfold answer. pose proof (ends_call_handler ptr srv (request_ s)).
  destruct (call_handler ptr srv (request_ s)). ends.
Qed.
Hint Resolve ends_write ends_answer : ends.

Lemma ends_answer_logged ptr s srv : ends (answer_logged ptr s srv).
Proof. unfold answer_logged. ends. Qed.
Hint Resolve ends_answer_logged : ends.

Lemma ends_handle_complete_header n rest s srv : ends (handle_complete_header n rest s srv).
Proof. unfold handle_complete_header, read_body. ends. Qed.
Hint Resolve ends_handle_complete_header : ends.

Lemma ends_callback op e s srv : ends (callback op e s srv).
Proof.
  unfold callback, handle_read_header, handle_read_body, handle_write, handle_error, read_header,
    content_length_of. ends.
Qed.

(** C18: every callback of a session comes to an end, whatever state the session
    and the server are in and whatever was read, provided that the remote hosts
    answer or fail: no loop of the parser, the dispatch, the handlers or the log
    runs on. *)
Theorem callbacks_end (e : event) (c : connection) : complete e c <> NoFuel.
Proof.
  apply ends_bind; [apply ends_callback|]. intros [[s srv] op]. apply ends_bind; [|done].
  unfold finish, write_rest. ends.
Qed.
End handlers.

(** ** Witness *)

#[local] Existing Instance lexical_filesystem.
#[local] Existing Instance example_environment.
#[local] Instance example_socket : Socket := tcp_socket_wrapper (Some (lit "1.2.3.4")).

Lemma callbacks_end_witness :
  complete (GotSome (print_head example_post)) (Connection new_session example_server ReadSome []) <> NoFuel.
Proof. apply callbacks_end; done. Defined.
