(* ===== verification/MockSession.v ===== *)
(** * A session over the mock socket: session<mock_socket>

    The socket of the tests calls back before its methods return, so that the
    callbacks of a session are nested: [write] goes on to log its request only
    when everything that follows the response has happened.  The fuel bounds
    that nesting; every read takes at least one byte of the input. *)
From S2P Require Import Prelude CppStd StdMap Boost BoostModel ConfigLexer ConfigParser Utils.
From S2P Require Import RequestParser RequestGrammar RequestMessage Handlers Status ReverseProxy.
From S2P Require Import Meme Server ExampleServer ServerLookup Socket Session SessionServe.
From S2P Require Import SessionSafety Termination.

Section mock.
Context `{B : Beast} `{E : !Environment} `{F : BoostFilesystem} `{T : BoostString}.
#[local] Existing Instance mock_socket_socket.

Definition mock_state : Type := session * server * mock_socket.

(** A method of the socket, and all that it calls. *)
Fixpoint mock_perform (fuel : nat) (r : result) (m : mock_socket) : outcome mock_state :=
  match fuel with
  | O => NoFuel
  | S fuel =>
      let '(s, srv, op) := r in
      match op with
      | ReadSome =>
          match mock_read_some max_length m with
          | None => Ret (s, srv, m)
          | Some (data, m) => r ← handle_read_header data s srv; mock_perform fuel r m
          end
      | Read n =>
          let '(data, m) := mock_read n m in
          r ← handle_read_body data s srv; mock_perform fuel r m
      | Write buffer =>
          r ← handle_write s srv;
          '(s, srv, m) ← mock_perform fuel r (mock_write buffer m);
          srv ← write_rest s srv;
          Ret (s, srv, m)
      | Done => Ret (s, srv, m)
      end
  end.

(** What is enough to start an operation with [n] bytes of input left. *)
Definition fuel_for (op : operation) (n : nat) : nat :=
  3 * n + match op with Read _ => 3 | Write _ => 2 | _ => 1 end.

(** [set_input_buffer], and [start]. *)
Definition mock_run (input : str) (s : session) (srv : server) : outcome mock_state :=
  r ← start s srv;
  mock_perform (fuel_for ReadSome (length input)) r (set_input_buffer input (MockSocket [] [])).
End mock.

(** ** The fuel is enough *)

Section termination.
Context `{BL : BeastLaws} `{E : !Environment} `{FL : BoostFilesystemLaws} `{T : BoostString}.
Hypothesis remote_ends : forall host port req, ends (perform_request host port req).

Lemma mock_address_ends : ends (@get_endpoint_address mock_socket_socket).
Proof. done. Qed.

Lemma ends_mock_callback op e s srv : ends (callback (K := mock_socket_socket) op e s srv).
Proof. apply ends_callback; [done|apply mock_address_ends]. Qed.

Lemma mock_read_length n m : length (fake_input_buffer (mock_read n m).2) <= length (fake_input_buffer m).
Proof. pose proof (mock_read_spec n m) as ->. rewrite length_app. lia. Qed.

Lemma handle_read_body_writes data s srv s' srv' op :
  handle_read_body (K := mock_socket_socket) data s srv = Ret (s', srv', op) ->
  exists buffer, op = Write buffer.
Proof.
  unfold handle_read_body. intros H. destruct (request_handler_ _) as [[ptr|]|]; [| |done].
  - apply bind_ret_inv in H as ([s1 srv1] & _ & H%write_result). injection H as _ _ ->. eauto.
  - apply write_result in H. injection H as _ _ ->. eauto.
Qed.

Lemma ends_mock_perform fuel s srv op m :
  fuel_for op (length (fake_input_buffer m)) <= fuel -> ends (mock_perform fuel (s, srv, op) m).
Proof.
  revert s srv op m. induction fuel as [|fuel IH]; intros s srv op m Hf.
  { unfold fuel_for in Hf. destruct op; lia. }
  unfold fuel_for in Hf. destruct op as [|n|buffer|]; cbn [mock_perform]; [| | |done].
  - destruct (mock_read_some max_length m) as [[data m']|] eqn:Hr; [|done].
    apply mock_read_some_spec in Hr as (Hm & _ & Hne & _). rewrite Hm, length_app in Hf.
    apply ends_bind; [apply (ends_mock_callback ReadSome (GotSome data))|]. intros [[s' srv'] op'].
    apply IH. destruct data as [|c data]; [exfalso; apply Hne; [unfold max_length; lia|done]|].
    simpl in Hf. unfold fuel_for. destruct op'; lia.
  - pose proof (mock_read_length n m) as Hl. destruct (mock_read n m) as [data m']. simpl in Hl.
    pose proof (ends_mock_callback (Read n) (GotBytes data) s srv) as He. cbn [callback] in He.
    destruct (handle_read_body data s srv) as [[[s' srv'] op']| | |] eqn:Hr; [rewrite bind_Ret|done..].
    destruct (handle_read_body_writes _ _ _ _ _ _ Hr) as [buffer ->]. apply IH. unfold fuel_for. lia.
  - destruct (ready_written (K := mock_socket_socket) s srv) as (s' & -> & _). rewrite bind_Ret.
    apply ends_bind; [apply IH; unfold fuel_for; simpl; lia|]. intros [[s1 srv1] m1].
    unfold write_rest. apply ends_bind; [apply ends_log_request|done].
Qed.

(** A session over the mock socket comes to an end on every input: the nested
    callbacks stop when the input is used up. *)
Theorem mock_run_ends (input : str) (s : session) (srv : server) : mock_run input s srv <> NoFuel.
Proof.
  unfold mock_run, start, read_header. rewrite log_address_ok, !bind_Ret.
  apply ends_mock_perform. done.
Qed.
End termination.

(** ** A request *)

Section serves.
Context `{BL : BeastLaws} `{E : !Environment} `{FL : BoostFilesystemLaws} `{T : BoostString}.

Lemma mock_read_some_take size input out :
  input <> [] ->
  mock_read_some size (MockSocket input out) = Some (take size input, MockSocket (drop size input) out).
Proof.
  intros Hne. unfold mock_read_some, set_input_buffer; simpl. destruct input as [|c input]; [done|].
  destruct (Nat.le_ge_cases size (length (c :: input))).
  - by rewrite Nat.min_l.
  - rewrite Nat.min_r by done. by rewrite !take_ge, !drop_ge.
Qed.

Lemma mock_read_all n input out :
  Z.of_nat (length input) = n -> mock_read n (MockSocket input out) = (input, MockSocket [] out).
Proof.
  intros Hn. unfold mock_read, set_input_buffer; simpl. destruct (Z.ltb_spec n 0); [lia|].
  rewrite Nat.min_r by lia. by rewrite take_ge, drop_ge.
Qed.

(** The handler is called with the request of the session; its response is written,
    the next read finds nothing, and then the request is logged. *)
Definition mock_answered (uri : str) (ptr : nat) (s : session) (srv : server) : outcome mock_state :=
  let '(srv1, answered) := call_handler (F := F) (T := T) ptr srv (request_ s) in
  resp ← answered;
  srv2 ← log_request (uri, int_to_status (resp_result resp)) srv1;
  Ret (after_write (with_response resp s), srv2, MockSocket [] (print_response resp)).

Lemma mock_answer fuel ptr s srv h :
  request_handler_ s = Some h ->
  (r ← ('(s, srv) ← answer ptr s srv; write (K := mock_socket_socket) s srv);
   mock_perform (S (S fuel)) r (MockSocket [] [])) =
  mock_answered (req_target (request_ s)) ptr s srv.
Proof.
  intros Hh. unfold answer, mock_answered.
  destruct (call_handler ptr srv (request_ s)) as [srv1 [resp| | |]]; [|done..].
  rewrite !bind_Ret, (write_ok (with_response resp s) srv1 h) by done. rewrite !bind_Ret. cbn [mock_perform].
  rewrite (handle_write_ok (K := mock_socket_socket)), bind_Ret.
  cbn [mock_perform mock_read_some mock_write]. unfold mock_read_some; simpl.
  unfold write_rest; simpl. by autorewrite with beast.
Qed.

End serves.

(** ** The tests of the session *)

#[local] Existing Instance lexical_filesystem.
#[local] Existing Instance example_environment.

Lemma mock_run_ends_witness : mock_run (lit "GET /x") new_session example_server <> NoFuel.
Proof. by apply mock_run_ends. Defined.

Definition example_long_post : concrete_request :=
  CRequest "POST" "/echo/x" "1" "1" [CHeader "Content-Length" "1500" []].

(** A body of 1500 bytes does not fit in the first read. *)
Definition long_body : str := replicate 1500 "a"%char.

Lemma example_long_post_valid : valid_head example_long_post.
Proof. split; try reflexivity; [simpl; lia|simpl; lia|done|by vm_compute]. Qed.


(** Two requests in one buffer: the second is dropped with what was read after
    the first. *)
Example pipelined_request_dropped :
  get_output_buffer <$> (snd <$> mock_run (print_head example_get ++ print_head example_post ++ "hello")
    new_session example_server) =
  get_output_buffer <$> (snd <$> mock_run (print_head example_get) new_session example_server).
Proof. by_evaluation. Qed.

(** [NoBodySuccess]: the echo of a request without a body. *)
Definition echo_test_request : str :=
  "GET /echo HTTP/1.1" ++ CRLF ++ "Host: localhost" ++ CRLF ++ "User-Agent: curl/7.68.0" ++ CRLF ++
  "Content-Length: 0" ++ CRLF ++ CRLF.

Example no_body_success :
  get_output_buffer <$> (snd <$> mock_run echo_test_request new_session example_server) =
  Ret ("HTTP/1.1 200 OK" ++ CRLF ++ "Content-Type: text/plain" ++ CRLF ++
       "Content-Length: " ++ to_dec (Z.of_nat (length echo_test_request)) ++ CRLF ++ CRLF ++
       echo_test_request).
Proof. by_evaluation. Qed.
