(* ===== verification/Lifecycle.v ===== *)
(** * How the program ends: src/src/server.cc, src/include/request_handler.h

    An exception that leaves a callback leaves [io_service::run], which is the
    body of a thread: the process is aborted.  [handle_stop] lets no further
    callback begin; the threads come to the end of what they are in, a handler
    among it, [run] returns, and the destructor deletes the handlers and the
    memes. *)
From S2P Require Import Prelude CppStd StdMap Boost BoostModel ConfigLexer ConfigParser Utils.
From S2P Require Import RequestParser RequestGrammar RequestMessage Handlers Status ReverseProxy.
From S2P Require Import Meme Server ExampleServer ServerLookup ServerState Socket Session.
From S2P Require Import SessionServe SessionSafety Concurrency Logging Termination.

(** ** The destructor *)

(** The directory of the memes: what is in it, and removing one entry of it
    with all it holds.  Both throw when they fail. *)
Class MemeDirectory := {
  directory_entries : str -> outcome (list str);
  remove_all : str -> outcome unit
}.

(** [RequestHandler] declares no destructor, so it has none that is virtual. *)
Definition virtual_destructor : bool := false.

(** [delete] of a [RequestHandler *]: the object must be there, not have been
    deleted, and, being of a derived class, the destructor must be virtual. *)
Definition delete_handler (virtual : bool) (p : nat) (s : server) (freed : list nat)
  : outcome (list nat) :=
  match objects_ s !! p with
  | None => Undef
  | Some _ => if decide (p ∈ freed) then Undef else if virtual then Ret (freed ++ [p]) else Undef
  end.

Fixpoint delete_handlers (virtual : bool) (entries : list (str * nat)) (s : server)
    (freed : list nat) : outcome (list nat) :=
  match entries with
  | [] => Ret freed
  | (_, p) :: entries =>
      freed ← delete_handler virtual p s freed; delete_handlers virtual entries s freed
  end.

Section destructor.
Context `{F : BoostFilesystem} `{D : MemeDirectory}.

Fixpoint remove_entries (entries : list str) : outcome unit :=
  match entries with
  | [] => Ret tt
  | path :: entries => _ ← remove_all path; remove_entries entries
  end.

Definition remove_memes : outcome unit :=
  path ← convertToAbsolutePath "./memes/imgs";
  entries ← directory_entries path;
  remove_entries entries.

(** [~server] *)
Definition destructor (s : server) : outcome unit :=
  _ ← delete_handlers virtual_destructor (location_to_handler_ s) s [];
  remove_memes.
End destructor.

(** ** The process *)

Section process.
Context `{B : Beast} `{E : !Environment} `{F : BoostFilesystem} `{T : BoostString}.

(** [Stopping] is after [handle_stop]: the callbacks [inside] were taken by
    threads before, and have not come to the operation they start. *)
Inductive process :=
| Running (w : world)
| Stopping (inside : list completion) (w : world)
| Aborted.

(** The session whose callback it is, or the acceptor. *)
Definition source (c : completion) : option nat :=
  match c with Completed i _ _ => Some i | _ => None end.

(** What threads may have taken: completions that are there, one of each source. *)
Definition taken (cs : list completion) (w : world) : Prop :=
  Forall (fun c => enabled c w = true) cs /\ NoDup (source <$> cs).

(** [handle_stop] is a callback: it takes a thread, while others are inside
    handlers or in the rest of a [write]. *)
Inductive pstep (threads : nat) : process -> process -> Prop :=
| pstep_run w w' : step threads w w' -> pstep threads (Running w) (Running w')
| pstep_uncaught c w e :
    enabled c w = true -> length (w_busy w) < threads -> begin c w = Throw e ->
    pstep threads (Running w) Aborted
| pstep_uncaught_rest k w e : resume k w = Throw e -> pstep threads (Running w) Aborted
| pstep_handle_stop inside w :
    taken inside w -> length inside + length (w_busy w) < threads ->
    pstep threads (Running w) (Stopping inside w)
| pstep_finish cs1 c cs2 w w' :
    begin c w = Ret w' -> pstep threads (Stopping (cs1 ++ c :: cs2) w) (Stopping (cs1 ++ cs2) w')
| pstep_finish_uncaught cs1 c cs2 w e :
    begin c w = Throw e -> pstep threads (Stopping (cs1 ++ c :: cs2) w) Aborted
| pstep_drain k inside w w' :
    k < length (w_busy w) -> resume k w = Ret w' ->
    pstep threads (Stopping inside w) (Stopping inside w')
| pstep_drain_uncaught k inside w e :
    resume k w = Throw e -> pstep threads (Stopping inside w) Aborted.

(** A callback of a socket that has lost its peer, or the acceptance of one. *)
Definition peer_gone (c : completion) : bool :=
  match c with Accepted None | Completed _ _ None => true | _ => false end.

(** The operation failed, or there is nothing but the address to ask for. *)
Definition reports_failure (c : completion) : bool :=
  match c with Accepted _ | Completed _ Failed _ => true | _ => false end.

(** ** A peer that is gone *)

Section gone.
#[local] Instance gone_socket : Socket := tcp_socket_wrapper None.

Lemma write_gone s srv r : write s srv <> Ret r.
Proof. unfold write. intros H. by inv_ret. Qed.

Lemma answer_write_gone (f : outcome (session * server)) r :
  ('(s, srv) ← f; write s srv) <> Ret r.
Proof. intros H. apply bind_ret_inv in H as ([s srv] & _ & H). by eapply write_gone. Qed.

Lemma callback_gone op e s srv r : callback op e s srv <> Ret r.
Proof.
  destruct op, e; simpl; intros H; try (unfold handle_error in H; by inv_ret).
  - unfold handle_read_header in H. apply bind_ret_inv in H as ([[[? ?] ?] ?] & _ & H).
    apply bind_ret_inv in H as (? & _ & H). repeat case_match; by inv_ret.
  - unfold handle_read_body in H.
    destruct (request_handler_ (append_body _ _)) as [[ptr|]|];
      [by eapply answer_write_gone|by eapply write_gone|done].
Qed.
End gone.

Lemma begin_gone c w w' : enabled c w = true -> peer_gone c = true -> begin c w <> Ret w'.
Proof.
  intros He Hp. destruct c as [[]| |i e []]; simpl in *; try done; [by destruct (w_accepting w)|].
  destruct (w_sessions w !! i) as [[s op]|]; [|done].
  intros H. apply bind_ret_inv in H as (r & H & _). by eapply callback_gone.
Qed.

(** C28: nothing is served for a peer that is gone, and its disappearance ends the
    process.  Every callback of a session whose peer has reset the connection
    looks up the address for the log, which throws: none returns, whatever the
    operation reports; and when it reports an error, or the connection was
    accepted only after the peer had gone, the exception is what comes out of
    it and the process is aborted, every other connection with it. *)
Theorem peer_gone_aborts (threads : nat) (w : world) (c : completion) :
  enabled c w = true -> peer_gone c = true -> length (w_busy w) < threads ->
  (forall w', begin c w <> Ret w') /\
  (reports_failure c = true -> begin c w = Throw system_error /\ pstep threads (Running w) Aborted).
Proof.
  intros He Hp Ht. assert (reports_failure c = true -> begin c w = Throw system_error) as Hf.
  { destruct c as [[]| |i [] []]; simpl in *; try done; intros _.
    - by destruct (w_accepting w).
    - destruct (w_sessions w !! i) as [[s []]|]; done. }
  split; [intros w'; by apply begin_gone|].
  intros Hr. split; [auto|]. eapply pstep_uncaught; eauto.
Qed.
End process.

(** ** Handling a signal *)

Section stop.
Context `{BL : BeastLaws} `{E : !Environment} `{FL : BoostFilesystemLaws} `{T : BoostString}.

(** What is true of the process as long as there is one. *)
Definition process_ok (srv : server) (p : process) : Prop :=
  match p with
  | Running w | Stopping _ w => world_inv w /\ keeps srv (w_server w)
  | Aborted => True
  end.

Lemma process_step srv threads p p' : process_ok srv p -> pstep threads p p' -> process_ok srv p'.
Proof.
  intros Hp Hs. destruct Hs as [w w' Hs| | | |cs1 c cs2 w w' Hb| |k cs w w' _ Hr|]; try done;
    destruct Hp as [Hw Hk]; (split; [|eapply keeps_trans; [exact Hk|]]).
  - by eapply step_inv.
  - destruct Hs as [c w w' _ _ Hb|k w w' _ Hr]; [by eapply begin_keeps|by eapply resume_keeps].
  - by eapply begin_inv.
  - by eapply begin_keeps.
  - by eapply resume_inv.
  - by eapply resume_keeps.
Qed.

Lemma process_reachable config srv threads p :
  getHandlers empty_server config = Ret srv ->
  rtc (pstep threads) (Running (first_world srv)) p -> process_ok srv p.
Proof.
  intros Hg Hr. assert (process_ok srv (Running (first_world srv))) as Hi.
  { split; [|apply keeps_refl]. eapply world_inv_first, getHandlers_inv; [apply server_inv_empty|done]. }
  clear Hg. induction Hr as [|p p1 p2 Hp _ IH]; [done|]. apply IH. by eapply process_step.
Qed.

(** ** The threads come to an end *)

Lemma busy_session k w i :
  world_inv w -> w_busy w !! k = Some i -> exists s op, w_sessions w !! i = Some (s, op).
Proof.
  intros Hw Hi. pose proof (Forall_lookup_1 _ _ _ _ (winv_busy w Hw) Hi) as Hlt. simpl in Hlt.
  destruct (lookup_lt_is_Some_2 _ _ Hlt) as [[s op] Hs]. by exists s, op.
Qed.

Lemma resume_busy k w w' :
  world_inv w -> k < length (w_busy w) -> resume k w = Ret w' ->
  S (length (w_busy w')) = length (w_busy w) /\ w_writes w' = w_writes w.
Proof.
  intros Hw Hk H. unfold resume in H. destruct (lookup_lt_is_Some_2 _ _ Hk) as [i Hi].
  destruct (busy_session k w i Hw Hi) as (s & op & Hs). rewrite Hi, Hs in H. apply bind_ret_inv in H as (srv & _ & H). injection H as <-. simpl.
  rewrite length_delete by by eexists. split; [lia|done].
Qed.

(** What a callback gives to the sockets is what its thread has to end. *)
Lemma begin_writes c w w' :
  begin c w = Ret w' ->
  exists more, w_writes w' = w_writes w ++ more /\ length more <= 1 /\
    length (w_busy w') = length (w_busy w) + length more.
Proof.
  assert (forall error peer s w1 w2, handle_accept error peer s w1 = Ret w2 ->
    w_writes w2 = w_writes w1 /\ w_busy w2 = w_busy w1) as Ha.
  { intros error peer s w1 w2 H. unfold handle_accept in H. apply bind_ret_inv in H as (w3 & H3 & H).
    injection H as <-. destruct error; [by injection H3 as <-|].
    apply bind_ret_inv in H3 as (_ & _ & H3). apply bind_ret_inv in H3 as ([[s' srv] op] & _ & H3).
    by injection H3 as <-. }
  assert (w_writes w' = w_writes w /\ w_busy w' = w_busy w -> exists more, w_writes w' = w_writes w ++ more /\
    length more <= 1 /\ length (w_busy w') = length (w_busy w) + length more) as Hsame.
  { intros [-> ->]. exists []. rewrite app_nil_r. simpl. split; [done|lia]. }
  destruct c as [peer| |i e peer]; simpl; intros H.
  - destruct (w_accepting w); [by apply Ha in H; apply Hsame|injection H as <-; by apply Hsame].
  - destruct (w_accepting w); [by apply Ha in H; apply Hsame|injection H as <-; by apply Hsame].
  - destruct (w_sessions w !! i) as [[s op]|]; [|injection H as <-; by apply Hsame].
    apply bind_ret_inv in H as ([[s' srv] op'] & _ & H). injection H as <-.
    destruct op'; try (by apply Hsame). exists [buffer]. simpl. split; [done|lia].
Qed.

(** A step that ends a callback or the rest of a [write]. *)
Lemma stopping_step threads cs w p :
  world_inv w -> pstep threads (Stopping cs w) p ->
  p = Aborted \/
  exists cs' w' more, p = Stopping cs' w' /\ world_inv w' /\ w_writes w' = w_writes w ++ more /\
    length more + length cs' <= length cs /\
    2 * length cs' + length (w_busy w') + 1 <= 2 * length cs + length (w_busy w).
Proof.
  intros Hw H. inversion H as [| | | |cs1 c cs2 w0 w' Hb| |k cs0 w0 w' Hk Hr|]; subst; [|by left| |by left];
    right.
  - destruct (begin_writes c w w' Hb) as (more & Hm & Hl & Hbusy). exists (cs1 ++ cs2), w', more.
    rewrite !length_app. simpl. split; [done|]. split; [by eapply begin_inv|]. split; [done|]. lia.
  - destruct (resume_busy k w w' Hw Hk Hr) as [Hl Hm]. exists cs, w', [].
    rewrite app_nil_r. simpl. split; [done|]. split; [by eapply resume_inv|]. split; [done|]. lia.
Qed.

(** The network answers or fails. *)
Hypothesis remote_ends : forall host port req, ends (perform_request host port req).

Lemma ends_begin c w : ends (begin c w).
Proof.
  assert (forall peer, ends (@get_endpoint_address (tcp_socket_wrapper peer))) as Hp by by intros [].
  destruct c as [peer| |i e peer]; simpl.
  - destruct (w_accepting w); [|done]. unfold handle_accept, start, read_header, log_address.
    destruct peer; done.
  - by destruct (w_accepting w).
  - destruct (w_sessions w !! i) as [[s op]|]; [|done]. apply ends_bind; [|done].
    by apply ends_callback.
Qed.

(** Only what has no meaning holds the process up. *)
Lemma stopping_progress threads cs w :
  world_inv w ->
  (cs = [] /\ w_busy w = []) \/ (exists p, pstep threads (Stopping cs w) p) \/
  (exists c, c ∈ cs /\ begin c w = Undef) \/ (exists k, k < length (w_busy w) /\ resume k w = Undef).
Proof.
  intros Hw. destruct cs as [|c cs].
  - destruct (w_busy w) as [|i l] eqn:Hb; [by left|right].
    destruct (resume 0 w) as [w'|e| |] eqn:Hr.
    + left. eexists. eapply pstep_drain; [|exact Hr]. rewrite Hb. simpl. lia.
    + left. eexists. by eapply pstep_drain_uncaught.
    + right; right. exists 0. split; [simpl; lia|done].
    + exfalso. revert Hr. unfold resume, write_rest, log_request, int_result. repeat case_match; done.
  - right. destruct (begin c w) as [w'|e| |] eqn:Hb.
    + left. eexists. by apply (pstep_finish threads [] c cs w w').
    + left. eexists. by apply (pstep_finish_uncaught threads [] c cs w e).
    + right; left. exists c. split; [by left|done].
    + by apply ends_begin in Hb.
Qed.

End stop.

(** ** Deleting the handlers *)

Section delete.
Context `{BL : BeastLaws} `{E : !Environment} `{FL : BoostFilesystemLaws} `{T : BoostString}.

Lemma delete_handlers_virtual entries s freed :
  NoDup (freed ++ entries.*2) -> Forall (fun p => is_Some (objects_ s !! p)) entries.*2 ->
  delete_handlers true entries s freed = Ret (freed ++ entries.*2).
Proof.
  revert freed. induction entries as [|[loc p] entries IH]; intros freed Hn Hl; simpl.
  { by rewrite app_nil_r. }
  apply Forall_cons in Hl as [[h Hh] Hl]. simpl in Hh. unfold delete_handler. rewrite Hh.
  rewrite decide_False.
  - rewrite bind_Ret, IH; [by rewrite <-app_assoc|by rewrite <-app_assoc|done].
  - apply NoDup_app in Hn as (_ & Hn & _). intros Hp. apply (Hn p Hp). left.
Qed.

(** Different locations lead to different objects. *)
Lemma registry_NoDup blocks locs s :
  map_sorted (location_to_handler_ s) -> registry blocks locs s ->
  NoDup (location_to_handler_ s).*2.
Proof.
  intros Hm Hr. pose proof (map_sorted_NoDup _ Hm) as Hn.
  assert (forall loc p, (loc, p) ∈ location_to_handler_ s -> locs !! p = Some loc) as Hl.
  { intros loc p Hin%map_find_sorted; [|done]. by apply (reg_locations _ _ _ Hr). }
  clear Hr Hm. induction (location_to_handler_ s) as [|[loc p] m IH]; simpl in *; [constructor|].
  apply NoDup_cons in Hn as [Hnin Hn]. constructor.
  - intros ([loc' p'] & Hp & Hin)%list_elem_of_fmap. simpl in Hp. subst p'.
    pose proof (Hl loc p ltac:(left)) as H1. pose proof (Hl loc' p ltac:(by right)) as H2.
    rewrite H1 in H2. injection H2 as ->. apply Hnin. apply list_elem_of_fmap.
    by exists (loc', p).
  - apply IH; [done|]. intros loc' p' Hin. apply Hl. by right.
Qed.

Lemma getHandlers_registry config s :
  getHandlers empty_server config = Ret s ->
  server_inv s /\ exists locs, registry (location_blocks config) locs s.
Proof.
  intros Hg. split; [eapply getHandlers_inv; [apply server_inv_empty|done]|].
  rewrite getHandlers_register in Hg. revert Hg.
  apply (register_registry [] [] empty_server);
    [apply server_inv_empty|apply registry_empty|apply location_blocks_known].
Qed.

(** What the destructor deletes, if deleting through the base class is let
    pass: every handler a location leads to, each once; the objects of earlier
    blocks for the same location are never deleted. *)
Theorem handlers_freed (config : NginxConfig) (s : server) :
  getHandlers empty_server config = Ret s ->
  exists locs freed,
    registry (location_blocks config) locs s /\
    delete_handlers true (location_to_handler_ s) s [] = Ret freed /\ NoDup freed /\
    forall p, p < length (objects_ s) ->
      (p ∈ freed <-> exists loc, locs !! p = Some loc /\ forall p', p < p' -> locs !! p' <> Some loc).
Proof.
  intros [Hs (locs & Hr)]%getHandlers_registry. pose proof (inv_locations s Hs) as Hm.
  pose proof (registry_NoDup _ _ _ Hm Hr) as Hn.
  exists locs, (location_to_handler_ s).*2. split; [done|]. split; [|split; [done|]].
  - rewrite delete_handlers_virtual; [done|done|]. apply Forall_fmap, Forall_forall.
    intros [loc p] Hin%map_find_sorted; [|done]. simpl.
    destruct (inv_target s Hs _ _ Hin) as (_ & h & Hh & _). by exists h.
  - intros p _. rewrite list_elem_of_fmap. split.
    + intros ([loc p'] & -> & Hin%map_find_sorted); [|done]. exists loc.
      by apply (reg_locations _ _ _ Hr).
    + intros (loc & H%(reg_locations _ _ _ Hr)). exists (loc, p). split; [done|].
      by apply map_find_Some_elem.
Qed.

Lemma delete_handlers_undefined entries s freed :
  entries <> [] -> delete_handlers virtual_destructor entries s freed = Undef.
Proof.
  destruct entries as [|[loc p] entries]; [done|]. intros _. simpl. unfold delete_handler.
  destruct (objects_ s !! p); [|done]. by case_decide.
Qed.

Lemma locations_nil blocks locs s :
  map_sorted (location_to_handler_ s) -> registry blocks locs s ->
  location_to_handler_ s = [] <-> blocks = [].
Proof.
  intros Hm Hr. pose proof (Forall3_length_lm _ _ _ _ (reg_objects _ _ _ Hr)) as Hlen.
  split; intros H.
  - destruct (snoc_inv locs) as [->|(l & loc & ->)]; [by destruct blocks|].
    assert (map_find loc (location_to_handler_ s) = Some (length l)) as Hf.
    { apply (reg_locations _ _ _ Hr). split; [by rewrite list_lookup_middle|].
      intros p' Hp' Hl%lookup_lt_Some. rewrite length_app in Hl. simpl in Hl. lia. }
    by rewrite H in Hf.
  - subst blocks. destruct locs; [|done]. destruct (location_to_handler_ s) as [|[loc p] m] eqn:Em; [done|].
    assert (map_find loc (location_to_handler_ s) = Some p) as Hf.
    { rewrite Em. simpl. by rewrite decide_True. }
    by apply (reg_locations _ _ _ Hr) in Hf as [? _].
Qed.

(** The destructor of a server that has stopped.  Whatever was served before
    [handle_stop], when the configuration named at least one location the
    destructor has no defined behaviour, because [RequestHandler] has no virtual
    destructor; only a server without locations goes on to empty the directory
    of memes, which succeeds or fails as the file system does. *)
Lemma stopped_server_destroyed `{D : MemeDirectory} (config : NginxConfig) (srv : server)
    (threads : nat) (inside : list completion) (w : world) :
  getHandlers empty_server config = Ret srv ->
  rtc (pstep threads) (Running (first_world srv)) (Stopping inside w) ->
  destructor (w_server w) = match location_blocks config with [] => remove_memes | _ => Undef end.
Proof.
  intros Hg Hr. destruct (process_reachable _ _ _ _ Hg Hr) as [_ [(_ & Hl & _) _]].
  destruct (getHandlers_registry config srv Hg) as [Hs (locs & Hreg)].
  pose proof (locations_nil _ _ _ (inv_locations srv Hs) Hreg) as Hnil.
  unfold destructor. rewrite Hl. destruct (location_blocks config) as [|b blocks].
  - by rewrite (proj2 Hnil).
  - rewrite delete_handlers_undefined; [done|]. intros H. by apply Hnil in H.
Qed.
End delete.

(** ** A head longer than the buffer *)

Section long.
Context `{BL : BeastLaws} `{E : !Environment} `{F : BoostFilesystem} `{T : BoostString}.

Lemma begin_uri_read q u1 u2 w i s address :
  w_sessions w !! i = Some (s, ReadSome) -> ready s -> request_ok q = true ->
  length (c_major q) <= 8 -> length (c_minor q) <= 8 -> c_uri q = u1 ++ u2 ->
  begin (Completed i (GotSome (c_method q ++ SP :: u1)) (Some address)) w =
  Ret (started i (with_request (request_ s) (with_parser uri s), w_server w, ReadSome) w).
Proof.
  intros Hi [R1 _ _ R4] Hq Hj Hn Hu. simpl. rewrite Hi. simpl. unfold handle_read_header.
  destruct (split_uri_throws q u1 u2 (request_ s) [] Hq Hj Hn Hu) as [Hp _].
  rewrite R1, Hp, bind_Ret. cbn [request_ with_request with_parser]. unfold content_length_of.
  rewrite R4. simpl. done.
Qed.

(** C29: a request line that does not come in one read ends the process.  When the
    first [read_some] of a valid request ends inside its URI - as it must when
    the URI has more bytes than are left of the buffer - the session waits for
    the rest; when that comes, the parser has forgotten the method, [method]
    throws for the empty one, and nothing catches the exception. *)
Theorem split_uri_aborts (threads : nat) (w : world) (i : nat) (s : session) (q : concrete_request)
    (u1 u2 a1 a2 : str) :
  w_sessions w !! i = Some (s, ReadSome) -> ready s -> request_ok q = true ->
  length (c_major q) <= 8 -> length (c_minor q) <= 8 -> c_uri q = u1 ++ u2 ->
  length (c_method q ++ SP :: u1) <= max_length -> length (uri_tail q u2) <= max_length ->
  length (w_busy w) < threads ->
  exists w1, begin (Completed i (GotSome (c_method q ++ SP :: u1)) (Some a1)) w = Ret w1 /\
    pstep threads (Running w) (Running w1) /\
    enabled (Completed i (GotSome (uri_tail q u2)) (Some a2)) w1 = true /\
    begin (Completed i (GotSome (uri_tail q u2)) (Some a2)) w1 = Throw invalid_argument /\
    pstep threads (Running w1) Aborted.
Proof.
  intros Hi Hs Hq Hj Hn Hu H1 H2 Ht.
  pose proof (begin_uri_read q u1 u2 w i s a1 Hi Hs Hq Hj Hn Hu) as Hb.
  eexists. split; [exact Hb|].
  set (w1 := started i _ w). assert (w_sessions w1 !! i =
    Some (with_request (request_ s) (with_parser uri s), ReadSome)) as Hi1.
  { simpl. rewrite list_lookup_insert_eq; [done|]. by eapply lookup_lt_Some. }
  destruct (split_uri_throws q u1 u2 (request_ s) [] Hq Hj Hn Hu) as [_ Hthrow].
  rewrite app_nil_r in Hthrow.
  assert (enabled (Completed i (GotSome (uri_tail q u2)) (Some a2)) w1 = true) as He.
  { unfold enabled. rewrite Hi1. simpl. apply bool_decide_eq_true. split; [|done].
    unfold uri_tail. rewrite length_app. simpl. lia. }
  assert (begin (Completed i (GotSome (uri_tail q u2)) (Some a2)) w1 = Throw invalid_argument) as Hb1.
  { unfold begin. rewrite Hi1. simpl. unfold handle_read_header. simpl. by rewrite Hthrow. }
  split; [|split; [done|split; [done|]]].
  - apply pstep_run. eapply step_begin; [|exact Ht|exact Hb]. simpl. rewrite Hi. simpl.
    apply bool_decide_eq_true. split; [|done]. rewrite length_app. simpl. lia.
  - eapply pstep_uncaught; [exact He| |exact Hb1]. done.
Qed.
End long.

(** ** Witnesses *)

#[local] Existing Instance lexical_filesystem.
#[local] Existing Instance example_environment.

Lemma peer_gone_aborts_witness :
  (forall w', begin (Completed 0 Failed None) example_world <> Ret w') /\
  (reports_failure (Completed 0 Failed None) = true ->
   begin (Completed 0 Failed None) example_world = Throw system_error /\
   pstep 1 (Running example_world) Aborted).
Proof. apply peer_gone_aborts; [reflexivity|reflexivity|simpl; lia]. Defined.

(** A thread is inside [write]. *)
Lemma example_inside_inv : world_inv example_inside.
Proof.
  assert (world_inv example_world) as Hw.
  { eapply begin_inv; [|apply example_accepted]. apply world_inv_first, example_server_inv. }
  eapply begin_inv; [exact Hw|apply example_begun].
Qed.

(** One thread is inside [write] for the first connection, another inside a
    handler for the second, when the signal comes. *)
Definition example_stopped : world :=
  World (w_server example_inside) (w_sessions example_inside ++ [(new_session, ReadSome)])
    (w_accepting example_inside) (w_busy example_inside) (w_writes example_inside).

Definition example_late : completion :=
  Completed 1 (GotSome (print_head example_get)) (Some (lit "1.2.3.4")).

Lemma example_stopped_inv : world_inv example_stopped.
Proof.
  eapply (begin_inv (Accepted (Some (lit "1.2.3.4"))) example_inside); [apply example_inside_inv|].
  rewrite begin_accepted by apply (winv_accepting _ example_inside_inv). unfold example_stopped, start_accept.
  by rewrite (winv_accepting _ example_inside_inv).
Qed.

(** The handler's response is still given to the socket. *)
Lemma example_late_writes :
  exists w, begin example_late example_stopped = Ret w /\
    w_writes w = w_writes example_stopped ++ [print_response example_not_found].
Proof.
  destruct (begin_head example_get example_stopped 1 new_session 0 (w_server example_inside)
    example_not_found (lit "1.2.3.4")) as (s & Hb & _);
    [apply example_get_valid|apply ready_new|reflexivity|by_evaluation|by_evaluation| |].
  - intros r (_ & Ht & _). unfold call_handler.
    assert (objects_ (w_server example_stopped) !! 0 = Some NotFoundRequestHandler) as -> by by_evaluation.
    simpl. unfold NotFound_handle_request. change (m_target r) with (req_target r). by rewrite Ht.
  - eexists. split; [exact Hb|reflexivity].
Qed.

Lemma example_remote_ends host port (req : request (Beast := model_beast)) :
  ends (perform_request host port req).
Proof. done. Qed.


(** Two blocks for one location: the first object is not deleted. *)
Definition overwritten_config : NginxConfig :=
  [Statement [lit "server"] (Some
    [location_statement "/a" "EchoHandler" []; location_statement "/a" "SleepHandler" [];
     location_statement "/" "NotFoundHandler" []])].

Definition overwritten_server : server :=
  match getHandlers empty_server overwritten_config with Ret s => s | _ => empty_server end.

Lemma handlers_freed_witness :
  exists locs freed,
    registry (location_blocks overwritten_config) locs overwritten_server /\
    delete_handlers true (location_to_handler_ overwritten_server) overwritten_server [] = Ret freed /\
    NoDup freed /\
    forall p, p < length (objects_ overwritten_server) ->
      (p ∈ freed <-> exists loc, locs !! p = Some loc /\ forall p', p < p' -> locs !! p' <> Some loc).
Proof. apply handlers_freed. vm_compute. reflexivity. Defined.

Example first_object_leaks :
  length (objects_ overwritten_server) = 3 /\
  delete_handlers true (location_to_handler_ overwritten_server) overwritten_server [] = Ret [2; 1].
Proof. split; vm_compute; reflexivity. Qed.

(** A request line of more than 1024 bytes. *)
Definition long_request : concrete_request :=
  CRequest "GET" (SLASH :: replicate 1100 "a"%char) "1" "1" [].

Lemma split_uri_aborts_witness :
  exists w1, begin (Completed 0 (GotSome (c_method long_request ++ SP :: SLASH :: replicate 1019 "a"%char))
                      (Some (lit "1.2.3.4"))) example_world = Ret w1 /\
    pstep 1 (Running example_world) (Running w1) /\
    enabled (Completed 0 (GotSome (uri_tail long_request (replicate 81 "a"%char)))
      (Some (lit "1.2.3.4"))) w1 = true /\
    begin (Completed 0 (GotSome (uri_tail long_request (replicate 81 "a"%char)))
      (Some (lit "1.2.3.4"))) w1 = Throw invalid_argument /\
    pstep 1 (Running w1) Aborted.
Proof.
  apply (split_uri_aborts 1 example_world 0 new_session long_request
           (SLASH :: replicate 1019 "a"%char) (replicate 81 "a"%char));
    [reflexivity|apply ready_new|vm_compute; reflexivity|simpl; lia|simpl; lia|reflexivity| | |simpl; lia].
  - apply Nat.leb_le. vm_compute. reflexivity.
  - apply Nat.leb_le. vm_compute. reflexivity.
Defined.
