(* ===== verification/Failures.v ===== *)
(** * All that can go wrong in a callback

    A callback that does not return has thrown, which ends the process, or has
    left the defined behaviour of C++.  The ways to that are few, and each is
    something a client can bring about or a handler does: they are listed here,
    and the list is complete. *)
From S2P Require Import Prelude CppStd StdMap Boost BoostModel ConfigLexer ConfigParser Utils.
From S2P Require Import RequestParser RequestGrammar RequestMessage Handlers Status ReverseProxy.
From S2P Require Import Meme Server ExampleServer ServerLookup ServerState Uploads Socket Session.
From S2P Require Import SessionServe SessionSafety Concurrency Logging Races History Machine.
From S2P Require Import Authentic Lifecycle.

Definition fails {A} (o : outcome A) : Prop := forall a, o <> Ret a.

Lemma ret_fails {A} (a : A) : ~ fails (Ret a).
Proof. intros H. by apply (H a). Qed.

Lemma fails_bind {A B} (o : outcome A) (f : A -> outcome B) :
  fails (o ≫= f) <-> fails o \/ exists a, o = Ret a /\ fails (f a).
Proof.
  split.
  - intros H. destruct o as [a| | |]; [right; by exists a|by left..].
  - intros [H|(a & -> & H)]; [|exact H]. intros b Hb. by apply bind_ret_inv in Hb as (a & []%H & _).
Qed.

Section failures.
Context `{BL : BeastLaws} `{E : !Environment} `{FL : BoostFilesystemLaws} `{T : BoostString}.

(** What makes the callback of an operation fail, the peer being there. *)
Inductive failure `{K : Socket} (s : session) (srv : server) : operation -> event -> Prop :=
(** The head has a method that is not known, or what its version number makes
    overflows, or it was begun in a read before this one. *)
| head_fails data :
    fails (parse (request_parser_ s) (request_ s) data) -> failure s srv ReadSome (GotSome data)
(** A bad head, before any handler was looked for. *)
| pointer_fails data res rest p req n :
    parse (request_parser_ s) (request_ s) data = Ret (res, rest, p, req) ->
    content_length_of req = Ret n -> res = Some false \/ (n < 0)%Z ->
    request_handler_ s = None -> failure s srv ReadSome (GotSome data)
(** A URI that climbs above the root, or a relative one when the current directory
    cannot be read. *)
| path_fails data rest p req n :
    parse (request_parser_ s) (request_ s) data = Ret (Some true, rest, p, req) ->
    content_length_of req = Ret n -> (0 <= n)%Z ->
    fails (convertToAbsolutePath (req_target req)) -> failure s srv ReadSome (GotSome data)
(** The handler. *)
| handler_fails op e ptr req :
    called op e s srv = Some (ptr, req) -> fails (call_handler ptr srv req).2 -> failure s srv op e.

Lemma content_length_total req : exists n, content_length_of req = Ret n.
Proof.
  unfold content_length_of. destruct (default [] _) as [|c v]; [by eexists|]. unfold stoi.
  destruct (strtol10 (c :: v)) as [z|]; [|by eexists]. destruct (in_int z); by eexists.
Qed.

Lemma get_request_handler_fails uri srv :
  fails (get_request_handler uri srv) <-> fails (convertToAbsolutePath uri).
Proof.
  split; [|intros H; unfold get_request_handler; apply fails_bind; by left].
  intros H q Hq.
  destruct (get_request_handler_longest uri srv q Hq) as (ds & _ & _ & Hg). by destruct (H _ Hg).
Qed.

Section connected.
Context `{C : Connected}.

Lemma write_fails s srv : fails (write s srv) <-> request_handler_ s = None.
Proof.
  split; [|intros Hn r Hr; unfold write, log_session_metric in Hr; rewrite Hn in Hr;
    destruct connected as [a Ha]; by rewrite Ha in Hr].
  intros H. destruct (request_handler_ s) as [h|] eqn:Hh; [|done].
  by destruct (H _ (write_ok s srv h Hh)).
Qed.

Lemma answer_write_fails ptr s srv h :
  request_handler_ s = Some h ->
  fails ('(s, srv) ← answer ptr s srv; write s srv) <-> fails (call_handler ptr srv (request_ s)).2.
Proof.
  intros Hh. unfold answer. destruct (call_handler ptr srv (request_ s)) as [srv1 o]. simpl.
  destruct o as [resp| | |]; try (by split; intros ? ?). rewrite !bind_Ret. rewrite write_fails. simpl.
  rewrite Hh. split; [done|]. by intros ?%ret_fails.
Qed.

Lemma failure_head_inv data s srv res rest p req n :
  parse (request_parser_ s) (request_ s) data = Ret (res, rest, p, req) ->
  content_length_of req = Ret n -> failure s srv ReadSome (GotSome data) ->
  ((res = Some false \/ (n < 0)%Z) /\ request_handler_ s = None) \/
  (res = Some true /\ (0 <= n)%Z /\ fails (convertToAbsolutePath (req_target req))) \/
  exists ptr req', called ReadSome (GotSome data) s srv = Some (ptr, req') /\
    fails (call_handler ptr srv req').2.
Proof.
  intros Hp Hn H. inversion H as [? Hf|? ? ? ? ? ? Hp' Hn' ? ?|? ? ? ? ? Hp' Hn' ? ?|? ? ptr req' ? ?]; subst.
  - by apply Hf in Hp.
  - rewrite Hp in Hp'. injection Hp' as -> -> -> ->. rewrite Hn in Hn'. injection Hn' as ->. by left.
  - rewrite Hp in Hp'. injection Hp' as -> -> -> ->. rewrite Hn in Hn'. injection Hn' as ->. by right; left.
  - right; right. by exists ptr, req'.
Qed.

(** What is called after a head that was accepted. *)
Lemma called_accepted data s srv rest p req n ptr :
  parse (request_parser_ s) (request_ s) data = Ret (Some true, rest, p, req) ->
  content_length_of req = Ret n -> (0 <= n)%Z -> get_request_handler (req_target req) srv = Ret (Some ptr) ->
  called ReadSome (GotSome data) s srv =
  if decide (n = 0%Z) then Some (ptr, req)
  else if (n <=? Z.of_nat (length rest))%Z
  then Some (ptr, req_set_body (req_body req ++ take (Z.to_nat n) rest) req) else None.
Proof.
  intros Hp Hn Hpos Hg. unfold called. rewrite Hp. destruct connected as [a ->]. rewrite Hn, Hg.
  by destruct (Z.ltb_spec n 0); [lia|].
Qed.

Lemma head_returns data s srv res rest p req n :
  parse (request_parser_ s) (request_ s) data = Ret (res, rest, p, req) -> content_length_of req = Ret n ->
  handle_read_header data s srv =
  let s1 := with_request req (with_parser p s) in
  if decide (res = Some false \/ (n < 0)%Z) then write (with_response bad_header_response s1) srv
  else match res with
       | Some _ => handle_complete_header n rest s1 srv
       | None => read_header s1 srv
       end.
Proof.
  intros Hp Hn. unfold handle_read_header. rewrite Hp, bind_Ret. cbn [request_ with_request with_parser].
  by rewrite Hn, bind_Ret, log_address_ok.
Qed.

(** A head that was accepted. *)
Lemma complete_fails data s srv rest p req n :
  parse (request_parser_ s) (request_ s) data = Ret (Some true, rest, p, req) ->
  content_length_of req = Ret n -> (0 <= n)%Z ->
  fails (handle_complete_header n rest (with_request req (with_parser p s)) srv) <->
  fails (convertToAbsolutePath (req_target req)) \/
  exists ptr req', called ReadSome (GotSome data) s srv = Some (ptr, req') /\
    fails (call_handler ptr srv req').2.
Proof.
  intros Hp Hn Hpos. unfold handle_complete_header. rewrite log_address_ok, bind_Ret, fails_bind.
  cbn [request_ with_request with_parser]. rewrite get_request_handler_fails.
  destruct (get_request_handler (req_target req) srv) as [[ptr|]| | |] eqn:Hg.
  - rewrite (called_accepted data s srv rest p req n ptr Hp Hn Hpos Hg).
    apply or_iff_compat_l.
    transitivity (fails (
      let s := with_handler (Some ptr) (with_request req (with_parser p s)) in
      if decide (n = 0%Z) then '(s, srv) ← answer ptr s srv; write s srv
      else if (n <=? Z.of_nat (length rest))%Z
      then '(s, srv) ← answer ptr (append_body (take (Z.to_nat n) rest) s) srv; write s srv
      else read_body (n - Z.of_nat (length rest)) (append_body rest s) srv)).
    { split; [intros (h & [= <-] & H)|intros H; exists (Some ptr); split; [done|]];
        cbv beta iota zeta in *; rewrite ?answer_logged_ok, ?bind_Ret in *; exact H. }
    cbv zeta. case_decide; [|destruct (n <=? _)%Z].
    + rewrite (answer_write_fails _ _ _ (Some ptr)) by done.
      split; [intros Hf; by eexists _, _|by intros (? & ? & [= <- <-] & Hf)].
    + rewrite (answer_write_fails _ _ _ (Some ptr)) by done.
      split; [intros Hf; by eexists _, _|by intros (? & ? & [= <- <-] & Hf)].
    + rewrite read_body_ok. split; [by intros ?%ret_fails|by intros (? & ? & ? & _)].
  - assert (called ReadSome (GotSome data) s srv = None) as ->.
    { unfold called. rewrite Hp. destruct connected as [a ->]. by rewrite Hn, Hg. }
    split; [intros [?|(h & [= <-] & H)]; [by left|]|intros [?|(? & ? & ? & _)]; [by left|done]].
    rewrite bind_Ret in H. by apply write_fails in H.
  - split; [intros [?|(? & ? & _)]; [by left|done]|intros [?|(? & ? & Hc & _)]; [by left|]].
    unfold called in Hc. rewrite Hp in Hc. destruct connected as [a Ha]. by rewrite Ha, Hn, Hg in Hc.
  - assert (fails (convertToAbsolutePath (req_target req))) as Hu
      by (apply (get_request_handler_fails _ srv); by rewrite Hg). by split; left.
  - assert (fails (convertToAbsolutePath (req_target req))) as Hu
      by (apply (get_request_handler_fails _ srv); by rewrite Hg). by split; left.
Qed.

Lemma header_fails data s srv :
  fails (handle_read_header data s srv) <-> failure s srv ReadSome (GotSome data).
Proof.
  destruct (parse (request_parser_ s) (request_ s) data) as [[[[res rest] p] req]| | |] eqn:Hp;
    [|by split; intros _; [apply head_fails|unfold handle_read_header]; rewrite Hp..].
  destruct (content_length_total req) as [n Hn].
  rewrite (head_returns data s srv res rest p req n Hp Hn). cbv zeta.
  case_decide as Hbad.
  - rewrite write_fails. simpl. split; [by eapply pointer_fails|].
    intros [[_ ?]|[(? & ? & _)|(ptr & req' & Hc & _)]]%(failure_head_inv _ _ _ _ _ _ _ _ Hp Hn); [done| |].
    + destruct Hbad; [congruence|lia].
    + unfold called in Hc. rewrite Hp in Hc. destruct res as [[]|], connected as [a Ha]; try done.
      rewrite Ha, Hn in Hc. destruct (get_request_handler _ srv) as [[]| | |]; try done.
      destruct (Z.ltb_spec n 0); [done|]. destruct Hbad; [done|lia].
  - apply Decidable.not_or in Hbad as [Hres Hpos%Z.nlt_ge]. destruct res as [[]|]; [|done|].
    + rewrite (complete_fails data s srv rest p req n Hp Hn Hpos). split.
      * intros [?|(ptr & req' & ? & ?)]; [by eapply path_fails|by eapply handler_fails].
      * intros [[[?|?] _]|[(_ & _ & ?)|(ptr & req' & Hc & Hf)]]%(failure_head_inv _ _ _ _ _ _ _ _ Hp Hn);
          [done|lia|by left|right; by exists ptr, req'].
    + rewrite read_header_ok. split; [by intros ?%ret_fails|].
      intros [[[?|?] _]|[(? & _)|(ptr & req' & Hc & _)]]%(failure_head_inv _ _ _ _ _ _ _ _ Hp Hn);
        [done|lia|done|]. unfold called in Hc. by rewrite Hp in Hc.
Qed.

Lemma body_fails data s srv n :
  session_ok srv (s, Read n) ->
  fails (handle_read_body data s srv) <-> failure s srv (Read n) (GotBytes data).
Proof.
  intros [_ [_ [ptr Hh]]]. simpl in Hh. unfold handle_read_body.
  cbn [request_handler_ append_body with_request with_body_data body_data]. rewrite Hh.
  rewrite (answer_write_fails _ _ _ (Some ptr)) by done. split.
  - intros H. eapply handler_fails; [|exact H]. simpl. by rewrite Hh.
  - intros H. inversion H as [| | |? ? ptr' req' Hc Hf]; subst. simpl in Hc. rewrite Hh in Hc.
    by injection Hc as <- <-.
Qed.

Lemma callback_fails s op e srv :
  session_ok srv (s, op) -> fails (callback op e s srv) <-> failure s srv op e.
Proof.
  intros Hs.
  assert (handle_error s srv = Ret (s, srv, Done)) as Herror
    by (unfold handle_error; by rewrite log_address_ok).
  assert (called op e s srv = None -> (exists r, callback op e s srv = Ret r) ->
    (op = ReadSome -> e = Failed \/ e = Written \/ exists data, e = GotBytes data) ->
    fails (callback op e s srv) <-> failure s srv op e) as Hquiet.
  { intros Hc [r ->] Hop. split; [by intros ?%ret_fails|]. intros H.
    inversion H as [|? ? ? ? ? ? ? ? ? ?|? ? ? ? ? ? ? ? ?|? ? ptr req Hc' _]; subst;
      [by destruct (Hop eq_refl) as [?|[?|[? ?]]]..|congruence]. }
  destruct op, e;
    try (apply Hquiet; [done|by exists (s, srv, Done)|intros ?;
      first [discriminate|by left|by right; left|right; right; by eexists]]).
  - apply header_fails.
  - by apply body_fails.
  - apply Hquiet; [done| |done]. destruct (ready_written s srv) as (s1 & Hw & _). by eexists.
Qed.
End connected.
End failures.

(** ** The whole server *)

Section server.
Context `{BL : BeastLaws} `{E : !Environment} `{FL : BoostFilesystemLaws} `{T : BoostString}.

(** The handlers that may fail: the static one on a path the file system cannot
    be asked about, the status page on a status it cannot colour, the memes on what
    they read, and the proxy on what the network does. *)
Definition may_fail (h : RequestHandler) : bool :=
  match h with
  | StaticFileRequestHandler _ _ | StatusRequestHandler true | MemeHandler _ _
  | ReverseProxyRequestHandler _ _ _ => true
  | _ => false
  end.

Lemma payload_returns content_type body :
  field_value_ok content_type = true -> ~ fails (payload_response content_type body).
Proof. intros H. destruct (payload_response_ok content_type body H) as (r & -> & _). apply ret_fails. Qed.

Lemma static_fails location root req :
  fails (Static_handle_request location root req) <-> relative (req_target req) location = Throw system_error.
Proof.
  unfold Static_handle_request, parse_path_from_uri.
  destruct (relative_outcome (req_target req) location) as [->|[r ->]]; [done|]. rewrite !bind_Ret.
  case_match; (split; [by intros ?%ret_fails|done]).
Qed.

Lemma handler_may_fail h srv req : fails (handle_request h srv req).2 -> may_fail h = true.
Proof.
  destruct h as [| | | |[]|[]| |]; try done; simpl; try (by intros ?%ret_fails).
  all: unfold Health_handle_request, Sleep_handle_request; by intros []%payload_returns.
Qed.

Lemma begin_connected_fails c w i e address s op :
  world_inv w -> c = Completed i e (Some address) -> w_sessions w !! i = Some (s, op) ->
  fails (begin c w) <-> failure (K := tcp_socket_wrapper (Some address)) s (w_server w) op e.
Proof.
  intros Hw -> Hi. unfold begin. rewrite Hi, fails_bind.
  pose proof (Forall_lookup_1 _ _ _ _ (winv_sessions w Hw) Hi) as Hs.
  rewrite (callback_fails (K := tcp_socket_wrapper (Some address)) s op e (w_server w) Hs).
  split; [intros [?|(r & _ & []%ret_fails)]; done|by left].
Qed.

Lemma begin_fails c w :
  world_inv w -> enabled c w = true ->
  fails (begin c w) <-> peer_gone c = true \/
    exists i e address s op, c = Completed i e (Some address) /\ w_sessions w !! i = Some (s, op) /\
      failure (K := tcp_socket_wrapper (Some address)) s (w_server w) op e.
Proof.
  intros Hw He. destruct (peer_gone c) eqn:Hp.
  { split; [by left|]. intros _ w'. by apply begin_gone. }
  pose proof (winv_accepting w Hw) as Ha. destruct c as [[peer|]| |i e [peer|]]; try done.
  - rewrite (begin_accepted w peer Ha). split; [by intros ?%ret_fails|]. by intros [?|(? & ? & ? & ? & ? & ? & _)].
  - assert (begin AcceptFailed w = Ret (start_accept (with_accepting None w))) as ->
      by (unfold begin, handle_accept; by rewrite Ha).
    split; [by intros ?%ret_fails|]. by intros [?|(? & ? & ? & ? & ? & ? & _)].
  - simpl in He. destruct (w_sessions w !! i) as [[s op]|] eqn:Hi; [|done].
    rewrite (begin_connected_fails _ w i e peer s op Hw eq_refl Hi). split.
    + intros Hf. right. by exists i, e, peer, s, op.
    + intros [?|(? & ? & ? & ? & ? & [= <- <- <-] & Hi' & Hf)]; [done|]. rewrite Hi in Hi'.
      by injection Hi' as <- <-.
Qed.

(** The rest of a [write] fails when a count cannot be increased. *)
Lemma resume_fails k w :
  fails (resume k w) <-> exists i s op, w_busy w !! k = Some i /\ w_sessions w !! i = Some (s, op) /\
    in_int (count (req_target (request_ s), int_to_status (resp_result (response_ s))) (w_server w) + 1) = false.
Proof.
  unfold resume. destruct (w_busy w !! k) as [i|] eqn:Hk;
    [|split; [by intros ?%ret_fails|by intros (? & ? & ? & ? & _)]].
  destruct (w_sessions w !! i) as [[s op]|] eqn:Hi;
    [|split; [by intros ?%ret_fails|intros (? & ? & ? & [= <-] & ? & _); congruence]].
  rewrite fails_bind. unfold write_rest, log_request, count.
  set (key := (req_target (request_ s), _)).
  destruct (map_find key (requests_ (w_server w))) as [n|] eqn:Hn; simpl.
  - rewrite fails_bind. unfold int_result. destruct (in_int (n + 1)) eqn:Hint; split.
    + by intros [[?%ret_fails|(? & _ & ?%ret_fails)]|(? & _ & ?%ret_fails)].
    + intros (? & ? & ? & [= <-] & Hi' & Hf). rewrite Hi in Hi'. injection Hi' as <- <-.
      fold key in Hf. rewrite Hn in Hf. simpl in Hf. congruence.
    + intros _. exists i, s, op. fold key. by rewrite Hn.
    + intros _. left. by left.
  - split; [by intros [?%ret_fails|(? & _ & ?%ret_fails)]|].
    intros (? & ? & ? & [= <-] & Hi' & Hf). rewrite Hi in Hi'. injection Hi' as <- <-.
    fold key in Hf. by rewrite Hn in Hf.
Qed.
End server.

Section machine.
Context `{BL : BeastLaws} `{E : !Environment} `{FL : BoostFilesystemLaws} `{T : BoostString}.
Context `{D : FileStore}.

(** C9: all that can go wrong.  In every state the server reaches, whatever the
    moment, a callback does not return exactly when the peer of its socket is
    gone or one of the four things of [failure] has happened: a head that
    cannot be parsed, a bad head before any handler was found, a URI that has no
    absolute path, a handler that fails - which only the static, status, meme and
    proxy handlers can, the static one only by the exception of [relative].  The
    rest of a [write] fails exactly when a count is at the largest [int]. *)
Theorem callbacks_fail_iff (config : NginxConfig) (srv : server) (threads : nat) (fs : file_state)
    (m : machine) (t : moment) :
  getHandlers empty_server config = Ret srv ->
  rtc (runs threads) (Machine (first_world srv) fs) m ->
  (forall c, enabled c (m_world m) = true ->
     fails (begin (E := at_moment t (m_files m)) c (m_world m)) <->
     peer_gone c = true \/
     exists i e address s op, c = Completed i e (Some address) /\ w_sessions (m_world m) !! i = Some (s, op) /\
       failure (E := at_moment t (m_files m)) (K := tcp_socket_wrapper (Some address))
         s (w_server (m_world m)) op e) /\
  (forall h req, fails (handle_request (E := at_moment t (m_files m)) h (w_server (m_world m)) req).2 ->
     may_fail h = true) /\
  (forall location root req,
     fails (Static_handle_request (E := at_moment t (m_files m)) location root req) <->
     relative (req_target req) location = Throw system_error) /\
  (forall k, fails (resume k (m_world m)) <->
     exists i s op, w_busy (m_world m) !! k = Some i /\ w_sessions (m_world m) !! i = Some (s, op) /\
       in_int (count (req_target (request_ s), int_to_status (resp_result (response_ s)))
                 (w_server (m_world m)) + 1) = false).
Proof.
  intros Hg Hr. destruct (machine_keeps _ _ _ _ _ Hg Hr) as [Hw _]. split; [|split; [|split]].
  - intros c. by apply begin_fails.
  - intros h req. apply handler_may_fail.
  - intros location root req. apply static_fails.
  - intros k. apply resume_fails.
Qed.
End machine.

(** ** Witness *)

#[local] Existing Instance lexical_filesystem.
#[local] Existing Instance shipped_environment.

(** One request for [/..]. *)
Definition above_root : concrete_request := CRequest "GET" "/.." "1" "1" [].

Lemma above_root_fails :
  failure (E := at_moment upload_moment ∅) (K := tcp_socket_wrapper (Some [])) new_session shipped_server
    ReadSome (GotSome (print_head above_root)).
Proof. eapply path_fails; [vm_compute; reflexivity|vm_compute; reflexivity|done|intros q Hq; by vm_compute in Hq]. Qed.

(** One request with a name that is too long for the file system. *)
Definition long_name : concrete_request :=
  CRequest "GET" ("/static/" ++ replicate 256 "a"%char) "1" "1" [].

Example long_name_fails :
  failure (E := at_moment upload_moment ∅) (K := tcp_socket_wrapper (Some [])) new_session shipped_server
    ReadSome (GotSome (print_head long_name)).
Proof.
  eapply (handler_fails _ _ _ _ 3); [vm_compute; reflexivity|].
  intros q Hq. by vm_compute in Hq.
Qed.

Lemma callbacks_fail_iff_witness :
  fails (begin (E := at_moment upload_moment ∅) (Completed 0 (GotSome (print_head above_root)) (Some []))
    (m_world shipped_machine)) /\
  ~ fails (resume 0 (m_world shipped_machine)).
Proof.
  destruct (callbacks_fail_iff shipped_config shipped_server 2 ∅ shipped_machine upload_moment
    shipped_server_made shipped_machine_reached) as (Hb & _ & _ & Hr).
  split.
  - apply Hb; [vm_compute; reflexivity|]. right.
    exists 0, (GotSome (print_head above_root)), [], new_session, ReadSome.
    split; [reflexivity|]. split; [reflexivity|]. exact above_root_fails.
  - intros (i & s & op & Hi & _)%Hr. discriminate Hi.
Defined.
