(* ===== verification/Main.v ===== *)
(** * The program: src/src/server_main.cc

    What [main] makes of its arguments and of the configuration file: an exit
    code, or a server that listens; and how the program goes on from there. *)
From S2P Require Import Prelude CppStd StdMap Boost BoostModel ConfigLexer ConfigParser Utils.
From S2P Require Import Handlers Status ReverseProxy Meme Server ExampleServer ServerState.
From S2P Require Import Session Concurrency Lifecycle.

(** [Abort] is [std::terminate]. *)
Inductive main_result :=
| Exit (code : Z)
| Abort
| Listening (threads port : Z) (s : server).

(** [run] compares its counter, a [size_t], with [thread_pool_size_], an
    [int]: a negative number of threads is converted. *)
Definition threads_started (thread_pool_size : Z) : Z := (thread_pool_size mod 2 ^ 64)%Z.

Section main.
Context `{B : Beast} `{E : !Environment} `{F : BoostFilesystem} `{T : BoostString}.
Context `{D : MemeDirectory}.

(** The end of the block the server lives in.  A destructor that throws
    terminates the program. *)
Definition destroyed (s : server) : outcome main_result :=
  match destructor s with
  | Ret _ => Ret (Exit 0)
  | Throw _ => Ret Abort
  | Undef => Undef
  | NoFuel => NoFuel
  end.

(** A server whose constructor returned early has nothing to run, and one
    without threads does not run; both are destroyed.  What the constructor
    throws is caught at the end, and there is no server to destroy. *)
Definition start_server (directories : outcome bool) (listen : Z -> outcome unit)
    (num_threads : Z) (config : NginxConfig) : outcome main_result :=
  match new_server directories listen config with
  | Ret (Some (port, s)) =>
      if decide (threads_started num_threads = 0%Z) then destroyed s
      else Ret (Listening (threads_started num_threads) port s)
  | Ret None => destroyed empty_server
  | Throw _ => Ret (Exit 0)
  | Undef => Undef
  | NoFuel => NoFuel
  end.

(** [open_file] gives the contents of a file that can be opened. *)
Definition main (open_file : str -> option str) (directories : outcome bool)
    (listen : Z -> outcome unit) (argv : list str) : outcome main_result :=
  match argv with
  | [_; threads; path] =>
      match stoi threads with
      | Ret num_threads =>
          '(success, config) ← Parse_file (open_file path);
          if negb success then Ret (Exit 1)
          else start_server directories listen num_threads (default [] config)
      | _ => Ret (Exit 1)
      end
  | _ => Ret (Exit 1)
  end.

(** What a process that runs no more has come to, when it has. *)
Definition after_run (p : process) : option (outcome main_result) :=
  match p with
  | Running _ => None
  | Stopping inside w =>
      match inside, w_busy w with [], [] => Some (destroyed (w_server w)) | _, _ => None end
  | Aborted => Some (Ret Abort)
  end.

Lemma stoi_cases s : (exists z, stoi s = Ret z) \/ (exists e, stoi s = Throw e).
Proof. unfold stoi. destruct (strtol10 s) as [z|]; [destruct (in_int z)|]; eauto. Qed.

Lemma destroyed_not_one s : destroyed s <> Ret (Exit 1).
Proof. unfold destroyed. by destruct (destructor s). Qed.

Lemma start_server_not_one directories listen n config :
  start_server directories listen n config <> Ret (Exit 1).
Proof.
  unfold start_server. destruct (new_server _ _ _) as [[[port s]|]| | |]; try done.
  - case_decide; [apply destroyed_not_one|done].
  - apply destroyed_not_one.
Qed.

(** The exit status.  The program returns 1 exactly when it is not given a
    number of threads and a file, when the first is not an [int] or the second
    is not a configuration; no failure of the server itself, whose exceptions
    are caught, can be told from a success by the status. *)
Theorem main_exit_status (open_file : str -> option str) (directories : outcome bool)
    (listen : Z -> outcome unit) (argv : list str) :
  main open_file directories listen argv = Ret (Exit 1) <->
  match argv with
  | [_; threads; path] =>
      (exists e, stoi threads = Throw e) \/
      (exists config, Parse_file (open_file path) = Ret (false, config))
  | _ => True
  end.
Proof.
  destruct argv as [|a [|threads [|path [|]]]]; try done. unfold main.
  destruct (stoi_cases threads) as [[n ->]|[e ->]]; [|by split; eauto].
  split.
  - intros H. right. apply bind_ret_inv in H as ([[] config] & Hp & H); [|by exists config].
    by apply start_server_not_one in H.
  - intros [[e ?]|[config ->]]; done.
Qed.

Lemma main_listening open_file directories listen argv threads port srv :
  main open_file directories listen argv = Ret (Listening threads port srv) ->
  exists a t path config, argv = [a; t; path] /\
    Parse_file (open_file path) = Ret (true, config) /\
    getHandlers empty_server (default [] config) = Ret srv /\ (0 < threads)%Z.
Proof.
  destruct argv as [|a [|t [|path [|]]]]; try done. unfold main.
  destruct (stoi t) as [n| | |]; try done. intros H.
  apply bind_ret_inv in H as ([[] config] & Hp & H); [|done]. simpl in H.
  exists a, t, path, config. split; [done|]. split; [done|].
  unfold start_server in H. destruct (new_server _ _ _) as [[[port' s]|]| | |] eqn:Hn; try done;
    [|unfold destroyed in H; by destruct (destructor _)].
  case_decide as H0; [unfold destroyed in H; by destruct (destructor _)|]. injection H as <- _ <-.
  assert (0 < threads_started n)%Z.
  { unfold threads_started in *. pose proof (Z.mod_pos_bound n (2 ^ 64) eq_refl). lia. }
  unfold new_server in Hn. apply bind_ret_inv in Hn as ([] & _ & Hn); [|done]. simpl in Hn.
  apply bind_ret_inv in Hn as (pn & _ & Hn). case_decide; [done|].
  apply bind_ret_inv in Hn as (_ & _ & Hn). apply bind_ret_inv in Hn as (s' & Hg & Hn).
  by injection Hn as _ <-.
Qed.
End main.

Section ends.
Context `{BL : BeastLaws} `{E : !Environment} `{FL : BoostFilesystemLaws} `{T : BoostString}.
Context `{D : MemeDirectory}.

(** C26: how a program that has listened ends.  Its file was a configuration;
    whatever connections it serves until it ends, on any number of threads, it
    is aborted, or is told to stop and destroys its server: then it exits with 0
    if the file named no location and the directory of memes could be emptied,
    and has no defined end if it named one. *)
Theorem listening_server_ends (open_file : str -> option str) (directories : outcome bool)
    (listen : Z -> outcome unit) (argv : list str) (threads port : Z) (srv : server) :
  main open_file directories listen argv = Ret (Listening threads port srv) ->
  exists a t path config, argv = [a; t; path] /\
    Parse_file (open_file path) = Ret (true, config) /\
    forall p r, rtc (pstep (Z.to_nat threads)) (Running (first_world srv)) p ->
      after_run p = Some r ->
      r = Ret Abort \/
      r = match location_blocks (default [] config) with
          | [] => match remove_memes with
                  | Ret _ => Ret (Exit 0)
                  | Throw _ => Ret Abort
                  | Undef => Undef
                  | NoFuel => NoFuel
                  end
          | _ => Undef
          end.
Proof.
  intros (a & t & path & config & -> & Hp & Hg & _)%main_listening.
  exists a, t, path, config. split; [done|]. split; [done|].
  intros p r Hr Ha. destruct p as [w|cs w|]; [done| |injection Ha as <-; by left]. simpl in Ha.
  destruct cs; [|done]. destruct (w_busy w); [|done]. injection Ha as <-. right. unfold destroyed.
  rewrite (stopped_server_destroyed _ _ _ _ _ Hg Hr). by destruct (location_blocks _).
Qed.
End ends.

(** ** Witnesses *)

#[local] Existing Instance lexical_filesystem.
#[local] Existing Instance example_environment.

#[local] Instance example_directory : MemeDirectory := {|
  directory_entries path := Ret [path ++ "/a.png"];
  remove_all _ := Ret tt
|}.

Definition main_on (contents : str) (argv : list str) : outcome main_result :=
  main (fun _ => Some contents) (Ret true) (fun _ => Ret tt) argv.

Definition listening_on (contents : str) (argv : list str) : server :=
  match main_on contents argv with Ret (Listening _ _ s) => s | _ => empty_server end.

Definition echo_file : str := "server { port 80; location /echo EchoHandler { } }".

Definition echo_arguments : list str := [lit "server"; lit "4"; lit "conf"].

Lemma main_listens :
  main_on echo_file echo_arguments = Ret (Listening 4 80 (listening_on echo_file echo_arguments)).
Proof. vm_compute. reflexivity. Qed.

Lemma listening_server_ends_witness :
  exists a t path config, echo_arguments = [a; t; path] /\
    Parse_file (Some echo_file) = Ret (true, config) /\
    forall p r,
      rtc (pstep (Z.to_nat 4)) (Running (first_world (listening_on echo_file echo_arguments))) p ->
      after_run p = Some r ->
      r = Ret Abort \/
      r = match location_blocks (default [] config) with
          | [] => match remove_memes with
                  | Ret _ => Ret (Exit 0)
                  | Throw _ => Ret Abort
                  | Undef => Undef
                  | NoFuel => NoFuel
                  end
          | _ => Undef
          end.
Proof.
  apply (listening_server_ends (fun _ => Some echo_file) (Ret true) (fun _ => Ret tt)
           echo_arguments 4 80), main_listens.
Defined.

(** The command line of the readme has no number of threads. *)
Example main_readme_command :
  main_on "server { port 80; }" [lit "./bin/server"; lit "../server_config"] = Ret (Exit 1).
Proof. reflexivity. Qed.

(** A negative number of threads asks for almost 2^64 of them, and none at all
    ends the program at once. *)
Example main_negative_threads :
  exists s, main_on "server { port 80; }" [lit "server"; lit "-1"; lit "conf"]
            = Ret (Listening 18446744073709551615 80 s).
Proof. eexists. vm_compute. reflexivity. Qed.

Example main_no_threads :
  main_on "server { port 80; }" [lit "server"; lit "0"; lit "conf"] = Ret (Exit 0).
Proof. vm_compute. reflexivity. Qed.

(** A port is taken modulo 65536, and a file without one exits with 0. *)
Example main_large_port :
  exists s, main_on "server { port 65616; }" echo_arguments = Ret (Listening 4 80 s).
Proof. eexists. vm_compute. reflexivity. Qed.

Example main_no_port : main_on "server { name x; }" echo_arguments = Ret (Exit 0).
Proof. vm_compute. reflexivity. Qed.

(** The directories cannot be made: the constructor returns, and the destructor
    terminates the program on the directory that is not there. *)
Example main_no_directory :
  main (D := {| directory_entries _ := Throw system_error; remove_all _ := Ret tt |})
    (fun _ => Some echo_file) (Ret false) (fun _ => Ret tt) echo_arguments = Ret Abort.
Proof. vm_compute. reflexivity. Qed.
