(* ===== verification/EndToEnd.v ===== *)
(** * From the file to the answer

    The parts together: a program that was given a configuration and listens
    accepts a connection and answers the requests on it, each with what the
    handler of its URI, which is the one the configuration names, makes of it -
    whatever it has served before. *)
From S2P Require Import Prelude CppStd StdMap Boost BoostModel ConfigLexer ConfigParser Utils.
From S2P Require Import RequestParser RequestGrammar RequestMessage Handlers Status ReverseProxy.
From S2P Require Import Meme Server ExampleServer ServerLookup ServerState Socket Session.
From S2P Require Import SessionServe SessionSafety Concurrency Logging Lifecycle Failures Main.

Section serves.
Context `{BL : BeastLaws} `{E : !Environment} `{FL : BoostFilesystemLaws} `{T : BoostString}.
Context `{D : MemeDirectory}.

Lemma running threads w w' : rtc (step threads) w w' -> rtc (pstep threads) (Running w) (Running w').
Proof.
  induction 1 as [w|w w1 w2 Hs _ IH]; [done|]. eapply rtc_l; [|exact IH]. by apply pstep_run.
Qed.

(** A callback, or the rest of a [write], that can be run and fails. *)
Inductive fails_in (threads : nat) (w : world) : Prop :=
| begin_fails c :
    enabled c w = true -> length (w_busy w) < threads -> fails (begin c w) -> fails_in threads w
| resume_fails k : k < length (w_busy w) -> fails (resume k w) -> fails_in threads w.

(** The operation of a session is another. *)
Definition with_session (i : nat) (c : session * operation) (w : world) : world :=
  World (w_server w) (<[i := c]> (w_sessions w)) (w_accepting w) (w_busy w) (w_writes w).

Lemma with_session_same i c w : w_sessions w !! i = Some c -> with_session i c w = w.
Proof. intros Hi. unfold with_session. rewrite list_insert_id by done. by destruct w. Qed.

(** A request is read, in one read or two, up to the callback that has all of it. *)
Lemma request_read threads w i s x ptr :
  length (w_busy w) < threads -> w_sessions w !! i = Some (s, ReadSome) -> ready s -> cr_valid x ->
  fits (GotSome (print_head (cr_head x) ++ cr_part x)) ->
  get_request_handler (c_uri (cr_head x)) (w_server w) = Ret (Some ptr) ->
  exists s1 c0 c, carries (request_ s1) (cr_head x) (cr_body x) /\
    rtc (step threads) w (with_session i c0 w) /\ enabled c (with_session i c0 w) = true /\
    begin c (with_session i c0 w) = answering i ptr s1 (with_session i c0 w).
Proof.
  destruct x as [q n part more]. intros Ht Hi Hs [Hq Hn Hpos Hsplit] Hf Hg. unfold cr_body.
  cbn [cr_head cr_length cr_part cr_more] in *.
  pose proof (enabled_read w i s (print_head q ++ part) [] Hi (print_head_more q part) Hf) as He.
  destruct Hsplit as [[-> Hle]|[Hne Hlen]].
  - destruct (begin_message q n part w i s ptr [] Hq Hs Hn (conj Hpos Hle) Hi Hg) as (s1 & Hc & Hb).
    rewrite app_nil_r. eexists s1, (s, ReadSome), _. rewrite (with_session_same i _ w Hi).
    split; [exact Hc|]. split; [done|]. by split.
  - assert (Z.of_nat (length part) < n)%Z as Hlt by (destruct more; [done|simpl in *; lia]).
    destruct (begin_partial q n part w i s ptr [] Hq Hs Hn Hlt Hi Hg) as (s0 & Hh & Hb0 & Hc0 & B0).
    set (c0 := (append_body part s0, Read (n - Z.of_nat (length part)))).
    assert (w_sessions (with_session i c0 w) !! i = Some c0) as Hi0
      by (apply list_lookup_insert_eq; by eapply lookup_lt_Some).
    destruct (begin_rest q _ part more (with_session i c0 w) i s0 ptr [] Hh Hb0 Hc0 Hi0) as (s1 & Hc & Hb).
    rewrite take_ge by (rewrite length_app; lia). eexists s1, c0, _. split; [exact Hc|].
    split; [by apply rtc_once; eapply step_begin|]. split; [|exact Hb].
    unfold enabled. rewrite Hi0. simpl. apply bool_decide_eq_true. lia.
Qed.

(** A response is written, its request is logged, and the socket has taken the
    response. *)
Lemma answered_steps threads w i c s1 srv1 srv2 resp :
  length (w_busy w) < threads -> w_sessions w !! i = Some c -> response_ s1 = resp ->
  log_request (req_target (request_ s1), int_to_status (resp_result resp)) srv1 = Ret srv2 ->
  exists s', ready s' /\ rtc (step threads) (started i (s1, srv1, Write (print_response resp)) w)
    (World srv2 (<[i := (s', ReadSome)]> (w_sessions w)) (w_accepting w) (w_busy w)
       (w_writes w ++ [print_response resp])).
Proof.
  intros Ht Hi Hresp Hlog. apply lookup_lt_Some in Hi as Hlt.
  set (w1 := started i (s1, srv1, Write (print_response resp)) w) in *.
  assert (w_sessions w1 !! i = Some (s1, Write (print_response resp))) as Hi1
    by by apply list_lookup_insert_eq.
  pose proof (resume_ok 0 w1 i _ _ _ _ _ eq_refl Hi1 eq_refl Hresp Hlog) as B2. simpl in B2.
  set (w2 := World srv2 _ _ _ _) in B2.
  destruct (begin_written w2 i s1 (print_response resp) [] Hi1) as (s3 & B3 & Hr3).
  exists s3. split; [done|].
  eapply rtc_l; [eapply step_resume; [|exact B2]; simpl; lia|].
  apply rtc_once. eapply step_begin; [|simpl; exact Ht|].
  { instantiate (1 := Completed i Written (Some [])). unfold enabled. change (w_sessions w2) with (w_sessions w1). by rewrite Hi1. }
  rewrite B3. unfold started. simpl. by rewrite list_insert_insert_eq.
Qed.

Lemma log_fails i w k s op :
  w_busy w !! k = Some i -> w_sessions w !! i = Some (s, op) ->
  (forall srv, log_request (req_target (request_ s), int_to_status (resp_result (response_ s))) (w_server w)
     <> Ret srv) -> fails (resume k w).
Proof.
  intros Hk Hi Hl w' H. unfold resume in H. rewrite Hk, Hi in H.
  apply bind_ret_inv in H as (srv & H & _). by apply (Hl srv).
Qed.

(** A request is answered and logged, or its handler or its log entry fails. *)
Lemma request_steps threads w i s x :
  length (w_busy w) < threads -> w_sessions w !! i = Some (s, ReadSome) -> ready s -> cr_valid x ->
  fits (GotSome (print_head (cr_head x) ++ cr_part x)) -> dispatched (w_server w) x ->
  (exists ptr r srv1 resp srv2 s',
     get_request_handler (c_uri (cr_head x)) (w_server w) = Ret (Some ptr) /\
     carries r (cr_head x) (cr_body x) /\ call_handler ptr (w_server w) r = (srv1, Ret resp) /\
     log_request (cr_key x resp) srv1 = Ret srv2 /\ ready s' /\
     rtc (step threads) w (World srv2 (<[i := (s', ReadSome)]> (w_sessions w)) (w_accepting w) (w_busy w)
       (w_writes w ++ [print_response resp]))) \/
  (refused (w_server w) x /\ exists w', rtc (step threads) w w' /\ fails_in threads w').
Proof.
  intros Ht Hi Hs Hx Hf [ptr Hg].
  destruct (request_read threads w i s x ptr Ht Hi Hs Hx Hf Hg) as (s1 & c0 & c & Hc & Hsteps & He & Hb).
  set (w1 := with_session i c0 w) in *. pose proof Hc as (_ & Huri & _).
  assert (w_sessions w1 !! i = Some c0) as Hi1 by (apply list_lookup_insert_eq; by eapply lookup_lt_Some).
  destruct (answered_or_refused (w_server w) x ptr (request_ s1) Hg Hc)
    as [(srv1 & resp & srv2 & Hcall & Hlog)|[Hr Hno]].
  - left. rewrite (answering_ok i ptr s1 w1 srv1 resp Hcall) in Hb.
    destruct (answered_steps threads w1 i c0 (with_response resp s1) srv1 srv2 resp Ht Hi1 eq_refl)
      as (s' & Hr' & Hrest); [cbn; by rewrite Huri|].
    exists ptr, (request_ s1), srv1, resp, srv2, s'. do 5 (split; [done|]).
    etransitivity; [exact Hsteps|]. eapply rtc_l; [by eapply step_begin|].
    assert (<[i := (s', ReadSome)]> (w_sessions w1) = <[i := (s', ReadSome)]> (w_sessions w)) as Hins
      by apply list_insert_insert_eq.
    rewrite Hins in Hrest. exact Hrest.
  - right. split; [exact Hr|]. destruct (call_handler ptr (w_server w) (request_ s1)) as [srv1 o] eqn:Hcall.
    destruct o as [resp| | |]; [|exists w1; split; [done|]; eapply begin_fails; [done|done|];
      rewrite Hb; unfold answering; simpl; by rewrite Hcall..].
    rewrite (answering_ok i ptr s1 w1 srv1 resp Hcall) in Hb. eexists.
    split; [etransitivity; [exact Hsteps|]; apply rtc_once; by eapply step_begin|].
    apply (resume_fails _ _ 0); [simpl; lia|].
    eapply (log_fails i _ 0); [done|by apply list_lookup_insert_eq; eapply lookup_lt_Some|].
    intros srv. cbn. rewrite Huri. by apply Hno.
Qed.

(** A connection that sends its requests one after the other. *)
Lemma connection_steps threads xs : Forall cr_valid xs ->
  Forall (fun x => fits (GotSome (print_head (cr_head x) ++ cr_part x))) xs -> forall w i s,
  length (w_busy w) < threads -> w_sessions w !! i = Some (s, ReadSome) -> ready s ->
  Forall (dispatched (w_server w)) xs ->
  exists l rest srv' s' w', xs = asked l ++ rest /\ exchange (w_server w) l srv' /\ ready s' /\
    w' = World srv' (<[i := (s', ReadSome)]> (w_sessions w)) (w_accepting w) (w_busy w) (w_writes w ++ told l) /\
    rtc (step threads) w w' /\
    match rest with
    | [] => True
    | x :: _ => refused srv' x /\ exists w2, rtc (step threads) w' w2 /\ fails_in threads w2
    end.
Proof.
  induction 1 as [|x xs Hx _ IH]; intros Hf w i s Ht Hi Hs Hd.
  { exists [], [], (w_server w), s, w. split; [done|]. split; [constructor|]. split; [done|].
    split; [|by split]. unfold told. rewrite fmap_nil, app_nil_r. symmetry. by apply with_session_same. }
  apply Forall_cons in Hf as [Hfx Hf]. apply Forall_cons in Hd as [Hdx Hd].
  destruct (request_steps threads w i s x Ht Hi Hs Hx Hfx Hdx)
    as [(ptr & r & srv1 & resp & srv2 & s1 & Hg & Hc & Hcall & Hlog & Hs1 & Hsteps)|Hno]; cycle 1.
  { exists [], (x :: xs), (w_server w), s, w. split; [done|]. split; [constructor|]. split; [done|].
    split; [|by split]. unfold told. rewrite fmap_nil, app_nil_r. symmetry. by apply with_session_same. }
  set (w1 := World srv2 _ _ _ _) in Hsteps.
  destruct (IH Hf w1 i s1) as (l & rest & srv' & s' & w' & -> & He & Hs' & Hw' & Hr & Hlast); try done.
  { apply list_lookup_insert_eq. by eapply lookup_lt_Some. }
  { eapply Forall_impl; [exact Hd|]. intros y. apply dispatched_kept. by eapply served_keeps. }
  exists ((x, r, resp) :: l), rest, srv', s', w'. split; [done|]. split; [by econstructor|].
  split; [done|]. split; [|split; [by etransitivity|exact Hlast]].
  rewrite Hw'. unfold w1. cbn [w_server w_sessions w_accepting w_busy w_writes].
  by rewrite list_insert_insert_eq, <-app_assoc.
Qed.

(** C2: the program answers.  When [main] listens, then after whatever it has
    served, as long as one of its threads is not inside a callback - the others may
    be inside those of other connections - a connection is accepted, and of any
    sequence of valid requests for which there are handlers and that come on it one
    after the other, each with its head in one read of at most 1024 bytes and its
    body in this read or ending in a second, each is answered in its turn: the handler is
    the one that the configuration gives for its URI, it is called once with this
    request and on the server as it was left, and the request is logged.  This
    goes on to the end of the sequence, the session is then ready for the next
    request and another connection is waited for; or it goes on to the first
    request whose handler fails or that cannot be counted, in a callback that
    fails. *)
Theorem program_serves (open_file : str -> option str) (directories : outcome bool)
    (listen : Z -> outcome unit) (argv : list str) (threads port : Z) (srv : server)
    (w : world) (xs : list client_request) :
  main open_file directories listen argv = Ret (Listening threads port srv) ->
  rtc (step (Z.to_nat threads)) (first_world srv) w -> length (w_busy w) < Z.to_nat threads ->
  Forall cr_valid xs -> Forall (dispatched srv) xs ->
  Forall (fun x => fits (GotSome (print_head (cr_head x) ++ cr_part x))) xs ->
  (forall uri, get_request_handler uri (w_server w) = get_request_handler uri srv) /\
  exists l rest srv' s' w', xs = asked l ++ rest /\ exchange (w_server w) l srv' /\ ready s' /\
    w' = World srv' (w_sessions w ++ [(s', ReadSome)]) (Some new_session) (w_busy w) (w_writes w ++ told l) /\
    rtc (step (Z.to_nat threads)) w w' /\
    match rest with
    | [] => True
    | x :: _ => refused srv' x /\
                exists w2, rtc (step (Z.to_nat threads)) w' w2 /\ fails_in (Z.to_nat threads) w2
    end.
Proof.
  intros (a & t & path & config & _ & _ & Hgh & _)%main_listening Hr Hb Hv Hd Hf.
  destruct (reachable_keeps _ _ _ _ Hgh Hr) as [Hw Hk].
  split; [intros uri; by apply get_request_handler_kept|].
  pose proof (begin_accepted w [] (winv_accepting w Hw)) as B0. set (w0 := start_accept _) in B0.
  destruct (connection_steps (Z.to_nat threads) xs Hv Hf w0 (length (w_sessions w)) new_session)
    as (l & rest & srv' & s' & w' & Hxs & He & Hs' & Hw' & Hsteps & Hlast);
    [done|by apply list_lookup_middle|apply ready_new| |].
  { eapply Forall_impl; [exact Hd|]. intros x. by apply dispatched_kept. }
  exists l, rest, srv', s', w'. do 3 (split; [done|]). split; [|split; [|exact Hlast]].
  - rewrite Hw'. simpl. by rewrite insert_app_r_alt, Nat.sub_diag.
  - eapply rtc_l; [|exact Hsteps]. eapply step_begin; [|exact Hb|exact B0].
    unfold enabled. by rewrite (winv_accepting w Hw).
Qed.
End serves.

(** ** Witness *)

#[local] Existing Instance lexical_filesystem.
#[local] Existing Instance example_environment.
#[local] Existing Instance example_directory.

Definition serving_file : str :=
  "server { port 80; location / NotFoundHandler { } location /echo EchoHandler { } }".

Definition serving_server : server := listening_on serving_file echo_arguments.

Lemma serving_listens : main_on serving_file echo_arguments = Ret (Listening 4 80 serving_server).
Proof. vm_compute. reflexivity. Qed.

(** A connection whose first request was given its response: its thread is still
    inside [write]. *)
Definition serving_accepted : world :=
  World serving_server [(new_session, ReadSome)] (Some new_session) [] [].

Definition serving_inside : world :=
  match begin (Completed 0 (GotSome (print_head example_get)) (Some (lit "1.2.3.4"))) serving_accepted with
  | Ret w => w
  | _ => serving_accepted
  end.

Lemma serving_begun :
  begin (Completed 0 (GotSome (print_head example_get)) (Some (lit "1.2.3.4"))) serving_accepted =
  Ret serving_inside /\ w_busy serving_inside = [0].
Proof. split; by_evaluation. Qed.

Lemma serving_reachable : rtc (step 4) (first_world serving_server) serving_inside.
Proof.
  eapply rtc_l.
  { eapply (step_begin _ (Accepted (Some (lit "1.2.3.4")))); [done|simpl; lia|].
    by apply (begin_accepted (first_world serving_server)). }
  apply rtc_once. eapply step_begin; [by_evaluation|simpl; lia|apply serving_begun].
Qed.

Lemma serving_dispatched : Forall (dispatched serving_server) example_requests.
Proof.
  constructor; [exists 1; vm_compute; reflexivity|]. apply Forall_singleton. exists 0. vm_compute. reflexivity.
Qed.

Lemma program_serves_witness :
  (forall uri, get_request_handler uri (w_server serving_inside) = get_request_handler uri serving_server) /\
  exists l rest srv' s' w', example_requests = asked l ++ rest /\
    exchange (w_server serving_inside) l srv' /\ ready s' /\
    w' = World srv' (w_sessions serving_inside ++ [(s', ReadSome)]) (Some new_session)
           (w_busy serving_inside) (w_writes serving_inside ++ told l) /\
    rtc (step (Z.to_nat 4)) serving_inside w' /\
    match rest with
    | [] => True
    | x :: _ => refused srv' x /\
                exists w2, rtc (step (Z.to_nat 4)) w' w2 /\ fails_in (Z.to_nat 4) w2
    end.
Proof.
  apply (program_serves (fun _ => Some serving_file) (Ret true) (fun _ => Ret tt) echo_arguments
           4 80 serving_server serving_inside example_requests);
    [apply serving_listens|exact serving_reachable|rewrite (proj2 serving_begun); simpl; lia|
     apply example_requests_valid|apply serving_dispatched|].
  constructor; [|apply Forall_singleton]; vm_compute; lia.
Defined.
